(* ===== verification/_CoqProject ===== *)
-Q . S2P
Prelude.v
Bitmap.v
NList.v
Machine.v
MipsSim.v
MipsProps.v
Execute.v
ExecuteProps.v
Disasm.v
Interrupt.v
Disk.v
FileHdr.v
OpenFile.v
Directory.v
FileSys.v
UnixFS.v
FsTest.v
AddrSpace.v
Coff2noff.v
Coff2flat.v
Switch.v
Thread.v
ThreadTest.v
Console.v
ConsoleTest.v
STable.v
Process.v
Floats.v
Exception.v
ExceptionProps.v
FileCalls.v
Stubs.v
Network.v
PostOffice.v
PostMachines.v
NetTest.v
Startup.v
Stacks.v
Airport.v
AirportOs.v
AirportLogic.v
AirportScan.v
AirportPass.v
AirportMain.v
AirportProps.v
