(* ===== verification/Prelude.v ===== *)
(** * Verification of the NachOS kernel and machine simulation

    NachOS 3.4 (src/nachos/nachos-3.4/code) is an instructional operating
    system that runs on a simulated MIPS workstation inside one UNIX process.
    The simulated hardware is in machine/, the kernel in threads/, userprog/,
    filesys/ and network/.  The configuration modelled is that of the userprog
    build on a little-endian host without a TLB; the file system exists in its
    complete form (the FILESYS build) and as a stub over UNIX files (the
    FILESYS_STUB build, which the system calls use).

    ** Parts and where they are modelled

    The library and the hardware:
    - Prelude (this file): the result type of code that can stop, machine
      integers, C arrays and buffers, counting loops, automation.
    - Bitmap: userprog/bitmap.cc, words with shifts and masks.  The interface
      [FreeMap] is what the file system sees of it.
    - NList: threads/list.cc, a heap of elements with first and last pointers.
      The interface [KeyedList] is what the interrupt simulation, the mailboxes
      and the ready lists see.
    - Machine: machine/machine.cc and translate.cc: registers, physical memory,
      page tables and TLB, copies between user and kernel memory.  The interface
      [Kernel] is what the machine needs of the exception handler.
    - MipsSim, MipsProps: machine/mipssim.cc, the instruction interpreter.
    - Interrupt: machine/interrupt.cc, stats.cc, timer.cc.  The interface
      [Devices] is what it calls back, [DeviceLaws] what it relies on.  [Clock]
      is how the sums of ticks are taken: [int_clock] wraps around at 32 bits,
      as the code does; [long_clock] does not.
    - Disk: machine/disk.cc and filesys/synchdisk.cc.  The interface
      [SectorDevice] is what the file system sees.
    - Console: machine/console.cc and threads/synchcons.cc: the keyboard polled
      for characters, the display, and the two semaphores of the synchronous
      console.  The interface [SynchCons] is what the system calls see.

    The file systems:
    - FileHdr, OpenFile, Directory, FileSys: the file system of filesys/, each
      relative to any [SectorDevice].
    - UnixFS: the FILESYS_STUB classes of filesys/openfile.h and filesys.h over
      the routines of machine/sysdep.cc.

    The kernel:
    - Switch: threads/switch.c and Thread::StackAllocate: the context switch of
      the host in assembly (Intel 386), over the instructions it uses.
    - Thread: threads/thread.cc, scheduler.cc, synch.cc: the control blocks, the
      ready list, semaphores, the context switch as its effect on the running
      thread; a step relation over the calls threads make.
    - AddrSpace: userprog/addrspace.cc: loading a NOFF executable, the page
      table and the frames of a program.
    - STable: userprog/stable.cc: named semaphores, over any semaphores that
      satisfy the interface [SemOps]; Thread gives the instance.
    - Process: userprog/pcb.cc, ptable.cc, progtest.cc: Exec, Join and Exit as
      steps of several processes with their waits.
    - Exception: userprog/exception.cc: the handler of every system call and
      ExceptionHandler, as a function of the machine, the console, the open
      files, the process table and the semaphore table.
    - Floats: the numbers of type float that ReadFloat and PrintFloat convert,
      over the binary32 numbers of the Standard Library's SpecFloat.
    - ExceptionProps, FileCalls: the properties of the system calls.
    - Stubs: test/start.c, the entry of a user program and the stub of each
      system call, as machine code that the interpreter runs.

    The network:
    - Network: machine/network.cc, network/post.cc, threads/synchlist.cc.
    - PostOffice: the invariant of one machine with a post office.
    - PostMachines: several machines that exchange mail.

    The tools of bin/, which are programs of the host:
    - Execute, ExecuteProps: bin/execute.c with system.c, int.h, instr.h and
      encode.h, a second MIPS interpreter, and its agreement with the first.
    - Disasm: bin/d.c, opstrings.c and disasm.c, the disassembler.
    - Coff2noff: bin/coff2noff.c, which makes the files that AddrSpace loads.
    - Coff2flat: bin/coff2flat.c, which makes an image of memory.

    Start-up, tests and examples:
    - Startup: threads/main.cc and system.cc: the command line and the order in
      which the global objects are made, over a parameter that performs the
      calls, for every choice of the compiler flags.
    - ConsoleTest: ConsoleTest of userprog/progtest.cc on Console.
    - FsTest: filesys/fstest.cc on the file system of FileSys.
    - ThreadTest: threads/threadtest.cc on the kernel of Thread.
    - NetTest: network/nettest.cc on the machines of PostMachines.
    - Stacks: the four stacks of ../c++example.  The class [Stack] is the
      abstract class of inheritstack.h, [StackLaws] its contract.
    - Airport: test/scannersmain.c, passengers.c and scanners.c, three user
      programs that exchange files and semaphores, as statements of a part of
      C that runs over the system calls; a process gets turns from one call to
      the next.  AirportOs: the calls on the programs' five files.
      AirportLogic: claims about all schedules, one rule per call.
      AirportScan, AirportPass, AirportMain: the work of each of the three.
      AirportProps: the start, and the theorem that every schedule ends well.

    ** How code becomes definitions

    A C++ routine is a function that takes the objects it uses and returns the
    new ones, in the monad [res] of this file: [Stop] carries an ASSERT that
    failed, a halt of the machine, undefined behaviour (an index out of range,
    an uninitialised pointer), a call that would block, or used-up fuel.
    Where a routine waits in the middle (Semaphore::P, Thread::Sleep) it is cut
    there: Thread, Process and PostMachines have a step per piece.  That a thread
    goes on behind its call of SWITCH, which Thread takes for granted, is shown
    in Switch.
    Integers are [Z]; where the width matters the wrap-around is written with
    [u32], [s32], [u8], [s8].  Uninitialised memory, the random numbers and
    what is typed on the keyboard are parameters.  Loops that are not counting
    loops take fuel: one round per element of the list they walk (NList), one
    per pending interrupt (Interrupt), one per poll of the keyboard (Console),
    one per decimal digit (Exception, Floats); the theorems show that this fuel is
    enough.

    ** Bounds

    - Time.  One tick is shown on the wrapping clock, below tick 2^31; beyond, it
      may not end (clock_overflow_hangs).  The devices of Disk, Console, Network
      and the machines above them run on [long_clock], that is on a machine that
      stops before tick 2^31: [OneTick_agree] says that the two clocks do the
      same while the sums fit.
    - Semaphores.  Their values are unbounded, so they stand for values below
      2^31; P and V add and subtract 1 (synch.cc does so to an int).
    - Files.  A file of the kernel's file system has at most MaxFileSize = 64512
      bytes; Create does not check it, and the theorems say what happens beyond.
    - The UNIX host is a map from names to contents, and a set of names that it
      refuses to open for writing; there OpenForWrite fails its ASSERT.
    - Programs.  The theorems on a loaded program are for one with its code at
      address 0 and without initialised data (data_segment_overruns_frames says
      why), and for as many free frames of the 128 of the memory as it needs;
      the map of frames can have any size, also the 256 of system.cc.
    - The keyboard.  Console output is shown for a keyboard file that does not end
      and has no byte 0xFF; the lemmas end_of_input_aborts and byte_255_is_lost
      say what happens otherwise.
    - The airport.  At most 47 flights and 122 characters of weights, and a
      scannerid.txt that exists at the start.

    ** What the theorems show

    Refinements: the bitmap is a set, the linked list a sequence, the
    directory a finite map, the file system a map from names to sizes with a
    count of free sectors, the semaphore table a map from names to semaphores,
    post offices a queue of messages per machine and mailbox, the stacks a
    list.  Equivalences: the two interpreters agree on everything but loads,
    system calls and their known deviations, what the disassembler shows
    determines what an instruction does, and the two passes over the command
    line see the same options.  Functional
    behaviour: address translation, memory access, the interpreter's
    arithmetic, delay slots, disk latency, clock and interrupt order, reading
    and writing files, console input and output, loading a program.
    Invariants: the CPU state, the clock, the consistency of the disk, of the
    threads and of the process table, the user context across context
    switches.  Liveness: a V wakes the first waiter, Join returns after Exit,
    idling advances to the next interrupt, the threads of the test take turns,
    the airport ends with the right output under every schedule, a forked
    thread runs its function and ends.  The mail test never gets out of step,
    however its two machines take turns.
    Round trips: a thread that is switched away and back resumes as it was;
    from a COFF file to the memory of the loaded program, copying a file onto
    the disk and printing it, memory, strings, sectors, headers, mounting,
    decimal numbers, a session with a file, mail.
    Errors: overflow traps, refused file identifiers; a system call changes
    nothing that its program may not write and of the general registers only
    register 2, and so does a call through its stub (stub_serves); both say what
    is different for PrintFloat of 0 and for calls that the kernel does not know.
    The theorems on the process table and on files say where a request stops that
    cannot be served: a program that cannot be loaded, a file that is too large, a
    name that the host refuses.

    Smaller lemmas record where the code does not do what it means to: their
    names say what happens (carcass_leaks, join_after_exit_dangles,
    frames_beyond_memory, empty_mailbox_aborts and others).

    ** Not modelled

    The debugger and the printing of state; the loop Machine::Run around the
    interpreter; destructors that are never called; the context switch for
    other hosts than the Intel 386; the wrappers of sysdep.cc around terminals
    and processes; of bin/ the command lines and the loading through the COFF
    library of the host (main.c), and what the tools print about object files
    (out.c).  The calls of Startup are not joined to the components they start.
    The console of ConsoleTest is the only one in its model, whereas the program
    polls a second one on the same input; what is shown about it are lemmas on
    the echo loop, not a property of the program. *)

From stdpp Require Export base list gmap fin_maps sets strings.
From stdpp Require Export options.
From stdpp Require Import pretty.
From Stdlib Require Export ZArith Lia.

Global Set Default Goal Selector "1".

#[global] Open Scope Z_scope.

(** ** Results of code that can stop

    [Ok a] is a normal return.  The errors are the ways the C++ code leaves
    a routine without returning: *)

Inductive stop :=
  | AssertFailed      (* an ASSERT macro called Abort() *)
  | Halted            (* Interrupt::Halt, which never returns *)
  | Undefined         (* out-of-range index, NULL or dangling pointer *)
  | WouldBlock        (* the calling thread went to sleep *)
  | OutOfFuel.        (* a loop of the model used up its fuel *)

#[global] Instance stop_eq_dec : EqDecision stop.
Proof. solve_decision. Defined.

Inductive res (A : Type) :=
  | Ok (a : A)
  | Stop (e : stop).
Arguments Ok {A} a.
Arguments Stop {A} e.

#[global] Instance res_ret : MRet res := @Ok.
#[global] Instance res_bind : MBind res := λ A B k m,
  match m with Ok a => k a | Stop e => Stop e end.

(** The ASSERT macro of utility.h, lines 76-82. *)
Definition ASSERT (condition : bool) : res unit :=
  if condition then Ok tt else Stop AssertFailed.

(** Reading and writing a C array at an [int] index; out of range is
    undefined behaviour. *)
Definition arr_get {A} (l : list A) (i : Z) : res A :=
  if bool_decide (0 ≤ i) then
    match l !! Z.to_nat i with Some x => Ok x | None => Stop Undefined end
  else Stop Undefined.

Definition arr_set {A} (l : list A) (i : Z) (x : A) : res (list A) :=
  if bool_decide (0 ≤ i < Z.of_nat (length l))
  then Ok (<[Z.to_nat i := x]> l) else Stop Undefined.

(** ** Machine integers *)

Definition two32 : Z := 4294967296.
Definition two31 : Z := 2147483648.

(** [unsigned int] and [int] values; signed arithmetic wraps around. *)
Definition u32 (x : Z) : Z := x mod two32.
Definition s32 (x : Z) : Z := (x + two31) mod two32 - two31.
(** [unsigned char] and [char]. *)
Definition u8 (x : Z) : Z := x mod 256.
Definition s8 (x : Z) : Z := (x + 128) mod 256 - 128.

Definition is_s32 (x : Z) : Prop := - two31 ≤ x < two31.
Definition is_u32 (x : Z) : Prop := 0 ≤ x < two32.
Definition is_u8 (x : Z) : Prop := 0 ≤ x < 256.

#[global] Instance is_s32_dec x : Decision (is_s32 x).
Proof. unfold is_s32. apply _. Defined.
#[global] Instance is_u32_dec x : Decision (is_u32 x).
Proof. unfold is_u32. apply _. Defined.
#[global] Instance is_u8_dec x : Decision (is_u8 x).
Proof. unfold is_u8. apply _. Defined.

(** The macros of utility.h (lines 35 to 40). *)
Definition divRoundDown (n s : Z) : Z := Z.quot n s.
Definition divRoundUp (n s : Z) : Z :=
  Z.quot n s + (if Z.rem n s >? 0 then 1 else 0).

(** [for (i = lo; i < lo + n; i++) s = body i s] with a body that can stop. *)
Fixpoint for_loop {S} (n : nat) (i : Z) (body : Z → S → res S) (s : S) : res S :=
  match n with
  | O => Ok s
  | S n' => s' ← body i s; for_loop n' (i + 1) body s'
  end.

(** ** Automation *)

Create HintDb nachos discriminated.
Create Rewrite HintDb nachos.
#[global] Hint Constants Opaque : nachos.
#[global] Hint Variables Opaque : nachos.

(** Unfold the sequencing of a [res] computation. *)
Ltac simpl_res := unfold mbind, mret, res_bind, res_ret in *; cbn beta iota in *.

(** Case on the boolean test of the goal or of a hypothesis, and turn it into
    a proposition [lia] understands. *)
Ltac case_test :=
  match goal with
  | |- context [bool_decide ?P] =>
      first [ rewrite (bool_decide_eq_true_2 P) by lia
            | rewrite (bool_decide_eq_false_2 P) by lia
            | case_bool_decide ]
  | |- context [Z.eqb ?a ?b] => destruct (Z.eqb_spec a b)
  | |- context [Z.ltb ?a ?b] => destruct (Z.ltb_spec a b)
  | |- context [Z.leb ?a ?b] => destruct (Z.leb_spec a b)
  | |- context [Z.gtb ?a ?b] => rewrite (Z.gtb_ltb a b)
  | |- context [Z.geb ?a ?b] => rewrite (Z.geb_leb a b)
  end; simpl in *.

(** Break the equation [H : computation = Ok r] at its first bind. *)
Ltac inv_ok H :=
  simpl_res;
  match type of H with
  | (match ?m with Ok _ => _ | Stop _ => _ end) = Ok _ =>
      let x := fresh "r" in let e := fresh "e" in let E := fresh "E" in
      destruct m as [x|e] eqn:E; cbn beta iota in H; [|discriminate H]
  | (if ?b then _ else _) = Ok _ =>
      let E := fresh "E" in destruct b eqn:E; [|try discriminate H]
  | Ok _ = Ok _ => injection H as H; subst
  end.

(** ** Shared lemmas *)

Section results.
Context {A B : Type}.

Lemma bind_ok (m : res A) (k : A → res B) b :
  (m ≫= k) = Ok b ↔ ∃ a, m = Ok a ∧ k a = Ok b.
Proof.
  destruct m as [a|e]; simpl; split.
  - intros H. by exists a.
  - intros (a' & [= <-] & H). done.
  - discriminate.
  - intros (a' & ? & _). discriminate.
Qed.

Lemma ASSERT_ok b u : ASSERT b = Ok u ↔ b = true.
Proof. destruct u, b; done. Qed.

Lemma arr_get_ok (l : list A) i x :
  arr_get l i = Ok x ↔ 0 ≤ i ∧ l !! Z.to_nat i = Some x.
Proof.
  unfold arr_get. case_bool_decide as Hi.
  - destruct (l !! Z.to_nat i) eqn:E; split; naive_solver.
  - split; [discriminate | lia].
Qed.

Lemma arr_get_in (l : list A) i x :
  0 ≤ i → l !! Z.to_nat i = Some x → arr_get l i = Ok x.
Proof. intros. by apply arr_get_ok. Qed.

Lemma arr_get_total (l : list A) i :
  0 ≤ i < Z.of_nat (length l) → ∃ x, arr_get l i = Ok x ∧ l !! Z.to_nat i = Some x.
Proof.
  intros Hi. destruct (lookup_lt_is_Some_2 l (Z.to_nat i)) as [x Hx]; [lia|].
  exists x. split; [apply arr_get_in|]; done || lia.
Qed.

Lemma arr_set_in (l : list A) i x :
  0 ≤ i < Z.of_nat (length l) → arr_set l i x = Ok (<[Z.to_nat i := x]> l).
Proof. intros Hi. unfold arr_set. by rewrite bool_decide_eq_true_2. Qed.

Lemma arr_set_ok (l l' : list A) i x :
  arr_set l i x = Ok l' → 0 ≤ i < Z.of_nat (length l) ∧ l' = <[Z.to_nat i := x]> l.
Proof. unfold arr_set. case_bool_decide; [|discriminate]. by intros [= <-]. Qed.
End results.

(** [post E Q r]: the computation [r] returns a value with [Q], or stops in one
    of the ways [E]. *)
Definition post {A} (E : stop → Prop) (Q : A → Prop) (r : res A) : Prop :=
  match r with Ok a => Q a | Stop e => E e end.

Section posts.
Context (E : stop → Prop) {A B : Type}.

Lemma post_bind (P : A → Prop) (Q : B → Prop) (m : res A) (k : A → res B) :
  post E P m → (∀ a, m = Ok a → P a → post E Q (k a)) → post E Q (m ≫= k).
Proof. destruct m as [a|e]; simpl; auto. Qed.

Lemma post_mono (E' : stop → Prop) (P Q : A → Prop) (m : res A) :
  (∀ e, E e → E' e) → (∀ a, P a → Q a) → post E P m → post E' Q m.
Proof. destruct m; simpl; auto. Qed.

Lemma post_arr_set (l : list A) i x :
  0 ≤ i < Z.of_nat (length l) → post E (λ l', l' = <[Z.to_nat i := x]> l) (arr_set l i x).
Proof. intros Hi. by rewrite arr_set_in. Qed.
End posts.

Section for_loops.
Context {S : Type} (body : Z → S → res S).

Lemma for_loop_app n m i s :
  for_loop (n + m) i body s = s' ← for_loop n i body s; for_loop m (i + Z.of_nat n) body s'.
Proof.
  revert i s. induction n as [|n IH]; intros i s.
  - by rewrite Z.add_0_r.
  - cbn [for_loop Nat.add]. destruct (body i s) as [s'|]; [|done]. cbn [mbind res_bind].
    rewrite IH. by replace (i + 1 + Z.of_nat n) with (i + Z.of_nat (Datatypes.S n)) by lia.
Qed.

(** The invariant rule of a counting loop: it returns, and the invariant holds
    of what it returns. *)
Lemma for_loop_inv (I : Z → S → Prop) n i s :
  I i s →
  (∀ j s', i ≤ j < i + Z.of_nat n → I j s' → ∃ s'', body j s' = Ok s'' ∧ I (j + 1) s'') →
  ∃ s', for_loop n i body s = Ok s' ∧ I (i + Z.of_nat n) s'.
Proof.
  revert i s. induction n as [|n IH]; intros i s HI Hstep.
  - exists s. split; [done|]. by replace (i + Z.of_nat 0) with i by lia.
  - destruct (Hstep i s) as (s1 & E1 & H1); [lia|done|].
    destruct (IH (i + 1) s1 H1) as (s2 & E2 & H2).
    { intros j s' Hj. apply Hstep. lia. }
    exists s2. split.
    + simpl. rewrite E1. exact E2.
    + by replace (i + Z.of_nat (Datatypes.S n)) with (i + 1 + Z.of_nat n) by lia.
Qed.
End for_loops.

Section integers.

Lemma u32_range x : is_u32 (u32 x).
Proof. apply Z.mod_pos_bound. done. Qed.

Lemma s32_range x : is_s32 (s32 x).
Proof.
  unfold is_s32, s32. pose proof (Z.mod_pos_bound (x + two31) two32 eq_refl).
  unfold two31, two32 in *. lia.
Qed.

Lemma u32_small x : is_u32 x → u32 x = x.
Proof. intros. by apply Z.mod_small. Qed.

Lemma s32_small x : is_s32 x → s32 x = x.
Proof.
  intros H. unfold s32, is_s32, two31, two32 in *. rewrite Z.mod_small; lia.
Qed.

Lemma s32_cong x : s32 x mod two32 = x mod two32.
Proof.
  unfold s32. rewrite Zminus_mod_idemp_l. f_equal. lia.
Qed.

Lemma u32_s32 x : u32 (s32 x) = u32 x.
Proof. apply s32_cong. Qed.

Lemma s32_mod x y : x mod two32 = y mod two32 → s32 x = s32 y.
Proof.
  intros H. unfold s32. f_equal. rewrite Zplus_mod, H, <- Zplus_mod. done.
Qed.

Lemma s32_u32 x : s32 (u32 x) = s32 x.
Proof. apply s32_mod. unfold u32. by rewrite Zmod_mod. Qed.

(** A signed and an unsigned reading of the same 32 bits. *)
Lemma s32_u32_cases x : is_u32 x → s32 x = if x <? two31 then x else x - two32.
Proof.
  intros H. unfold is_u32, s32, two31, two32 in *.
  destruct (Z.ltb_spec x 2147483648).
  - rewrite Z.mod_small; lia.
  - replace (x + 2147483648) with (x - 2147483648 + 1 * 4294967296) by lia.
    rewrite Z.mod_add by lia. rewrite Z.mod_small; lia.
Qed.

Lemma s8_range x : -128 ≤ s8 x < 128.
Proof. unfold s8. pose proof (Z.mod_pos_bound (x + 128) 256 eq_refl). lia. Qed.

Lemma u8_range x : is_u8 (u8 x).
Proof. apply Z.mod_pos_bound. done. Qed.

Lemma divRoundUp_spec n s :
  0 ≤ n → 0 < s → (divRoundUp n s - 1) * s < n ≤ divRoundUp n s * s.
Proof.
  intros Hn Hs. unfold divRoundUp.
  rewrite Z.quot_div_nonneg, Z.rem_mod_nonneg, Z.gtb_ltb by lia.
  pose proof (Z.div_mod n s). pose proof (Z.mod_pos_bound n s Hs).
  destruct (Z.ltb_spec 0 (n mod s)); nia.
Qed.

Lemma divRoundUp_nonneg n s : 0 ≤ n → 0 < s → 0 ≤ divRoundUp n s.
Proof.
  intros Hn Hs. unfold divRoundUp. rewrite Z.quot_div_nonneg by lia.
  pose proof (Z.div_pos n s Hn Hs). case_match; lia.
Qed.
End integers.

Section lists.
Context {A : Type} (P : A → Prop) `{!∀ x, Decision (P x)}.

Lemma list_filter_all l : Forall P l → filter P l = l.
Proof.
  induction 1 as [|x l Hx _ IH]; [done|]. by rewrite filter_cons_True, IH.
Qed.

Lemma list_filter_none l : Forall (λ x, ¬ P x) l → filter P l = [].
Proof.
  induction 1 as [|x l Hx _ IH]; [done|]. by rewrite filter_cons_False, IH.
Qed.
End lists.

Lemma NoDup_snoc {A} (l : list A) x : NoDup l → x ∉ l → NoDup (l ++ [x]).
Proof.
  intros Hl Hx. rewrite Permutation_app_comm. by constructor.
Qed.

(** One round of a loop that copies an array element by element. *)
Lemma copy_step {A} (src dst : list A) j v :
  src !! j = Some v → (j < length dst)%nat →
  <[j := v]> (take j src ++ drop j dst) = take (S j) src ++ drop (S j) dst.
Proof.
  intros Hv Hj. pose proof (lookup_lt_Some _ _ _ Hv). rewrite (take_S_r _ _ v Hv), <- app_assoc.
  rewrite insert_app_r_alt by (rewrite length_take; lia).
  rewrite length_take, Nat.min_l, Nat.sub_diag by lia. f_equal.
  destruct (drop j dst) as [|x rest] eqn:Ed.
  { apply (f_equal length) in Ed. rewrite length_drop in Ed. simpl in Ed. lia. }
  simpl. f_equal. replace (S j) with (j + 1)%nat by lia. by rewrite <- drop_drop, Ed.
Qed.

(** ** Bytes

    Little-endian integers as byte lists, and a byte-addressed memory as a
    finite map (an absent byte is 0). *)

Fixpoint le_bytes (n : nat) (z : Z) : list Z :=
  match n with
  | O => []
  | S n' => z mod 256 :: le_bytes n' (z / 256)
  end.

Fixpoint le_value (bs : list Z) : Z :=
  match bs with
  | [] => 0
  | b :: bs' => b + 256 * le_value bs'
  end.

Fixpoint read_bytes (mem : gmap Z Z) (a : Z) (n : nat) : list Z :=
  match n with
  | O => []
  | S n' => default 0 (mem !! a) :: read_bytes mem (a + 1) n'
  end.

Fixpoint write_bytes (mem : gmap Z Z) (a : Z) (bs : list Z) : gmap Z Z :=
  match bs with
  | [] => mem
  | b :: bs' => write_bytes (<[a := b]> mem) (a + 1) bs'
  end.

Section bytes.

Lemma length_le_bytes n z : length (le_bytes n z) = n.
Proof. revert z. induction n as [|n IH]; intros z; simpl; [done|]. by rewrite IH. Qed.

Lemma le_bytes_u8 n z : Forall is_u8 (le_bytes n z).
Proof.
  revert z. induction n as [|n IH]; intros z; simpl; constructor; [|done].
  apply Z.mod_pos_bound. done.
Qed.

Lemma le_bytes_mod n z : le_bytes n (z mod 256 ^ Z.of_nat n) = le_bytes n z.
Proof.
  revert z. induction n as [|n IH]; intros z; [done|].
  rewrite Nat2Z.inj_succ, Z.pow_succ_r by lia.
  assert (0 < 256 ^ Z.of_nat n) by (apply Z.pow_pos_nonneg; lia).
  simpl. rewrite Z.rem_mul_r by lia. f_equal.
  - rewrite Z.mul_comm, Z_mod_plus_full. apply Zmod_mod.
  - rewrite Z.mul_comm, Z.div_add by lia.
    rewrite (Z.div_small (z mod 256)) by (apply Z.mod_pos_bound; lia). apply IH.
Qed.

Lemma le_value_bytes n z : le_value (le_bytes n z) = z mod 256 ^ Z.of_nat n.
Proof.
  revert z. induction n as [|n IH]; intros z; simpl.
  - by rewrite Z.mod_1_r.
  - rewrite IH, Nat2Z.inj_succ, Z.pow_succ_r by lia.
    rewrite Z.rem_mul_r by (try apply Z.pow_nonzero; lia). lia.
Qed.

Lemma le_bytes_value bs : Forall is_u8 bs → le_bytes (length bs) (le_value bs) = bs.
Proof.
  unfold is_u8. induction 1 as [|b bs Hb _ IH]; simpl; [done|].
  replace ((b + 256 * le_value bs) mod 256) with b; [f_equal|].
  - replace ((b + 256 * le_value bs) / 256) with (le_value bs); [done|].
    rewrite Z.mul_comm, Z.div_add, Z.div_small by lia. lia.
  - rewrite Z.mul_comm, Z_mod_plus_full, Z.mod_small by lia. done.
Qed.

Lemma le_value_range bs : Forall is_u8 bs → 0 ≤ le_value bs < 256 ^ Z.of_nat (length bs).
Proof.
  unfold is_u8. induction 1 as [|b bs Hb _ IH]; simpl length.
  - simpl. lia.
  - rewrite Nat2Z.inj_succ, Z.pow_succ_r by lia. simpl. lia.
Qed.

(** A 32-bit integer written as four bytes and read back. *)
Lemma le_word_roundtrip x : is_s32 x → s32 (le_value (le_bytes 4 x)) = x.
Proof.
  intros Hx. rewrite le_value_bytes. change (256 ^ Z.of_nat 4) with two32.
  change (x mod two32) with (u32 x). by rewrite s32_u32, s32_small.
Qed.

Lemma length_read_bytes mem a n : length (read_bytes mem a n) = n.
Proof. revert a. induction n as [|n IH]; intros a; simpl; [done|]. by rewrite IH. Qed.

Lemma write_bytes_lookup mem a bs b :
  write_bytes mem a bs !! b =
  if bool_decide (a ≤ b < a + Z.of_nat (length bs)) then bs !! Z.to_nat (b - a) else mem !! b.
Proof.
  revert mem a. induction bs as [|x bs IH]; intros mem a; simpl.
  - by rewrite bool_decide_eq_false_2 by lia.
  - rewrite IH. destruct (decide (b = a)) as [->|Hne].
    + rewrite bool_decide_eq_false_2, bool_decide_eq_true_2 by lia.
      rewrite lookup_insert_eq. by replace (a - a) with 0 by lia.
    + rewrite lookup_insert_ne by done. do 2 case_bool_decide; try lia; [|done].
      replace (b - a) with (Z.succ (b - (a + 1))) by lia.
      rewrite Z2Nat.inj_succ by lia. done.
Qed.

Lemma read_bytes_lookup mem a n i :
  (i < n)%nat → read_bytes mem a n !! i = Some (default 0 (mem !! (a + Z.of_nat i))).
Proof.
  revert a i. induction n as [|n IH]; intros a i Hi; [lia|].
  destruct i as [|i]; simpl.
  - by replace (a + Z.of_nat 0) with a by lia.
  - rewrite IH by lia. by replace (a + 1 + Z.of_nat i) with (a + Z.of_nat (S i)) by lia.
Qed.

Lemma read_write_same mem a bs : read_bytes (write_bytes mem a bs) a (length bs) = bs.
Proof.
  apply list_eq. intros i. destruct (decide (i < length bs)%nat) as [Hi|Hi].
  - rewrite read_bytes_lookup, write_bytes_lookup, bool_decide_eq_true_2 by lia.
    replace (Z.to_nat (a + Z.of_nat i - a)) with i by lia.
    destruct (lookup_lt_is_Some_2 bs i Hi) as [x ->]. done.
  - rewrite !lookup_ge_None_2; [done|lia|rewrite length_read_bytes; lia].
Qed.

Lemma read_write_disjoint mem a bs b n :
  b + Z.of_nat n ≤ a ∨ a + Z.of_nat (length bs) ≤ b →
  read_bytes (write_bytes mem a bs) b n = read_bytes mem b n.
Proof.
  intros Hd. apply list_eq. intros i. destruct (decide (i < n)%nat) as [Hi|Hi].
  - rewrite !read_bytes_lookup, write_bytes_lookup, bool_decide_eq_false_2 by lia. done.
  - by rewrite !lookup_ge_None_2 by (rewrite length_read_bytes; lia).
Qed.
Lemma read_bytes_u8 mem a n :
  map_Forall (λ _, is_u8) mem → Forall is_u8 (read_bytes mem a n).
Proof.
  intros Hm. revert a. induction n as [|n IH]; intros a; simpl; constructor; [|done].
  destruct (mem !! a) eqn:Ea; simpl; [by eapply Hm|]. unfold is_u8. lia.
Qed.

Lemma write_bytes_u8 mem a bs :
  map_Forall (λ _, is_u8) mem → Forall is_u8 bs → map_Forall (λ _, is_u8) (write_bytes mem a bs).
Proof.
  intros Hm Hb b x. rewrite write_bytes_lookup. case_bool_decide.
  - intros Hx. exact (Forall_lookup_1 _ _ _ _ Hb Hx).
  - apply Hm.
Qed.

End bytes.

(** ** Characters

    The characters of a string of the source, without its NUL. *)

Definition chars (s : String.string) : list Z :=
  (λ a, Z.of_nat (Ascii.nat_of_ascii a)) <$> String.list_ascii_of_string s.

Lemma chars_u8 s : Forall is_u8 (chars s).
Proof.
  apply Forall_fmap, Forall_true. intros a. simpl. pose proof (Ascii.nat_ascii_bounded a).
  unfold is_u8. lia.
Qed.

(** [%d], and the end of a line. *)
Definition decimal (n : Z) : list Z := chars (pretty n).
Definition newline : list Z := [10].

(** ** Buffers

    A C buffer is a list of bytes; [slice] and [overlay] are the two sides of
    [bcopy], undefined outside the buffer. *)

Definition slice {A} (buf : list A) (off n : Z) : res (list A) :=
  if bool_decide (0 ≤ off ∧ 0 ≤ n ∧ off + n ≤ Z.of_nat (length buf))
  then Ok (take (Z.to_nat n) (drop (Z.to_nat off) buf)) else Stop Undefined.

Definition overlay {A} (buf : list A) (off : Z) (bs : list A) : res (list A) :=
  if bool_decide (0 ≤ off ∧ off + Z.of_nat (length bs) ≤ Z.of_nat (length buf))
  then Ok (take (Z.to_nat off) buf ++ bs ++ drop (Z.to_nat off + length bs) buf)
  else Stop Undefined.

Section buffers.
Context {A : Type}.
Implicit Types (buf bs : list A).

Lemma slice_in buf off n :
  0 ≤ off → 0 ≤ n → off + n ≤ Z.of_nat (length buf) →
  slice buf off n = Ok (take (Z.to_nat n) (drop (Z.to_nat off) buf)).
Proof. intros. unfold slice. by rewrite bool_decide_eq_true_2. Qed.

Lemma length_slice buf off n :
  0 ≤ off → 0 ≤ n → off + n ≤ Z.of_nat (length buf) →
  length (take (Z.to_nat n) (drop (Z.to_nat off) buf)) = Z.to_nat n.
Proof. intros. rewrite length_take, length_drop. lia. Qed.

Lemma slice_lookup buf off n j :
  0 ≤ off → (j < Z.to_nat n)%nat →
  take (Z.to_nat n) (drop (Z.to_nat off) buf) !! j = buf !! Z.to_nat (off + Z.of_nat j).
Proof.
  intros Hoff Hj. rewrite lookup_take_lt, lookup_drop by lia. f_equal. lia.
Qed.

(** The result of a copy into a buffer. *)
Lemma overlay_in buf off bs :
  0 ≤ off → off + Z.of_nat (length bs) ≤ Z.of_nat (length buf) →
  ∃ buf', overlay buf off bs = Ok buf' ∧ length buf' = length buf ∧
    ∀ j, buf' !! j = if bool_decide (off ≤ Z.of_nat j < off + Z.of_nat (length bs))
                     then bs !! (j - Z.to_nat off)%nat else buf !! j.
Proof.
  intros Ho Hl. unfold overlay. rewrite bool_decide_eq_true_2 by lia.
  eexists. split; [reflexivity|]. split.
  - rewrite !length_app, length_take, length_drop. lia.
  - intros j. case_bool_decide.
    + rewrite lookup_app_r, lookup_app_l; rewrite length_take; [|lia..]. f_equal. lia.
    + destruct (decide (Z.of_nat j < off)).
      * rewrite lookup_app_l by (rewrite length_take; lia). by rewrite lookup_take_lt by lia.
      * rewrite lookup_app_r, lookup_app_r; rewrite length_take; [|lia..].
        rewrite lookup_drop. f_equal. lia.
Qed.

Lemma Forall_overlay (P : A → Prop) buf off bs buf' :
  Forall P buf → Forall P bs → overlay buf off bs = Ok buf' → Forall P buf'.
Proof.
  intros Hb Hbs. unfold overlay. case_bool_decide; [|done]. intros [= <-].
  rewrite !Forall_app. auto using Forall_take, Forall_drop.
Qed.
End buffers.

Section bit_fields.

(** The bitwise operations stay within the width of an [int]. *)
Lemma is_s32_shiftr x : is_s32 x ↔ Z.shiftr x 31 = 0 ∨ Z.shiftr x 31 = -1.
Proof.
  rewrite Z.shiftr_div_pow2 by lia. change (2 ^ 31) with two31.
  unfold is_s32, two31. Z.div_mod_to_equations. lia.
Qed.

Lemma land_s32 x y : is_s32 x → is_s32 y → is_s32 (Z.land x y).
Proof. rewrite !is_s32_shiftr, Z.shiftr_land. by intros [->| ->] [->| ->]; auto. Qed.
Lemma lor_s32 x y : is_s32 x → is_s32 y → is_s32 (Z.lor x y).
Proof. rewrite !is_s32_shiftr, Z.shiftr_lor. by intros [->| ->] [->| ->]; auto. Qed.
Lemma lxor_s32 x y : is_s32 x → is_s32 y → is_s32 (Z.lxor x y).
Proof. rewrite !is_s32_shiftr, Z.shiftr_lxor. by intros [->| ->] [->| ->]; auto. Qed.
Lemma lnot_s32 x : is_s32 x → is_s32 (Z.lnot x).
Proof. unfold is_s32, Z.lnot, two31. lia. Qed.
Lemma shiftr_s32 a i : is_s32 a → 0 ≤ i → is_s32 (Z.shiftr a i).
Proof.
  unfold is_s32, two31. intros Ha Hi. rewrite Z.shiftr_div_pow2 by lia.
  assert (0 < 2 ^ i) by (apply Z.pow_pos_nonneg; lia).
  split; [apply Z.div_le_lower_bound|apply Z.div_lt_upper_bound]; nia.
Qed.

(** Masking with the low [w] bits. *)
Lemma land_mask x w m : 0 ≤ w → m = Z.ones w → 0 ≤ Z.land x m < 2 ^ w.
Proof.
  intros Hw ->. rewrite Z.land_ones by done. apply Z.mod_pos_bound.
  apply Z.pow_pos_nonneg; lia.
Qed.

(** A field of [w] bits of a word, masked in place. *)
Lemma land_field x w k :
  0 ≤ w → 0 ≤ k → Z.land x (Z.shiftl (Z.ones w) k) = (x / 2 ^ k) mod 2 ^ w * 2 ^ k.
Proof.
  intros Hw Hk.
  rewrite <- Z.land_ones, <- Z.shiftr_div_pow2, <- Z.shiftl_mul_pow2 by lia.
  apply Z.bits_inj'. intros i Hi.
  rewrite Z.land_spec, !Z.shiftl_spec by lia. rewrite Z.land_spec.
  destruct (Z.ltb_spec i k).
  - rewrite !(Z.testbit_neg_r _ (i - k)) by lia. by rewrite andb_false_r.
  - rewrite Z.shiftr_spec by lia. by replace (i - k + k) with i by lia.
Qed.

(** One byte of a word, masked in place. *)
Lemma land_byte x k :
  0 ≤ k → Z.land x (Z.shiftl 255 k) = (x / 2 ^ k) mod 256 * 2 ^ k.
Proof. intros Hk. apply (land_field x 8 k); lia. Qed.

(** One bit of a word. *)
Lemma land_bit x k : 0 ≤ k → Z.land x (Z.shiftl 1 k) = (x / 2 ^ k) mod 2 * 2 ^ k.
Proof. intros Hk. apply (land_field x 1 k); lia. Qed.

(** Or-ing fields that do not overlap adds them. *)
Lemma lor_add a b k : 0 ≤ k → 0 ≤ a < 2 ^ k → Z.lor a (b * 2 ^ k) = a + b * 2 ^ k.
Proof.
  intros Hk Ha. rewrite <- Z.shiftl_mul_pow2 by lia. rewrite <- Z.add_lor_land.
  enough (Z.land a (Z.shiftl b k) = 0) by lia.
  apply Z.bits_inj'. intros i Hi. rewrite Z.land_spec, Z.bits_0, Z.shiftl_spec by lia.
  destruct (Z.ltb_spec i k).
  - rewrite (Z.testbit_neg_r b) by lia. apply andb_false_r.
  - rewrite <- (Z.mod_small a (2 ^ k)) by lia. by rewrite Z.mod_pow2_bits_high by lia.
Qed.
End bit_fields.

#[export] Hint Resolve u32_range s32_range u8_range : nachos.
#[export] Hint Resolve land_s32 lor_s32 lxor_s32 lnot_s32 : nachos.
#[export] Hint Rewrite u32_s32 s32_u32 : nachos.
