(* ===== verification/Bitmap.v ===== *)
(** * Bitmaps (userprog/bitmap.cc, bitmap.h)

    The class [BitMap]: an array of 32-bit words used as an array of bits.  It
    hands out disk sectors, physical pages, process slots and semaphore slots.

    The concrete state is the array of words; the abstract state is the set of
    numbers whose bit is set ([allocated]).  The interface [FreeMap] is what
    the clients (file headers, address spaces, process and semaphore tables)
    rely on, and [BitMap] implements it. *)

From S2P Require Import Prelude.

(** ** The interface of an allocation map *)

Class FreeMap (T : Type) := {
  fm_wf : T → Prop;                       (* representation invariant *)
  fm_size : T → Z;                        (* how many numbers are managed *)
  fm_used : T → gset Z;                   (* the numbers in use *)
  fm_mark : T → Z → res T;
  fm_clear : T → Z → res T;
  fm_test : T → Z → res bool;
  fm_find : T → res (Z * T);
  fm_num_clear : T → res Z;
}.

(** What an allocation map promises. *)
Class FreeMapLaws (T : Type) `{FreeMap T} := {
  fm_used_range (m : T) i : i ∈ fm_used m → 0 ≤ i < fm_size m;
  fm_mark_spec (m : T) i : fm_wf m → 0 ≤ i < fm_size m →
    ∃ m', fm_mark m i = Ok m' ∧ fm_wf m' ∧ fm_size m' = fm_size m ∧
          fm_used m' = {[i]} ∪ fm_used m;
  fm_clear_spec (m : T) i : fm_wf m → 0 ≤ i < fm_size m →
    ∃ m', fm_clear m i = Ok m' ∧ fm_wf m' ∧ fm_size m' = fm_size m ∧
          fm_used m' = fm_used m ∖ {[i]};
  fm_test_spec (m : T) i : fm_wf m → 0 ≤ i < fm_size m →
    fm_test m i = Ok (bool_decide (i ∈ fm_used m));
  fm_find_spec (m : T) : fm_wf m →
    (∃ r m', fm_find m = Ok (r, m') ∧ fm_wf m' ∧ fm_size m' = fm_size m ∧
       0 ≤ r < fm_size m ∧ ¬ (r ∈ fm_used m) ∧ (∀ j, 0 ≤ j < r → j ∈ fm_used m) ∧
       fm_used m' = {[r]} ∪ fm_used m)
    ∨ (fm_find m = Ok (-1, m) ∧ (∀ j, 0 ≤ j < fm_size m → j ∈ fm_used m));
  fm_num_clear_spec (m : T) : fm_wf m →
    fm_num_clear m = Ok (fm_size m - Z.of_nat (size (fm_used m)));
}.

(** ** The implementation *)

Module BitMap.

Definition BitsInByte : Z := 8.
Definition BitsInWord : Z := 32.

Record BitMap := mkBitMap {
  numBits : Z;
  numWords : Z;
  map : list Z;
}.

Definition with_map (bm : BitMap) (m : list Z) : BitMap :=
  mkBitMap (numBits bm) (numWords bm) m.

Definition in_range (bm : BitMap) (which : Z) : bool :=
  (which >=? 0) && (which <? numBits bm).

(** [map[which / BitsInWord] |= 1 << (which % BitsInWord)] *)
Definition Mark (bm : BitMap) (which : Z) : res BitMap :=
  ASSERT (in_range bm which);;
  w ← arr_get (map bm) (Z.quot which BitsInWord);
  m ← arr_set (map bm) (Z.quot which BitsInWord)
        (Z.lor w (u32 (Z.shiftl 1 (Z.rem which BitsInWord))));
  Ok (with_map bm m).

(** [map[which / BitsInWord] &= ~(1 << (which % BitsInWord))] *)
Definition Clear (bm : BitMap) (which : Z) : res BitMap :=
  ASSERT (in_range bm which);;
  w ← arr_get (map bm) (Z.quot which BitsInWord);
  m ← arr_set (map bm) (Z.quot which BitsInWord)
        (Z.land w (u32 (Z.lnot (Z.shiftl 1 (Z.rem which BitsInWord)))));
  Ok (with_map bm m).

Definition Test (bm : BitMap) (which : Z) : res bool :=
  ASSERT (in_range bm which);;
  w ← arr_get (map bm) (Z.quot which BitsInWord);
  Ok (negb (Z.land w (u32 (Z.shiftl 1 (Z.rem which BitsInWord))) =? 0)).

(** The constructor.  [new unsigned int[numWords]] does not initialise the
    words: [garbage] is what they hold. *)
Definition BitMap_new (garbage : list Z) (nitems : Z) : res BitMap :=
  let bm := mkBitMap nitems (divRoundUp nitems BitsInWord) garbage in
  for_loop (Z.to_nat nitems) 0 (λ i b, Clear b i) bm.

(** The loop of [FindFreeSlot], from bit [i] on, [n] bits left. *)
Fixpoint find_from (n : nat) (i : Z) (bm : BitMap) : res (Z * BitMap) :=
  match n with
  | O => Ok (-1, bm)
  | S n' =>
      t ← Test bm i;
      if negb t then bm' ← Mark bm i; Ok (i, bm') else find_from n' (i + 1) bm
  end.

Definition FindFreeSlot (bm : BitMap) : res (Z * BitMap) :=
  find_from (Z.to_nat (numBits bm)) 0 bm.

Definition NumClear (bm : BitMap) : res Z :=
  for_loop (Z.to_nat (numBits bm)) 0
    (λ i count, t ← Test bm i; Ok (if negb t then count + 1 else count)) 0.

(** The numbers [Print] writes, in order. *)
Definition Print (bm : BitMap) : res (list Z) :=
  for_loop (Z.to_nat (numBits bm)) 0
    (λ i out, t ← Test bm i; Ok (if (t : bool) then out ++ [i] else out)) [].

(** *** Abstraction *)

(** Bit [i] of the map. *)
Definition bit (bm : BitMap) (i : Z) : bool :=
  Z.testbit (default 0 (map bm !! Z.to_nat (i / 32))) (i mod 32).

Definition allocated (bm : BitMap) : gset Z :=
  list_to_set (filter (λ i, bit bm i = true) (seqZ 0 (numBits bm))).

Record wf (bm : BitMap) : Prop := mkwf {
  wf_bits : 0 ≤ numBits bm;
  wf_words : numWords bm = divRoundUp (numBits bm) 32;
  wf_length : Z.of_nat (length (map bm)) = numWords bm;
  wf_u32 : Forall is_u32 (map bm);
}.

(** *** Bits of one word *)

Lemma bit_mask k : 0 ≤ k < 32 → u32 (Z.shiftl 1 k) = 2 ^ k.
Proof.
  intros Hk. rewrite Z.shiftl_1_l. apply Z.mod_small. split; [lia|].
  change two32 with (2 ^ 32). apply Z.pow_lt_mono_r; lia.
Qed.

Lemma u32_testbit x j : 0 ≤ j < 32 → Z.testbit (u32 x) j = Z.testbit x j.
Proof.
  intros Hj. unfold u32. change two32 with (2 ^ 32). apply Z.mod_pow2_bits_low. lia.
Qed.

Lemma word_mark_bit w k j :
  0 ≤ k < 32 → 0 ≤ j < 32 →
  Z.testbit (Z.lor w (u32 (Z.shiftl 1 k))) j = (Z.testbit w j || bool_decide (j = k)).
Proof.
  intros Hk Hj. rewrite Z.lor_spec, bit_mask, Z.pow2_bits_eqb by lia.
  f_equal. rewrite Z.eqb_sym. destruct (Z.eqb_spec j k); by case_bool_decide.
Qed.

Lemma word_clear_bit w k j :
  0 ≤ k < 32 → 0 ≤ j < 32 →
  Z.testbit (Z.land w (u32 (Z.lnot (Z.shiftl 1 k)))) j
  = (Z.testbit w j && negb (bool_decide (j = k))).
Proof.
  intros Hk Hj. rewrite Z.land_spec, u32_testbit by lia.
  rewrite Z.lnot_spec, Z.shiftl_1_l, Z.pow2_bits_eqb by lia.
  do 2 f_equal. rewrite Z.eqb_sym. destruct (Z.eqb_spec j k); by case_bool_decide.
Qed.

Lemma word_test_bit w k :
  0 ≤ k < 32 → negb (Z.land w (u32 (Z.shiftl 1 k)) =? 0) = Z.testbit w k.
Proof.
  intros Hk. rewrite bit_mask by lia.
  destruct (Z.testbit w k) eqn:E.
  - apply negb_true_iff, Z.eqb_neq. intros H.
    assert (Z.testbit (Z.land w (2 ^ k)) k = false) as H' by (rewrite H; apply Z.bits_0).
    rewrite Z.land_spec, E, Z.pow2_bits_true in H' by lia. done.
  - apply negb_false_iff, Z.eqb_eq, Z.bits_inj'. intros j Hj.
    rewrite Z.land_spec, Z.bits_0, Z.pow2_bits_eqb by lia.
    destruct (Z.eqb_spec k j) as [->|]; [by rewrite E|apply andb_false_r].
Qed.

Lemma log2_u32 x : 0 ≤ x → (is_u32 x ↔ Z.log2 x < 32).
Proof.
  intros Hx. unfold is_u32. change two32 with (2 ^ 32).
  destruct (Z.eq_dec x 0) as [->|]; [by split|].
  rewrite <- Z.log2_lt_pow2 by lia. lia.
Qed.

Lemma lor_u32 a b : is_u32 a → is_u32 b → is_u32 (Z.lor a b).
Proof.
  intros [Ha Ha'] [Hb Hb'].
  assert (0 ≤ Z.lor a b) by (apply Z.lor_nonneg; lia).
  apply log2_u32; [done|]. rewrite Z.log2_lor by lia.
  apply Z.max_lub_lt; apply log2_u32; done.
Qed.

Lemma land_u32 a b : is_u32 a → is_u32 b → is_u32 (Z.land a b).
Proof.
  intros [Ha Ha'] [Hb Hb'].
  assert (0 ≤ Z.land a b) by (apply Z.land_nonneg; lia).
  apply log2_u32; [done|]. pose proof (Z.log2_land a b Ha Hb).
  assert (Z.log2 a < 32) by (by apply log2_u32). lia.
Qed.

(** *** The array of words *)

Section wellformed.
Context (bm : BitMap) (Hwf : wf bm).

Lemma word_index i : 0 ≤ i < numBits bm → 0 ≤ i / 32 < Z.of_nat (length (map bm)).
Proof using Hwf.
  intros Hi. destruct Hwf as [Hb Hw Hl _]. rewrite Hl, Hw.
  pose proof (divRoundUp_spec (numBits bm) 32 Hb ltac:(lia)).
  split; [apply Z.div_pos; lia|]. apply Z.div_lt_upper_bound; lia.
Qed.

Lemma word_lookup i :
  0 ≤ i < numBits bm →
  ∃ w, map bm !! Z.to_nat (i / 32) = Some w ∧ is_u32 w ∧
       arr_get (map bm) (Z.quot i BitsInWord) = Ok w.
Proof using Hwf.
  intros Hi. pose proof (word_index i Hi) as Hd.
  destruct (lookup_lt_is_Some_2 (map bm) (Z.to_nat (i / 32))) as [w Hw]; [lia|].
  exists w. split; [done|]. split.
  - eapply Forall_lookup_1; [apply (wf_u32 _ Hwf)|done].
  - unfold BitsInWord. rewrite Z.quot_div_nonneg by lia. apply arr_get_in; [lia|done].
Qed.

Lemma elem_of_allocated i : i ∈ allocated bm ↔ 0 ≤ i < numBits bm ∧ bit bm i = true.
Proof.
  unfold allocated. rewrite elem_of_list_to_set, list_elem_of_filter, elem_of_seqZ.
  rewrite Z.add_0_l. tauto.
Qed.
End wellformed.

(** Replacing one word by one that differs in bit [i] only. *)
Section update.
Context (bm : BitMap) (i : Z) (w w' : Z).
Context (Hwf : wf bm) (Hi : 0 ≤ i < numBits bm).
Context (Hw : map bm !! Z.to_nat (i / 32) = Some w) (Hw' : is_u32 w').

Let bm' := with_map bm (<[Z.to_nat (i / 32) := w']> (map bm)).

Lemma update_wf : wf bm'.
Proof using Hwf Hw'.
  destruct Hwf as [Hb Hwd Hl Hu]. split; simpl; try done.
  - by rewrite length_insert.
  - by apply Forall_insert.
Qed.

Lemma update_bit j :
  (∀ k, 0 ≤ k < 32 → k ≠ i mod 32 → Z.testbit w' k = Z.testbit w k) →
  0 ≤ j → bit bm' j = if bool_decide (j = i) then Z.testbit w' (i mod 32) else bit bm j.
Proof using Hwf Hi Hw.
  intros Hsame Hj. unfold bit. simpl.
  assert (Z.to_nat (i / 32) < length (map bm))%nat as Hlt.
  { eapply lookup_lt_Some. exact Hw. }
  destruct (decide (j / 32 = i / 32)) as [E|E].
  - rewrite E, list_lookup_insert_eq by done. simpl. rewrite Hw. simpl.
    case_bool_decide as D; [by subst|].
    apply Hsame; [apply Z.mod_pos_bound; lia|].
    intros F. apply D. rewrite (Z.div_mod j 32), (Z.div_mod i 32) by lia. by rewrite E, F.
  - rewrite list_lookup_insert_ne.
    + case_bool_decide as D; [by subst|done].
    + intros F. apply E. apply Z2Nat.inj; [apply Z.div_pos; lia|apply Z.div_pos; lia|done].
Qed.
End update.

(** *** Each operation against the abstract set *)

Lemma in_range_iff bm i : in_range bm i = true ↔ 0 ≤ i < numBits bm.
Proof.
  unfold in_range. rewrite andb_true_iff, Z.geb_leb, Z.leb_le, Z.ltb_lt. done.
Qed.

Lemma range_rem i : 0 ≤ i → Z.rem i BitsInWord = i mod 32 ∧ 0 ≤ i mod 32 < 32.
Proof.
  intros Hi. unfold BitsInWord. rewrite Z.rem_mod_nonneg by lia.
  split; [done|]. apply Z.mod_pos_bound. lia.
Qed.

Lemma Mark_refines bm i :
  wf bm → 0 ≤ i < numBits bm →
  ∃ bm', Mark bm i = Ok bm' ∧ wf bm' ∧ numBits bm' = numBits bm ∧
         allocated bm' = {[i]} ∪ allocated bm.
Proof.
  intros Hwf Hi. destruct (word_lookup bm Hwf i Hi) as (w & Hw & Hu & Hget).
  destruct (range_rem i ltac:(lia)) as [Hrem Hm].
  pose (w' := Z.lor w (u32 (Z.shiftl 1 (i mod 32)))).
  assert (is_u32 w') as Hw' by (apply lor_u32; [done|apply u32_range]).
  eexists. split; [|split; [exact (update_wf bm i w' Hwf Hw')|split; [done|]]].
  - unfold Mark. rewrite (proj2 (in_range_iff bm i) Hi). simpl. rewrite Hget. simpl.
    rewrite Hrem. unfold BitsInWord. rewrite Z.quot_div_nonneg by lia.
    rewrite arr_set_in by (by apply word_index). done.
  - apply set_eq. intros j. rewrite elem_of_union, elem_of_singleton, !elem_of_allocated.
    simpl. destruct (decide (0 ≤ j)) as [Hj|]; [|split; [lia|intros [->|]; lia]].
    rewrite (update_bit bm i w w' Hwf Hi Hw); [|intros k Hk Hne|done].
    + case_bool_decide; [subst|naive_solver].
      unfold w'. rewrite word_mark_bit, bool_decide_eq_true_2, orb_true_r by lia. naive_solver.
    + unfold w'. rewrite word_mark_bit, bool_decide_eq_false_2, orb_false_r by lia. done.
Qed.

Lemma Clear_refines bm i :
  wf bm → 0 ≤ i < numBits bm →
  ∃ bm', Clear bm i = Ok bm' ∧ wf bm' ∧ numBits bm' = numBits bm ∧
         allocated bm' = allocated bm ∖ {[i]}.
Proof.
  intros Hwf Hi. destruct (word_lookup bm Hwf i Hi) as (w & Hw & Hu & Hget).
  destruct (range_rem i ltac:(lia)) as [Hrem Hm].
  pose (w' := Z.land w (u32 (Z.lnot (Z.shiftl 1 (i mod 32))))).
  assert (is_u32 w') as Hw' by (apply land_u32; [done|apply u32_range]).
  eexists. split; [|split; [exact (update_wf bm i w' Hwf Hw')|split; [done|]]].
  - unfold Clear. rewrite (proj2 (in_range_iff bm i) Hi). simpl. rewrite Hget. simpl.
    rewrite Hrem. unfold BitsInWord. rewrite Z.quot_div_nonneg by lia.
    rewrite arr_set_in by (by apply word_index). done.
  - apply set_eq. intros j. rewrite elem_of_difference, elem_of_singleton, !elem_of_allocated.
    simpl. destruct (decide (0 ≤ j)) as [Hj|]; [|lia].
    rewrite (update_bit bm i w w' Hwf Hi Hw); [|intros k Hk Hne|done].
    + case_bool_decide; [subst|naive_solver].
      unfold w'. rewrite word_clear_bit, bool_decide_eq_true_2, andb_false_r by lia. naive_solver.
    + unfold w'. rewrite word_clear_bit, bool_decide_eq_false_2, andb_true_r by lia. done.
Qed.

Lemma Test_refines bm i :
  wf bm → 0 ≤ i < numBits bm → Test bm i = Ok (bool_decide (i ∈ allocated bm)).
Proof.
  intros Hwf Hi. destruct (word_lookup bm Hwf i Hi) as (w & Hw & Hu & Hget).
  destruct (range_rem i ltac:(lia)) as [Hrem Hm].
  unfold Test. rewrite (proj2 (in_range_iff bm i) Hi). simpl. rewrite Hget. simpl.
  rewrite Hrem, word_test_bit by done. f_equal.
  assert (bit bm i = Z.testbit w (i mod 32)) as <- by (unfold bit; by rewrite Hw).
  symmetry. destruct (bit bm i) eqn:E.
  - apply bool_decide_eq_true_2, elem_of_allocated. done.
  - apply bool_decide_eq_false_2. rewrite elem_of_allocated, E. by intros [_ ?].
Qed.

(** Outside the bitmap, the three bit operations fail their ASSERT. *)
Lemma range_assert bm i :
  ¬ (0 ≤ i < numBits bm) →
  Mark bm i = Stop AssertFailed ∧ Clear bm i = Stop AssertFailed ∧
  Test bm i = Stop AssertFailed.
Proof.
  intros Hi. assert (in_range bm i = false) as E.
  { apply not_true_iff_false. by rewrite in_range_iff. }
  unfold Mark, Clear, Test. by rewrite E.
Qed.

Lemma find_from_refines bm n i :
  wf bm → 0 ≤ i → i + Z.of_nat n = numBits bm →
  (∀ j, 0 ≤ j < i → j ∈ allocated bm) →
  (∃ r bm', find_from n i bm = Ok (r, bm') ∧ wf bm' ∧ numBits bm' = numBits bm ∧
     0 ≤ r < numBits bm ∧ r ∉ allocated bm ∧ (∀ j, 0 ≤ j < r → j ∈ allocated bm) ∧
     allocated bm' = {[r]} ∪ allocated bm)
  ∨ (find_from n i bm = Ok (-1, bm) ∧ ∀ j, 0 ≤ j < numBits bm → j ∈ allocated bm).
Proof.
  intros Hwf. revert i. induction n as [|n IH]; intros i Hi Hn Hbelow.
  - right. split; [done|]. intros j Hj. apply Hbelow. lia.
  - simpl. rewrite Test_refines by (done || lia). simpl.
    case_bool_decide as Hin; simpl.
    + apply IH; [lia|lia|]. intros j Hj.
      destruct (decide (j = i)) as [->|]; [done|]. apply Hbelow. lia.
    + left. destruct (Mark_refines bm i Hwf ltac:(lia)) as (bm' & E & Hwf' & Hb' & Ha').
      rewrite E. simpl. exists i, bm'. split_and!; try done; lia.
Qed.

Lemma FindFreeSlot_refines bm :
  wf bm →
  (∃ r bm', FindFreeSlot bm = Ok (r, bm') ∧ wf bm' ∧ numBits bm' = numBits bm ∧
     0 ≤ r < numBits bm ∧ r ∉ allocated bm ∧ (∀ j, 0 ≤ j < r → j ∈ allocated bm) ∧
     allocated bm' = {[r]} ∪ allocated bm)
  ∨ (FindFreeSlot bm = Ok (-1, bm) ∧ ∀ j, 0 ≤ j < numBits bm → j ∈ allocated bm).
Proof.
  intros Hwf. apply find_from_refines; [done|lia| |lia].
  pose proof (wf_bits _ Hwf). lia.
Qed.

(** The numbers below [i] in use. *)
Lemma allocated_below_succ bm i :
  0 ≤ i →
  filter (λ j, j < i + 1) (allocated bm) =
  if bool_decide (i ∈ allocated bm)
  then {[i]} ∪ filter (λ j, j < i) (allocated bm)
  else filter (λ j, j < i) (allocated bm).
Proof.
  intros Hi. apply set_eq. intros j. rewrite elem_of_filter.
  case_bool_decide as Hin.
  - rewrite elem_of_union, elem_of_singleton, elem_of_filter.
    destruct (decide (j = i)) as [->|]; naive_solver lia.
  - rewrite elem_of_filter. split; [|naive_solver lia].
    intros [Hj Hjin]. split; [|done]. destruct (decide (j = i)) as [->|]; [done|lia].
Qed.

Lemma NumClear_refines bm :
  wf bm → NumClear bm = Ok (numBits bm - Z.of_nat (size (allocated bm))).
Proof.
  intros Hwf. pose proof (wf_bits _ Hwf) as Hb. unfold NumClear.
  edestruct (for_loop_inv
    (λ i count, t ← Test bm i; Ok (if negb t then count + 1 else count))
    (λ i count, count = i - Z.of_nat (size (filter (λ j, j < i) (allocated bm)))))
    as (count & E & Hc).
  3:{ rewrite E. f_equal. rewrite Hc. rewrite Z.add_0_l, Z2Nat.id by lia.
      do 3 f_equal. apply set_eq. intros j. rewrite elem_of_filter, elem_of_allocated. tauto. }
  - assert (filter (λ j, j < 0) (allocated bm) = ∅) as ->; [|done].
    apply set_eq. intros j. rewrite elem_of_filter, elem_of_allocated.
    split; [lia|set_solver].
  - intros j s' Hj ->. rewrite Test_refines by (done || lia). simpl.
    rewrite allocated_below_succ by lia.
    case_bool_decide as Hin; simpl; eexists; (split; [reflexivity|]); [|lia].
    rewrite size_union, size_singleton; [lia|].
    apply disjoint_singleton_l. rewrite elem_of_filter. lia.
Qed.

(** The constructor clears every bit, whatever the memory held. *)
Lemma BitMap_new_refines garbage nitems :
  0 ≤ nitems → Z.of_nat (length garbage) = divRoundUp nitems 32 → Forall is_u32 garbage →
  ∃ bm, BitMap_new garbage nitems = Ok bm ∧ wf bm ∧ numBits bm = nitems ∧ allocated bm = ∅.
Proof.
  intros Hn Hlen Hg. unfold BitMap_new.
  edestruct (for_loop_inv (λ i b, Clear b i)
    (λ i b, wf b ∧ numBits b = nitems ∧ ∀ j, j ∈ allocated b → i ≤ j)) as (bm & E & Hwf & Hb & Ha).
  3:{ exists bm. split_and!; try done. apply set_eq. intros j. split; [|set_solver].
      intros Hj. pose proof (Ha j Hj). apply elem_of_allocated in Hj. lia. }
  - split_and!; [split; simpl; try done; lia|done|].
    intros j Hj. apply elem_of_allocated in Hj. lia.
  - intros j b Hj (Hwf & Hb & Ha).
    destruct (Clear_refines b j Hwf ltac:(lia)) as (b' & E & Hwf' & Hb' & Ha').
    exists b'. split_and!; try done; [lia|]. intros k. rewrite Ha'.
    rewrite elem_of_difference, elem_of_singleton. intros [Hk ?].
    pose proof (Ha k Hk). lia.
Qed.

End BitMap.

(** ** [BitMap] implements the interface *)

#[export] Instance BitMap_FreeMap : FreeMap BitMap.BitMap := {
  fm_wf := BitMap.wf;
  fm_size := BitMap.numBits;
  fm_used := BitMap.allocated;
  fm_mark := BitMap.Mark;
  fm_clear := BitMap.Clear;
  fm_test := BitMap.Test;
  fm_find := BitMap.FindFreeSlot;
  fm_num_clear := BitMap.NumClear;
}.

#[export] Instance BitMap_FreeMapLaws : FreeMapLaws BitMap.BitMap.
Proof.
  split; simpl.
  - intros m i Hi. apply BitMap.elem_of_allocated in Hi. apply Hi.
  - exact BitMap.Mark_refines.
  - exact BitMap.Clear_refines.
  - exact BitMap.Test_refines.
  - exact BitMap.FindFreeSlot_refines.
  - exact BitMap.NumClear_refines.
Qed.

(** ** The abstract allocator and the refinement

    A client sends a sequence of requests.  The specification answers them on a
    mathematical set; the bitmap answers them on its words. *)

Module BitMapSpec.

Inductive request :=
  | RMark (which : Z)
  | RClear (which : Z)
  | RTest (which : Z)
  | RFindFreeSlot
  | RNumClear.

Inductive answer :=
  | ADone
  | ABool (b : bool)
  | ANum (n : Z).

Definition serve (r : request) (bm : BitMap.BitMap) : res (answer * BitMap.BitMap) :=
  match r with
  | RMark i => bm' ← BitMap.Mark bm i; Ok (ADone, bm')
  | RClear i => bm' ← BitMap.Clear bm i; Ok (ADone, bm')
  | RTest i => b ← BitMap.Test bm i; Ok (ABool b, bm)
  | RFindFreeSlot => '(i, bm') ← BitMap.FindFreeSlot bm; Ok (ANum i, bm')
  | RNumClear => n ← BitMap.NumClear bm; Ok (ANum n, bm)
  end.

Definition within (n i : Z) : bool := bool_decide (0 ≤ i < n).

Definition least_free (n : Z) (s : gset Z) : option Z :=
  snd <$> list_find (λ j, ¬ j ∈ s) (seqZ 0 n).

Definition serve_spec (n : Z) (r : request) (s : gset Z) : res (answer * gset Z) :=
  match r with
  | RMark i => ASSERT (within n i);; Ok (ADone, {[i]} ∪ s)
  | RClear i => ASSERT (within n i);; Ok (ADone, s ∖ {[i]})
  | RTest i => ASSERT (within n i);; Ok (ABool (bool_decide (i ∈ s)), s)
  | RFindFreeSlot =>
      match least_free n s with
      | Some i => Ok (ANum i, {[i]} ∪ s)
      | None => Ok (ANum (-1), s)
      end
  | RNumClear => Ok (ANum (n - Z.of_nat (size s)), s)
  end.

(** Answer the requests in order; the answers, or the error that stopped it. *)
Fixpoint session {S} (f : request → S → res (answer * S)) (rs : list request) (s : S)
    : res (list answer * S) :=
  match rs with
  | [] => Ok ([], s)
  | r :: rs' =>
      '(a, s1) ← f r s;
      '(l, s2) ← session f rs' s1;
      Ok (a :: l, s2)
  end.

(** The two outcomes agree: the same error, or the same answers and a
    well-formed bitmap whose set is the specification's. *)
Definition agree {A} (n : Z) (c : res (A * BitMap.BitMap)) (a : res (A * gset Z)) : Prop :=
  match c, a with
  | Ok (x, bm), Ok (y, s) =>
      x = y ∧ BitMap.wf bm ∧ BitMap.numBits bm = n ∧ BitMap.allocated bm = s
  | Stop e, Stop e' => e = e'
  | _, _ => False
  end.

Lemma least_free_some n s r :
  0 ≤ r < n → r ∉ s → (∀ j, 0 ≤ j < r → j ∈ s) → least_free n s = Some r.
Proof.
  intros Hr Hout Hbelow. unfold least_free.
  enough (list_find (λ j, ¬ j ∈ s) (seqZ 0 n) = Some (Z.to_nat r, r)) as -> by done.
  apply list_find_Some. split_and!.
  - apply lookup_seqZ. lia.
  - done.
  - intros k x Hk Hlt. apply lookup_seqZ in Hk as [-> Hk].
    intros Hx. apply Hx, Hbelow. lia.
Qed.

Lemma least_free_none n s : (∀ j, 0 ≤ j < n → j ∈ s) → least_free n s = None.
Proof.
  intros Hall. unfold least_free.
  enough (list_find (λ j, ¬ j ∈ s) (seqZ 0 n) = None) as -> by done.
  apply list_find_None, Forall_forall. intros x Hx Hn. apply Hn, Hall.
  apply elem_of_seqZ in Hx. lia.
Qed.

Lemma serve_refines r bm :
  BitMap.wf bm →
  agree (BitMap.numBits bm) (serve r bm) (serve_spec (BitMap.numBits bm) r (BitMap.allocated bm)).
Proof.
  intros Hwf. destruct r as [i|i|i| |]; simpl; unfold within.
  1-3: destruct (decide (0 ≤ i < BitMap.numBits bm)) as [Hi|Hi];
    [rewrite (bool_decide_eq_true_2 (0 ≤ i < _)) by done; simpl
    |rewrite (bool_decide_eq_false_2 (0 ≤ i < _)) by done;
     destruct (BitMap.range_assert bm i Hi) as (E1 & E2 & E3); by rewrite ?E1, ?E2, ?E3].
  - destruct (BitMap.Mark_refines bm i Hwf Hi) as (bm' & -> & ?). simpl. naive_solver.
  - destruct (BitMap.Clear_refines bm i Hwf Hi) as (bm' & -> & ?). simpl. naive_solver.
  - rewrite BitMap.Test_refines by done. done.
  - destruct (BitMap.FindFreeSlot_refines bm Hwf)
      as [(r & bm' & -> & Hwf' & Hb & Hr & Hout & Hbelow & Ha)|[-> Hfull]]; simpl.
    + by rewrite (least_free_some _ _ r).
    + by rewrite least_free_none.
  - rewrite BitMap.NumClear_refines by done. done.
Qed.

(** C7.  Whatever requests a client sends, in whatever order, a bitmap answers
    exactly as a set of allocated numbers would: marking, clearing and testing a
    number, handing out the least free number (or -1 when none is left) and
    counting the free ones; and it fails its ASSERT exactly when the number is
    outside the bitmap.  The bitmap stays well formed throughout. *)
Theorem bitmap_refines_set rs bm :
  BitMap.wf bm →
  agree (BitMap.numBits bm) (session serve rs bm)
    (session (serve_spec (BitMap.numBits bm)) rs (BitMap.allocated bm)).
Proof.
  revert bm. induction rs as [|r rs IH]; intros bm Hwf; [done|]. simpl.
  pose proof (serve_refines r bm Hwf) as Hr.
  destruct (serve r bm) as [[a bm1]|e], (serve_spec _ r _) as [[a' s1]|e'];
    try contradiction; simpl in *; [|done].
  destruct Hr as (<- & Hwf1 & Hn & <-).
  specialize (IH bm1 Hwf1). rewrite Hn in IH.
  destruct (session serve rs bm1) as [[l bm2]|e], (session (serve_spec _) rs _) as [[l' s2]|e'];
    try contradiction; simpl in *; [naive_solver|done].
Qed.

Definition sample_bitmap : BitMap.BitMap := BitMap.mkBitMap 40 2 [4294967295; 3].

Lemma sample_bitmap_wf : BitMap.wf sample_bitmap.
Proof.
  split; try done. simpl. repeat constructor; unfold two32; lia.
Qed.

Lemma bitmap_refines_set_witness :
  agree 40 (session serve [RFindFreeSlot; RNumClear; RClear 3; RTest 3; RMark 99] sample_bitmap)
    (session (serve_spec 40) [RFindFreeSlot; RNumClear; RClear 3; RTest 3; RMark 99]
       (BitMap.allocated sample_bitmap))
  ∧ session serve [RFindFreeSlot; RNumClear; RClear 3; RFindFreeSlot] sample_bitmap
    = Ok ([ANum 34; ANum 5; ADone; ANum 3], BitMap.mkBitMap 40 2 [4294967295; 7]).
Proof.
  split.
  - exact (bitmap_refines_set _ sample_bitmap sample_bitmap_wf).
  - vm_compute. reflexivity.
Defined.

End BitMapSpec.
