(* ===== verification/NList.v ===== *)
(** * Singly linked lists (threads/list.cc, list.h)

    The class [List]: [ListElement] cells on the heap, a pointer to the first
    and one to the last of them.  It is the ready queue of the scheduler, the
    waiting queue of a semaphore and, sorted by time, the queue of pending
    interrupts.

    A list owns its cells (it allocates and deletes them itself), so the model
    keeps them in a heap of the list's own.  The abstract state is the sequence
    of (key, item) pairs.  The interface [KeyedList] is what the scheduler, the
    semaphores and the interrupt simulation rely on. *)

From S2P Require Import Prelude.

(** ** The abstract operations *)

Section abstract_list.
Context {A : Type}.

(** Insertion before the first element with a larger key: among equal keys,
    first come first served. *)
Fixpoint insert_by_key (x : A) (k : Z) (es : list (Z * A)) : list (Z * A) :=
  match es with
  | [] => [(k, x)]
  | (k', y) :: es' =>
      if k <? k' then (k, x) :: (k', y) :: es' else (k', y) :: insert_by_key x k es'
  end.

(** Keys in increasing order. *)
Fixpoint keys_sorted (es : list (Z * A)) : Prop :=
  match es with
  | [] => True
  | (k, _) :: es' => Forall (λ e, k ≤ e.1) es' ∧ keys_sorted es'
  end.

Lemma insert_by_key_perm x k es : insert_by_key x k es ≡ₚ (k, x) :: es.
Proof.
  induction es as [|[k' y] es IH]; simpl; [done|].
  destruct (k <? k'); [done|]. rewrite IH. apply Permutation_swap.
Qed.

Lemma insert_by_key_sorted x k es : keys_sorted es → keys_sorted (insert_by_key x k es).
Proof.
  induction es as [|[k' y] es IH]; simpl; [by repeat constructor|].
  intros [Hall Hs]. destruct (Z.ltb_spec k k'); simpl.
  - split_and!; try done. constructor; [simpl; lia|].
    eapply Forall_impl; [exact Hall|]. simpl. intros; lia.
  - split; [|by apply IH]. rewrite insert_by_key_perm. constructor; [simpl; lia|done].
Qed.

(** Elements with a key up to [k] stay in front of the new one, the others
    behind it. *)
Lemma insert_by_key_split x k es :
  keys_sorted es →
  insert_by_key x k es = filter (λ e, e.1 ≤ k) es ++ (k, x) :: filter (λ e, k < e.1) es.
Proof.
  induction es as [|[k' y] es IH]; simpl; [done|].
  intros [Hall Hs]. destruct (Z.ltb_spec k k').
  - rewrite filter_cons_False, filter_cons_True by (simpl; lia).
    rewrite list_filter_none, list_filter_all; [done| |];
      (eapply Forall_impl; [exact Hall|]); simpl; intros; lia.
  - rewrite filter_cons_True, filter_cons_False by (simpl; lia). by rewrite IH.
Qed.
End abstract_list.

(** ** The interface *)

Class KeyedList (A L : Type) := {
  kl_wf : L → Prop;
  kl_elems : L → list (Z * A);
  kl_new : L;
  kl_append : L → A → res L;
  kl_prepend : L → A → res L;
  kl_remove : L → res (option A * L);
  kl_is_empty : L → bool;
  kl_sorted_insert : L → A → Z → res L;
  kl_sorted_remove : L → res (option (A * Z) * L);
}.

Class KeyedListLaws (A L : Type) `{KeyedList A L} := {
  kl_new_spec : kl_wf kl_new ∧ kl_elems kl_new = [];
  kl_append_spec l x : kl_wf l →
    ∃ l', kl_append l x = Ok l' ∧ kl_wf l' ∧ kl_elems l' = kl_elems l ++ [(0, x)];
  kl_prepend_spec l x : kl_wf l →
    ∃ l', kl_prepend l x = Ok l' ∧ kl_wf l' ∧ kl_elems l' = (0, x) :: kl_elems l;
  kl_remove_spec l : kl_wf l →
    ∃ l', kl_remove l = Ok (snd <$> head (kl_elems l), l') ∧ kl_wf l' ∧
          kl_elems l' = tail (kl_elems l);
  kl_is_empty_spec l : kl_wf l → kl_is_empty l = bool_decide (kl_elems l = []);
  kl_sorted_insert_spec l x k : kl_wf l →
    ∃ l', kl_sorted_insert l x k = Ok l' ∧ kl_wf l' ∧
          kl_elems l' = insert_by_key x k (kl_elems l);
  kl_sorted_remove_spec l : kl_wf l →
    ∃ l', kl_sorted_remove l = Ok ((λ e, (e.2, e.1)) <$> head (kl_elems l), l') ∧ kl_wf l' ∧
          kl_elems l' = tail (kl_elems l);
}.

(** ** The implementation *)

Module NList.

(** An address of the heap; [NULL] is [None]. *)
Definition ptr : Type := option Z.

Section cells.
Context {A : Type}.

Record ListElement := mkElement {
  next : ptr;
  key : Z;
  item : A;
}.

Record List := mkList {
  heap : gmap Z ListElement;     (* the live ListElements of this list *)
  fresh_addr : Z;                (* where [new] will put the next one *)
  first : ptr;
  last : ptr;
}.

Definition with_next (e : ListElement) (p : ptr) : ListElement :=
  mkElement p (key e) (item e).

(** Following a pointer. *)
Definition deref (h : gmap Z ListElement) (p : ptr) : res (Z * ListElement) :=
  match p with
  | None => Stop Undefined
  | Some a => match h !! a with Some e => Ok (a, e) | None => Stop Undefined end
  end.

(** [p->next = q] *)
Definition set_next (h : gmap Z ListElement) (p q : ptr) : res (gmap Z ListElement) :=
  '(a, e) ← deref h p; Ok (<[a := with_next e q]> h).

(** [new ListElement(item, sortKey)] *)
Definition ListElement_new (l : List) (x : A) (sortKey : Z) : Z * gmap Z ListElement :=
  (fresh_addr l, <[fresh_addr l := mkElement None sortKey x]> (heap l)).

Definition List_new : List := mkList ∅ 0 None None.

Definition IsEmpty (l : List) : bool :=
  match first l with None => true | Some _ => false end.

Definition Append (l : List) (x : A) : res List :=
  let '(element, h) := ListElement_new l x 0 in
  if IsEmpty l then Ok (mkList h (element + 1) (Some element) (Some element))
  else
    h' ← set_next h (last l) (Some element);
    Ok (mkList h' (element + 1) (first l) (Some element)).

Definition Prepend (l : List) (x : A) : res List :=
  let '(element, h) := ListElement_new l x 0 in
  if IsEmpty l then Ok (mkList h (element + 1) (Some element) (Some element))
  else
    h' ← set_next h (Some element) (first l);
    Ok (mkList h' (element + 1) (Some element) (last l)).

(** The loop of [SortedInsert]: [None] when it runs off the end of the list,
    otherwise the heap after the insertion. *)
Fixpoint insert_loop (fuel : nat) (h : gmap Z ListElement) (element : Z) (sortKey : Z) (p : ptr)
    : res (option (gmap Z ListElement)) :=
  match fuel with
  | O => Stop OutOfFuel
  | S fuel' =>
      '(_, e) ← deref h p;
      match next e with
      | None => Ok None
      | Some _ =>
          '(_, e') ← deref h (next e);
          if sortKey <? key e' then
            h1 ← set_next h (Some element) (next e);
            h2 ← set_next h1 p (Some element);
            Ok (Some h2)
          else insert_loop fuel' h element sortKey (next e)
      end
  end.

Definition SortedInsert (l : List) (x : A) (sortKey : Z) : res List :=
  let '(element, h) := ListElement_new l x sortKey in
  if IsEmpty l then Ok (mkList h (element + 1) (Some element) (Some element))
  else
    '(_, e1) ← deref h (first l);
    if sortKey <? key e1 then
      h' ← set_next h (Some element) (first l);
      Ok (mkList h' (element + 1) (Some element) (last l))
    else
      r ← insert_loop (size h) h element sortKey (first l);
      match r with
      | Some h' => Ok (mkList h' (element + 1) (first l) (last l))
      | None =>
          h' ← set_next h (last l) (Some element);
          Ok (mkList h' (element + 1) (first l) (Some element))
      end.

(** The item and its key ([*keyPtr]); [None] is the NULL result. *)
Definition SortedRemove (l : List) : res (option (A * Z) * List) :=
  if IsEmpty l then Ok (None, l)
  else
    '(a, element) ← deref (heap l) (first l);
    let '(first', last') :=
      if bool_decide (first l = last l) then (None, None) else (next element, last l) in
    Ok (Some (item element, key element),
        mkList (delete a (heap l)) (fresh_addr l) first' last').

Definition Remove (l : List) : res (option A * List) :=
  '(r, l') ← SortedRemove l; Ok (option_map fst r, l').

(** The destructor: [while (Remove() != NULL) ;] *)
Fixpoint List_delete (fuel : nat) (l : List) : res List :=
  match fuel with
  | O => Stop OutOfFuel
  | S fuel' =>
      '(r, l') ← Remove l;
      match r with None => Ok l' | Some _ => List_delete fuel' l' end
  end.

(** The items [Mapcar] visits, in order. *)
Fixpoint Mapcar (fuel : nat) (h : gmap Z ListElement) (p : ptr) : res (list (Z * A)) :=
  match p with
  | None => Ok []
  | Some _ =>
      match fuel with
      | O => Stop OutOfFuel
      | S fuel' =>
          '(_, e) ← deref h p;
          es ← Mapcar fuel' h (next e);
          Ok ((key e, item e) :: es)
      end
  end.

(** The abstract state: what [Mapcar] visits from [first]. *)
Definition elems (l : List) : list (Z * A) :=
  match Mapcar (size (heap l)) (heap l) (first l) with Ok es => es | Stop _ => [] end.

(** *** Representation

    [chain h p addrs es]: from [p], the cells at [addrs] linked by [next] hold
    [es] and the last one has no successor. *)

Fixpoint chain (h : gmap Z ListElement) (p : ptr) (addrs : list Z) (es : list (Z * A)) : Prop :=
  match addrs, es with
  | [], [] => p = None
  | a :: addrs', (k, x) :: es' =>
      p = Some a ∧ ∃ nx, h !! a = Some (mkElement nx k x) ∧ chain h nx addrs' es'
  | _, _ => False
  end.

Record represents (l : List) (addrs : list Z) (es : list (Z * A)) : Prop := mkRep {
  rep_chain : chain (heap l) (first l) addrs es;
  rep_nodup : NoDup addrs;
  rep_dom : dom (heap l) = list_to_set addrs;       (* no cell is lost *)
  rep_last : last l = list.last addrs;
  rep_fresh : Forall (λ a, a < fresh_addr l) addrs;
}.

Definition wf (l : List) : Prop := ∃ addrs, represents l addrs (elems l).

(** *** Chains *)

Lemma set_next_ok h a e q :
  h !! a = Some e → set_next h (Some a) q = Ok (<[a := with_next e q]> h).
Proof. intros Ha. unfold set_next. simpl. by rewrite Ha. Qed.

Lemma chain_length h p addrs es : chain h p addrs es → length addrs = length es.
Proof.
  revert p es. induction addrs as [|a addrs IH]; intros p [|[k x] es]; simpl; try done.
  intros (_ & nx & _ & Hc). f_equal. by eapply IH.
Qed.

(** Cells off the chain do not matter. *)
Lemma chain_agree h h' p addrs es :
  (∀ a, a ∈ addrs → h' !! a = h !! a) → chain h p addrs es → chain h' p addrs es.
Proof.
  revert p es. induction addrs as [|a addrs IH]; intros p [|[k x] es] Hag; simpl; try done.
  intros (-> & nx & Ha & Hc). split; [done|]. exists nx. split.
  - rewrite Hag by (by left). done.
  - apply IH; [|done]. intros b Hb. apply Hag. by right.
Qed.

Lemma chain_insert h p addrs es a e :
  a ∉ addrs → chain h p addrs es → chain (<[a := e]> h) p addrs es.
Proof.
  intros Ha. apply chain_agree. intros b Hb. rewrite lookup_insert_ne; [done|].
  by intros ->.
Qed.

Lemma chain_delete h p addrs es a :
  a ∉ addrs → chain h p addrs es → chain (delete a h) p addrs es.
Proof.
  intros Ha. apply chain_agree. intros b Hb. rewrite lookup_delete_ne; [done|].
  by intros ->.
Qed.

Lemma chain_null h p addrs es : chain h p addrs es → (p = None ↔ es = []).
Proof. destruct addrs, es as [|[]]; simpl; naive_solver. Qed.

(** Linking a cell after the last one. *)
Lemma chain_snoc h p addrs z es a k x :
  chain h p (addrs ++ [z]) es → NoDup (addrs ++ [z]) → a ∉ addrs ++ [z] →
  ∃ e, h !! z = Some e ∧
    chain (<[z := with_next e (Some a)]> (<[a := mkElement None k x]> h))
      p (addrs ++ [z] ++ [a]) (es ++ [(k, x)]).
Proof.
  revert p es. induction addrs as [|b addrs IH]; intros p [|[k' y] es] Hc Hnd Ha;
    simpl in *; try contradiction.
  - destruct Hc as (-> & nx & Hz & Hnil). destruct es as [|[]]; [|done].
    assert (a ≠ z) by set_solver. eexists. split; [exact Hz|]. simpl.
    split; [done|]. exists (Some a). rewrite lookup_insert_eq. split; [done|].
    split; [done|]. exists None. rewrite lookup_insert_ne, lookup_insert_eq by done. done.
  - destruct Hc as (-> & nx & Hb & Hc). apply NoDup_cons in Hnd as [Hnb Hnd].
    destruct (IH nx es Hc Hnd) as (e & Hz & Hc'); [set_solver|].
    exists e. split; [done|]. split; [done|]. exists nx. split; [|exact Hc'].
    rewrite !lookup_insert_ne; [done| |]; set_solver.
Qed.

(** *** The abstract state is determined by the representation *)

Lemma Mapcar_chain h p addrs es fuel :
  chain h p addrs es → (length es ≤ fuel)%nat → Mapcar fuel h p = Ok es.
Proof.
  revert p es fuel. induction addrs as [|a addrs IH]; intros p [|[k x] es] fuel; simpl; try done.
  - intros -> _. by destruct fuel.
  - intros (-> & nx & Ha & Hc) Hf. destruct fuel as [|fuel]; [simpl in Hf; lia|].
    simpl. rewrite Ha. simpl. rewrite (IH nx es fuel Hc) by (simpl in Hf; lia). done.
Qed.

Lemma represents_size l addrs es : represents l addrs es → size (heap l) = length es.
Proof.
  intros [Hc Hnd Hd _ _]. rewrite <- (chain_length _ _ _ _ Hc).
  rewrite <- size_dom, Hd. by apply size_list_to_set.
Qed.

Lemma represents_elems l addrs es : represents l addrs es → elems l = es.
Proof.
  intros Hr. unfold elems. rewrite (Mapcar_chain _ _ addrs es).
  - done.
  - apply Hr.
  - by rewrite (represents_size _ _ _ Hr).
Qed.

Lemma represents_wf l addrs es : represents l addrs es → wf l ∧ elems l = es.
Proof.
  intros Hr. pose proof (represents_elems _ _ _ Hr) as He.
  split; [|done]. exists addrs. by rewrite He.
Qed.

Lemma fresh_not_in l addrs es : represents l addrs es → fresh_addr l ∉ addrs.
Proof.
  intros [_ _ _ _ Hf] Hin. rewrite Forall_forall in Hf.
  pose proof (Hf _ Hin). lia.
Qed.

Lemma IsEmpty_spec l addrs es : represents l addrs es → IsEmpty l = bool_decide (es = []).
Proof.
  intros [Hc _ _ _ _]. apply chain_null in Hc. unfold IsEmpty.
  destruct (first l).
  - rewrite bool_decide_eq_false_2; [done|]. rewrite <- Hc. done.
  - rewrite bool_decide_eq_true_2; [done|]. by apply Hc.
Qed.

(** *** The three ways a new cell is linked *)

Section linking.
Context (l : List) (addrs : list Z) (es : list (Z * A)) (x : A) (k : Z).
Context (Hr : represents l addrs es).

Let a := fresh_addr l.
Let h : gmap Z ListElement := <[a := mkElement None k x]> (heap l).

Lemma fresh_bound addrs' :
  addrs' ≡ₚ a :: addrs → Forall (λ b, b < a + 1) addrs'.
Proof using Hr.
  intros ->. constructor; [lia|]. eapply Forall_impl; [apply Hr|]. simpl. unfold a. lia.
Qed.

Lemma link_only : es = [] → represents (mkList h (a + 1) (Some a) (Some a)) [a] [(k, x)].
Proof using Hr.
  intros ->. destruct Hr as [Hc _ Hd _ _].
  destruct addrs as [|? ?]; [|done]. split; simpl.
  - split; [done|]. exists None. unfold h. by rewrite lookup_insert_eq.
  - apply NoDup_singleton.
  - unfold h. rewrite dom_insert_L, Hd. set_solver.
  - done.
  - repeat constructor. lia.
Qed.

Lemma link_last :
  es ≠ [] →
  ∃ h', set_next h (last l) (Some a) = Ok h' ∧
        represents (mkList h' (a + 1) (first l) (Some a)) (addrs ++ [a]) (es ++ [(k, x)]).
Proof using Hr.
  intros Hne. pose proof (fresh_not_in _ _ _ Hr) as Ha. fold a in Ha.
  pose proof fresh_bound as Hfb.
  destruct Hr as [Hc Hnd Hd Hl Hf].
  destruct addrs as [|z addrs0 _] using rev_ind; [destruct es as [|[]]; done|].
  rewrite last_snoc in Hl.
  destruct (chain_snoc _ _ _ _ _ a k x Hc Hnd Ha) as (e & Hz & Hc').
  assert (a ≠ z) by set_solver.
  eexists. split.
  - rewrite Hl. apply set_next_ok. unfold h. by rewrite lookup_insert_ne.
  - split; simpl.
    + by rewrite <- app_assoc.
    + by apply NoDup_snoc.
    + rewrite dom_insert_L. unfold h. rewrite dom_insert_L, Hd. set_solver.
    + by rewrite last_snoc.
    + apply Hfb. by rewrite Permutation_app_comm.
Qed.

Lemma link_first :
  es ≠ [] →
  ∃ h', set_next h (Some a) (first l) = Ok h' ∧
        represents (mkList h' (a + 1) (Some a) (last l)) (a :: addrs) ((k, x) :: es).
Proof using Hr.
  intros Hne. pose proof (fresh_not_in _ _ _ Hr) as Ha. fold a in Ha.
  pose proof fresh_bound as Hfb.
  destruct Hr as [Hc Hnd Hd Hl Hf].
  eexists. split.
  - apply set_next_ok. unfold h. apply lookup_insert_eq.
  - split; simpl.
    + split; [done|]. exists (first l). rewrite lookup_insert_eq. split; [done|].
      unfold h. apply chain_insert; [done|]. by apply chain_insert.
    + by constructor.
    + rewrite dom_insert_L. unfold h. rewrite dom_insert_L, Hd. set_solver.
    + rewrite Hl. destruct addrs; [|done]. destruct es; done.
    + by apply Hfb.
Qed.
End linking.

(** The loop of [SortedInsert] from a cell with key at most [k]. *)
Lemma insert_loop_spec fuel h el k x p kp xp addrs es :
  chain h (Some p) (p :: addrs) ((kp, xp) :: es) →
  NoDup (p :: addrs) → el ∉ p :: addrs → h !! el = Some (mkElement None k x) →
  (length es < fuel)%nat →
  (insert_loop fuel h el k (Some p) = Ok None ∧
   insert_by_key x k es = es ++ [(k, x)])
  ∨ ∃ h' addrs', insert_loop fuel h el k (Some p) = Ok (Some h') ∧
      chain h' (Some p) (p :: addrs') ((kp, xp) :: insert_by_key x k es) ∧
      addrs' ≡ₚ el :: addrs ∧ list.last (p :: addrs') = list.last (p :: addrs) ∧
      (∀ b, b ∉ el :: p :: addrs → h' !! b = h !! b) ∧ dom h' = dom h.
Proof.
  revert p kp xp addrs es. induction fuel as [|fuel IH]; intros p kp xp addrs es; [lia|].
  intros (_ & nx & Hp & Hc) Hnd Hel Hhel Hfuel. cbn [insert_loop deref]. rewrite Hp. simpl.
  destruct addrs as [|q addrs], es as [|[kq xq] es]; try done.
  - simpl in Hc. subst nx. by left.
  - destruct Hc as (-> & nx' & Hq & Hc). cbn [deref]. rewrite Hq. simpl.
    assert (el ≠ p ∧ p ≠ q ∧ el ≠ q) as (Hep & Hpq & Heq).
    { apply NoDup_cons in Hnd as [Hpn _]. set_solver. }
    destruct (Z.ltb_spec k kq) as [Hlt|Hge].
    + right. rewrite (set_next_ok _ _ _ _ Hhel). simpl.
      rewrite (set_next_ok _ p (mkElement (Some q) kp xp))
        by (by rewrite lookup_insert_ne). simpl.
      eexists _, (el :: q :: addrs). split; [done|]. split_and!; try done.
      * exists (Some el). rewrite lookup_insert_eq. split; [done|]. split; [done|].
        exists (Some q). rewrite lookup_insert_ne, lookup_insert_eq by done. split; [done|].
        apply chain_insert; [by apply NoDup_cons in Hnd as [? _]|].
        apply chain_insert; [set_solver|]. simpl. naive_solver.
      * intros b Hb. rewrite !lookup_insert_ne by set_solver. done.
      * apply elem_of_dom_2 in Hhel, Hp. rewrite !dom_insert_L. set_solver.
    + apply NoDup_cons in Hnd as [Hpn Hnd].
      destruct (IH q kq xq addrs es) as [[E1 E2]|(h' & addrs' & E1 & Hc' & Hperm & Hlast & Hoff & Hd)].
      * simpl. naive_solver.
      * done.
      * set_solver.
      * done.
      * simpl in Hfuel. lia.
      * left. split; [done|]. by rewrite E2.
      * right. exists h', (q :: addrs'). split; [done|]. split_and!; [done| | | | |done].
        -- exists (Some q). split; [|exact Hc'].
           rewrite Hoff by set_solver. done.
        -- rewrite Hperm. apply Permutation_swap.
        -- rewrite !(last_cons_cons p). done.
        -- intros b Hb. apply Hoff. set_solver.
Qed.

(** *** The operations *)

Lemma wf_represents l : wf l → ∃ addrs, represents l addrs (elems l).
Proof. done. Qed.

Lemma List_new_spec : wf List_new ∧ elems List_new = [].
Proof.
  apply (represents_wf _ []). by split; simpl; try constructor.
Qed.

Lemma Append_spec l x :
  wf l → ∃ l', Append l x = Ok l' ∧ wf l' ∧ elems l' = elems l ++ [(0, x)].
Proof.
  intros [addrs Hr]. unfold Append. simpl. rewrite (IsEmpty_spec _ _ _ Hr).
  case_bool_decide as He.
  - eexists. split; [done|]. rewrite He. eapply represents_wf, link_only; done.
  - destruct (link_last l addrs _ x 0 Hr He) as (h' & -> & Hr'). simpl.
    eexists. split; [done|]. by eapply represents_wf.
Qed.

Lemma Prepend_spec l x :
  wf l → ∃ l', Prepend l x = Ok l' ∧ wf l' ∧ elems l' = (0, x) :: elems l.
Proof.
  intros [addrs Hr]. unfold Prepend. simpl. rewrite (IsEmpty_spec _ _ _ Hr).
  case_bool_decide as He.
  - eexists. split; [done|]. rewrite He. eapply represents_wf, link_only; done.
  - destruct (link_first l addrs _ x 0 Hr He) as (h' & -> & Hr'). simpl.
    eexists. split; [done|]. by eapply represents_wf.
Qed.

Lemma SortedInsert_spec l x k :
  wf l → ∃ l', SortedInsert l x k = Ok l' ∧ wf l' ∧ elems l' = insert_by_key x k (elems l).
Proof.
  intros [addrs Hr]. unfold SortedInsert. simpl. rewrite (IsEmpty_spec _ _ _ Hr).
  case_bool_decide as He.
  { eexists. split; [done|]. rewrite He. eapply represents_wf, link_only; done. }
  pose proof (fresh_not_in _ _ _ Hr) as Hfr.
  pose proof (link_first l addrs _ x k Hr He) as Hfirst.
  pose proof (link_last l addrs _ x k Hr He) as Hlast.
  pose proof (represents_size _ _ _ Hr) as Hsize.
  destruct (elems l) as [|[k1 x1] es] eqn:Hes; [done|].
  destruct Hr as [Hc Hnd Hd Hl Hf]. destruct addrs as [|p addrs]; [done|].
  assert (fresh_addr l ≠ p) by set_solver.
  assert (chain (<[fresh_addr l := mkElement None k x]> (heap l)) (first l) (p :: addrs)
            ((k1, x1) :: es)) as Hc1 by (by apply chain_insert).
  destruct Hc as (Hp & nx & Hpl & Hc). rewrite Hp. cbn [deref].
  rewrite lookup_insert_ne, Hpl by done. simpl.
  destruct (Z.ltb_spec k k1) as [Hlt|Hge].
  { destruct Hfirst as (h' & E & Hr'). rewrite Hp in E. rewrite E. simpl.
    eexists. split; [done|]. by eapply represents_wf. }
  rewrite Hp in Hc1.
  destruct (insert_loop_spec (size (<[fresh_addr l := mkElement None k x]> (heap l))) _
    (fresh_addr l) k x p k1 x1 addrs es Hc1 Hnd Hfr) as
    [[E1 E2]|(h' & addrs' & E1 & Hc' & Hperm & Hlst & _ & Hdom)].
  - by rewrite lookup_insert_eq.
  - rewrite map_size_insert_None, Hsize; [simpl; lia|].
    apply not_elem_of_dom. rewrite Hd. by rewrite elem_of_list_to_set.
  - rewrite E1. simpl. destruct Hlast as (h' & E & Hr'). rewrite E. simpl.
    eexists. split; [done|]. rewrite E2, <- Hp. apply (represents_wf _ _ _ Hr').
  - rewrite E1. simpl. eexists. split; [done|].
    assert (p :: addrs' ≡ₚ fresh_addr l :: p :: addrs) as Hperm'.
    { rewrite Hperm. apply Permutation_swap. }
    apply (represents_wf _ (p :: addrs')). split; simpl.
    + exact Hc'.
    + rewrite Hperm'. by constructor.
    + rewrite Hdom, dom_insert_L, Hd, Hperm. set_solver.
    + by rewrite Hlst.
    + rewrite Hperm'. constructor; [lia|]. eapply Forall_impl; [exact Hf|]. simpl. lia.
Qed.

Lemma SortedRemove_spec l :
  wf l →
  ∃ l', SortedRemove l = Ok ((λ e, (e.2, e.1)) <$> head (elems l), l') ∧ wf l' ∧
        elems l' = tail (elems l).
Proof.
  intros [addrs Hr]. unfold SortedRemove. rewrite (IsEmpty_spec _ _ _ Hr).
  case_bool_decide as He.
  { rewrite He. eexists. split; [done|]. split; [by exists addrs|done]. }
  destruct (elems l) as [|[k1 x1] es] eqn:Hes; [done|].
  destruct Hr as [Hc Hnd Hd Hl Hf]. destruct addrs as [|p addrs]; [done|].
  destruct Hc as (Hp & nx & Hpl & Hc). rewrite Hp. simpl. rewrite Hpl. simpl.
  apply NoDup_cons in Hnd as [Hpn Hnd]. apply Forall_cons in Hf as [Hpf Hf].
  destruct addrs as [|q addrs]; simpl in Hl; rewrite Hl.
  - destruct es as [|[]]; [|done]. rewrite bool_decide_eq_true_2 by done.
    eexists. split; [done|]. apply (represents_wf _ []). split; simpl; try done.
    rewrite dom_delete_L, Hd. set_solver.
  - rewrite bool_decide_eq_false_2.
    + eexists. split; [done|]. apply (represents_wf _ (q :: addrs)). split; try done.
      * by apply chain_delete.
      * simpl. rewrite dom_delete_L, Hd. set_solver.
    + intros E. apply Hpn. apply last_Some_elem_of. by rewrite <- E.
Qed.

Lemma Remove_spec l :
  wf l →
  ∃ l', Remove l = Ok (snd <$> head (elems l), l') ∧ wf l' ∧ elems l' = tail (elems l).
Proof.
  intros Hwf. destruct (SortedRemove_spec l Hwf) as (l' & E & Hwf' & He).
  exists l'. split; [|done]. unfold Remove. rewrite E. simpl.
  by destruct (elems l) as [|[]].
Qed.

(** The destructor stops after one more round than there are elements and
    leaves an empty heap. *)
Lemma List_delete_spec l fuel :
  wf l → (length (elems l) < fuel)%nat →
  ∃ l', List_delete fuel l = Ok l' ∧ heap l' = ∅ ∧ first l' = None.
Proof.
  revert l. induction fuel as [|fuel IH]; intros l Hwf Hf; [lia|]. simpl.
  destruct (Remove_spec l Hwf) as (l' & E & Hwf' & He). rewrite E. simpl.
  destruct (elems l) as [|e es] eqn:Hes; simpl.
  - exists l'. split; [done|]. destruct Hwf' as [addrs [Hc _ Hd _ _]].
    rewrite He in Hc. destruct addrs; [|done]. split; [|done].
    by apply dom_empty_inv_L.
  - apply IH; [done|]. rewrite He. simpl in *. lia.
Qed.

End cells.
Arguments ListElement : clear implicits.
Arguments List : clear implicits.

End NList.

#[export] Instance NList_KeyedList A : KeyedList A (NList.List A) := {
  kl_wf := NList.wf;
  kl_elems := NList.elems;
  kl_new := NList.List_new;
  kl_append := NList.Append;
  kl_prepend := NList.Prepend;
  kl_remove := NList.Remove;
  kl_is_empty := NList.IsEmpty;
  kl_sorted_insert := NList.SortedInsert;
  kl_sorted_remove := NList.SortedRemove;
}.

#[export] Instance NList_KeyedListLaws A : KeyedListLaws A (NList.List A).
Proof.
  split; simpl.
  - exact NList.List_new_spec.
  - exact NList.Append_spec.
  - exact NList.Prepend_spec.
  - exact NList.Remove_spec.
  - intros l [addrs Hr]. by apply (NList.IsEmpty_spec _ addrs).
  - exact NList.SortedInsert_spec.
  - exact NList.SortedRemove_spec.
Qed.

(** ** The refinement: a linked list behaves as a sequence *)

Module NListSpec.

Section sessions.
Context {A : Type}.

Inductive request :=
  | RAppend (x : A)
  | RPrepend (x : A)
  | RRemove
  | RSortedInsert (x : A) (sortKey : Z)
  | RSortedRemove
  | RIsEmpty.

Inductive answer :=
  | ADone
  | AItem (r : option A)
  | AKeyed (r : option (A * Z))
  | ABool (b : bool).

Definition serve (r : request) (l : NList.List A) : res (answer * NList.List A) :=
  match r with
  | RAppend x => l' ← NList.Append l x; Ok (ADone, l')
  | RPrepend x => l' ← NList.Prepend l x; Ok (ADone, l')
  | RRemove => '(x, l') ← NList.Remove l; Ok (AItem x, l')
  | RSortedInsert x k => l' ← NList.SortedInsert l x k; Ok (ADone, l')
  | RSortedRemove => '(x, l') ← NList.SortedRemove l; Ok (AKeyed x, l')
  | RIsEmpty => Ok (ABool (NList.IsEmpty l), l)
  end.

Definition serve_spec (r : request) (es : list (Z * A)) : answer * list (Z * A) :=
  match r with
  | RAppend x => (ADone, es ++ [(0, x)])
  | RPrepend x => (ADone, (0, x) :: es)
  | RRemove => (AItem (snd <$> head es), tail es)
  | RSortedInsert x k => (ADone, insert_by_key x k es)
  | RSortedRemove => (AKeyed ((λ e, (e.2, e.1)) <$> head es), tail es)
  | RIsEmpty => (ABool (bool_decide (es = [])), es)
  end.

Fixpoint session (rs : list request) (l : NList.List A) : res (list answer * NList.List A) :=
  match rs with
  | [] => Ok ([], l)
  | r :: rs' => '(a, l1) ← serve r l; '(out, l2) ← session rs' l1; Ok (a :: out, l2)
  end.

Fixpoint session_spec (rs : list request) (es : list (Z * A)) : list answer * list (Z * A) :=
  match rs with
  | [] => ([], es)
  | r :: rs' =>
      let '(a, es1) := serve_spec r es in
      let '(out, es2) := session_spec rs' es1 in (a :: out, es2)
  end.

Lemma serve_refines_seq r l :
  NList.wf l →
  ∃ l', serve r l = Ok ((serve_spec r (NList.elems l)).1, l') ∧ NList.wf l' ∧
        NList.elems l' = (serve_spec r (NList.elems l)).2.
Proof.
  intros Hwf. destruct r as [x|x| |x k| |]; simpl.
  - destruct (NList.Append_spec l x Hwf) as (l' & -> & ?). by exists l'.
  - destruct (NList.Prepend_spec l x Hwf) as (l' & -> & ?). by exists l'.
  - destruct (NList.Remove_spec l Hwf) as (l' & -> & ?). by exists l'.
  - destruct (NList.SortedInsert_spec l x k Hwf) as (l' & -> & ?). by exists l'.
  - destruct (NList.SortedRemove_spec l Hwf) as (l' & -> & ?). by exists l'.
  - exists l. destruct Hwf as [addrs Hr]. rewrite (NList.IsEmpty_spec _ _ _ Hr).
    split; [done|]. split; [by exists addrs|done].
Qed.

(** C6.  Whatever list operations are performed, in whatever order, the linked
    cells behave as a plain sequence: nothing dereferences a null or freed cell,
    every answer (removed item, its key, emptiness) is the sequence's, no cell
    is leaked or shared, and the loop that searches the insertion point always
    terminates. *)
Theorem list_refines_sequence rs l :
  NList.wf l →
  ∃ l', session rs l = Ok ((session_spec rs (NList.elems l)).1, l') ∧ NList.wf l' ∧
        NList.elems l' = (session_spec rs (NList.elems l)).2.
Proof.
  revert l. induction rs as [|r rs IH]; intros l Hwf; simpl; [by exists l|].
  destruct (serve_refines_seq r l Hwf) as (l1 & -> & Hwf1 & He1).
  destruct (serve_spec r (NList.elems l)) as [a es1] eqn:Er. simpl in *. subst es1.
  destruct (IH l1 Hwf1) as (l2 & -> & Hwf2 & He2).
  destruct (session_spec rs (NList.elems l1)) as [out es2]. simpl in *.
  by exists l2.
Qed.

(** Sorted insertion keeps the keys in increasing order, and is fair among
    equal keys: the new item comes after everything with a key up to its own and
    before everything with a larger key. *)
Theorem sorted_insert_ordered (l : NList.List A) x k :
  NList.wf l → keys_sorted (NList.elems l) →
  ∃ l', NList.SortedInsert l x k = Ok l' ∧ NList.wf l' ∧ keys_sorted (NList.elems l') ∧
        NList.elems l' = filter (λ e, e.1 ≤ k) (NList.elems l) ++
                         (k, x) :: filter (λ e, k < e.1) (NList.elems l).
Proof.
  intros Hwf Hs. destruct (NList.SortedInsert_spec l x k Hwf) as (l' & E & Hwf' & He).
  exists l'. split_and!; try done.
  - rewrite He. by apply insert_by_key_sorted.
  - rewrite He. by apply insert_by_key_split.
Qed.
End sessions.

Definition sample_run : res (list answer * NList.List nat) :=
  session [RSortedInsert 7%nat 30; RSortedInsert 8%nat 10; RSortedInsert 9%nat 30;
           RSortedRemove; RRemove; RRemove; RIsEmpty] NList.List_new.

Lemma list_refines_sequence_witness :
  (∃ l', sample_run =
      Ok ([ADone; ADone; ADone; AKeyed (Some (8%nat, 10)); AItem (Some 7%nat);
           AItem (Some 9%nat); ABool true], l') ∧ NList.wf l' ∧ NList.elems l' = []).
Proof.
  exact (list_refines_sequence _ NList.List_new (proj1 NList.List_new_spec)).
Defined.

Lemma sorted_insert_ordered_witness :
  ∃ l', NList.SortedInsert NList.List_new 5%nat 12 = Ok l' ∧ NList.wf l' ∧
        keys_sorted (NList.elems l') ∧ NList.elems l' = [(12, 5%nat)].
Proof.
  exact (sorted_insert_ordered NList.List_new 5%nat 12 (proj1 NList.List_new_spec) I).
Defined.

End NListSpec.
