(* ===== verification/Machine.v ===== *)
(** * The simulated machine: registers, memory, address translation
    (machine/machine.cc, machine.h, translate.cc, translate.h)

    The state of class [Machine] and the routines the kernel and the
    instruction simulator use: register access, the linear page table or TLB
    ([Translate]), reads and writes of 1, 2 or 4 bytes of virtual memory, and
    the trap into the kernel ([RaiseException]).

    The kernel is what machine.h declares as [extern void ExceptionHandler]:
    the class [Kernel] below, instantiated by the system-call handlers. *)

From S2P Require Import Prelude.

(** ** Constants and types of machine.h, disk.h and interrupt.h *)

Definition SectorSize : Z := 512.
Definition PageSize : Z := SectorSize.
Definition NumPhysPages : Z := 128.
Definition MemorySize : Z := NumPhysPages * PageSize.
Definition TLBSize : Z := 4.

Inductive ExceptionType :=
  | NoException
  | SyscallException
  | PageFaultException
  | ReadOnlyException
  | BusErrorException
  | AddressErrorException
  | OverflowException
  | IllegalInstrException.

#[export] Instance ExceptionType_eq_dec : EqDecision ExceptionType.
Proof. solve_decision. Defined.

Inductive MachineStatus := IdleMode | SystemMode | UserMode.

#[export] Instance MachineStatus_eq_dec : EqDecision MachineStatus.
Proof. solve_decision. Defined.

Definition StackReg : Z := 29.
Definition RetAddrReg : Z := 31.
Definition NumGPRegs : Z := 32.
Definition HiReg : Z := 32.
Definition LoReg : Z := 33.
Definition PCReg : Z := 34.
Definition NextPCReg : Z := 35.
Definition PrevPCReg : Z := 36.
Definition LoadReg : Z := 37.
Definition LoadValueReg : Z := 38.
Definition BadVAddrReg : Z := 39.
Definition NumTotalRegs : Z := 40.

Record TranslationEntry := mkEntry {
  virtualPage : Z;
  physicalPage : Z;
  valid : bool;
  readOnly : bool;
  use : bool;
  dirty : bool;
}.

(** [mainMemory] holds bytes (0 to 255); an absent byte is 0, as the
    constructor leaves it.  A NULL [tlb] or [pageTable] is [None]. *)
Record Machine := mkMachine {
  registers : list Z;
  mainMemory : gmap Z Z;
  tlb : option (list TranslationEntry);
  pageTable : option (list TranslationEntry);
  pageTableSize : Z;
}.

Definition with_registers (m : Machine) (r : list Z) : Machine :=
  mkMachine r (mainMemory m) (tlb m) (pageTable m) (pageTableSize m).
Definition with_memory (m : Machine) (mem : gmap Z Z) : Machine :=
  mkMachine (registers m) mem (tlb m) (pageTable m) (pageTableSize m).
Definition with_tlb (m : Machine) (t : option (list TranslationEntry)) : Machine :=
  mkMachine (registers m) (mainMemory m) t (pageTable m) (pageTableSize m).
Definition with_pageTable (m : Machine) (t : option (list TranslationEntry)) : Machine :=
  mkMachine (registers m) (mainMemory m) (tlb m) t (pageTableSize m).

(** Registers by number, for the fixed register numbers above and the 5-bit
    fields of an instruction, which are always in range. *)
Definition reg (m : Machine) (r : Z) : Z := default 0 (registers m !! Z.to_nat r).
Definition set_reg (m : Machine) (r v : Z) : Machine :=
  with_registers m (<[Z.to_nat r := v]> (registers m)).

(** The constructor, without TLB ([USE_TLB] is not defined in userprog). *)
Definition Machine_new : Machine :=
  mkMachine (replicate (Z.to_nat NumTotalRegs) 0) ∅ None None 0.

Definition ReadRegister (m : Machine) (num : Z) : res Z :=
  ASSERT ((num >=? 0) && (num <? NumTotalRegs));; arr_get (registers m) num.

Definition WriteRegister (m : Machine) (num value : Z) : res Machine :=
  ASSERT ((num >=? 0) && (num <? NumTotalRegs));;
  r ← arr_set (registers m) num value; Ok (with_registers m r).

(** ** Byte order (translate.cc, lines 41 to 71)

    [be] is HOST_IS_BIG_ENDIAN. *)

Definition WordToHost (be : bool) (word : Z) : Z :=
  if be then
    let result := Z.land (Z.shiftr word 24) 0x000000ff in
    let result := Z.lor result (Z.land (Z.shiftr word 8) 0x0000ff00) in
    let result := Z.lor result (Z.land (Z.shiftl word 8) 0x00ff0000) in
    Z.lor result (Z.land (Z.shiftl word 24) 0xff000000)
  else word.

Definition ShortToHost (be : bool) (shortword : Z) : Z :=
  if be then
    let result := Z.land (Z.shiftl shortword 8) 0xff00 in
    Z.lor result (Z.land (Z.shiftr shortword 8) 0x00ff)
  else shortword.

Definition WordToMachine (be : bool) (word : Z) : Z := WordToHost be word.
Definition ShortToMachine (be : bool) (shortword : Z) : Z := ShortToHost be shortword.

(** The host reads or writes an integer in memory in its own byte order. *)
Definition host_load (be : bool) (bs : list Z) : Z :=
  le_value (if be then rev bs else bs).
Definition host_store (be : bool) (n : nat) (v : Z) : list Z :=
  if be then rev (le_bytes n v) else le_bytes n v.

(** The i386 host of Makefile.common. *)
Definition HOST_IS_BIG_ENDIAN : bool := false.

(** ** Address translation *)

(** [for (i = 0; i < TLBSize; i++) if (tlb[i].valid && tlb[i].virtualPage == vpn)]:
    the index of the entry found. *)
Fixpoint tlb_search (t : list TranslationEntry) (vpn i : Z) (n : nat) : res (option Z) :=
  match n with
  | O => Ok None
  | S n' =>
      e ← arr_get t i;
      if valid e && (u32 (virtualPage e) =? vpn) then Ok (Some i)
      else tlb_search t vpn (i + 1) n'
  end.

(** The part of [Translate] after an entry is found: protection and frame
    checks, the use and dirty bits. *)
Definition use_entry (entry : TranslationEntry) (offset size : Z) (writing : bool)
    : res (ExceptionType * Z * TranslationEntry) :=
  if readOnly entry && writing then Ok (ReadOnlyException, 0, entry)
  else
    let pageFrame := u32 (physicalPage entry) in
    if pageFrame >=? NumPhysPages then Ok (BusErrorException, 0, entry)
    else
      let entry' := mkEntry (virtualPage entry) (physicalPage entry) (valid entry)
                      (readOnly entry) true (if writing then true else dirty entry) in
      let physAddr := pageFrame * PageSize + offset in
      ASSERT ((physAddr >=? 0) && (physAddr + size <=? MemorySize));;
      Ok (NoException, physAddr, entry').

(** The exception, the physical address (meaningful for [NoException] only)
    and the machine with its use and dirty bits updated. *)
Definition Translate (m : Machine) (virtAddr size : Z) (writing : bool)
    : res (ExceptionType * Z * Machine) :=
  if ((size =? 4) && negb (Z.land virtAddr 3 =? 0))
     || ((size =? 2) && negb (Z.land virtAddr 1 =? 0))
  then Ok (AddressErrorException, 0, m)
  else
    ASSERT (bool_decide (tlb m = None) || bool_decide (pageTable m = None));;
    ASSERT (bool_decide (tlb m ≠ None) || bool_decide (pageTable m ≠ None));;
    let vpn := u32 virtAddr / PageSize in
    let offset := u32 virtAddr mod PageSize in
    match tlb m, pageTable m with
    | None, Some pt =>
        if vpn >=? pageTableSize m then Ok (AddressErrorException, 0, m)
        else
          e ← arr_get pt vpn;
          if negb (valid e) then Ok (PageFaultException, 0, m)
          else
            '(exc, pa, e') ← use_entry e offset size writing;
            pt' ← arr_set pt vpn e';
            Ok (exc, pa, with_pageTable m (Some pt'))
    | Some t, _ =>
        found ← tlb_search t vpn 0 (Z.to_nat TLBSize);
        match found with
        | None => Ok (PageFaultException, 0, m)
        | Some i =>
            e ← arr_get t i;
            '(exc, pa, e') ← use_entry e offset size writing;
            t' ← arr_set t i e';
            Ok (exc, pa, with_tlb m (Some t'))
        end
    | None, None => Stop Undefined
    end.

(** ** Traps into the kernel *)

(** What the machine needs of the kernel: the exception handler (exception.cc)
    and [interrupt->setStatus]. *)
Class Kernel (K : Type) := {
  setStatus : MachineStatus → K → K;
  ExceptionHandler : ExceptionType → Machine * K → res (Machine * K);
}.

(** [registers[registers[LoadReg]] = registers[LoadValueReg]] *)
Definition DelayedLoad (m : Machine) (nextReg nextValue : Z) : res Machine :=
  r ← arr_set (registers m) (reg m LoadReg) (reg m LoadValueReg);
  let m1 := with_registers m r in
  let m2 := set_reg m1 LoadReg nextReg in
  let m3 := set_reg m2 LoadValueReg nextValue in
  Ok (set_reg m3 0 0).

Section traps.
Context {K : Type} `{Kernel K}.

Definition RaiseException (which : ExceptionType) (badVAddr : Z) (st : Machine * K)
    : res (Machine * K) :=
  let '(m, k) := st in
  m1 ← DelayedLoad (set_reg m BadVAddrReg badVAddr) 0 0;
  '(m2, k2) ← ExceptionHandler which (m1, setStatus SystemMode k);
  Ok (m2, setStatus UserMode k2).

(** [None]: the routine returned FALSE after the trap; [Some v]: TRUE, with
    [*value = v]. *)
Definition ReadMem (addr size : Z) (st : Machine * K) : res (option Z * (Machine * K)) :=
  let '(m, k) := st in
  '(exception, physicalAddress, m1) ← Translate m addr size false;
  if bool_decide (exception ≠ NoException) then
    st' ← RaiseException exception addr (m1, k); Ok (None, st')
  else
    let bytes := read_bytes (mainMemory m1) physicalAddress (Z.to_nat size) in
    if size =? 1 then Ok (Some (s8 (le_value bytes)), (m1, k))
    else if size =? 2 then
      Ok (Some (ShortToHost HOST_IS_BIG_ENDIAN (host_load HOST_IS_BIG_ENDIAN bytes)), (m1, k))
    else if size =? 4 then
      Ok (Some (s32 (WordToHost HOST_IS_BIG_ENDIAN (host_load HOST_IS_BIG_ENDIAN bytes))), (m1, k))
    else Stop AssertFailed.

Definition WriteMem (addr size value : Z) (st : Machine * K) : res (bool * (Machine * K)) :=
  let '(m, k) := st in
  '(exception, physicalAddress, m1) ← Translate m addr size true;
  if bool_decide (exception ≠ NoException) then
    st' ← RaiseException exception addr (m1, k); Ok (false, st')
  else
    let store bs := with_memory m1 (write_bytes (mainMemory m1) physicalAddress bs) in
    if size =? 1 then Ok (true, (store [Z.land value 0xff], k))
    else if size =? 2 then
      Ok (true, (store (host_store HOST_IS_BIG_ENDIAN 2
                   (ShortToMachine HOST_IS_BIG_ENDIAN (Z.land value 0xffff))), k))
    else if size =? 4 then
      Ok (true, (store (host_store HOST_IS_BIG_ENDIAN 4
                   (WordToMachine HOST_IS_BIG_ENDIAN (u32 value))), k))
    else Stop AssertFailed.

(** The copying loop of [User2System]: [buf] is the kernel buffer, [oneChar]
    the local variable, which keeps its value when [ReadMem] fails. *)
Fixpoint u2s_loop (n : nat) (virtAddr idx oneChar : Z) (buf : list Z) (st : Machine * K)
    : res (list Z * (Machine * K)) :=
  match n with
  | O => Ok (buf, st)
  | S n' =>
      '(v, st') ← ReadMem (s32 (virtAddr + idx)) 1 st;
      let c := match v with Some c => c | None => oneChar end in
      buf' ← arr_set buf idx (u8 c);
      if c =? 0 then Ok (buf', st') else u2s_loop n' virtAddr (idx + 1) c buf' st'
  end.

(** [garbage] is what the uninitialised [oneChar] holds.  The buffer has
    [limit + 1] bytes, zeroed by memset. *)
Definition User2System (garbage virtAddr limit : Z) (st : Machine * K)
    : res (list Z * (Machine * K)) :=
  if limit + 1 <? 0 then Stop Undefined
  else u2s_loop (Z.to_nat limit) virtAddr 0 garbage (replicate (Z.to_nat (limit + 1)) 0) st.

(** The do-while loop of [System2User]; [n] bounds the remaining rounds. *)
Fixpoint s2u_loop (n : nat) (virtAddr len i : Z) (buffer : list Z) (st : Machine * K)
    : res (Z * (Machine * K)) :=
  match n with
  | O => Stop OutOfFuel
  | S n' =>
      b ← arr_get buffer i;
      '(_, st') ← WriteMem (s32 (virtAddr + i)) 1 (s8 b) st;
      if (i + 1 <? len) && negb (s8 b =? 0) then s2u_loop n' virtAddr len (i + 1) buffer st'
      else Ok (i + 1, st')
  end.

Definition System2User (virtAddr len : Z) (buffer : list Z) (st : Machine * K)
    : res (Z * (Machine * K)) :=
  if len <? 0 then Ok (-1, st)
  else if len =? 0 then Ok (len, st)
  else s2u_loop (Z.to_nat len) virtAddr len 0 buffer st.
End traps.

(** ** Byte order: the same value on either kind of host *)


Lemma swap_word b0 b1 b2 b3 :
  is_u8 b0 → is_u8 b1 → is_u8 b2 → is_u8 b3 →
  WordToHost true (le_value [b3; b2; b1; b0]) = le_value [b0; b1; b2; b3].
Proof.
  unfold is_u8. intros H0 H1 H2 H3. unfold WordToHost. simpl le_value.
  set (w := b3 + 256 * (b2 + 256 * (b1 + 256 * (b0 + 256 * 0)))).
  change 0x000000ff with (Z.shiftl 255 0). change 0x0000ff00 with (Z.shiftl 255 8).
  change 0x00ff0000 with (Z.shiftl 255 16). change 0xff000000 with (Z.shiftl 255 24).
  rewrite !land_byte, !Z.shiftr_div_pow2, !Z.shiftl_mul_pow2 by lia.
  assert ((w / 2 ^ 24 / 2 ^ 0) mod 256 = b0) as ->.
  { unfold w. Z.div_mod_to_equations. lia. }
  assert ((w / 2 ^ 8 / 2 ^ 8) mod 256 = b1) as ->.
  { unfold w. Z.div_mod_to_equations. lia. }
  assert ((w * 2 ^ 8 / 2 ^ 16) mod 256 = b2) as ->.
  { unfold w. Z.div_mod_to_equations. lia. }
  assert ((w * 2 ^ 24 / 2 ^ 24) mod 256 = b3) as ->.
  { rewrite Z.div_mul by done. unfold w. Z.div_mod_to_equations. lia. }
  rewrite (lor_add _ b1 8), (lor_add _ b2 16), (lor_add _ b3 24) by lia. lia.
Qed.

Lemma swap_short b0 b1 :
  is_u8 b0 → is_u8 b1 → ShortToHost true (le_value [b1; b0]) = le_value [b0; b1].
Proof.
  unfold is_u8. intros H0 H1. unfold ShortToHost. simpl le_value.
  set (w := b1 + 256 * (b0 + 256 * 0)).
  change 0x00ff with (Z.shiftl 255 0). change 0xff00 with (Z.shiftl 255 8).
  rewrite Z.lor_comm, !land_byte, Z.shiftr_div_pow2, Z.shiftl_mul_pow2 by lia.
  assert ((w / 2 ^ 8 / 2 ^ 0) mod 256 = b0) as ->.
  { unfold w. Z.div_mod_to_equations. lia. }
  assert ((w * 2 ^ 8 / 2 ^ 8) mod 256 = b1) as ->.
  { rewrite Z.div_mul by done. unfold w. Z.div_mod_to_equations. lia. }
  rewrite (lor_add _ b1 8) by lia. lia.
Qed.

Lemma host_word_load be bs :
  length bs = 4%nat → Forall is_u8 bs → WordToHost be (host_load be bs) = le_value bs.
Proof.
  intros Hl Hb. destruct be; [|done].
  destruct bs as [|b0 [|b1 [|b2 [|b3 [|]]]]]; try discriminate.
  rewrite !Forall_cons in Hb. destruct Hb as (? & ? & ? & ? & _). by apply swap_word.
Qed.

Lemma host_short_load be bs :
  length bs = 2%nat → Forall is_u8 bs → ShortToHost be (host_load be bs) = le_value bs.
Proof.
  intros Hl Hb. destruct be; [|done].
  destruct bs as [|b0 [|b1 [|]]]; try discriminate.
  rewrite !Forall_cons in Hb. destruct Hb as (? & ? & _). by apply swap_short.
Qed.

(** Storing through the byte swap lays the value out little-endian. *)
Lemma host_word_store be v :
  is_u32 v → host_store be 4 (WordToMachine be v) = le_bytes 4 v.
Proof.
  intros Hv. destruct be; [|done]. unfold host_store, WordToMachine.
  assert (v = le_value (le_bytes 4 v)) as Ev.
  { rewrite le_value_bytes. symmetry. by apply Z.mod_small. }
  pose proof (host_word_load true (rev (le_bytes 4 v))) as E.
  unfold host_load in E. rewrite rev_involutive, <- Ev in E.
  rewrite E; [|done|apply Forall_rev, le_bytes_u8].
  rewrite <- (rev_involutive (le_bytes 4 v)) at 2. f_equal.
  apply (le_bytes_value (rev (le_bytes 4 v))). apply Forall_rev, le_bytes_u8.
Qed.

Lemma host_short_store be v :
  0 ≤ v < 65536 → host_store be 2 (ShortToMachine be v) = le_bytes 2 v.
Proof.
  intros Hv. destruct be; [|done]. unfold host_store, ShortToMachine.
  assert (v = le_value (le_bytes 2 v)) as Ev.
  { rewrite le_value_bytes. symmetry. by apply Z.mod_small. }
  pose proof (host_short_load true (rev (le_bytes 2 v))) as E.
  unfold host_load in E. rewrite rev_involutive, <- Ev in E.
  rewrite E; [|done|apply Forall_rev, le_bytes_u8].
  rewrite <- (rev_involutive (le_bytes 2 v)) at 2. f_equal.
  apply (le_bytes_value (rev (le_bytes 2 v))). apply Forall_rev, le_bytes_u8.
Qed.

(** ** Address translation with a linear page table *)

(** A machine running a user program without TLB: the page table has
    [pageTableSize] entries. *)
Record linear (m : Machine) (pt : list TranslationEntry) : Prop := mkLinear {
  lin_tlb : tlb m = None;
  lin_table : pageTable m = Some pt;
  lin_size : pageTableSize m = Z.of_nat (length pt);
  lin_frames : Forall (λ e, is_s32 (physicalPage e)) pt;
}.

Definition vpn_of (a : Z) : Z := u32 a / PageSize.
Definition offset_of (a : Z) : Z := u32 a mod PageSize.
Definition aligned (a size : Z) : Prop := u32 a mod size = 0.

#[export] Instance aligned_dec a size : Decision (aligned a size).
Proof. unfold aligned. apply _. Defined.

(** The entry after a successful access. *)
Definition touched (e : TranslationEntry) (writing : bool) : TranslationEntry :=
  mkEntry (virtualPage e) (physicalPage e) (valid e) (readOnly e) true
    (if writing then true else dirty e).

(** When [Translate] answers what, on a linear page table. *)
Inductive translates (m : Machine) (pt : list TranslationEntry) (a size : Z) (writing : bool)
    : ExceptionType → Z → Machine → Prop :=
  | T_misaligned :
      ¬ aligned a size → translates m pt a size writing AddressErrorException 0 m
  | T_beyond :
      aligned a size → Z.of_nat (length pt) ≤ vpn_of a →
      translates m pt a size writing AddressErrorException 0 m
  | T_invalid e :
      aligned a size → pt !! Z.to_nat (vpn_of a) = Some e → valid e = false →
      translates m pt a size writing PageFaultException 0 m
  | T_readonly e :
      aligned a size → pt !! Z.to_nat (vpn_of a) = Some e → valid e = true →
      readOnly e = true → writing = true →
      translates m pt a size writing ReadOnlyException 0 m
  | T_buserror e :
      aligned a size → pt !! Z.to_nat (vpn_of a) = Some e → valid e = true →
      (readOnly e = true → writing = false) → ¬ (0 ≤ physicalPage e < NumPhysPages) →
      translates m pt a size writing BusErrorException 0 m
  | T_ok e :
      aligned a size → pt !! Z.to_nat (vpn_of a) = Some e → valid e = true →
      (readOnly e = true → writing = false) → 0 ≤ physicalPage e < NumPhysPages →
      translates m pt a size writing NoException (physicalPage e * PageSize + offset_of a)
        (with_pageTable m (Some (<[Z.to_nat (vpn_of a) := touched e writing]> pt))).

Section translation.
Context (m : Machine) (pt : list TranslationEntry) (Hlin : linear m pt).

Lemma offset_range a : 0 ≤ offset_of a < PageSize.
Proof. apply Z.mod_pos_bound. done. Qed.

Lemma vpn_range a : 0 ≤ vpn_of a < 8388608.
Proof.
  pose proof (u32_range a) as [? ?]. unfold vpn_of, PageSize, SectorSize, two32 in *.
  split; [apply Z.div_pos; lia|]. apply Z.div_lt_upper_bound; lia.
Qed.

(** Testing the low bits is testing divisibility. *)
Lemma align_test a k :
  0 ≤ k ≤ 32 → (Z.land a (2 ^ k - 1) =? 0) = true ↔ aligned a (2 ^ k).
Proof.
  intros Hk. rewrite Z.eqb_eq.
  replace (2 ^ k - 1) with (Z.ones k) by (rewrite Z.ones_equiv; lia).
  rewrite Z.land_ones by lia. unfold aligned, u32. change two32 with (2 ^ 32).
  replace 32 with (k + (32 - k)) at 1 by lia. rewrite Z.pow_add_r by lia.
  rewrite Z.rem_mul_r, Z.mul_comm, Z_mod_plus_full by (try apply Z.pow_nonzero; lia).
  rewrite Zmod_mod. done.
Qed.
(** An aligned access of 1, 2 or 4 bytes stays inside its page. *)
Lemma aligned_in_page a size :
  size = 1 ∨ size = 2 ∨ size = 4 → aligned a size → offset_of a + size ≤ PageSize.
Proof.
  unfold aligned, offset_of, PageSize, SectorSize. intros Hs Ha.
  destruct Hs as [->|[->| ->]]; Z.div_mod_to_equations; lia.
Qed.

Lemma frame_test p :
  is_s32 p → (u32 p >=? NumPhysPages) = bool_decide (¬ (0 ≤ p < NumPhysPages)).
Proof.
  unfold is_s32, NumPhysPages. intros Hp. rewrite Z.geb_leb.
  assert (u32 p = if bool_decide (0 ≤ p) then p else p + two32) as ->.
  { unfold u32, two31, two32 in *. case_bool_decide; Z.div_mod_to_equations; lia. }
  unfold two31, two32 in *. destruct (Z.leb_spec 128 (if bool_decide (0 ≤ p) then p else p + 4294967296));
    repeat case_bool_decide; lia || done.
Qed.

Lemma use_entry_spec e off size writing :
  is_s32 (physicalPage e) → 0 ≤ off → off + size ≤ PageSize → 0 < size →
  use_entry e off size writing =
  if readOnly e && writing then Ok (ReadOnlyException, 0, e)
  else if bool_decide (¬ (0 ≤ physicalPage e < NumPhysPages)) then Ok (BusErrorException, 0, e)
  else Ok (NoException, physicalPage e * PageSize + off, touched e writing).
Proof.
  intros Hp Ho Hos Hs. unfold use_entry. rewrite frame_test by done.
  destruct (readOnly e && writing); [done|]. case_bool_decide as Hf; [done|].
  assert (0 ≤ physicalPage e < NumPhysPages) as Hr.
  { destruct (decide (0 ≤ physicalPage e < NumPhysPages)); tauto. }
  assert (u32 (physicalPage e) = physicalPage e) as ->.
  { apply u32_small. unfold is_u32, NumPhysPages, two32 in *. lia. }
  unfold MemorySize, NumPhysPages, PageSize, SectorSize in *.
  rewrite (proj2 (Z.geb_le _ _)), (proj2 (Z.leb_le _ _)) by lia. done.
Qed.

Lemma with_same_table : with_pageTable m (Some pt) = m.
Proof using Hlin. destruct Hlin as [_ Ht _ _]. rewrite <- Ht. by destruct m. Qed.

(** [Translate] returns, whatever the address, and answers as [translates]
    says. *)
Lemma Translate_spec a size writing :
  size = 1 ∨ size = 2 ∨ size = 4 →
  ∃ exc pa m', Translate m a size writing = Ok (exc, pa, m') ∧
               translates m pt a size writing exc pa m'.
Proof using Hlin.
  intros Hsize. unfold Translate.
  assert ((((size =? 4) && negb (Z.land a 3 =? 0)) || ((size =? 2) && negb (Z.land a 1 =? 0)))
          = bool_decide (¬ aligned a size)) as ->.
  { pose proof (align_test a 1 ltac:(lia)) as H1. pose proof (align_test a 2 ltac:(lia)) as H2.
    change (2 ^ 1 - 1) with 1 in H1. change (2 ^ 2 - 1) with 3 in H2.
    change (2 ^ 1) with 2 in H1. change (2 ^ 2) with 4 in H2.
    destruct Hsize as [->|[->| ->]]; simpl.
    - rewrite bool_decide_eq_false_2; [done|]. intros H. apply H. apply Z.mod_1_r.
    - case_bool_decide as D; destruct (Z.land a 1 =? 0); simpl; try done; naive_solver.
    - rewrite orb_false_r.
      case_bool_decide as D; destruct (Z.land a 3 =? 0); simpl; try done; naive_solver. }
  case_bool_decide as Hal.
  { do 3 eexists. split; [done|]. by constructor. }
  assert (aligned a size) as Hal' by (destruct (decide (u32 a mod size = 0)); tauto).
  destruct Hlin as [Htlb Htab Hpts Hfr]. rewrite Htlb, Htab. simpl.
  fold (vpn_of a). fold (offset_of a).
  pose proof (vpn_range a) as Hv. rewrite Hpts, Z.geb_leb.
  destruct (Z.leb_spec (Z.of_nat (length pt)) (vpn_of a)) as [Hb|Hb].
  { do 3 eexists. split; [done|]. by apply T_beyond. }
  destruct (arr_get_total pt (vpn_of a) ltac:(lia)) as (e & -> & He). simpl.
  destruct (valid e) eqn:Hvalid; simpl.
  2:{ do 3 eexists. split; [done|]. by eapply T_invalid. }
  pose proof (offset_range a) as Ho.
  rewrite use_entry_spec; [| |lia|by apply aligned_in_page|lia].
  2:{ eapply (Forall_lookup_1 (λ e, is_s32 (physicalPage e))); done. }
  destruct (readOnly e && writing) eqn:Hro; simpl.
  { apply andb_true_iff in Hro as [Hro ->]. rewrite arr_set_in by lia. simpl.
    rewrite list_insert_id by done. rewrite with_same_table.
    do 3 eexists. split; [done|]. by eapply T_readonly. }
  assert (readOnly e = true → writing = false) as Hro'.
  { intros E. rewrite E in Hro. by destruct writing. }
  case_bool_decide as Hf; simpl; rewrite arr_set_in by lia; simpl.
  - rewrite list_insert_id by done. rewrite with_same_table.
    do 3 eexists. split; [done|]. by eapply T_buserror.
  - do 3 eexists. split; [done|]. by apply T_ok.
Qed.
End translation.

(** ** Virtual memory as the program sees it

    The physical address behind a virtual one, when an access succeeds. *)

Definition frame (m : Machine) (a : Z) (writing : bool) : option Z :=
  match tlb m, pageTable m with
  | None, Some pt =>
      match pt !! Z.to_nat (vpn_of a) with
      | Some e =>
          if valid e && negb (readOnly e && writing)
             && bool_decide (0 ≤ physicalPage e < NumPhysPages)
          then Some (physicalPage e * PageSize + offset_of a) else None
      | None => None
      end
  | _, _ => None
  end.

(** Machines that translate alike: page tables equal up to use and dirty
    bits. *)
Definition entry_sim (e e' : TranslationEntry) : Prop :=
  virtualPage e' = virtualPage e ∧ physicalPage e' = physicalPage e ∧
  valid e' = valid e ∧ readOnly e' = readOnly e.

Record same_space (m m' : Machine) : Prop := mkSame {
  ss_tlb : tlb m' = tlb m;
  ss_size : pageTableSize m' = pageTableSize m;
  ss_table : option_Forall2 (Forall2 entry_sim) (pageTable m) (pageTable m');
}.

#[export] Instance entry_sim_equiv : Equivalence entry_sim.
Proof. unfold entry_sim. split; red; intuition congruence. Qed.

#[export] Instance same_space_equiv : Equivalence same_space.
Proof.
  split.
  - intros m. by split; try reflexivity.
  - intros m m' [H1 H2 H3]. by split; symmetry.
  - intros m1 m2 m3 [H1 H2 H3] [H4 H5 H6]. split; [congruence|congruence|by etransitivity].
Qed.

#[export] Instance frame_proper : Proper (same_space ==> eq ==> eq ==> eq) frame.
Proof.
  intros m m' [Ht Hs Hp] a ? <- w ? <-. unfold frame. rewrite Ht.
  destruct (tlb m); [done|].
  destruct Hp as [pt pt' Hpt|]; [|done].
  destruct (pt !! Z.to_nat (vpn_of a)) as [e|] eqn:E.
  - destruct (Forall2_lookup_l _ _ _ _ _ Hpt E) as (e' & -> & (_ & -> & -> & ->)). done.
  - apply lookup_ge_None in E. rewrite (Forall2_length _ _ _ Hpt) in E.
    by rewrite (proj2 (lookup_ge_None _ _) E).
Qed.

Lemma same_space_linear m m' pt :
  same_space m m' → linear m pt → ∃ pt', linear m' pt'.
Proof.
  intros [Ht Hs Hp] [Hlt Hlp Hls Hlf]. rewrite Hlp in Hp.
  destruct (pageTable m') as [pt'|] eqn:E; [|by inversion Hp].
  assert (Forall2 entry_sim pt pt') as Hf by (by inversion Hp).
  exists pt'. split; try done.
  - congruence.
  - rewrite Hs, Hls. by rewrite (Forall2_length _ _ _ Hf).
  - apply Forall_lookup. intros i e' He'.
    destruct (Forall2_lookup_r _ _ _ _ _ Hf He') as (e & He & (_ & -> & _)).
    by eapply (Forall_lookup_1 (λ e, is_s32 (physicalPage e))).
Qed.

Lemma touch_same_space m pt i e writing :
  linear m pt → pt !! i = Some e →
  same_space m (with_pageTable m (Some (<[i := touched e writing]> pt))).
Proof.
  intros [Hlt Hlp Hls Hlf] He. split; simpl; try done. rewrite Hlp. constructor.
  rewrite <- (list_insert_id pt i e) at 1 by done.
  apply Forall2_insert; [|done]. apply Forall_Forall2_diag. apply Forall_true. reflexivity.
Qed.

(** A successful translation, from the view of [frame]. *)
Lemma Translate_frame m pt a size writing pa :
  linear m pt → size = 1 ∨ size = 2 ∨ size = 4 → aligned a size →
  frame m a writing = Some pa →
  ∃ m', Translate m a size writing = Ok (NoException, pa, m') ∧ same_space m m' ∧
        registers m' = registers m ∧ mainMemory m' = mainMemory m ∧
        0 ≤ pa ∧ pa + size ≤ MemorySize.
Proof.
  intros Hlin Hs Ha Hf. pose proof Hlin as [Hlt Hlp Hls Hlf].
  destruct (Translate_spec m pt Hlin a size writing Hs) as (exc & pa' & m' & E & T).
  unfold frame in Hf. rewrite Hlt, Hlp in Hf.
  pose proof (offset_range a) as Ho. pose proof (aligned_in_page a size Hs Ha) as Hp.
  destruct T as [| |e ? He Hv|e ? He Hv Hro Hw|e ? He Hv Hro Hb|e ? He Hv Hro Hb]; try done.
  - rewrite lookup_ge_None_2 in Hf by lia. done.
  - by rewrite He, Hv in Hf.
  - by rewrite He, Hv, Hro, Hw in Hf.
  - rewrite He, Hv, (bool_decide_eq_false_2 _ Hb), andb_false_r in Hf. done.
  - rewrite He, Hv, (bool_decide_eq_true_2 _ Hb) in Hf.
    assert (negb (readOnly e && writing) = true) as E'.
    { destruct (readOnly e), writing; naive_solver. }
    rewrite E' in Hf. injection Hf as <-.
    eexists. split; [exact E|]. split_and!; try done.
    + by eapply touch_same_space.
    + unfold PageSize, SectorSize in *. lia.
    + unfold MemorySize, NumPhysPages, PageSize, SectorSize in *. lia.
Qed.

(** What [ReadMem] makes of the bytes, and what [WriteMem] stores. *)
Definition load_value (size : Z) (bs : list Z) : Z :=
  if size =? 1 then s8 (le_value bs) else if size =? 2 then le_value bs else s32 (le_value bs).

Section accesses.
Context {K : Type} `{Kernel K}.
Context (m : Machine) (k : K) (pt : list TranslationEntry) (Hlin : linear m pt).

Lemma ReadMem_frame a size pa :
  size = 1 ∨ size = 2 ∨ size = 4 → aligned a size → frame m a false = Some pa →
  ∃ m', ReadMem a size (m, k)
        = Ok (Some (load_value size (read_bytes (mainMemory m) pa (Z.to_nat size))), (m', k))
      ∧ same_space m m' ∧ registers m' = registers m ∧ mainMemory m' = mainMemory m.
Proof using Hlin.
  intros Hs Ha Hf.
  destruct (Translate_frame m pt a size false pa Hlin Hs Ha Hf) as (m' & E & Hss & Hr & Hm & _).
  exists m'. split; [|done]. unfold ReadMem. rewrite E. simpl. rewrite Hm.
  unfold load_value. by destruct Hs as [->|[->| ->]].
Qed.

Lemma WriteMem_frame a size v pa :
  size = 1 ∨ size = 2 ∨ size = 4 → aligned a size → frame m a true = Some pa →
  ∃ m', WriteMem a size v (m, k) = Ok (true, (m', k)) ∧ same_space m m' ∧
        registers m' = registers m ∧
        mainMemory m' = write_bytes (mainMemory m) pa (le_bytes (Z.to_nat size) v).
Proof using Hlin.
  intros Hs Ha Hf.
  destruct (Translate_frame m pt a size true pa Hlin Hs Ha Hf) as (m' & E & Hss & Hr & Hm & _).
  exists (with_memory m' (write_bytes (mainMemory m) pa (le_bytes (Z.to_nat size) v))).
  split_and!; try done; [|destruct Hss; by split].
  unfold WriteMem. rewrite E. simpl. rewrite Hm.
  assert (le_bytes 1 v = [Z.land v 255]) as E1.
  { simpl. change 255 with (Z.ones 8). by rewrite Z.land_ones by lia. }
  assert (le_bytes 2 v = le_bytes 2 (Z.land v 65535)) as E2.
  { change 65535 with (Z.ones 16). rewrite Z.land_ones by lia. symmetry. apply (le_bytes_mod 2). }
  assert (le_bytes 4 v = le_bytes 4 (u32 v)) as E4.
  { symmetry. apply (le_bytes_mod 4). }
  destruct Hs as [->|[->| ->]].
  - change (Z.to_nat 1) with 1%nat. by rewrite E1.
  - change (Z.to_nat 2) with 2%nat. by rewrite E2.
  - change (Z.to_nat 4) with 4%nat. by rewrite E4.
Qed.

Lemma frame_write_read a pa : frame m a true = Some pa → frame m a false = Some pa.
Proof.
  unfold frame. destruct (tlb m), (pageTable m); try done.
  case_match; [|done]. destruct (valid _), (readOnly _); simpl; try done.
Qed.

Lemma load_value_bytes size v :
  size = 1 ∨ size = 2 ∨ size = 4 →
  load_value size (le_bytes (Z.to_nat size) v)
  = if size =? 1 then s8 v else if size =? 2 then v mod 65536 else s32 v.
Proof.
  unfold load_value. intros [->|[->| ->]]; simpl Z.eqb; cbn iota; rewrite le_value_bytes.
  - unfold s8. change (256 ^ Z.of_nat (Z.to_nat 1)) with 256.
    by rewrite Zplus_mod_idemp_l.
  - done.
  - change (256 ^ Z.of_nat (Z.to_nat 4)) with two32. apply s32_u32.
Qed.
End accesses.

(** ** Strings between user and kernel memory *)

(** The byte a program sees at a virtual address. *)
Definition ubyte (m : Machine) (a : Z) : option Z :=
  (λ pa, default 0 (mainMemory m !! pa)) <$> frame m a false.

(** No physical byte is mapped at two virtual addresses. *)
Definition frames_inj (m : Machine) : Prop :=
  ∀ a b pa, frame m a false = Some pa → frame m b false = Some pa → u32 a = u32 b.

Definition writable (m : Machine) (va : Z) (n : nat) : Prop :=
  ∀ i, 0 ≤ i < Z.of_nat n → is_Some (frame m (s32 (va + i)) true).

Section chars.

Lemma u8_s8 b : is_u8 b → u8 (s8 b) = b.
Proof.
  unfold is_u8, u8, s8. intros Hb. rewrite Zminus_mod_idemp_l.
  replace (b + 128 - 128) with b by lia. by apply Z.mod_small.
Qed.

Lemma s8_zero b : is_u8 b → (s8 b =? 0) = bool_decide (b = 0).
Proof.
  unfold is_u8. intros Hb. unfold s8.
  case_bool_decide; [by subst|]. apply Z.eqb_neq. Z.div_mod_to_equations. lia.
Qed.

Lemma aligned_1 a : aligned a 1.
Proof. apply Z.mod_1_r. Qed.

(** Virtual addresses less than the address-space size apart are distinct. *)
Lemma addr_distinct va i j :
  0 ≤ i < two32 → 0 ≤ j < two32 → i ≠ j → u32 (va + i) ≠ u32 (va + j).
Proof. unfold u32, two32. intros Hi Hj Hne E. Z.div_mod_to_equations. lia. Qed.
End chars.

Section strings.
Context {K : Type} `{Kernel K}.

(** Writing one byte of user memory. *)
Lemma write_ubyte m k pt a b :
  linear m pt → frames_inj m → is_u8 b → is_Some (frame m a true) →
  ∃ m', WriteMem a 1 (s8 b) (m, k) = Ok (true, (m', k)) ∧ same_space m m' ∧
        registers m' = registers m ∧ ubyte m' a = Some b ∧
        (∀ a', u32 a' ≠ u32 a → ubyte m' a' = ubyte m a').
Proof.
  intros Hlin Hinj Hb [pa Hf].
  destruct (WriteMem_frame m k pt Hlin a 1 (s8 b) pa) as (m' & E & Hss & Hr & Hm);
    [by left|apply aligned_1|done|].
  exists m'. split_and!; try done.
  - unfold ubyte. rewrite <- Hss. rewrite (frame_write_read m a pa Hf). simpl. rewrite Hm.
    simpl. rewrite lookup_insert_eq. simpl. f_equal. by apply u8_s8.
  - intros a' Hne. unfold ubyte. rewrite <- Hss.
    destruct (frame m a' false) as [pa'|] eqn:E'; [|done]. simpl. rewrite Hm. simpl.
    rewrite lookup_insert_ne; [done|]. intros <-. apply Hne.
    eapply Hinj; [exact E'|]. by apply frame_write_read.
Qed.

Lemma frames_inj_same m m' : same_space m m' → frames_inj m → frames_inj m'.
Proof. intros Hss Hinj a b pa. rewrite <- !Hss. apply Hinj. Qed.

Lemma writable_same m m' a : same_space m m' → is_Some (frame m a true) → is_Some (frame m' a true).
Proof. intros Hss. by rewrite <- Hss. Qed.

(** [System2User] from byte [i] of the buffer on, where the rest of the buffer
    starts with the string [str] and a NUL. *)
Lemma s2u_loop_string str : ∀ n va len i buf rest m k pt,
  drop (Z.to_nat i) buf = str ++ 0 :: rest →
  Forall (λ b, is_u8 b ∧ b ≠ 0) str →
  0 ≤ i → i + Z.of_nat (length str) < len → len ≤ two31 → (length str < n)%nat →
  linear m pt → frames_inj m →
  (∀ j, i ≤ j ≤ i + Z.of_nat (length str) → is_Some (frame m (s32 (va + j)) true)) →
  ∃ m', s2u_loop n va len i buf (m, k) = Ok (i + Z.of_nat (length str) + 1, (m', k)) ∧
    same_space m m' ∧ registers m' = registers m ∧
    (∀ j : nat, (j ≤ length str)%nat →
       ubyte m' (s32 (va + i + Z.of_nat j)) = (str ++ [0]) !! j) ∧
    (∀ a, (∀ j, i ≤ j ≤ i + Z.of_nat (length str) → u32 a ≠ u32 (va + j)) →
       ubyte m' a = ubyte m a).
Proof.
  induction str as [|c str IH]; intros n va len i buf rest m k pt Hdrop Hstr Hi Hlen Hmax Hn
    Hlin Hinj Hw; (destruct n as [|n]; [simpl in *; lia|]); cbn [s2u_loop].
  - assert (arr_get buf i = Ok 0) as ->.
    { apply arr_get_in; [lia|]. replace (Z.to_nat i) with (Z.to_nat i + 0)%nat by lia.
      rewrite <- lookup_drop, Hdrop. done. }
    cbn [mbind res_bind].
    destruct (write_ubyte m k pt (s32 (va + i)) 0 Hlin Hinj) as (m1 & -> & Hss & Hr & Hub & Hoth).
    { done. } { apply Hw. simpl. lia. }
    simpl. rewrite andb_false_r. exists m1. split_and!; try done.
    + do 2 f_equal. lia.
    + intros j Hj. simpl in Hj. replace j with 0%nat by lia.
      rewrite Z.add_0_r. exact Hub.
    + intros a Ha. apply Hoth. rewrite u32_s32. apply Ha. simpl. lia.
  - apply Forall_cons in Hstr as [[Hc Hc0] Hstr].
    assert (arr_get buf i = Ok c) as ->.
    { apply arr_get_in; [lia|]. replace (Z.to_nat i) with (Z.to_nat i + 0)%nat by lia.
      rewrite <- lookup_drop, Hdrop. done. }
    cbn [mbind res_bind]. simpl length in *.
    destruct (write_ubyte m k pt (s32 (va + i)) c Hlin Hinj) as (m1 & -> & Hss & Hr & Hub & Hoth).
    { done. } { apply Hw. lia. }
    cbn [mbind res_bind]. rewrite s8_zero, bool_decide_eq_false_2 by done.
    rewrite (proj2 (Z.ltb_lt (i + 1) len)) by lia. simpl negb. cbn [andb].
    destruct (same_space_linear m m1 pt Hss Hlin) as [pt1 Hlin1].
    destruct (IH n va len (i + 1) buf rest m1 k pt1) as (m2 & E2 & Hss2 & Hr2 & Hub2 & Hoth2);
      try done; try lia.
    { replace (Z.to_nat (i + 1)) with (Z.to_nat i + 1)%nat by lia.
      rewrite <- drop_drop, Hdrop. done. }
    { by eapply frames_inj_same. }
    { intros j Hj. eapply writable_same; [done|]. apply Hw. lia. }
    exists m2. rewrite E2. split_and!.
    + do 2 f_equal. lia.
    + by etransitivity.
    + by rewrite Hr2.
    + intros [|j] Hj; simpl lookup.
      * rewrite Hoth2; [rewrite Z.add_0_r; exact Hub|].
        intros j' Hj'. rewrite u32_s32, <- Z.add_assoc. apply addr_distinct; unfold two31, two32 in *; lia.
      * rewrite <- (Hub2 j) by lia. do 2 f_equal. lia.
    + intros a Ha. rewrite Hoth2; [|intros j Hj; apply Ha; lia].
      apply Hoth. rewrite u32_s32. apply Ha. lia.
Qed.

(** Reading one byte of user memory. *)
Lemma read_ubyte m k pt a b :
  linear m pt → ubyte m a = Some b → is_u8 b →
  ∃ m', ReadMem a 1 (m, k) = Ok (Some (s8 b), (m', k)) ∧ same_space m m' ∧
        registers m' = registers m ∧ mainMemory m' = mainMemory m.
Proof.
  intros Hlin Hub Hb. unfold ubyte in Hub.
  destruct (frame m a false) as [pa|] eqn:Hf; [|done]. simpl in Hub. injection Hub as Hub.
  destruct (ReadMem_frame m k pt Hlin a 1 pa) as (m' & E & Hrest);
    [by left|apply aligned_1|done|].
  exists m'. split; [|done]. rewrite E. do 3 f_equal. unfold load_value. simpl.
  rewrite Hub. f_equal. lia.
Qed.

Lemma ubyte_same m m' a :
  same_space m m' → mainMemory m' = mainMemory m → ubyte m' a = ubyte m a.
Proof. intros Hss Hm. unfold ubyte. by rewrite <- Hss, Hm. Qed.

(** [User2System] reads a string, up to its NUL or to the limit. *)
Lemma u2s_loop_string str : ∀ n va idx g pre m k pt,
  (∀ j : nat, (j < length str)%nat → ubyte m (s32 (va + idx + Z.of_nat j)) = str !! j) →
  length str = n ∨ ((length str < n)%nat ∧
    ubyte m (s32 (va + idx + Z.of_nat (length str))) = Some 0) →
  Forall (λ b, is_u8 b ∧ b ≠ 0) str → idx = Z.of_nat (length pre) → linear m pt →
  ∃ m', u2s_loop n va idx g (pre ++ replicate (n + 1) 0) (m, k)
        = Ok (pre ++ str ++ replicate (n + 1 - length str) 0, (m', k)) ∧
        same_space m m' ∧ registers m' = registers m ∧ mainMemory m' = mainMemory m.
Proof.
  induction str as [|c str IH]; intros n va idx g pre m k pt Hub Hend Hstr Hidx Hlin.
  - destruct Hend as [<-|[Hn H0]].
    { exists m. simpl. by split_and!. }
    destruct n as [|n]; [simpl in Hn; lia|]. cbn [u2s_loop]. simpl in H0.
    rewrite Z.add_0_r in H0.
    destruct (read_ubyte m k pt (s32 (va + idx)) 0 Hlin H0 ltac:(done)) as (m1 & -> & Hrest).
    simpl. rewrite arr_set_in by (rewrite length_app; simpl; lia). simpl.
    exists m1. split; [|done]. do 2 f_equal. rewrite Hidx, Nat2Z.id.
    rewrite insert_app_r_alt, Nat.sub_diag by lia. done.
  - apply Forall_cons in Hstr as [[Hc Hc0] Hstr].
    destruct n as [|n]; [simpl in Hend; lia|]. cbn [u2s_loop].
    assert (ubyte m (s32 (va + idx)) = Some c) as Hfst.
    { rewrite <- (Z.add_0_r (va + idx)). apply (Hub 0%nat). simpl. lia. }
    destruct (read_ubyte m k pt _ c Hlin Hfst Hc) as (m1 & -> & Hss & Hr & Hm).
    simpl. rewrite arr_set_in by (rewrite length_app; simpl; lia). cbn [mbind res_bind].
    rewrite s8_zero, bool_decide_eq_false_2 by done.
    rewrite Hidx, Nat2Z.id, insert_app_r_alt, Nat.sub_diag by lia. simpl insert.
    rewrite u8_s8 by done.
    destruct (same_space_linear m m1 pt Hss Hlin) as [pt1 Hlin1].
    replace (pre ++ c :: replicate (n + 1) 0) with ((pre ++ [c]) ++ replicate (n + 1) 0)
      by (by rewrite <- app_assoc).
    destruct (IH n va (Z.of_nat (length pre) + 1) (s8 c) (pre ++ [c]) m1 k pt1)
      as (m2 & E2 & Hss2 & Hr2 & Hm2).
    + intros j Hj. rewrite (ubyte_same m m1) by done. etransitivity; [|exact (Hub (S j) ltac:(simpl; lia))].
      do 2 f_equal. lia.
    + destruct Hend as [Hend|[Hn H0]]; [left; simpl in Hend; lia|right].
      split; [simpl in Hn; lia|]. rewrite (ubyte_same m m1) by done. rewrite <- H0.
      do 2 f_equal. simpl. lia.
    + done.
    + rewrite length_app. simpl. lia.
    + done.
    + exists m2. rewrite E2. split_and!; [|by etransitivity|congruence|congruence].
      do 2 f_equal. by rewrite <- app_assoc.
Qed.
End strings.

(** ** Properties of the memory system *)

Module MemoryProps.

Section props.
Context {K : Type} `{Kernel K}.

Lemma translates_deterministic m pt a size w exc pa m' exc' pa' m'' :
  translates m pt a size w exc pa m' → translates m pt a size w exc' pa' m'' →
  exc = exc' ∧ pa = pa' ∧ m' = m''.
Proof.
  intros T T'.
  assert (∀ e, pt !! Z.to_nat (vpn_of a) = Some e → ¬ Z.of_nat (length pt) ≤ vpn_of a) as Hin.
  { intros e He. apply lookup_lt_Some in He. pose proof (vpn_range a). lia. }
  destruct T, T'; try done; simplify_eq; try congruence;
    try (exfalso; by eapply Hin); naive_solver.
Qed.

(** C4.  On a linear page table [Translate] always returns, and the exception,
    the physical address and the updated use/dirty bits it returns are exactly
    those of the relation [translates]: an address error for a misaligned
    address or a page beyond the table, a page fault for an invalid entry, a
    read-only violation, a bus error for a frame outside physical memory, and
    otherwise frame number times page size plus offset. *)
Theorem translate_correct m pt a size writing exc pa m' :
  linear m pt → size = 1 ∨ size = 2 ∨ size = 4 →
  (Translate m a size writing = Ok (exc, pa, m') ↔ translates m pt a size writing exc pa m').
Proof.
  intros Hlin Hs.
  destruct (Translate_spec m pt Hlin a size writing Hs) as (exc' & pa' & m'' & E & T).
  rewrite E. split.
  - by intros [= <- <- <-].
  - intros T'. by destruct (translates_deterministic _ _ _ _ _ _ _ _ _ _ _ T T') as (-> & -> & ->).
Qed.

(**  What is written to virtual memory is read back: after a successful
    [WriteMem] of 1, 2 or 4 bytes, [ReadMem] of the same size at the same address
    succeeds and yields the value truncated to that size, registers are
    untouched, and every virtual address backed by other physical bytes still
    reads as before. *)
Theorem write_then_read m k pt a size v pa :
  linear m pt → size = 1 ∨ size = 2 ∨ size = 4 → aligned a size → frame m a true = Some pa →
  ∃ m1 m2, WriteMem a size v (m, k) = Ok (true, (m1, k)) ∧
    ReadMem a size (m1, k)
    = Ok (Some (if size =? 1 then s8 v else if size =? 2 then v mod 65536 else s32 v), (m2, k)) ∧
    registers m2 = registers m ∧
    (∀ b pb, frame m b false = Some pb → pb < pa ∨ pa + size ≤ pb → ubyte m2 b = ubyte m b).
Proof.
  intros Hlin Hs Ha Hf.
  destruct (WriteMem_frame m k pt Hlin a size v pa Hs Ha Hf) as (m1 & E1 & Hss1 & Hr1 & Hm1).
  destruct (same_space_linear m m1 pt Hss1 Hlin) as [pt1 Hlin1].
  assert (frame m1 a false = Some pa) as Hf1.
  { rewrite <- Hss1. by apply frame_write_read. }
  destruct (ReadMem_frame m1 k pt1 Hlin1 a size pa Hs Ha Hf1) as (m2 & E2 & Hss2 & Hr2 & Hm2).
  exists m1, m2. split_and!; [done| |congruence|].
  - rewrite E2, Hm1. rewrite <- (length_le_bytes (Z.to_nat size) v) at 2.
    by rewrite read_write_same, load_value_bytes.
  - intros b pb Hb Hout. unfold ubyte. rewrite <- Hss2, <- Hss1, Hb, Hm2, Hm1. simpl.
    rewrite write_bytes_lookup, length_le_bytes, bool_decide_eq_false_2; [done|].
    destruct Hs as [->|[->| ->]]; lia.
Qed.

(**  Passing a string to user memory and back: [System2User] of a buffer
    that holds a NUL-terminated string copies the string and its NUL and returns
    their count, and [User2System] at that address then returns the same string,
    padded with zeros to its buffer of [limit + 1] bytes. *)
Theorem string_roundtrip m k pt va len limit str rest garbage :
  linear m pt → frames_inj m → writable m va (S (length str)) →
  Forall (λ b, is_u8 b ∧ b ≠ 0) str →
  Z.of_nat (length str) < len ≤ two31 → Z.of_nat (length str) ≤ limit →
  ∃ m1 m2, System2User va len (str ++ 0 :: rest) (m, k)
           = Ok (Z.of_nat (length str) + 1, (m1, k)) ∧
    User2System garbage va limit (m1, k)
    = Ok (str ++ replicate (Z.to_nat (limit + 1) - length str) 0, (m2, k)) ∧
    registers m2 = registers m.
Proof.
  intros Hlin Hinj Hw Hstr Hlen Hlim. unfold System2User, User2System.
  rewrite (proj2 (Z.ltb_ge len 0)), (proj2 (Z.eqb_neq len 0)) by lia.
  destruct (s2u_loop_string str (Z.to_nat len) va len 0 (str ++ 0 :: rest) rest m k pt)
    as (m1 & E1 & Hss1 & Hr1 & Hub1 & _); try done; try lia.
  { intros j Hj. apply Hw. lia. }
  destruct (same_space_linear m m1 pt Hss1 Hlin) as [pt1 Hlin1].
  rewrite (proj2 (Z.ltb_ge (limit + 1) 0)) by lia.
  replace (Z.to_nat (limit + 1)) with (Z.to_nat limit + 1)%nat by lia.
  destruct (u2s_loop_string str (Z.to_nat limit) va 0 garbage [] m1 k pt1)
    as (m2 & E2 & Hss2 & Hr2 & _); try done.
  - intros j Hj. rewrite Hub1 by lia. by apply lookup_app_l.
  - destruct (decide (length str = Z.to_nat limit)); [by left|right]. split; [lia|].
    rewrite Hub1 by lia. rewrite lookup_app_r, Nat.sub_diag by lia. done.
  - exists m1, m2. rewrite E1. split_and!; [done|exact E2|congruence].
Qed.
End props.

(** A kernel that ignores exceptions, and a machine with two mapped pages. *)
#[local] Instance quiet_kernel : Kernel unit := {|
  setStatus := λ _ k, k;
  ExceptionHandler := λ _ st, Ok st;
|}.

Definition sample_table : list TranslationEntry :=
  [mkEntry 0 5 true false false false; mkEntry 1 3 true false false false].

Definition sample_machine : Machine :=
  mkMachine (replicate 40 0) ∅ None (Some sample_table) 2.

Lemma sample_linear : linear sample_machine sample_table.
Proof. split; try done. repeat constructor; unfold two31; simpl; lia. Qed.

Lemma sample_inj : frames_inj sample_machine.
Proof.
  intros a b pa Ha Hb. unfold frame in Ha, Hb. simpl in Ha, Hb.
  pose proof (vpn_range a). pose proof (vpn_range b).
  pose proof (offset_range a). pose proof (offset_range b).
  assert (u32 a = PageSize * vpn_of a + offset_of a) as Ea by (apply Z.div_mod; done).
  assert (u32 b = PageSize * vpn_of b + offset_of b) as Eb by (apply Z.div_mod; done).
  unfold PageSize, SectorSize in *.
  destruct (Z.to_nat (vpn_of a)) as [|[|]] eqn:Va, (Z.to_nat (vpn_of b)) as [|[|]] eqn:Vb;
    simpl in *; try discriminate; simplify_eq; lia.
Qed.

Lemma translate_correct_witness :
  translates sample_machine sample_table 520 4 true NoException (3 * 512 + 8)
    (with_pageTable sample_machine
       (Some [mkEntry 0 5 true false false false; mkEntry 1 3 true false true true])).
Proof.
  apply (translate_correct sample_machine sample_table 520 4 true NoException (3 * 512 + 8)
    _ sample_linear ltac:(by right; right)). vm_compute. reflexivity.
Defined.

Lemma write_then_read_witness :
  ∃ m1 m2, WriteMem 516 4 (-2) (sample_machine, tt) = Ok (true, (m1, tt)) ∧
    ReadMem 516 4 (m1, tt) = Ok (Some (-2), (m2, tt)) ∧
    registers m2 = registers sample_machine ∧
    (∀ b pb, frame sample_machine b false = Some pb → pb < 1540 ∨ 1540 + 4 ≤ pb →
       ubyte m2 b = ubyte sample_machine b).
Proof.
  apply (write_then_read sample_machine tt sample_table 516 4 (-2) 1540 sample_linear).
  - by right; right.
  - vm_compute. reflexivity.
  - vm_compute. reflexivity.
Defined.

Lemma string_roundtrip_witness :
  ∃ m1 m2, System2User 510 8 [104; 105; 33; 0; 7] (sample_machine, tt) = Ok (4, (m1, tt)) ∧
    User2System 99 510 5 (m1, tt) = Ok ([104; 105; 33; 0; 0; 0], (m2, tt)) ∧
    registers m2 = registers sample_machine.
Proof.
  apply (string_roundtrip sample_machine tt sample_table 510 8 5 [104; 105; 33] [7] 99
    sample_linear sample_inj).
  - intros i Hi. simpl in Hi.
    assert (i = 0 ∨ i = 1 ∨ i = 2 ∨ i = 3) as [->|[->|[->| ->]]] by lia;
      vm_compute; by eexists.
  - repeat constructor; simpl; lia.
  - unfold two31. simpl. lia.
  - simpl. lia.
Defined.

End MemoryProps.
