(* ===== verification/MipsSim.v ===== *)
(** * The MIPS simulator (machine/mipssim.cc, mipssim.h)

    Decoding of an instruction word, the multiplication routine, and the
    execution of one instruction.  [OneInstruction] is the switch of the source,
    cut along its case groups: each group returns either [Finish], when the
    source executes [return] after a trap, or [Next], when it falls out of the
    switch with the values of [pcAfter], [nextLoadReg] and [nextLoadValue]. *)

From S2P Require Import Prelude Machine.

(** ** Opcodes and decoding tables (mipssim.h) *)

Inductive OpCode :=
  | OP_ADD | OP_ADDI | OP_ADDIU | OP_ADDU | OP_AND | OP_ANDI | OP_BEQ | OP_BGEZ | OP_BGEZAL
  | OP_BGTZ | OP_BLEZ | OP_BLTZ | OP_BLTZAL | OP_BNE | OP_DIV | OP_DIVU | OP_J | OP_JAL
  | OP_JALR | OP_JR | OP_LB | OP_LBU | OP_LH | OP_LHU | OP_LUI | OP_LW | OP_LWL | OP_LWR
  | OP_MFHI | OP_MFLO | OP_MTHI | OP_MTLO | OP_MULT | OP_MULTU | OP_NOR | OP_OR | OP_ORI
  | OP_RFE | OP_SB | OP_SH | OP_SLL | OP_SLLV | OP_SLT | OP_SLTI | OP_SLTIU | OP_SLTU
  | OP_SRA | OP_SRAV | OP_SRL | OP_SRLV | OP_SUB | OP_SUBU | OP_SW | OP_SWL | OP_SWR
  | OP_XOR | OP_XORI | OP_SYSCALL | OP_UNIMP | OP_RES
  | SPECIAL | BCOND.

Inductive Format := IFMT | JFMT | RFMT.

Definition opTable : list (OpCode * Format) :=
  [
   (SPECIAL, RFMT); (BCOND, IFMT); (OP_J, JFMT); (OP_JAL, JFMT);
   (OP_BEQ, IFMT); (OP_BNE, IFMT); (OP_BLEZ, IFMT); (OP_BGTZ, IFMT);
   (OP_ADDI, IFMT); (OP_ADDIU, IFMT); (OP_SLTI, IFMT); (OP_SLTIU, IFMT);
   (OP_ANDI, IFMT); (OP_ORI, IFMT); (OP_XORI, IFMT); (OP_LUI, IFMT);
   (OP_UNIMP, IFMT); (OP_UNIMP, IFMT); (OP_UNIMP, IFMT); (OP_UNIMP, IFMT);
   (OP_RES, IFMT); (OP_RES, IFMT); (OP_RES, IFMT); (OP_RES, IFMT);
   (OP_RES, IFMT); (OP_RES, IFMT); (OP_RES, IFMT); (OP_RES, IFMT);
   (OP_RES, IFMT); (OP_RES, IFMT); (OP_RES, IFMT); (OP_RES, IFMT);
   (OP_LB, IFMT); (OP_LH, IFMT); (OP_LWL, IFMT); (OP_LW, IFMT);
   (OP_LBU, IFMT); (OP_LHU, IFMT); (OP_LWR, IFMT); (OP_RES, IFMT);
   (OP_SB, IFMT); (OP_SH, IFMT); (OP_SWL, IFMT); (OP_SW, IFMT);
   (OP_RES, IFMT); (OP_RES, IFMT); (OP_SWR, IFMT); (OP_RES, IFMT);
   (OP_UNIMP, IFMT); (OP_UNIMP, IFMT); (OP_UNIMP, IFMT); (OP_UNIMP, IFMT);
   (OP_RES, IFMT); (OP_RES, IFMT); (OP_RES, IFMT); (OP_RES, IFMT);
   (OP_UNIMP, IFMT); (OP_UNIMP, IFMT); (OP_UNIMP, IFMT); (OP_UNIMP, IFMT);
   (OP_RES, IFMT); (OP_RES, IFMT); (OP_RES, IFMT); (OP_RES, IFMT)
  ].

Definition specialTable : list OpCode :=
  [
   OP_SLL; OP_RES; OP_SRL; OP_SRA; OP_SLLV; OP_RES; OP_SRLV; OP_SRAV;
   OP_JR; OP_JALR; OP_RES; OP_RES; OP_SYSCALL; OP_UNIMP; OP_RES; OP_RES;
   OP_MFHI; OP_MTHI; OP_MFLO; OP_MTLO; OP_RES; OP_RES; OP_RES; OP_RES;
   OP_MULT; OP_MULTU; OP_DIV; OP_DIVU; OP_RES; OP_RES; OP_RES; OP_RES;
   OP_ADD; OP_ADDU; OP_SUB; OP_SUBU; OP_AND; OP_OR; OP_XOR; OP_NOR;
   OP_RES; OP_RES; OP_SLT; OP_SLTU; OP_RES; OP_RES; OP_RES; OP_RES;
   OP_RES; OP_RES; OP_RES; OP_RES; OP_RES; OP_RES; OP_RES; OP_RES;
   OP_RES; OP_RES; OP_RES; OP_RES; OP_RES; OP_RES; OP_RES; OP_RES
  ].

#[export] Instance OpCode_eq_dec : EqDecision OpCode.
Proof. solve_decision. Defined.
#[export] Instance Format_eq_dec : EqDecision Format.
Proof. solve_decision. Defined.

Definition SIGN_BIT : Z := 0x80000000.
Definition R31 : Z := 31.

(** [IndexToAddr(x)], on an [int]. *)
Definition IndexToAddr (x : Z) : Z := s32 (Z.shiftl x 2).

(** [(x & SIGN_BIT) != 0] *)
Definition sign_bit (x : Z) : bool := negb (Z.land (u32 x) SIGN_BIT =? 0).

(** ** Instructions (machine.h, lines 81 to 92) *)

Record Instruction := mkInstruction {
  opCode : OpCode;
  rs : Z;
  rt : Z;
  rd : Z;
  extra : Z;
}.

Definition table_get {A} (l : list A) (i : Z) : res A := arr_get l i.

(** [Instruction::Decode] of the unsigned word [value]. *)
Definition Decode (value : Z) : res Instruction :=
  let rs := Z.land (Z.shiftr value 21) 0x1f in
  let rt := Z.land (Z.shiftr value 16) 0x1f in
  let rd := Z.land (Z.shiftr value 11) 0x1f in
  '(op, format) ← table_get opTable (Z.land (Z.shiftr value 26) 0x3f);
  let extra :=
    if bool_decide (format = IFMT) then
      let extra := Z.land value 0xffff in
      if negb (Z.land extra 0x8000 =? 0) then s32 (Z.lor extra 0xffff0000) else extra
    else if bool_decide (format = RFMT) then Z.land (Z.shiftr value 6) 0x1f
    else Z.land value 0x3ffffff in
  op' ← (if bool_decide (op = SPECIAL) then table_get specialTable (Z.land value 0x3f)
         else if bool_decide (op = BCOND) then
           let i := Z.land value 0x1f0000 in
           Ok (if i =? 0 then OP_BLTZ
               else if i =? 0x10000 then OP_BGEZ
               else if i =? 0x100000 then OP_BLTZAL
               else if i =? 0x110000 then OP_BGEZAL
               else OP_UNIMP)
         else Ok op);
  Ok (mkInstruction op' rs rt rd extra).

(** ** Multiplication (mipssim.cc, lines 635 to 692)

    The local variables of the loop: [a] is an [int], the others [unsigned]. *)

Record MultState := mkMult {
  ma : Z;
  bLo : Z;
  bHi : Z;
  mlo : Z;
  mhi : Z;
}.

(** One round; the boolean is the [break]. *)
Definition mult_round (s : MultState) : bool * MultState :=
  let '(lo, hi, stop_here) :=
    if negb (Z.land (u32 (ma s)) 1 =? 0) then
      let lo := u32 (mlo s + bLo s) in
      let hi := if lo <? bLo s then u32 (mhi s + 1) else mhi s in
      let hi := u32 (hi + bHi s) in
      (lo, hi, Z.land (u32 (ma s)) 0xfffffffe =? 0)
    else (mlo s, mhi s, false) in
  if stop_here then (true, mkMult (ma s) (bLo s) (bHi s) lo hi)
  else
    let bHi' := u32 (Z.shiftl (bHi s) 1) in
    let bHi' := if negb (Z.land (bLo s) 0x80000000 =? 0) then Z.lor bHi' 1 else bHi' in
    (false, mkMult (Z.shiftr (ma s) 1) (u32 (Z.shiftl (bLo s) 1)) bHi' lo hi).

Fixpoint mult_loop (n : nat) (s : MultState) : MultState :=
  match n with
  | O => s
  | S n' => let '(b, s') := mult_round s in if b then s' else mult_loop n' s'
  end.

(** [*hiPtr] and [*loPtr]. *)
Definition Mult (a b : Z) (signedArith : bool) : Z * Z :=
  if (a =? 0) || (b =? 0) then (0, 0)
  else
    let '(negative, a, b) :=
      if signedArith then
        let '(neg1, a1) := if a <? 0 then (true, s32 (- a)) else (false, a) in
        let '(neg2, b1) := if b <? 0 then (negb neg1, s32 (- b)) else (neg1, b) in
        (neg2, a1, b1)
      else (false, a, b) in
    let s := mult_loop 32 (mkMult a (u32 b) 0 0 0) in
    let '(hi, lo) :=
      if (negative : bool) then
        let hi := u32 (Z.lnot (mhi s)) in
        let lo := u32 (Z.lnot (mlo s)) in
        let lo := u32 (lo + 1) in
        (if lo =? 0 then u32 (hi + 1) else hi, lo)
      else (mhi s, mlo s) in
    (s32 hi, s32 lo).

(** ** Executing one instruction *)

Section execution.
Context {K : Type} `{Kernel K}.

(** How a case of the switch ends. *)
Inductive outcome :=
  | Finish (st : Machine * K)
  | Next (st : Machine * K) (pcAfter nextLoadReg nextLoadValue : Z).

Definition trap (which : ExceptionType) (bad : Z) (st : Machine * K) : res outcome :=
  st' ← RaiseException which bad st; Ok (Finish st').

Section with_instruction.
Context (instr : Instruction) (pcAfter : Z) (st : Machine * K).

Let m := fst st.
Let k := snd st.
Let Rs := reg m (rs instr).
Let Rt := reg m (rt instr).
Let ex := extra instr.

(** Falling out of the switch with new registers. *)
Definition go (m' : Machine) : res outcome := Ok (Next (m', k) pcAfter 0 0).

Definition branch_to (taken : bool) (m' : Machine) : res outcome :=
  Ok (Next (m', k) (if taken then s32 (reg m' NextPCReg + IndexToAddr ex) else pcAfter) 0 0).

(** OP_ADD, OP_ADDI, OP_ADDIU, OP_ADDU, OP_AND, OP_ANDI *)
Definition exec_add_and : res outcome :=
  match opCode instr with
  | OP_ADD =>
      let sum := s32 (Rs + Rt) in
      if negb (sign_bit (Z.lxor Rs Rt)) && sign_bit (Z.lxor Rs sum)
      then trap OverflowException 0 st
      else go (set_reg m (rd instr) sum)
  | OP_ADDI =>
      let sum := s32 (Rs + ex) in
      if negb (sign_bit (Z.lxor Rs ex)) && sign_bit (Z.lxor ex sum)
      then trap OverflowException 0 st
      else go (set_reg m (rt instr) sum)
  | OP_ADDIU => go (set_reg m (rt instr) (s32 (Rs + ex)))
  | OP_ADDU => go (set_reg m (rd instr) (s32 (Rs + Rt)))
  | OP_AND => go (set_reg m (rd instr) (Z.land Rs Rt))
  | _ (* OP_ANDI *) => go (set_reg m (rt instr) (Z.land Rs (Z.land ex 0xffff)))
  end.

(** OP_BEQ, OP_BGEZAL, OP_BGEZ, OP_BGTZ, OP_BLEZ, OP_BLTZAL, OP_BLTZ, OP_BNE;
    the two "and link" cases fall through to the plain branch. *)
Definition exec_branch : res outcome :=
  let linked := set_reg m R31 (s32 (reg m NextPCReg + 4)) in
  match opCode instr with
  | OP_BEQ => branch_to (Rs =? Rt) m
  | OP_BGEZAL => branch_to (negb (sign_bit (reg linked (rs instr)))) linked
  | OP_BGEZ => branch_to (negb (sign_bit Rs)) m
  | OP_BGTZ => branch_to (Rs >? 0) m
  | OP_BLEZ => branch_to (Rs <=? 0) m
  | OP_BLTZAL => branch_to (sign_bit (reg linked (rs instr))) linked
  | OP_BLTZ => branch_to (sign_bit Rs) m
  | _ (* OP_BNE *) => branch_to (negb (Rs =? Rt)) m
  end.

(** OP_DIV, OP_DIVU *)
Definition exec_div : res outcome :=
  let result lo hi := set_reg (set_reg m LoReg lo) HiReg hi in
  match opCode instr with
  | OP_DIV =>
      if Rt =? 0 then go (result 0 0)
      (* the quotient does not fit an int: the host's division is undefined *)
      else if (Rs =? - two31) && (Rt =? -1) then Stop Undefined
      else
        (* Hi is computed after Lo was written; rs and rt are general registers *)
        go (result (s32 (Z.quot Rs Rt)) (s32 (Z.rem Rs Rt)))
  | _ (* OP_DIVU *) =>
      let urs := u32 Rs in
      let urt := u32 Rt in
      if urt =? 0 then go (result 0 0)
      else go (result (s32 (urs / urt)) (s32 (urs mod urt)))
  end.

(** OP_JAL, OP_J, OP_JALR, OP_JR; the "link" cases fall through. *)
Definition exec_jump : res outcome :=
  let target := s32 (Z.lor (Z.land (u32 pcAfter) 0xf0000000) (u32 (IndexToAddr ex))) in
  let link r := set_reg m r (s32 (reg m NextPCReg + 4)) in
  match opCode instr with
  | OP_JAL => Ok (Next (link R31, k) target 0 0)
  | OP_J => Ok (Next (m, k) target 0 0)
  | OP_JALR => Ok (Next (link (rd instr), k) (reg (link (rd instr)) (rs instr)) 0 0)
  | _ (* OP_JR *) => Ok (Next (m, k) Rs 0 0)
  end.

(** OP_LB, OP_LBU, OP_LH, OP_LHU, OP_LUI, OP_LW *)
Definition exec_load : res outcome :=
  let tmp := s32 (Rs + ex) in
  match opCode instr with
  | OP_LB | OP_LBU =>
      '(r, st') ← ReadMem tmp 1 st;
      match r with
      | None => Ok (Finish st')
      | Some value =>
          let value :=
            if negb (Z.land value 0x80 =? 0) && bool_decide (opCode instr = OP_LB)
            then s32 (Z.lor value 0xffffff00) else Z.land value 0xff in
          Ok (Next st' pcAfter (rt instr) value)
      end
  | OP_LH | OP_LHU =>
      if negb (Z.land tmp 0x1 =? 0) then trap AddressErrorException tmp st
      else
        '(r, st') ← ReadMem tmp 2 st;
        match r with
        | None => Ok (Finish st')
        | Some value =>
            let value :=
              if negb (Z.land value 0x8000 =? 0) && bool_decide (opCode instr = OP_LH)
              then s32 (Z.lor value 0xffff0000) else Z.land value 0xffff in
            Ok (Next st' pcAfter (rt instr) value)
        end
  | OP_LUI => go (set_reg m (rt instr) (s32 (Z.shiftl ex 16)))
  | _ (* OP_LW *) =>
      if negb (Z.land tmp 0x3 =? 0) then trap AddressErrorException tmp st
      else
        '(r, st') ← ReadMem tmp 4 st;
        match r with
        | None => Ok (Finish st')
        | Some value => Ok (Next st' pcAfter (rt instr) value)
        end
  end.

(** OP_LWL, OP_LWR *)
Definition exec_load_unaligned : res outcome :=
  let tmp := s32 (Rs + ex) in
  ASSERT (Z.land tmp 0x3 =? 0);;
  '(r, st') ← ReadMem tmp 4 st;
  match r with
  | None => Ok (Finish st')
  | Some value =>
      let m' := fst st' in
      let old := if reg m' LoadReg =? rt instr then reg m' LoadValueReg
                 else reg m' (rt instr) in
      let part := Z.land tmp 0x3 in
      let result :=
        match opCode instr with
        | OP_LWL =>
            if part =? 0 then value
            else if part =? 1 then Z.lor (Z.land old 0xff) (s32 (Z.shiftl value 8))
            else if part =? 2 then Z.lor (Z.land old 0xffff) (s32 (Z.shiftl value 16))
            else Z.lor (Z.land old 0xffffff) (s32 (Z.shiftl value 24))
        | _ (* OP_LWR *) =>
            if part =? 0 then
              s32 (Z.lor (Z.land (u32 old) 0xffffff00) (Z.land (Z.shiftr value 24) 0xff))
            else if part =? 1 then
              s32 (Z.lor (Z.land (u32 old) 0xffff0000) (Z.land (Z.shiftr value 16) 0xffff))
            else if part =? 2 then
              s32 (Z.lor (Z.land (u32 old) 0xff000000) (Z.land (Z.shiftr value 8) 0xffffff))
            else value
        end in
      Ok (Next st' pcAfter (rt instr) result)
  end.

(** OP_MFHI, OP_MFLO, OP_MTHI, OP_MTLO, OP_MULT, OP_MULTU *)
Definition exec_hilo : res outcome :=
  let mult signedArith :=
    let '(hi, lo) := Mult Rs Rt signedArith in set_reg (set_reg m HiReg hi) LoReg lo in
  match opCode instr with
  | OP_MFHI => go (set_reg m (rd instr) (reg m HiReg))
  | OP_MFLO => go (set_reg m (rd instr) (reg m LoReg))
  | OP_MTHI => go (set_reg m HiReg Rs)
  | OP_MTLO => go (set_reg m LoReg Rs)
  | OP_MULT => go (mult true)
  | _ (* OP_MULTU *) => go (mult false)
  end.

(** OP_NOR, OP_OR, OP_ORI; note the operands of OP_OR. *)
Definition exec_or : res outcome :=
  match opCode instr with
  | OP_NOR => go (set_reg m (rd instr) (Z.lnot (Z.lor Rs Rt)))
  | OP_OR => go (set_reg m (rd instr) (Z.lor Rs Rs))
  | _ (* OP_ORI *) => go (set_reg m (rt instr) (Z.lor Rs (Z.land ex 0xffff)))
  end.

(** OP_SB, OP_SH, OP_SW *)
Definition exec_store : res outcome :=
  let size := match opCode instr with OP_SB => 1 | OP_SH => 2 | _ => 4 end in
  '(ok, st') ← WriteMem (s32 (Rs + ex)) size Rt st;
  if (ok : bool) then Ok (Next st' pcAfter 0 0) else Ok (Finish st').

(** OP_SLL, OP_SLLV, OP_SLT, OP_SLTI, OP_SLTIU, OP_SLTU, OP_SRA, OP_SRAV,
    OP_SRL, OP_SRLV; [tmp] in the SRL cases is a signed [int]. *)
Definition exec_shift_set : res outcome :=
  let set_if r (b : bool) := go (set_reg m r (if b then 1 else 0)) in
  match opCode instr with
  | OP_SLL => go (set_reg m (rd instr) (s32 (Z.shiftl Rt ex)))
  | OP_SLLV => go (set_reg m (rd instr) (s32 (Z.shiftl Rt (Z.land Rs 0x1f))))
  | OP_SLT => set_if (rd instr) (Rs <? Rt)
  | OP_SLTI => set_if (rt instr) (Rs <? ex)
  | OP_SLTIU => set_if (rt instr) (u32 Rs <? u32 ex)
  | OP_SLTU => set_if (rd instr) (u32 Rs <? u32 Rt)
  | OP_SRA => go (set_reg m (rd instr) (Z.shiftr Rt ex))
  | OP_SRAV => go (set_reg m (rd instr) (Z.shiftr Rt (Z.land Rs 0x1f)))
  | OP_SRL => go (set_reg m (rd instr) (Z.shiftr Rt ex))
  | _ (* OP_SRLV *) => go (set_reg m (rd instr) (Z.shiftr Rt (Z.land Rs 0x1f)))
  end.

(** OP_SUB, OP_SUBU *)
Definition exec_sub : res outcome :=
  let diff := s32 (Rs - Rt) in
  match opCode instr with
  | OP_SUB =>
      if sign_bit (Z.lxor Rs Rt) && sign_bit (Z.lxor Rs diff)
      then trap OverflowException 0 st
      else go (set_reg m (rd instr) diff)
  | _ (* OP_SUBU *) => go (set_reg m (rd instr) diff)
  end.

(** OP_SWL, OP_SWR *)
Definition exec_store_unaligned : res outcome :=
  let tmp := s32 (Rs + ex) in
  ASSERT (Z.land tmp 0x3 =? 0);;
  '(r, st') ← ReadMem (s32 (Z.land tmp (Z.lnot 0x3))) 4 st;
  match r with
  | None => Ok (Finish st')
  | Some value =>
      let R := reg (fst st') (rt instr) in
      let part := Z.land tmp 0x3 in
      let value :=
        match opCode instr with
        | OP_SWL =>
            if part =? 0 then R
            else if part =? 1 then
              s32 (Z.lor (Z.land (u32 value) 0xff000000) (Z.land (Z.shiftr R 8) 0xffffff))
            else if part =? 2 then
              s32 (Z.lor (Z.land (u32 value) 0xffff0000) (Z.land (Z.shiftr R 16) 0xffff))
            else s32 (Z.lor (Z.land (u32 value) 0xffffff00) (Z.land (Z.shiftr R 24) 0xff))
        | _ (* OP_SWR *) =>
            if part =? 0 then Z.lor (Z.land value 0xffffff) (s32 (Z.shiftl R 24))
            else if part =? 1 then Z.lor (Z.land value 0xffff) (s32 (Z.shiftl R 16))
            else if part =? 2 then Z.lor (Z.land value 0xff) (s32 (Z.shiftl R 8))
            else R
        end in
      '(ok, st'') ← WriteMem (s32 (Z.land tmp (Z.lnot 0x3))) 4 value st';
      if (ok : bool) then Ok (Next st'' pcAfter 0 0) else Ok (Finish st'')
  end.

(** OP_XOR, OP_XORI *)
Definition exec_xor : res outcome :=
  match opCode instr with
  | OP_XOR => go (set_reg m (rd instr) (Z.lxor Rs Rt))
  | _ (* OP_XORI *) => go (set_reg m (rt instr) (Z.lxor Rs (Z.land ex 0xffff)))
  end.

(** The switch. *)
Definition execute : res outcome :=
  match opCode instr with
  | OP_ADD | OP_ADDI | OP_ADDIU | OP_ADDU | OP_AND | OP_ANDI => exec_add_and
  | OP_BEQ | OP_BGEZAL | OP_BGEZ | OP_BGTZ | OP_BLEZ | OP_BLTZAL | OP_BLTZ | OP_BNE => exec_branch
  | OP_DIV | OP_DIVU => exec_div
  | OP_JAL | OP_J | OP_JALR | OP_JR => exec_jump
  | OP_LB | OP_LBU | OP_LH | OP_LHU | OP_LUI | OP_LW => exec_load
  | OP_LWL | OP_LWR => exec_load_unaligned
  | OP_MFHI | OP_MFLO | OP_MTHI | OP_MTLO | OP_MULT | OP_MULTU => exec_hilo
  | OP_NOR | OP_OR | OP_ORI => exec_or
  | OP_SB | OP_SH | OP_SW => exec_store
  | OP_SLL | OP_SLLV | OP_SLT | OP_SLTI | OP_SLTIU | OP_SLTU
  | OP_SRA | OP_SRAV | OP_SRL | OP_SRLV => exec_shift_set
  | OP_SUB | OP_SUBU => exec_sub
  | OP_SWL | OP_SWR => exec_store_unaligned
  | OP_SYSCALL => trap SyscallException 0 st
  | OP_XOR | OP_XORI => exec_xor
  | OP_RES | OP_UNIMP => trap IllegalInstrException 0 st
  | OP_RFE | SPECIAL | BCOND => Stop AssertFailed
  end.
End with_instruction.

(** The end of [OneInstruction]: the delayed load and the program counters. *)
Definition advance (st : Machine * K) (pcAfter nextLoadReg nextLoadValue : Z)
    : res (Machine * K) :=
  let '(m, k) := st in
  m1 ← DelayedLoad m nextLoadReg nextLoadValue;
  let m2 := set_reg m1 PrevPCReg (reg m1 PCReg) in
  let m3 := set_reg m2 PCReg (reg m2 NextPCReg) in
  Ok (set_reg m3 NextPCReg pcAfter, k).

Definition OneInstruction (st : Machine * K) : res (Machine * K) :=
  '(r, st1) ← ReadMem (reg (fst st) PCReg) 4 st;
  match r with
  | None => Ok st1
  | Some raw =>
      instr ← Decode (u32 raw);
      let pcAfter := s32 (reg (fst st1) NextPCReg + 4) in
      o ← execute instr pcAfter st1;
      match o with
      | Finish st2 => Ok st2
      | Next st2 pc lr lv => advance st2 pc lr lv
      end
  end.
End execution.

(** ** Multiplication is multiplication *)

Module MultProof.

(** A double word from its two unsigned halves. *)
Definition dword (hi lo : Z) : Z := lo + two32 * hi.
Definition two64 : Z := 18446744073709551616.

(** The loop computes [A * B], where [a0] (an [int]) has the 32 bits [A]. *)
Record mult_inv (a0 B i : Z) (s : MultState) : Prop := mkMultInv {
  mi_a : ma s = Z.shiftr a0 i;
  mi_b : dword (bHi s) (bLo s) = (B * 2 ^ i) mod two64;
  mi_r : dword (mhi s) (mlo s) = (B * (u32 a0 mod 2 ^ i)) mod two64;
  mi_range : is_u32 (bHi s) ∧ is_u32 (bLo s) ∧ is_u32 (mhi s) ∧ is_u32 (mlo s);
}.

(** Double-word addition with carry, as the loop does it. *)
Lemma dword_add hi lo bhi blo :
  is_u32 hi → is_u32 lo → is_u32 bhi → is_u32 blo →
  let lo' := u32 (lo + blo) in
  dword (u32 ((if lo' <? blo then u32 (hi + 1) else hi) + bhi)) lo'
  = (dword hi lo + dword bhi blo) mod two64.
Proof.
  unfold is_u32, dword, u32, two32, two64. intros Hh Hl Hbh Hbl. simpl.
  destruct (Z.ltb_spec ((lo + blo) mod 4294967296) blo); Z.div_mod_to_equations; lia.
Qed.

(** Doubling a double word, as the loop does it. *)
Lemma dword_double bhi blo :
  is_u32 bhi → is_u32 blo →
  let bhi' := u32 (Z.shiftl bhi 1) in
  let bhi'' := if negb (Z.land blo 0x80000000 =? 0) then Z.lor bhi' 1 else bhi' in
  is_u32 bhi'' ∧ dword bhi'' (u32 (Z.shiftl blo 1)) = (2 * dword bhi blo) mod two64.
Proof.
  unfold is_u32, dword, u32. intros Hh Hl. simpl.
  rewrite !Z.shiftl_mul_pow2 by lia. change (2 ^ 1) with 2.
  assert (Z.land blo 0x80000000 = (blo / 2147483648) mod 2 * 2147483648) as ->
    by apply (land_bit blo 31 ltac:(done)).
  unfold two32, two64 in *.
  assert ((bhi * 2) mod 4294967296 = 2 * (bhi mod 2147483648)) as -> by
    (Z.div_mod_to_equations; lia).
  assert (∀ x, 0 ≤ x → Z.lor (2 * x) 1 = 2 * x + 1) as Hlor.
  { intros x Hx. rewrite Z.lor_comm. replace (2 * x) with (x * 2 ^ 1) by lia.
    rewrite lor_add; lia. }
  destruct (Z.eqb_spec ((blo / 2147483648) mod 2 * 2147483648) 0); simpl negb; cbn iota;
    rewrite ?Hlor by (apply Z.mod_pos_bound; lia); Z.div_mod_to_equations; lia.
Qed.

Lemma odd_test a : (negb (Z.land (u32 a) 1 =? 0)) = Z.odd a.
Proof.
  change 1 with (Z.ones 1) at 1. rewrite Z.land_ones by lia. change (2 ^ 1) with 2.
  assert (u32 a mod 2 = a mod 2) as ->.
  { unfold u32, two32. Z.div_mod_to_equations. lia. }
  rewrite Zmod_odd. by destruct (Z.odd a).
Qed.

Lemma last_bit_test a :
  is_s32 a → Z.odd a = true → (Z.land (u32 a) 0xfffffffe =? 0) = bool_decide (a = 1).
Proof.
  intros Ha Hodd. rewrite <- Z.bit0_odd in Hodd.
  assert (u32 a = 1 + Z.land (u32 a) 0xfffffffe) as E.
  { pose proof (u32_range a) as Hu.
    assert (Z.land (u32 a) 0xfffffffe + Z.land (u32 a) 1 = u32 a) as E.
    { rewrite <- Z.add_lor_land.
      rewrite <- Z.land_lor_distr_r. change (Z.lor 0xfffffffe 1) with (Z.ones 32).
      rewrite (Z.land_ones (u32 a)) by lia. change (2 ^ 32) with two32.
      rewrite (Z.mod_small (u32 a)) by exact Hu.
      enough (Z.land (Z.land (u32 a) 0xfffffffe) (Z.land (u32 a) 1) = 0) by lia.
      rewrite (Z.land_comm (u32 a) 1), Z.land_assoc, <- (Z.land_assoc (u32 a)).
      change (Z.land 0xfffffffe 1) with 0. by rewrite Z.land_0_r, Z.land_0_l. }
    assert (Z.land (u32 a) 1 = 1) as E1.
    { change 1 with (Z.ones 1) at 1. rewrite Z.land_ones by lia. change (2 ^ 1) with 2.
      rewrite Zmod_odd. rewrite <- Z.bit0_odd. unfold u32. change two32 with (2 ^ 32).
      rewrite Z.mod_pow2_bits_low by lia. by rewrite Hodd. }
    lia. }
  unfold is_s32 in Ha. case_bool_decide as D.
  - subst. done.
  - apply Z.eqb_neq. intros Hz. apply D. rewrite Hz in E.
    unfold u32, two31, two32 in *. Z.div_mod_to_equations. lia.
Qed.

Lemma bit_step A i :
  0 ≤ i → A mod 2 ^ (i + 1) = A mod 2 ^ i + (if Z.odd (Z.shiftr A i) then 2 ^ i else 0).
Proof.
  intros Hi. rewrite Z.pow_add_r by lia. change (2 ^ 1) with 2.
  assert (0 < 2 ^ i) by (apply Z.pow_pos_nonneg; lia).
  rewrite Z.rem_mul_r by lia. f_equal. rewrite Z.shiftr_div_pow2, Zmod_odd by lia.
  case_match; lia.
Qed.

Lemma odd_u32_shift a i : 0 ≤ i < 32 → Z.odd (Z.shiftr (u32 a) i) = Z.odd (Z.shiftr a i).
Proof.
  intros Hi. rewrite <- !Z.bit0_odd, !Z.shiftr_spec by lia.
  unfold u32. change two32 with (2 ^ 32). apply Z.mod_pow2_bits_low. lia.
Qed.

(** The accumulator of the next round. *)
Definition accumulate (s : MultState) : Z * Z :=
  if negb (Z.land (u32 (ma s)) 1 =? 0) then
    let lo := u32 (mlo s + bLo s) in
    (u32 ((if lo <? bLo s then u32 (mhi s + 1) else mhi s) + bHi s), lo)
  else (mhi s, mlo s).

Lemma accumulate_inv a0 B i s :
  0 ≤ i < 32 → mult_inv a0 B i s →
  is_u32 (fst (accumulate s)) ∧ is_u32 (snd (accumulate s)) ∧
  dword (fst (accumulate s)) (snd (accumulate s)) = (B * (u32 a0 mod 2 ^ (i + 1))) mod two64.
Proof.
  intros Hi [Ha Hb Hr (Hbh & Hbl & Hh & Hl)]. unfold accumulate.
  rewrite odd_test, Ha, bit_step, odd_u32_shift by lia.
  destruct (Z.odd (Z.shiftr a0 i)); simpl.
  - split; [apply u32_range|]. split; [apply u32_range|].
    rewrite dword_add by done. rewrite Hb, Hr, <- Zplus_mod. f_equal. lia.
  - split; [done|]. split; [done|]. rewrite Hr. f_equal. lia.
Qed.

Lemma mult_round_unfold s :
  mult_round s =
  let '(hi, lo) := accumulate s in
  if Z.odd (ma s) && (Z.land (u32 (ma s)) 0xfffffffe =? 0)
  then (true, mkMult (ma s) (bLo s) (bHi s) lo hi)
  else (false, mkMult (Z.shiftr (ma s) 1) (u32 (Z.shiftl (bLo s) 1))
         (let b := u32 (Z.shiftl (bHi s) 1) in
          if negb (Z.land (bLo s) 0x80000000 =? 0) then Z.lor b 1 else b) lo hi).
Proof. unfold mult_round, accumulate. rewrite odd_test. by destruct (Z.odd (ma s)). Qed.

Lemma mult_round_inv a0 B i s :
  is_s32 a0 → 0 ≤ i < 32 → mult_inv a0 B i s →
  let '(b, s') := mult_round s in
  is_u32 (mhi s') ∧ is_u32 (mlo s') ∧
  if b then dword (mhi s') (mlo s') = (B * u32 a0) mod two64
  else mult_inv a0 B (i + 1) s'.
Proof.
  intros Ha0 Hi Hinv. pose proof (accumulate_inv _ _ _ _ Hi Hinv) as (Hh & Hl & Hacc).
  rewrite mult_round_unfold. destruct (accumulate s) as [hi lo]; simpl in Hh, Hl, Hacc.
  destruct Hinv as [Ha Hb Hr (Hbh & Hbl & _ & _)].
  assert (0 < 2 ^ i) by (apply Z.pow_pos_nonneg; lia).
  destruct (Z.odd (ma s) && _) eqn:Ebrk; simpl.
  - split; [done|]. split; [done|]. rewrite Hacc. do 2 f_equal.
    apply andb_true_iff in Ebrk as [Hodd Hlast].
    rewrite last_bit_test in Hlast by (done || (rewrite Ha; apply shiftr_s32; [done|lia])).
    apply bool_decide_eq_true in Hlast. rewrite Ha, Z.shiftr_div_pow2 in Hlast by lia.
    rewrite Z.pow_add_r by lia. change (2 ^ 1) with 2.
    pose proof (Z.div_mod a0 (2 ^ i)) as E. pose proof (Z.mod_pos_bound a0 (2 ^ i)).
    rewrite u32_small; [apply Z.mod_small; lia|].
    unfold is_u32, is_s32, two31, two32 in *. lia.
  - split; [done|]. split; [done|].
    destruct (dword_double (bHi s) (bLo s) Hbh Hbl) as [Hb1 Hb2].
    constructor; simpl.
    + rewrite Ha, Z.shiftr_shiftr by lia. done.
    + rewrite Hb2, Hb, Zmult_mod_idemp_r. f_equal. rewrite Z.pow_add_r by lia. lia.
    + exact Hacc.
    + split; [exact Hb1|]. split; [apply u32_range|]. done.
Qed.

Lemma mult_loop_inv a0 B n i s :
  is_s32 a0 → 0 ≤ i → i + Z.of_nat n = 32 → mult_inv a0 B i s →
  is_u32 (mhi (mult_loop n s)) ∧ is_u32 (mlo (mult_loop n s)) ∧
  dword (mhi (mult_loop n s)) (mlo (mult_loop n s)) = (B * u32 a0) mod two64.
Proof.
  intros Ha0. revert i s. induction n as [|n IH]; intros i s Hi Hn Hinv; simpl.
  - destruct Hinv as [_ _ Hr (_ & _ & Hh & Hl)]. split; [done|]. split; [done|].
    rewrite Hr. do 2 f_equal. replace i with 32 by lia. change (2 ^ 32) with two32.
    apply (u32_small (u32 a0)), u32_range.
  - pose proof (mult_round_inv a0 B i s Ha0 ltac:(lia) Hinv) as Hround.
    destruct (mult_round s) as [[] s']; destruct Hround as (Hh & Hl & Hrest).
    + done.
    + apply (IH (i + 1)); [lia|lia|done].
Qed.

(** The loop from its initial values. *)
Lemma mult_loop_product a b :
  is_s32 a → let s := mult_loop 32 (mkMult a (u32 b) 0 0 0) in
  is_u32 (mhi s) ∧ is_u32 (mlo s) ∧ dword (mhi s) (mlo s) = u32 b * u32 a.
Proof.
  intros Ha. pose proof (u32_range a) as Hua. pose proof (u32_range b) as Hub.
  destruct (mult_loop_inv a (u32 b) 32 0 (mkMult a (u32 b) 0 0 0)) as (H1 & H2 & H3);
    [done|lia|lia| |].
  - constructor; simpl.
    + by rewrite Z.shiftr_0_r.
    + unfold dword, is_u32, two32, two64 in *. rewrite Z.mod_small; lia.
    + rewrite Z.mod_1_r. by rewrite Z.mul_0_r.
    + assert (is_u32 0) by (unfold is_u32, two32; lia). split_and!; done.
  - split; [done|]. split; [done|]. rewrite H3. apply Z.mod_small.
    unfold is_u32, two32, two64 in *. nia.
Qed.

(** Two's complement negation of a double word. *)
Lemma dword_neg hi lo :
  is_u32 hi → is_u32 lo →
  let lo' := u32 (u32 (Z.lnot lo) + 1) in
  let hi' := if lo' =? 0 then u32 (u32 (Z.lnot hi) + 1) else u32 (Z.lnot hi) in
  is_u32 hi' ∧ is_u32 lo' ∧ dword hi' lo' = (- dword hi lo) mod two64.
Proof.
  unfold Z.lnot. intros Hh Hl. simpl. split_and!.
  - case_match; apply u32_range.
  - apply u32_range.
  - unfold dword, is_u32, u32, two32, two64 in *.
    destruct (Z.eqb_spec ((Z.pred (- lo) mod 4294967296 + 1) mod 4294967296) 0);
      Z.div_mod_to_equations; lia.
Qed.

(** What [Mult] computes, on both branches of [signedArith]. *)
Lemma mult_spec a b signedArith :
  is_s32 a → is_s32 b →
  let '(hi, lo) := Mult a b signedArith in
  is_s32 hi ∧ is_s32 lo ∧
  dword (u32 hi) (u32 lo) =
  (if signedArith then a * b else u32 a * u32 b) mod two64.
Proof.
  intros Ha Hb. unfold Mult.
  destruct (Z.eqb_spec a 0) as [->|Ha0]; simpl orb; cbn iota.
  { split; [done|]. split; [done|]. by destruct signedArith. }
  destruct (Z.eqb_spec b 0) as [->|Hb0]; cbn iota.
  { split; [done|]. split; [done|]. destruct signedArith; rewrite Z.mul_0_r; done. }
  assert (∀ x y z, is_s32 x → u32 x * u32 y = z →
    let s := mult_loop 32 (mkMult x (u32 y) 0 0 0) in
    dword (u32 (s32 (mhi s))) (u32 (s32 (mlo s))) = z mod two64) as Hpos.
  { intros x y z Hx <-. destruct (mult_loop_product x y Hx) as (H1 & H2 & H3).
    cbv zeta. rewrite !u32_s32, (u32_small _ H1), (u32_small _ H2). rewrite H3, Z.mul_comm.
    rewrite Z.mod_small; [done|]. pose proof (u32_range x). pose proof (u32_range y).
    unfold is_u32, two32, two64 in *. nia. }
  destruct signedArith.
  2:{ split; [apply s32_range|]. split; [apply s32_range|]. by apply Hpos. }
  assert (∀ x, is_s32 x → is_s32 (s32 (- x)) ∧ (x < 0 → u32 (s32 (- x)) = - x)) as Hneg.
  { intros x Hx. split; [apply s32_range|]. intros Hlt. rewrite u32_s32. apply u32_small.
    unfold is_s32, is_u32, two31, two32 in *. lia. }
  assert (∀ x, is_s32 x → ¬ x < 0 → u32 x = x) as Hnn.
  { intros x Hx Hge. apply u32_small. unfold is_s32, is_u32, two31, two32 in *. lia. }
  assert (∀ x y z, is_s32 x → u32 x * u32 y = - z →
    let s := mult_loop 32 (mkMult x (u32 y) 0 0 0) in
    let lo := u32 (u32 (Z.lnot (mlo s)) + 1) in
    let hi := if lo =? 0 then u32 (u32 (Z.lnot (mhi s)) + 1) else u32 (Z.lnot (mhi s)) in
    dword (u32 (s32 hi)) (u32 (s32 lo)) = z mod two64) as Hnegd.
  { intros x y z Hx Hz. destruct (mult_loop_product x y Hx) as (H1 & H2 & H3).
    destruct (dword_neg _ _ H1 H2) as (H4 & H5 & H6). cbv zeta in *.
    rewrite !u32_s32, (u32_small _ H4), (u32_small _ H5), H6, H3. f_equal. lia. }
  destruct (Hneg a Ha) as [Hsa Hua]. destruct (Hneg b Hb) as [Hsb Hub].
  destruct (Z.ltb_spec a 0); destruct (Z.ltb_spec b 0); cbn -[mult_loop u32 s32 dword two64];
    (split; [apply s32_range|]); (split; [apply s32_range|]).
  - apply Hpos; [done|]. rewrite Hua, Hub by done. lia.
  - apply Hnegd; [done|]. rewrite Hua, (Hnn b) by (done || lia). lia.
  - apply Hnegd; [done|]. rewrite Hub, (Hnn a) by (done || lia). lia.
  - apply Hpos; [done|]. rewrite (Hnn a), (Hnn b) by (done || lia). lia.
Qed.
End MultProof.
