(* ===== verification/MipsProps.v ===== *)
(** * The instruction set: decoding, safety and arithmetic

    What [Decode] accepts, that [OneInstruction] keeps the simulated CPU well
    formed whatever the program does, and that the arithmetic instructions
    compute what the MIPS manual says.  [kernel_keeps] is what the CPU relies on
    in the kernel: the exception handler leaves the machine well formed. *)

From S2P Require Import Prelude Machine MipsSim.

(** ** The well-formed CPU *)

(** Forty registers of 32 bits, a delayed load aimed at a general register,
    memory made of bytes, and a linear page table. *)
Record cpu_ok (m : Machine) : Prop := mkCpuOk {
  cpu_regs : length (registers m) = Z.to_nat NumTotalRegs;
  cpu_s32 : Forall is_s32 (registers m);
  cpu_load : 0 ≤ reg m LoadReg < NumGPRegs;
  cpu_mem : map_Forall (λ _, is_u8) (mainMemory m);
  cpu_table : ∃ pt, linear m pt;
}.

(** Between two instructions register 0 holds 0, too. *)
Definition machine_ok (m : Machine) : Prop := cpu_ok m ∧ reg m 0 = 0.

Section registers.
Context (m : Machine) (Hm : cpu_ok m).

Lemma reg_s32 r : is_s32 (reg m r).
Proof using Hm.
  unfold reg. destruct (registers m !! Z.to_nat r) as [v|] eqn:E; simpl.
  - exact (Forall_lookup_1 _ _ _ _ (cpu_s32 m Hm) E).
  - unfold is_s32, two31. lia.
Qed.

Lemma reg_set_eq r v : 0 ≤ r < NumTotalRegs → reg (set_reg m r v) r = v.
Proof using Hm.
  intros Hr. unfold reg, set_reg, with_registers. simpl.
  rewrite list_lookup_insert_eq; [done|]. rewrite (cpu_regs m Hm). lia.
Qed.

Lemma reg_set_ne r r' v : 0 ≤ r → 0 ≤ r' → r ≠ r' → reg (set_reg m r v) r' = reg m r'.
Proof using Type.
  intros. unfold reg, set_reg, with_registers. simpl. rewrite list_lookup_insert_ne; [done|lia].
Qed.

Lemma set_reg_ok r v :
  0 ≤ r → is_s32 v → (r = LoadReg → 0 ≤ v < NumGPRegs) → cpu_ok (set_reg m r v).
Proof using Hm.
  intros Hr Hv Hl. split; simpl.
  - rewrite length_insert. apply Hm.
  - apply Forall_insert; [apply Hm|done].
  - destruct (decide (r = LoadReg)) as [->|Hne].
    + rewrite reg_set_eq by done. auto.
    + rewrite reg_set_ne by (done || lia). apply Hm.
  - apply Hm.
  - destruct (cpu_table m Hm) as [pt [? ? ? ?]]. exists pt. by split.
Qed.

(** Writing a general register, or HI or LO. *)
Lemma set_gpr_ok r v : 0 ≤ r < PCReg → is_s32 v → cpu_ok (set_reg m r v).
Proof using Hm.
  unfold PCReg. intros Hr Hv. apply set_reg_ok; [lia|done|]. unfold LoadReg. lia.
Qed.
End registers.

#[export] Hint Resolve reg_s32 set_gpr_ok : nachos.

Lemma DelayedLoad_ok E m nextReg nextValue :
  cpu_ok m → 0 ≤ nextReg < NumGPRegs → is_s32 nextValue →
  post E machine_ok (DelayedLoad m nextReg nextValue).
Proof.
  intros Hm Hr Hv. unfold DelayedLoad.
  pose proof (cpu_load m Hm) as Hl. pose proof (cpu_regs m Hm) as Hlen.
  rewrite arr_set_in by (rewrite Hlen; unfold NumGPRegs, NumTotalRegs in *; lia). simpl.
  set (m1 := with_registers m _).
  assert (cpu_ok m1) as H1.
  { apply (set_gpr_ok m Hm (reg m LoadReg));
      [unfold PCReg, NumGPRegs in *; lia|by apply reg_s32]. }
  assert (cpu_ok (set_reg m1 LoadReg nextReg)) as H2.
  { apply set_reg_ok; [done|unfold LoadReg; lia| |done].
    unfold is_s32, two31, NumGPRegs in *. lia. }
  assert (cpu_ok (set_reg (set_reg m1 LoadReg nextReg) LoadValueReg nextValue)) as H3.
  { apply set_reg_ok; [done|unfold LoadValueReg; lia|done|done]. }
  split.
  - apply set_gpr_ok; [done|unfold PCReg; lia|unfold is_s32, two31; lia].
  - apply reg_set_eq; [done|unfold NumTotalRegs; lia].
Qed.

(** What [DelayedLoad] leaves in every register. *)
Lemma DelayedLoad_regs m nextReg nextValue :
  cpu_ok m → 0 ≤ nextReg < NumGPRegs → is_s32 nextValue →
  ∃ m', DelayedLoad m nextReg nextValue = Ok m' ∧ machine_ok m' ∧
    reg m' LoadReg = nextReg ∧ reg m' LoadValueReg = nextValue ∧
    ∀ r, 0 < r ≤ PrevPCReg → reg m' r = if bool_decide (r = reg m LoadReg) then reg m LoadValueReg
                                    else reg m r.
Proof.
  intros Hm Hr Hv. pose proof (DelayedLoad_ok (λ _, False) m nextReg nextValue Hm Hr Hv) as Hok.
  destruct (DelayedLoad m nextReg nextValue) as [m'|] eqn:E; [|done].
  exists m'. split; [done|]. split; [exact Hok|]. clear Hok.
  pose proof (cpu_regs m Hm) as Hlen. pose proof (cpu_load m Hm) as Hl.
  unfold DelayedLoad in E. apply bind_ok in E as (regs & E1 & E).
  apply arr_set_ok in E1 as [Hin ->]. injection E as <-.
  unfold reg, set_reg, with_registers in *. cbn [registers].
  unfold NumTotalRegs, NumGPRegs, PrevPCReg, LoadReg, LoadValueReg in *.
  split_and!; intros;
    repeat first [ rewrite list_lookup_insert_eq by (rewrite ?length_insert, Hlen; lia)
                 | rewrite list_lookup_insert_ne by lia ]; try done.
  case_bool_decide as Hr'.
  - rewrite Hr', list_lookup_insert_eq by (rewrite Hlen; lia). done.
  - rewrite list_lookup_insert_ne by lia. done.
Qed.

(** ** Safety of one instruction, for a kernel that keeps the machine *)

Section safety.
Context {K : Type} `{Kernel K}.
Context (E : stop → Prop).

(** The handler returns with a well-formed machine, or stops the simulation in
    one of the ways [E] (an ASSERT of the kernel, or a halt). *)
Definition kernel_keeps : Prop :=
  ∀ which m k, machine_ok m →
    post E (λ st, machine_ok (fst st)) (ExceptionHandler which (m, k)).

Context (HK : kernel_keeps).

Lemma RaiseException_ok which bad m k :
  cpu_ok m → is_s32 bad → post E (λ st, machine_ok (fst st)) (RaiseException which bad (m, k)).
Proof using HK.
  intros Hm Hb. unfold RaiseException.
  eapply post_bind.
  { apply DelayedLoad_ok; [|done|done]. apply set_reg_ok; [done| |done|].
    - done.
    - done. }
  intros m1 _ H1. eapply post_bind; [by apply HK|]. intros [m2 k2] _ H2. exact H2.
Qed.

Lemma cpu_ok_same m m' :
  same_space m m' → registers m' = registers m → map_Forall (λ _, is_u8) (mainMemory m') →
  cpu_ok m → cpu_ok m'.
Proof using Type.
  intros Hss Hr Hmem [H1 H2 H3 H4 [pt H5]]. split; rewrite ?Hr; try done.
  - unfold reg. by rewrite Hr.
  - eapply same_space_linear; done.
Qed.

(** [Translate] changes the use and dirty bits only. *)
Lemma Translate_ok m a size writing :
  cpu_ok m → size = 1 ∨ size = 2 ∨ size = 4 →
  post E (λ '(_, _, m'), cpu_ok m' ∧ registers m' = registers m ∧
                          mainMemory m' = mainMemory m) (Translate m a size writing).
Proof using Type.
  intros Hm Hs. destruct (cpu_table m Hm) as [pt Hlin].
  destruct (Translate_spec m pt Hlin a size writing Hs) as (exc & pa & m' & -> & T).
  simpl. destruct T; try done. split; [|done].
  eapply cpu_ok_same; [by eapply touch_same_space|done|apply Hm|done].
Qed.

Lemma ReadMem_ok m k a size :
  cpu_ok m → is_s32 a → size = 1 ∨ size = 2 ∨ size = 4 →
  post E (λ '(r, st), match r with
                      | Some v => cpu_ok (fst st) ∧ is_s32 v ∧ registers (fst st) = registers m
                                  ∧ snd st = k
                      | None => machine_ok (fst st)
                      end) (ReadMem a size (m, k)).
Proof using HK.
  intros Hm Ha Hs. unfold ReadMem. eapply post_bind; [by apply Translate_ok|].
  intros [[exc pa] m1] _ (H1 & Hr & Hmem). case_bool_decide.
  - eapply post_bind; [by apply RaiseException_ok|]. by intros [m2 k2] _ H2.
  - pose proof (read_bytes_u8 (mainMemory m1) pa (Z.to_nat size) (cpu_mem _ H1)) as Hb.
    destruct Hs as [->|[->| ->]]; simpl; split_and!; try done.
    + pose proof (s8_range (default 0 (mainMemory m1 !! pa) + 256 * 0)) as Hs8.
      unfold is_s32, two31. simpl in Hs8. lia.
    + apply le_value_range in Hb. rewrite length_read_bytes in Hb.
      change (256 ^ Z.of_nat (Z.to_nat 2)) with 65536 in Hb.
      unfold is_s32, two31. split; [|eapply Z.lt_trans; [apply Hb|done]].
      etransitivity; [|apply Hb]. done.
    + apply s32_range.
Qed.

Lemma WriteMem_ok m k a size v :
  cpu_ok m → is_s32 a → size = 1 ∨ size = 2 ∨ size = 4 →
  post E (λ '(ok, st), if (ok : bool) then cpu_ok (fst st) ∧ registers (fst st) = registers m
                       else machine_ok (fst st)) (WriteMem a size v (m, k)).
Proof using HK.
  intros Hm Ha Hs. unfold WriteMem. eapply post_bind; [by apply Translate_ok|].
  intros [[exc pa] m1] _ (H1 & Hr & Hmem). case_bool_decide.
  - eapply post_bind; [by apply RaiseException_ok|]. by intros [m2 k2] _ H2.
  - assert (∀ bs, Forall is_u8 bs →
      cpu_ok (with_memory m1 (write_bytes (mainMemory m1) pa bs))) as Hst.
    { intros bs Hb. destruct H1 as [? ? ? ? [pt [? ? ? ?]]]. split; try done.
      - by apply write_bytes_u8.
      - exists pt. by split. }
    destruct Hs as [->|[->| ->]]; refine (conj (Hst _ _) Hr).
    + constructor; [|done]. apply (land_mask v 8); done.
    + apply le_bytes_u8.
    + apply le_bytes_u8.
Qed.
End safety.

(** ** Decoding *)

(** The opcodes whose [extra] field is a shift amount. *)
Definition is_shift (op : OpCode) : bool :=
  match op with OP_SLL | OP_SRA | OP_SRL => true | _ => false end.

(** The members of the opcode enumeration that no instruction decodes to. *)
Definition is_escape (op : OpCode) : bool :=
  match op with OP_RFE | SPECIAL | BCOND => true | _ => false end.

Record decoded (i : Instruction) : Prop := mkDecoded {
  dec_rs : 0 ≤ rs i < NumGPRegs;
  dec_rt : 0 ≤ rt i < NumGPRegs;
  dec_rd : 0 ≤ rd i < NumGPRegs;
  dec_extra : is_s32 (extra i);
  dec_shift : is_shift (opCode i) = true → 0 ≤ extra i < 32;
  dec_op : is_escape (opCode i) = false;
}.

(** The two tables, checked entry by entry. *)
Definition op_entry_ok (p : OpCode * Format) : bool :=
  let '(op, f) := p in
  negb (is_shift op) && negb (bool_decide (op = OP_RFE)) &&
  (negb (bool_decide (op = SPECIAL)) || bool_decide (f = RFMT)).

Lemma opTable_ok : length opTable = 64%nat ∧ Forall op_entry_ok opTable.
Proof. split; [done|]. repeat constructor. Qed.

Lemma specialTable_ok :
  length specialTable = 64%nat ∧ Forall (λ op, negb (is_escape op)) specialTable.
Proof. split; [done|]. repeat constructor. Qed.

(** A 6-bit index into a table of 64 entries all satisfying [P]. *)
Lemma table_entry {A} (P : A → Prop) (l : list A) i :
  length l = 64%nat → Forall P l → 0 ≤ i < 64 → ∃ x, table_get l i = Ok x ∧ P x.
Proof.
  intros Hl HP Hi. destruct (arr_get_total l i) as (x & E & Hx); [lia|].
  exists x. split; [exact E|]. exact (Forall_lookup_1 _ _ _ _ HP Hx).
Qed.

Lemma field_range value k : 0 ≤ Z.land (Z.shiftr value k) 0x1f < 32.
Proof. apply (land_mask _ 5); done. Qed.

Lemma Decode_ok value : ∃ i, Decode value = Ok i ∧ decoded i.
Proof.
  destruct opTable_ok as [Hl1 Ht1]. destruct specialTable_ok as [Hl2 Ht2].
  destruct (table_entry _ _ (Z.land (Z.shiftr value 26) 0x3f) Hl1 Ht1) as ([op fmt] & E1 & H1).
  { apply (land_mask _ 6); done. }
  destruct (table_entry _ _ (Z.land value 0x3f) Hl2 Ht2) as (op2 & E2 & H2).
  { apply (land_mask _ 6); done. }
  unfold Decode. rewrite E1. simpl. rewrite E2.
  apply Is_true_eq_true in H1, H2. unfold op_entry_ok in H1.
  assert (is_s32 (if bool_decide (fmt = IFMT) then
    (if negb (Z.land (Z.land value 65535) 32768 =? 0)
     then s32 (Z.lor (Z.land value 65535) 4294901760) else Z.land value 65535)
    else if bool_decide (fmt = RFMT) then Z.land (Z.shiftr value 6) 31
    else Z.land value 67108863)) as Hex.
  { pose proof (land_mask value 16 65535 ltac:(done) eq_refl).
    pose proof (land_mask value 26 67108863 ltac:(done) eq_refl).
    pose proof (field_range value 6).
    repeat case_match; try apply s32_range; unfold is_s32, two31; lia. }
  destruct (decide (op = SPECIAL)) as [->|Hns]; simpl.
  - eexists. split; [reflexivity|]. simpl in H1.
    destruct fmt; try discriminate. split; simpl; try apply field_range; [exact Hex| |].
    + intros _. apply field_range.
    + by apply negb_true_iff.
  - destruct (decide (op = BCOND)) as [->|Hnb].
    + eexists. split; [reflexivity|].
      split; simpl; try apply field_range; [exact Hex| |]; repeat case_match; done.
    + rewrite (bool_decide_eq_false_2 (op = SPECIAL)), (bool_decide_eq_false_2 (op = BCOND)) by done.
      eexists. split; [reflexivity|].
      split; simpl; try apply field_range; [exact Hex| |]; destruct op; done.
Qed.

(** ** Every instruction *)

Definition is_unaligned (op : OpCode) : bool :=
  match op with OP_LWL | OP_LWR | OP_SWL | OP_SWR => true | _ => false end.

(** The two ways a user instruction stops the simulator itself: the ASSERT of
    the "unaligned" accesses, and the host's signed division of the least
    [int] by -1. *)
Definition host_fault (i : Instruction) (m : Machine) (e : stop) : Prop :=
  (e = AssertFailed ∧ is_unaligned (opCode i) = true ∧
   Z.land (s32 (reg m (rs i) + extra i)) 0x3 ≠ 0) ∨
  (e = Undefined ∧ opCode i = OP_DIV ∧ reg m (rs i) = - two31 ∧ reg m (rt i) = -1).

Section execution.
Context {K : Type} `{Kernel K}.
Context (E : stop → Prop) (HK : kernel_keeps E).

Definition outcome_ok (o : outcome (K:=K)) : Prop :=
  match o with
  | Finish st => machine_ok (fst st)
  | Next st pc lr lv => cpu_ok (fst st) ∧ is_s32 pc ∧ 0 ≤ lr < NumGPRegs ∧ is_s32 lv
  end.

Context (i : Instruction) (pc : Z) (m : Machine) (k : K).
Context (Hm : cpu_ok m) (Hi : decoded i) (Hpc : is_s32 pc).

Lemma gpr_lt_PC r : 0 ≤ r < NumGPRegs → 0 ≤ r < PCReg.
Proof using Type. unfold NumGPRegs, PCReg. lia. Qed.

Lemma small_s32 x : 0 ≤ x < 65536 → is_s32 x.
Proof using Type. unfold is_s32, two31. lia. Qed.

Lemma mask16_s32 x : is_s32 (Z.land x 0xffff).
Proof using Type. apply small_s32, (land_mask x 16); done. Qed.
Lemma mask8_s32 x : is_s32 (Z.land x 0xff).
Proof using Type. apply small_s32. pose proof (land_mask x 8 255 ltac:(done) eq_refl). lia. Qed.

Lemma zero_s32 : is_s32 0.
Proof using Type. unfold is_s32, two31. lia. Qed.
Lemma one_s32 : is_s32 1.
Proof using Type. unfold is_s32, two31. lia. Qed.

Hint Resolve gpr_lt_PC mask16_s32 mask8_s32 zero_s32 one_s32 dec_rs dec_rt dec_rd dec_extra : nachos.

Lemma go_ok r v : 0 ≤ r < PCReg → is_s32 v → post E outcome_ok (go pc (m, k) (set_reg m r v)).
Proof using Hm Hpc. intros Hr Hv. simpl. split_and!; auto with nachos; done. Qed.

Lemma trap_ok which bad m' k' :
  cpu_ok m' → is_s32 bad → post E outcome_ok (trap which bad (m', k')).
Proof using HK.
  intros Hm' Hb. eapply post_bind; [by apply RaiseException_ok|]. by intros st _ Hst.
Qed.

Ltac regs := first [apply go_ok | apply trap_ok]; auto 6 with nachos.

Lemma exec_add_and_ok : post E outcome_ok (exec_add_and i pc (m, k)).
Proof using HK Hm Hi Hpc.
  unfold exec_add_and. destruct (opCode i); try case_match; regs.
Qed.

Lemma branch_to_ok b m' : cpu_ok m' → post E outcome_ok (branch_to i pc (m, k) b m').
Proof using Hpc. intros Hm'. simpl. split_and!; auto with nachos; try done. case_match; auto with nachos. Qed.

Lemma linked_ok r : 0 ≤ r < NumGPRegs → cpu_ok (set_reg m r (s32 (reg m NextPCReg + 4))).
Proof using Hm. intros Hr. apply set_gpr_ok; auto with nachos. Qed.

Lemma exec_branch_ok : post E outcome_ok (exec_branch i pc (m, k)).
Proof using Hm Hpc.
  unfold exec_branch. destruct (opCode i); apply branch_to_ok; try done; by apply linked_ok.
Qed.

Lemma exec_div_ok :
  (∀ e, host_fault i m e → E e) → post E outcome_ok (exec_div i pc (m, k)).
Proof using Hm Hpc.
  intros HE. assert (∀ lo hi, is_s32 lo → is_s32 hi →
    post E outcome_ok (go pc (m, k) (set_reg (set_reg m LoReg lo) HiReg hi))) as Hgo.
  { intros lo hi Hlo Hhi. simpl. split_and!; try done. repeat apply set_gpr_ok; done. }
  unfold exec_div. destruct (opCode i) eqn:Eop; repeat case_match; auto with nachos.
  simpl. apply HE. right. split_and!; try done.
  - apply andb_true_iff in H1 as [E1 _]. simpl in E1. by apply Z.eqb_eq.
  - apply andb_true_iff in H1 as [_ E1]. simpl in E1. by apply Z.eqb_eq.
Qed.

Lemma exec_jump_ok : post E outcome_ok (exec_jump i pc (m, k)).
Proof using Hm Hi.
  assert (cpu_ok (set_reg m (rd i) (s32 (reg m NextPCReg + 4)))).
  { by apply linked_ok, dec_rd. }
  assert (cpu_ok (set_reg m R31 (s32 (reg m NextPCReg + 4)))) by by apply linked_ok.
  unfold exec_jump. destruct (opCode i); simpl; split_and!; auto with nachos; done.
Qed.

Lemma exec_hilo_ok : post E outcome_ok (exec_hilo i pc (m, k)).
Proof using HK Hm Hi Hpc.
  assert (∀ sg, post E outcome_ok (go pc (m, k)
    (let '(hi, lo) := Mult (reg m (rs i)) (reg m (rt i)) sg in
     set_reg (set_reg m HiReg hi) LoReg lo))) as HM.
  { intros sg. pose proof (MultProof.mult_spec (reg m (rs i)) (reg m (rt i)) sg) as HM.
    destruct (Mult _ _ _) as [hi lo]. destruct HM as (H1 & H2 & _); [auto with nachos..|].
    simpl. split_and!; try done. repeat apply set_gpr_ok; done. }
  unfold exec_hilo. destruct (opCode i); first [apply HM|regs]; done.
Qed.

Lemma exec_or_ok : post E outcome_ok (exec_or i pc (m, k)).
Proof using HK Hm Hi Hpc. unfold exec_or. destruct (opCode i); regs. Qed.

Lemma exec_xor_ok : post E outcome_ok (exec_xor i pc (m, k)).
Proof using HK Hm Hi Hpc. unfold exec_xor. destruct (opCode i); regs. Qed.

Lemma exec_sub_ok : post E outcome_ok (exec_sub i pc (m, k)).
Proof using HK Hm Hi Hpc. unfold exec_sub. destruct (opCode i); try case_match; regs. Qed.

Lemma shift_amount x : 0 ≤ Z.land x 0x1f.
Proof using Type. pose proof (land_mask x 5 31 ltac:(done) eq_refl). lia. Qed.

Lemma exec_shift_set_ok : post E outcome_ok (exec_shift_set i pc (m, k)).
Proof using HK Hm Hi Hpc.
  unfold exec_shift_set. pose proof (dec_shift i Hi) as Hsh.
  destruct (opCode i); regs; try case_match; auto with nachos;
    apply shiftr_s32; auto with nachos; try apply shift_amount; apply Hsh; done.
Qed.

(** The loads and stores: a trap ends the instruction. *)
Lemma load_ok a size (f : Z → Z) :
  is_s32 a → size = 1 ∨ size = 2 ∨ size = 4 → (∀ v, is_s32 v → is_s32 (f v)) →
  post E outcome_ok
    ('(r, st') ← ReadMem a size (m, k);
     match r with
     | None => Ok (Finish st')
     | Some value => Ok (Next st' pc (rt i) (f value))
     end).
Proof using HK Hm Hi Hpc.
  intros Ha Hs Hf. eapply post_bind; [by apply (ReadMem_ok E HK)|].
  intros [[v|] [m' k']] _; simpl; [|done].
  intros (Hm' & Hv & _). split_and!; auto; apply dec_rt; done.
Qed.

Lemma exec_load_ok : post E outcome_ok (exec_load i pc (m, k)).
Proof using HK Hm Hi Hpc.
  unfold exec_load. assert (is_s32 (s32 (reg m (rs i) + extra i))) by apply s32_range.
  destruct (opCode i); cbv zeta; try case_match; try (regs; done);
    eapply load_ok; auto; intros v Hv; simpl; case_match; auto with nachos.
Qed.

Lemma store_ok m' k' a size v :
  cpu_ok m' → is_s32 a → size = 1 ∨ size = 2 ∨ size = 4 →
  post E outcome_ok
    ('(ok, st') ← WriteMem a size v (m', k');
     if (ok : bool) then Ok (Next st' pc 0 0) else Ok (Finish st')).
Proof using HK Hpc.
  intros Hm' Ha Hs. eapply post_bind; [by apply (WriteMem_ok E HK)|].
  intros [[] [m2 k2]] _; simpl; [|done]. intros [Hm2 _]. split_and!; done.
Qed.

Lemma exec_store_ok : post E outcome_ok (exec_store i pc (m, k)).
Proof using HK Hm Hpc.
  apply store_ok; [done|apply s32_range|]. destruct (opCode i); auto.
Qed.

Hypothesis HE : ∀ e, host_fault i m e → E e.

(** The ASSERT of the four unaligned accesses. *)
Lemma assert_ok :
  is_unaligned (opCode i) = true →
  post E (λ _, True) (ASSERT (Z.land (s32 (reg m (rs i) + extra i)) 0x3 =? 0)).
Proof using HE.
  intros Hop. destruct (Z.eqb_spec (Z.land (s32 (reg m (rs i) + extra i)) 0x3) 0); [done|].
  apply HE. left. done.
Qed.

Lemma exec_load_unaligned_ok :
  is_unaligned (opCode i) = true → post E outcome_ok (exec_load_unaligned i pc (m, k)).
Proof using HK Hm Hi Hpc HE.
  intros Hop. eapply post_bind; [by apply assert_ok|]. intros _ _ _.
  eapply post_bind; [apply (ReadMem_ok E HK); auto using s32_range|].
  intros [[v|] [m' k']] _; [|done]. intros (Hm' & Hv & _). simpl in Hm'. simpl.
  split_and!; auto; try apply dec_rt; try done.
  assert (is_s32 (if reg m' LoadReg =? rt i then reg m' LoadValueReg else reg m' (rt i))) as Hold
    by (case_match; by apply reg_s32).
  assert (∀ x, is_s32 (Z.land x 0xffffff)) as H24.
  { intros x. pose proof (land_mask x 24 0xffffff ltac:(done) eq_refl).
    unfold is_s32, two31. lia. }
  destruct (opCode i); repeat case_match; auto with nachos.
Qed.

Lemma exec_store_unaligned_ok :
  is_unaligned (opCode i) = true → post E outcome_ok (exec_store_unaligned i pc (m, k)).
Proof using HK Hm Hi Hpc HE.
  intros Hop. eapply post_bind; [by apply assert_ok|]. intros _ _ _.
  eapply post_bind; [apply (ReadMem_ok E HK); auto using s32_range|].
  intros [[v|] [m' k']] _; [|done]. intros (Hm' & _). simpl in Hm'.
  apply store_ok; auto using s32_range.
Qed.

Lemma execute_ok : post E outcome_ok (execute i pc (m, k)).
Proof using HK Hm Hi Hpc HE.
  unfold execute. pose proof (dec_op i Hi) as Hop.
  destruct (opCode i) eqn:Eop; try discriminate;
    first [ apply exec_add_and_ok | apply exec_branch_ok | apply exec_div_ok; exact HE
          | apply exec_jump_ok | apply exec_load_ok
          | apply exec_load_unaligned_ok; by rewrite Eop | apply exec_hilo_ok
          | apply exec_or_ok | apply exec_store_ok | apply exec_shift_set_ok
          | apply exec_sub_ok | apply exec_store_unaligned_ok; by rewrite Eop
          | apply exec_xor_ok | apply trap_ok; [done|apply zero_s32] ].
Qed.
End execution.

Section one_instruction.
Context {K : Type} `{Kernel K}.
Context (E : stop → Prop) (HK : kernel_keeps E).

Lemma advance_ok m k pc lr lv :
  cpu_ok m → is_s32 pc → 0 ≤ lr < NumGPRegs → is_s32 lv →
  post E (λ st : Machine * K, machine_ok (fst st)) (advance (m, k) pc lr lv).
Proof using Type.
  intros Hm Hpc Hlr Hlv. eapply post_bind; [by apply DelayedLoad_ok|].
  intros m1 _ [H1 H10]. unfold machine_ok. simpl.
  assert (∀ m2 r v, cpu_ok m2 ∧ reg m2 0 = 0 → r = PCReg ∨ r = NextPCReg ∨ r = PrevPCReg →
    is_s32 v → cpu_ok (set_reg m2 r v) ∧ reg (set_reg m2 r v) 0 = 0) as Hset.
  { intros m2 r v [H2 H20] Hr Hv. split.
    - apply set_reg_ok; [done| |done|]; destruct Hr as [->|[->| ->]]; done.
    - rewrite reg_set_ne; [done|..]; destruct Hr as [->|[->| ->]]; done. }
  assert (∀ m2 r, cpu_ok m2 ∧ reg m2 0 = 0 → is_s32 (reg m2 r)) as Hreg.
  { intros m2 r [H2 _]. by apply reg_s32. }
  repeat (apply Hset; [|auto|auto]); auto.
Qed.

(** What [advance] leaves in every register. *)
Lemma advance_regs m (k : K) pc lr lv :
  cpu_ok m → is_s32 pc → 0 ≤ lr < NumGPRegs → is_s32 lv →
  ∃ m1, advance (m, k) pc lr lv = Ok (m1, k) ∧ machine_ok m1 ∧
    reg m1 PCReg = reg m NextPCReg ∧ reg m1 PrevPCReg = reg m PCReg ∧
    reg m1 NextPCReg = pc ∧ reg m1 LoadReg = lr ∧ reg m1 LoadValueReg = lv ∧
    ∀ r, 0 < r < PCReg → reg m1 r = if bool_decide (r = reg m LoadReg) then reg m LoadValueReg
                                    else reg m r.
Proof using E.
  intros Hm Hpc Hlr Hlv. pose proof (advance_ok m k pc lr lv Hm Hpc Hlr Hlv) as Hok.
  destruct (DelayedLoad_regs m lr lv Hm Hlr Hlv) as (m1 & E1 & [H1 _] & HL & HV & Hregs).
  unfold advance in *. rewrite E1 in *. simpl in *.
  pose proof (cpu_load m Hm) as Hl. unfold NumGPRegs in Hl.
  assert (∀ r, 32 < r ≤ PrevPCReg → reg m1 r = reg m r) as Hsp.
  { intros r Hr. rewrite Hregs by lia. by rewrite bool_decide_eq_false_2 by lia. }
  set (m2 := set_reg m1 PrevPCReg (reg m1 PCReg)) in *.
  assert (cpu_ok m2) as H2 by (apply set_reg_ok; try done; by apply reg_s32).
  set (m3 := set_reg m2 PCReg (reg m2 NextPCReg)) in *.
  assert (cpu_ok m3) as H3 by (apply set_reg_ok; try done; by apply reg_s32).
  assert (reg m3 PCReg = reg m NextPCReg) as HPC.
  { unfold m3. rewrite (reg_set_eq m2 H2) by done. unfold m2. rewrite reg_set_ne by done.
    apply Hsp; done. }
  exists (set_reg m3 NextPCReg pc). split_and!; try done.
  - by rewrite reg_set_ne.
  - rewrite reg_set_ne by done. unfold m3. rewrite reg_set_ne by done. unfold m2.
    rewrite (reg_set_eq m1 H1) by done. apply Hsp; done.
  - by apply (reg_set_eq m3 H3).
  - unfold m3, m2. by rewrite !reg_set_ne.
  - unfold m3, m2. by rewrite !reg_set_ne.
  - intros r Hr. unfold PCReg in Hr. unfold m3, m2.
    rewrite !reg_set_ne by (unfold NextPCReg, PCReg, PrevPCReg; lia).
    apply Hregs. unfold PrevPCReg. lia.
Qed.

(** The instruction about to be executed. *)
Definition fetched (m : Machine) (k : K) (i : Instruction) (m' : Machine) : Prop :=
  ∃ raw k', ReadMem (reg m PCReg) 4 (m, k) = Ok (Some raw, (m', k')) ∧ Decode (u32 raw) = Ok i.

Lemma OneInstruction_ok m k :
  machine_ok m → (∀ i m' e, fetched m k i m' → host_fault i m' e → E e) →
  post E (λ st, machine_ok (fst st)) (OneInstruction (m, k)).
Proof using HK.
  intros [Hm Hm0] HE. unfold OneInstruction. simpl fst.
  eapply post_bind; [apply (ReadMem_ok E HK); auto using reg_s32|].
  intros [[raw|] [m1 k1]] Eq Hpost; [|exact Hpost]. destruct Hpost as (H1 & Hraw & Hr & Hk).
  destruct (Decode_ok (u32 raw)) as (i & Ei & Hi). rewrite Ei. simpl.
  eapply post_bind.
  { apply (execute_ok E HK i); [done|done|apply s32_range|].
    intros e. apply HE. exists raw, k1. done. }
  intros [st2|[m2 k2] pc lr lv] _ Ho; [exact Ho|].
  destruct Ho as (? & ? & ? & ?). by apply advance_ok.
Qed.
End one_instruction.

(** ** Overflow tests *)

Lemma sign_bit_neg x : is_s32 x → sign_bit x = (x <? 0).
Proof.
  intros Hx. unfold sign_bit, SIGN_BIT.
  assert (Z.land (u32 x) 0x80000000 = (u32 x / 2147483648) mod 2 * 2147483648) as ->
    by apply (land_bit (u32 x) 31 ltac:(done)).
  unfold is_s32, u32, two31, two32 in *.
  destruct (Z.eqb_spec ((x mod 4294967296 / 2147483648) mod 2 * 2147483648) 0);
    destruct (Z.ltb_spec x 0); simpl; try done; Z.div_mod_to_equations; lia.
Qed.

Lemma sign_bit_xor x y :
  is_s32 x → is_s32 y → sign_bit (Z.lxor x y) = negb (Bool.eqb (x <? 0) (y <? 0)).
Proof.
  intros Hx Hy. rewrite sign_bit_neg by auto with nachos.
  pose proof (Z.lxor_nonneg x y).
  destruct (Z.ltb_spec (Z.lxor x y) 0), (Z.ltb_spec x 0), (Z.ltb_spec y 0); simpl; lia.
Qed.

Ltac overflow_cases :=
  rewrite !sign_bit_xor by auto with nachos;
  unfold is_s32, s32, two31, two32 in *;
  repeat match goal with
  | |- context [?a <? ?b] => destruct (Z.ltb_spec a b)
  | |- context [bool_decide ?P] => destruct (bool_decide_reflect P)
  end; simpl; try done; Z.div_mod_to_equations; lia.

(** The tests of OP_ADD, OP_ADDI and OP_SUB find exactly the results that do
    not fit. *)
Lemma add_overflow a b :
  is_s32 a → is_s32 b →
  negb (sign_bit (Z.lxor a b)) && sign_bit (Z.lxor a (s32 (a + b)))
  = negb (bool_decide (is_s32 (a + b))).
Proof. intros Ha Hb. overflow_cases. Qed.

Lemma addi_overflow a b :
  is_s32 a → is_s32 b →
  negb (sign_bit (Z.lxor a b)) && sign_bit (Z.lxor b (s32 (a + b)))
  = negb (bool_decide (is_s32 (a + b))).
Proof. intros Ha Hb. overflow_cases. Qed.

Lemma sub_overflow a b :
  is_s32 a → is_s32 b →
  sign_bit (Z.lxor a b) && sign_bit (Z.lxor a (s32 (a - b)))
  = negb (bool_decide (is_s32 (a - b))).
Proof. intros Ha Hb. overflow_cases. Qed.

(** ** Encoding (the inverse of [Decode]) *)

Definition encode_i (o s t : Z) (imm : Z) : Z :=
  o * 2 ^ 26 + s * 2 ^ 21 + t * 2 ^ 16 + imm mod 2 ^ 16.
Definition encode_r (s t d shamt funct : Z) : Z :=
  s * 2 ^ 21 + t * 2 ^ 16 + d * 2 ^ 11 + shamt * 2 ^ 6 + funct.
Definition encode_j (o target : Z) : Z := o * 2 ^ 26 + target.

Lemma field_value v k w mask :
  0 ≤ k → 0 ≤ w → mask = Z.ones w → Z.land (Z.shiftr v k) mask = (v / 2 ^ k) mod 2 ^ w.
Proof. intros Hk Hw ->. by rewrite Z.land_ones, Z.shiftr_div_pow2. Qed.

Lemma sign_extend imm :
  -32768 ≤ imm < 32768 →
  (if negb (Z.land (imm mod 65536) 0x8000 =? 0) then s32 (Z.lor (imm mod 65536) 0xffff0000)
   else imm mod 65536) = imm.
Proof.
  intros Hi.
  assert (Z.land (imm mod 65536) 0x8000 = (imm mod 65536 / 32768) mod 2 * 32768) as ->
    by apply (land_bit (imm mod 65536) 15 ltac:(done)).
  change 0xffff0000 with (65535 * 2 ^ 16). rewrite (lor_add _ _ 16) by
    (try (apply Z.mod_pos_bound); done).
  unfold s32, two31, two32.
  destruct (Z.eqb_spec ((imm mod 65536 / 32768) mod 2 * 32768) 0); simpl; Z.div_mod_to_equations; lia.
Qed.

Section encodings.
Context (s t : Z) (Hs : 0 ≤ s < 32) (Ht : 0 ≤ t < 32).

Lemma decode_i o op imm :
  0 ≤ o < 64 → opTable !! Z.to_nat o = Some (op, IFMT) → op ≠ BCOND → -32768 ≤ imm < 32768 →
  Decode (encode_i o s t imm) = Ok (mkInstruction op s t (imm mod 65536 / 2048) imm).
Proof using Hs Ht.
  intros Ho Hop Hb Hi. unfold Decode, encode_i.
  rewrite !(field_value _ _ 5), (field_value _ _ 6) by done.
  change 0xffff with (Z.ones 16). rewrite Z.land_ones by done.
  set (w := o * 2 ^ 26 + s * 2 ^ 21 + t * 2 ^ 16 + imm mod 2 ^ 16).
  assert (w mod 2 ^ 16 = imm mod 65536) as -> by (unfold w; Z.div_mod_to_equations; lia).
  assert ((w / 2 ^ 26) mod 2 ^ 6 = o) as -> by (unfold w; Z.div_mod_to_equations; lia).
  assert ((w / 2 ^ 21) mod 2 ^ 5 = s) as -> by (unfold w; Z.div_mod_to_equations; lia).
  assert ((w / 2 ^ 16) mod 2 ^ 5 = t) as -> by (unfold w; Z.div_mod_to_equations; lia).
  assert ((w / 2 ^ 11) mod 2 ^ 5 = imm mod 65536 / 2048) as ->
    by (unfold w; Z.div_mod_to_equations; lia).
  unfold table_get. rewrite (arr_get_in _ _ _ (proj1 Ho) Hop). simpl.
  rewrite sign_extend by done.
  destruct (decide (op = SPECIAL)) as [->|Hns].
  - exfalso. destruct opTable_ok as [_ Hall].
    pose proof (Forall_lookup_1 _ _ _ _ Hall Hop) as Hbad. done.
  - rewrite (bool_decide_eq_false_2 (op = SPECIAL)), (bool_decide_eq_false_2 (op = BCOND)) by done.
    done.
Qed.

Lemma decode_r d shamt funct op :
  0 ≤ d < 32 → 0 ≤ shamt < 32 → 0 ≤ funct < 64 → specialTable !! Z.to_nat funct = Some op →
  Decode (encode_r s t d shamt funct) = Ok (mkInstruction op s t d shamt).
Proof using Hs Ht.
  intros Hd Hsh Hf Hop. unfold Decode, encode_r.
  rewrite !(field_value _ _ 5), (field_value _ _ 6) by done.
  set (w := s * 2 ^ 21 + t * 2 ^ 16 + d * 2 ^ 11 + shamt * 2 ^ 6 + funct).
  assert ((w / 2 ^ 26) mod 2 ^ 6 = 0) as -> by (unfold w; Z.div_mod_to_equations; lia).
  assert ((w / 2 ^ 21) mod 2 ^ 5 = s) as -> by (unfold w; Z.div_mod_to_equations; lia).
  assert ((w / 2 ^ 16) mod 2 ^ 5 = t) as -> by (unfold w; Z.div_mod_to_equations; lia).
  assert ((w / 2 ^ 11) mod 2 ^ 5 = d) as -> by (unfold w; Z.div_mod_to_equations; lia).
  assert ((w / 2 ^ 6) mod 2 ^ 5 = shamt) as -> by (unfold w; Z.div_mod_to_equations; lia).
  assert (Z.land w 0x3f = funct) as Efn.
  { change 0x3f with (Z.ones 6). rewrite Z.land_ones by done.
    unfold w; Z.div_mod_to_equations; lia. }
  change (table_get opTable 0) with (Ok (SPECIAL, RFMT)). simpl. rewrite Efn.
  unfold table_get. by rewrite (arr_get_in _ _ _ (proj1 Hf) Hop).
Qed.
End encodings.

(** ** The properties *)

Module MipsSpec.

Section spec.
Context {K : Type} `{Kernel K}.

(** C3. Whatever instruction word the program counter points at, one step of
    the simulated CPU leaves it well formed (forty 32-bit registers, register
    0 equal to 0, a delayed load aimed at a general register, memory of
    bytes, the page table intact).  It stops only where the kernel's handler
    stops, or at one of two faults of the host: the ASSERT of a misaligned
    LWL, LWR, SWL or SWR, or the signed division of the least int by -1. *)
Theorem one_instruction_safe (E : stop → Prop) m k :
  kernel_keeps (K:=K) E → machine_ok m →
  match OneInstruction (m, k) with
  | Ok (m', _) => machine_ok m'
  | Stop e => E e ∨ ∃ i m', fetched m k i m' ∧ host_fault i m' e
  end.
Proof.
  intros HK Hm.
  set (E' := λ e, E e ∨ ∃ i m', fetched m k i m' ∧ host_fault i m' e).
  assert (kernel_keeps (K:=K) E') as HK'.
  { intros which m' k' Hm'. eapply post_mono; [| |by apply HK]; [by left|done]. }
  pose proof (OneInstruction_ok E' HK' m k Hm) as Hpost.
  destruct (OneInstruction (m, k)) as [[m' k']|e]; apply Hpost; intros; right; eauto.
Qed.

(** C5. MULT and MULTU, computed bit by bit by [Mult], leave in HI and LO the
    two halves of the 64-bit product of the operands, read as signed or as
    unsigned words, and change no other register. *)
Theorem mult_instruction_correct i pc m (k : K) :
  cpu_ok m → decoded i → opCode i = OP_MULT ∨ opCode i = OP_MULTU →
  ∃ m', execute i pc (m, k) = Ok (Next (m', k) pc 0 0) ∧
    MultProof.dword (u32 (reg m' HiReg)) (u32 (reg m' LoReg)) =
      (if bool_decide (opCode i = OP_MULT) then reg m (rs i) * reg m (rt i)
       else u32 (reg m (rs i)) * u32 (reg m (rt i))) mod 2 ^ 64 ∧
    ∀ r, 0 ≤ r → r ≠ HiReg → r ≠ LoReg → reg m' r = reg m r.
Proof.
  intros Hm Hi Hop. set (sg := bool_decide (opCode i = OP_MULT)).
  pose proof (MultProof.mult_spec (reg m (rs i)) (reg m (rt i)) sg) as HM.
  destruct (Mult (reg m (rs i)) (reg m (rt i)) sg) as [hi lo] eqn:EM.
  destruct HM as (Hhi & Hlo & HM); [by apply reg_s32..|].
  assert (cpu_ok (set_reg m HiReg hi)) as Hm1 by (apply set_gpr_ok; done).
  exists (set_reg (set_reg m HiReg hi) LoReg lo). split; [|split].
  - unfold execute, exec_hilo. unfold sg in EM.
    destruct Hop as [Hop|Hop]; rewrite Hop in EM |- *; simpl in EM |- *; rewrite EM; done.
  - rewrite (reg_set_eq _ Hm1 LoReg) by done. rewrite reg_set_ne by done.
    rewrite (reg_set_eq _ Hm HiReg) by done. exact HM.
  - intros r Hr H1 H2. rewrite !reg_set_ne by (done || congruence). done.
Qed.

(** C12. ADD, ADDI and SUB raise the overflow exception exactly when the exact
    sum or difference does not fit 32 bits, and otherwise write it to the
    destination. *)
Theorem arithmetic_traps_on_overflow i pc m (k : K) :
  cpu_ok m → decoded i →
  opCode i = OP_ADD ∨ opCode i = OP_ADDI ∨ opCode i = OP_SUB →
  let exact := if bool_decide (opCode i = OP_ADD) then reg m (rs i) + reg m (rt i)
               else if bool_decide (opCode i = OP_ADDI) then reg m (rs i) + extra i
               else reg m (rs i) - reg m (rt i) in
  let dest := if bool_decide (opCode i = OP_ADDI) then rt i else rd i in
  execute i pc (m, k) =
    if bool_decide (is_s32 exact) then Ok (Next (set_reg m dest exact, k) pc 0 0)
    else trap OverflowException 0 (m, k).
Proof.
  intros Hm Hi Hop. pose proof (reg_s32 m Hm (rs i)) as Hs. pose proof (reg_s32 m Hm (rt i)) as Ht.
  pose proof (dec_extra i Hi) as Hx.
  unfold execute, exec_add_and, exec_sub. simpl fst.
  destruct Hop as [Hop|[Hop|Hop]]; rewrite Hop; simpl.
  - rewrite add_overflow by done. case_bool_decide; simpl; [|done]. by rewrite s32_small.
  - rewrite addi_overflow by done. case_bool_decide; simpl; [|done]. by rewrite s32_small.
  - rewrite sub_overflow by done. case_bool_decide; simpl; [|done]. by rewrite s32_small.
Qed.

(** Delay slots.  When an instruction ends with a load of [lv] into
    register [lr] pending and a branch to [pc], the next instruction still
    sees the old registers (apart from the load pending before) and is fetched
    from the old NextPC; at its end the loaded value arrives in [lr], and the
    branch target becomes the program counter. *)
Theorem delay_slots m (k : K) pc lr lv :
  cpu_ok m → is_s32 pc → 0 < lr < NumGPRegs → is_s32 lv →
  ∃ m1, advance (m, k) pc lr lv = Ok (m1, k) ∧ machine_ok m1 ∧
    reg m1 PCReg = reg m NextPCReg ∧ reg m1 PrevPCReg = reg m PCReg ∧
    (∀ r, 0 < r < PCReg → reg m1 r = if bool_decide (r = reg m LoadReg) then reg m LoadValueReg
                                      else reg m r) ∧
    ∀ pc2 lr2 lv2, is_s32 pc2 → 0 ≤ lr2 < NumGPRegs → is_s32 lv2 →
      ∃ m2, advance (m1, k) pc2 lr2 lv2 = Ok (m2, k) ∧ reg m2 lr = lv ∧ reg m2 PCReg = pc.
Proof.
  intros Hm Hpc Hlr Hlv.
  destruct (advance_regs (λ _, True) m k pc lr lv) as (m1 & E1 & Hok & HPC & HPrev & HN & HL & HV & Hr);
    [done|done|lia|done|].
  exists m1. split_and!; try done. intros pc2 lr2 lv2 Hpc2 Hlr2 Hlv2.
  destruct (advance_regs (λ _, True) m1 k pc2 lr2 lv2 (proj1 Hok) Hpc2 Hlr2 Hlv2)
    as (m2 & E2 & _ & HPC2 & _ & _ & _ & _ & Hr2).
  exists m2. split; [done|]. split; [|congruence].
  rewrite Hr2 by (unfold NumGPRegs, PCReg in *; lia).
  by rewrite (bool_decide_eq_true_2 (lr = reg m1 LoadReg)), HV by done.
Qed.
End spec.

(** Decoding inverts the encodings of the manual: an I-format word gives
    back its opcode, registers and sign-extended immediate, an R-format word
    the operation of its function field, its three registers and its shift
    amount, a J-format word its 26-bit target. *)
Theorem decode_encode :
  (∀ o op s t imm, 0 ≤ o < 64 → opTable !! Z.to_nat o = Some (op, IFMT) → op ≠ BCOND →
     0 ≤ s < 32 → 0 ≤ t < 32 → -32768 ≤ imm < 32768 →
     ∃ d, Decode (encode_i o s t imm) = Ok (mkInstruction op s t d imm)) ∧
  (∀ s t d shamt funct op, 0 ≤ s < 32 → 0 ≤ t < 32 → 0 ≤ d < 32 → 0 ≤ shamt < 32 →
     0 ≤ funct < 64 → specialTable !! Z.to_nat funct = Some op →
     Decode (encode_r s t d shamt funct) = Ok (mkInstruction op s t d shamt)) ∧
  (∀ o op target, 0 ≤ o < 64 → opTable !! Z.to_nat o = Some (op, JFMT) → 0 ≤ target < 2 ^ 26 →
     ∃ s t d, Decode (encode_j o target) = Ok (mkInstruction op s t d target)).
Proof.
  split; [|split].
  - intros. eexists. by apply decode_i.
  - intros. by apply decode_r.
  - intros o op target Ho Hop Htg. unfold Decode, encode_j.
    rewrite (field_value _ 26 6) by done.
    assert (((o * 2 ^ 26 + target) / 2 ^ 26) mod 2 ^ 6 = o) as ->
      by (Z.div_mod_to_equations; lia).
    assert (Z.land (o * 2 ^ 26 + target) 0x3ffffff = target) as ->.
    { change 0x3ffffff with (Z.ones 26). rewrite Z.land_ones by done.
      Z.div_mod_to_equations; lia. }
    assert (table_get opTable o = Ok (op, JFMT)) as -> by (apply arr_get_in; [lia|exact Hop]).
    assert (op = OP_J ∨ op = OP_JAL) as [-> | ->]; [|do 3 eexists; reflexivity..].
    clear -Hop. apply list_elem_of_lookup_2 in Hop. unfold opTable in Hop.
    repeat (apply elem_of_cons in Hop as [Hop|Hop]; [simplify_eq; auto|]).
    by apply elem_of_nil in Hop.
Qed.

(** A kernel that ignores exceptions, and a machine in a reachable state. *)
#[local] Instance quiet_kernel : Kernel unit := {|
  setStatus := λ _ k, k;
  ExceptionHandler := λ _ st, Ok st;
|}.

Definition with_regs (l : list (Z * Z)) (m : Machine) : Machine :=
  foldl (λ m '(r, v), set_reg m r v) m l.

(** Page 0 mapped to frame 5, with [word] at address 0. *)
Definition sample (word : Z) : Machine :=
  mkMachine (replicate 40 0) (write_bytes ∅ (5 * PageSize) (le_bytes 4 word)) None
    (Some [mkEntry 0 5 true false false false]) 1.

Lemma sample_ok word l :
  Forall (λ '(r, v), 0 < r < PCReg ∧ is_s32 v) l → machine_ok (with_regs l (sample word)).
Proof.
  intros Hl. assert (machine_ok (sample word)) as H0.
  { split; [|done]. split; try done.
    - repeat constructor; unfold two31; simpl; lia.
    - apply write_bytes_u8; [apply map_Forall_empty|apply le_bytes_u8].
    - eexists. split; try done. repeat constructor; unfold two31; simpl; lia. }
  unfold with_regs. revert H0. generalize (sample word).
  induction Hl as [|[r v] l [Hr Hv] _ IH]; intros m0 [H0 H00]; simpl; [done|].
  apply IH. split; [apply set_gpr_ok; done || lia|]. rewrite reg_set_ne by lia. done.
Qed.

Lemma quiet_keeps : kernel_keeps (K:=unit) (λ _, False).
Proof. intros which m k Hm. exact Hm. Qed.

(** [add $3, $1, $2] with 2^31 - 1 and 1 in the operands. *)
Definition overflow_machine : Machine :=
  with_regs [(1, 2147483647); (2, 1)] (sample (encode_r 1 2 3 0 32)).

Lemma overflow_machine_ok : machine_ok overflow_machine.
Proof. apply sample_ok. repeat constructor; unfold two31; simpl; lia. Qed.

Lemma one_instruction_safe_witness :
  ∃ m' k', OneInstruction (overflow_machine, tt) = Ok (m', k') ∧ machine_ok m'.
Proof.
  pose proof (one_instruction_safe (λ _, False) overflow_machine tt quiet_keeps
    overflow_machine_ok) as Hsafe.
  destruct (OneInstruction (overflow_machine, tt)) as [[m' k']|e] eqn:E.
  - exists m', k'. split; [reflexivity|exact Hsafe].
  - vm_compute in E. discriminate E.
Defined.

Definition mult_machine : Machine := with_regs [(1, -3); (2, 1000000000)] (sample 0).

Lemma mult_machine_ok : machine_ok mult_machine.
Proof. apply sample_ok. repeat constructor; unfold two31; simpl; lia. Qed.

Lemma sample_decoded op : is_shift op = false → is_escape op = false →
  decoded (mkInstruction op 1 2 3 0).
Proof.
  intros H1 H2. split; simpl; try (unfold NumGPRegs; lia); unfold is_s32, two31; try lia; congruence.
Qed.

Lemma mult_instruction_correct_witness :
  ∃ m', execute (mkInstruction OP_MULT 1 2 3 0) 8 (mult_machine, tt)
        = Ok (Next (m', tt) 8 0 0) ∧
        MultProof.dword (u32 (reg m' HiReg)) (u32 (reg m' LoReg)) = (-3000000000) mod 2 ^ 64.
Proof.
  destruct (mult_instruction_correct (mkInstruction OP_MULT 1 2 3 0) 8 mult_machine tt
    (proj1 mult_machine_ok) (sample_decoded OP_MULT eq_refl eq_refl) (or_introl eq_refl))
    as (m' & E & Hd & _).
  exists m'. split; [exact E|]. rewrite Hd. vm_compute. reflexivity.
Defined.

Lemma arithmetic_traps_on_overflow_witness :
  execute (mkInstruction OP_ADD 1 2 3 0) 8 (overflow_machine, tt)
  = trap OverflowException 0 (overflow_machine, tt).
Proof.
  exact (arithmetic_traps_on_overflow (mkInstruction OP_ADD 1 2 3 0) 8 overflow_machine tt
    (proj1 overflow_machine_ok) (sample_decoded OP_ADD eq_refl eq_refl) (or_introl eq_refl)).
Defined.

Lemma delay_slots_witness :
  ∃ m1 m2, advance (mult_machine, tt) 100 1 77 = Ok (m1, tt) ∧ reg m1 1 = -3 ∧
           advance (m1, tt) 104 0 0 = Ok (m2, tt) ∧ reg m2 1 = 77 ∧ reg m2 PCReg = 100.
Proof.
  destruct (delay_slots mult_machine tt 100 1 77 (proj1 mult_machine_ok))
    as (m1 & E1 & _ & _ & _ & Hr & Hnext);
    [unfold is_s32, two31; lia|unfold NumGPRegs; lia|unfold is_s32, two31; lia|].
  destruct (Hnext 104 0 0) as (m2 & E2 & Hv & Hpc);
    [unfold is_s32, two31; lia|unfold NumGPRegs; lia|unfold is_s32, two31; lia|].
  exists m1, m2. split_and!; try done. rewrite Hr by (unfold PCReg; lia). reflexivity.
Defined.

Lemma decode_encode_witness :
  Decode (encode_r 1 2 3 0 32) = Ok (mkInstruction OP_ADD 1 2 3 0) ∧
  ∃ d, Decode (encode_i 35 4 5 (-8)) = Ok (mkInstruction OP_LW 4 5 d (-8)).
Proof.
  split.
  - apply (proj1 (proj2 decode_encode)); [lia..|reflexivity].
  - apply (proj1 decode_encode); [lia|reflexivity|discriminate|lia..].
Defined.

(** Two instructions that do not do what their names say. *)

(** OP_OR copies [rs]: the second operand is ignored. *)
Lemma or_ignores_rt i pc m (k : unit) :
  opCode i = OP_OR →
  execute i pc (m, k) = Ok (Next (set_reg m (rd i) (reg m (rs i)), k) pc 0 0).
Proof. intros Hop. unfold execute, exec_or. rewrite Hop. simpl. by rewrite Z.lor_diag. Qed.

(** OP_SRL shifts copies of the sign bit in, like OP_SRA. *)
Lemma srl_is_arithmetic i pc m (k : unit) :
  opCode i = OP_SRL →
  execute i pc (m, k) = Ok (Next (set_reg m (rd i) (Z.shiftr (reg m (rt i)) (extra i)), k) pc 0 0).
Proof. intros Hop. unfold execute, exec_shift_set. by rewrite Hop. Qed.
End MipsSpec.
