(* ===== verification/Execute.v ===== *)
(** * The stand-alone MIPS interpreter (bin/execute.c, encode.h, int.h, system.c)

    The interpreter that runs a COFF program outside NachOS.  It shares no code
    with the simulator of machine/: registers and memory are global arrays, an
    instruction word is taken apart by macros, and loads have no delay.

    A word of memory is read and written in the byte order of the (little
    endian) host.  The UNIX system calls that a program may make are a
    parameter. *)

From S2P Require Import Prelude.
#[global] Open Scope Z_scope.

Module Execute.

(** ** Fields of an instruction (instr.h); [i] is an [int]. *)

Definition rd (i : Z) : Z := Z.land (Z.shiftr i 11) 0x1f.
Definition rt (i : Z) : Z := Z.land (Z.shiftr i 16) 0x1f.
Definition rs (i : Z) : Z := Z.land (Z.shiftr i 21) 0x1f.
Definition shamt (i : Z) : Z := Z.land (Z.shiftr i 6) 0x1f.
Definition immed (i : Z) : Z :=
  if negb (Z.land i 0x8000 =? 0) then Z.lor i (-0x8000) else Z.land i 0x7fff.

(** ** Opcodes (encode.h, octal in the source) *)

Definition I_SPECIAL := 0.
Definition I_BCOND := 1.
Definition I_J := 2.
Definition I_JAL := 3.
Definition I_BEQ := 4.
Definition I_BNE := 5.
Definition I_BLEZ := 6.
Definition I_BGTZ := 7.
Definition I_ADDI := 8.
Definition I_ADDIU := 9.
Definition I_SLTI := 10.
Definition I_SLTIU := 11.
Definition I_ANDI := 12.
Definition I_ORI := 13.
Definition I_XORI := 14.
Definition I_LUI := 15.
Definition I_LB := 32.
Definition I_LH := 33.
Definition I_LWL := 34.
Definition I_LW := 35.
Definition I_LBU := 36.
Definition I_LHU := 37.
Definition I_LWR := 38.
Definition I_SB := 40.
Definition I_SH := 41.
Definition I_SW := 43.

Definition I_SLL := 0.
Definition I_SRL := 2.
Definition I_SRA := 3.
Definition I_SLLV := 4.
Definition I_SRLV := 6.
Definition I_SRAV := 7.
Definition I_JR := 8.
Definition I_JALR := 9.
Definition I_SYSCALL := 12.
Definition I_BREAK := 13.
Definition I_MFHI := 16.
Definition I_MTHI := 17.
Definition I_MFLO := 18.
Definition I_MTLO := 19.
Definition I_MULT := 24.
Definition I_MULTU := 25.
Definition I_DIV := 26.
Definition I_DIVU := 27.
Definition I_ADD := 32.
Definition I_ADDU := 33.
Definition I_SUB := 34.
Definition I_SUBU := 35.
Definition I_AND := 36.
Definition I_OR := 37.
Definition I_XOR := 38.
Definition I_NOR := 39.
Definition I_SLT := 42.
Definition I_SLTU := 43.

Definition I_BLTZ := 0.
Definition I_BGEZ := 1.
Definition I_BLTZAL := 16.
Definition I_BGEZAL := 17.

(** ** The state *)

Definition MEMSIZE : Z := Z.shiftl 1 24.
Definition memoffset : Z := 0x10000000.

(** [mem] holds bytes at the addresses the program uses, from [memoffset] on;
    an absent byte is 0, as in the static array.  [pc], [npc] and [icount] are
    the local variables of [runprogram]. *)
Record State := mkState {
  Reg : list Z;
  HI : Z;
  LO : Z;
  mem : gmap Z Z;
  pc : Z;
  npc : Z;
  icount : Z;
}.

Definition set_Reg (s : State) (r : list Z) : State := mkState r (HI s) (LO s) (mem s) (pc s) (npc s) (icount s).
Definition set_HI (s : State) (v : Z) : State := mkState (Reg s) v (LO s) (mem s) (pc s) (npc s) (icount s).
Definition set_LO (s : State) (v : Z) : State := mkState (Reg s) (HI s) v (mem s) (pc s) (npc s) (icount s).
Definition set_mem (s : State) (m : gmap Z Z) : State := mkState (Reg s) (HI s) (LO s) m (pc s) (npc s) (icount s).
Definition set_npc (s : State) (v : Z) : State := mkState (Reg s) (HI s) (LO s) (mem s) (pc s) v (icount s).

(** [Reg[r]] for the five-bit fields. *)
Definition R (s : State) (r : Z) : Z := default 0 (Reg s !! Z.to_nat r).
Definition set_R (s : State) (r v : Z) : State := set_Reg s (<[Z.to_nat r := v]> (Reg s)).

(** ** Memory (int.h)

    The index is taken modulo 2^32; outside the array it is undefined. *)

Definition fetch_bytes (s : State) (addr size : Z) : res (list Z) :=
  let a := u32 addr in
  if (memoffset <=? a) && (a + size <=? memoffset + MEMSIZE)
  then Ok (read_bytes (mem s) a (Z.to_nat size)) else Stop Undefined.
Definition store_bytes (s : State) (addr : Z) (bs : list Z) : res State :=
  let a := u32 addr in
  if (memoffset <=? a) && (a + Z.of_nat (length bs) <=? memoffset + MEMSIZE)
  then Ok (set_mem s (write_bytes (mem s) a bs)) else Stop Undefined.

Definition fetch (s : State) (addr : Z) : res Z := bs ← fetch_bytes s addr 4; Ok (s32 (le_value bs)).
Definition ifetch (s : State) (addr : Z) : res Z := bs ← fetch_bytes s addr 4; Ok (s32 (le_value bs)).
Definition usfetch (s : State) (addr : Z) : res Z := bs ← fetch_bytes s addr 2; Ok (le_value bs).
Definition sfetch (s : State) (addr : Z) : res Z :=
  bs ← fetch_bytes s addr 2; let v := le_value bs in Ok (if v <? 32768 then v else v - 65536).
Definition ucfetch (s : State) (addr : Z) : res Z := bs ← fetch_bytes s addr 1; Ok (le_value bs).
Definition cfetch (s : State) (addr : Z) : res Z := bs ← fetch_bytes s addr 1; Ok (s8 (le_value bs)).

Definition store (s : State) (addr i : Z) : res State := store_bytes s addr (le_bytes 4 i).
Definition sstore (s : State) (addr i : Z) : res State := store_bytes s addr (le_bytes 2 i).
Definition cstore (s : State) (addr i : Z) : res State := store_bytes s addr (le_bytes 1 i).

(** ** Shifts by a register, products and quotients of C

    A shift by a negative count or by 32 and more is undefined, and so are a
    division by 0 and the quotient of the least [int] by -1. *)

Definition shift_ok (n : Z) : res unit := if (0 <=? n) && (n <? 32) then Ok tt else Stop Undefined.
Definition quotient_ok (a b : Z) : res unit :=
  if (b =? 0) || ((a =? - two31) && (b =? -1)) then Stop Undefined else Ok tt.

(** The two words of [I_MULTU], which [I_MULT] uses for the absolute values. *)
Definition mult_words (t1 t2 : Z) : Z * Z :=
  let LO := s32 (t1 * t2) in
  let t1l := Z.land t1 0xffff in
  let t1h := Z.land (Z.shiftr t1 16) 0xffff in
  let t2l := Z.land t2 0xffff in
  let t2h := Z.land (Z.shiftr t2 16) 0xffff in
  let HI := s32 (s32 (t1h * t2h) + Z.shiftr (s32 (t1h * t2l)) 16 + Z.shiftr (s32 (t2h * t1l)) 16) in
  (HI, LO).

Definition mult_signed (t1 t2 : Z) : Z * Z :=
  let '(neg, t1) := if t1 <? 0 then (true, s32 (- t1)) else (false, t1) in
  let '(neg, t2) := if t2 <? 0 then (negb neg, s32 (- t2)) else (neg, t2) in
  let '(HI, LO) := mult_words t1 t2 in
  if (neg : bool) then
    let LO := Z.lnot LO in
    let HI := Z.lnot HI in
    let LO := s32 (LO + 1) in
    (if LO =? 0 then s32 (HI + 1) else HI, LO)
  else (HI, LO).

Section interpreter.

(** [unix n o0 o1 o2 m]: the result of system call [n] of the host with these
    arguments, and the memory after it; pointers are addresses of [m]. *)
Context (unix : Z → Z → Z → Z → gmap Z Z → res (Z * gmap Z Z)).

(** ** System calls (system.c) *)

Definition SYS_exit := 1.
Definition SYS_read := 3.
Definition SYS_write := 4.
Definition SYS_open := 5.
Definition SYS_close := 6.
Definition SYS_lseek := 19.
Definition SYS_ioctl := 54.
Definition SYS_fstat := 62.
Definition SYS_getpagesize := 64.

(** [size] and [ioctl_group] of the request word of [SYS_ioctl]. *)
Definition ioctl_request (o1 : Z) : Z :=
  let size := Z.land (Z.shiftr o1 16) 0x7f in
  let ioctl_group := s8 (Z.land (Z.shiftr o1 8) 0x00ff) in
  if (ioctl_group =? 116) && (size =? 8)
  then Z.lor (Z.land o1 (Z.lnot (Z.shiftl 0x7f 16))) (Z.shiftl 6 16) else o1.

Definition system_trap (s : State) : res State :=
  let syscallno := R s 2 in
  let o0 := R s 4 in
  let o1 := R s 5 in
  let o2 := R s 6 in
  let host n o0 o1 o2 :=
    '(r, m) ← unix n o0 o1 o2 (mem s); Ok (set_R (set_mem s m) 1 r) in
  if syscallno =? SYS_exit then Stop Halted
  else if syscallno =? SYS_read then host SYS_read o0 o1 o2
  else if syscallno =? SYS_write then host SYS_write o0 o1 o2
  else if syscallno =? SYS_open then host SYS_open o0 o1 o2
  else if syscallno =? SYS_close then Ok (set_R s 1 0)
  else if syscallno =? 17 then Ok (set_R s 1 (s32 ((Z.quot o0 8192 + 1) * 8192)))
  else if syscallno =? SYS_lseek then host SYS_lseek o0 o1 o2
  else if syscallno =? SYS_ioctl then
    s ← host SYS_ioctl o0 (ioctl_request o1) o2; Ok (set_R s 1 0)
  else if syscallno =? SYS_fstat then host SYS_fstat o1 o2 0
  else if syscallno =? SYS_getpagesize then host SYS_getpagesize 0 0 0
  else Stop Halted.

Definition system_break (s : State) : res State := system_trap s.

(** An unimplemented instruction ends the process. *)
Definition u : res State := Stop Halted.

(** ** One instruction

    [xpc] is its address; [pc] and [npc] have been advanced. *)

Section with_instruction.
Context (instr xpc : Z) (s : State).

Let Rs := R s (rs instr).
Let Rt := R s (rt instr).
Let to_rd (v : Z) : res State := Ok (set_R s (rd instr) v).
Let to_rt (v : Z) : res State := Ok (set_R s (rt instr) v).
Let branch_target : Z := s32 (xpc + 4 + s32 (Z.shiftl (immed instr) 2)).
Let jump_target : Z := s32 (Z.lor (Z.land (u32 xpc) 0xf0000000) (Z.shiftl (Z.land instr 0x03ffffff) 2)).
Let link : Z := s32 (xpc + 8).

(** [case I_SPECIAL] *)
Definition special : res State :=
  let f := Z.land instr 0x3f in
  if f =? I_SLL then to_rd (s32 (Z.shiftl Rt (shamt instr)))
  else if f =? I_SRL then to_rd (s32 (Z.shiftr (u32 Rt) (shamt instr)))
  else if f =? I_SRA then to_rd (Z.shiftr Rt (shamt instr))
  else if f =? I_SLLV then shift_ok Rs;; to_rd (s32 (Z.shiftl Rt Rs))
  else if f =? I_SRLV then shift_ok Rs;; to_rd (s32 (Z.shiftr (u32 Rt) Rs))
  else if f =? I_SRAV then shift_ok Rs;; to_rd (Z.shiftr Rt Rs)
  else if f =? I_JR then Ok (set_npc s Rs)
  else if f =? I_JALR then Ok (set_R (set_npc s Rs) (rd instr) link)
  else if f =? I_SYSCALL then system_trap s
  else if f =? I_BREAK then system_break s
  else if f =? I_MFHI then to_rd (HI s)
  else if f =? I_MTHI then Ok (set_HI s Rs)
  else if f =? I_MFLO then to_rd (LO s)
  else if f =? I_MTLO then Ok (set_LO s Rs)
  else if f =? I_MULT then let '(hi, lo) := mult_signed Rs Rt in Ok (set_HI (set_LO s lo) hi)
  else if f =? I_MULTU then let '(hi, lo) := mult_words Rs Rt in Ok (set_HI (set_LO s lo) hi)
  else if f =? I_DIV then
    quotient_ok Rs Rt;; Ok (set_HI (set_LO s (Z.quot Rs Rt)) (Z.rem Rs Rt))
  else if f =? I_DIVU then
    (if Rt =? 0 then Stop Undefined
     else Ok (set_HI (set_LO s (s32 (u32 Rs / u32 Rt))) (s32 (u32 Rs mod u32 Rt))))
  else if (f =? I_ADD) || (f =? I_ADDU) then to_rd (s32 (Rs + Rt))
  else if (f =? I_SUB) || (f =? I_SUBU) then to_rd (s32 (Rs - Rt))
  else if f =? I_AND then to_rd (Z.land Rs Rt)
  else if f =? I_OR then to_rd (Z.lor Rs Rt)
  else if f =? I_XOR then to_rd (Z.lxor Rs Rt)
  else if f =? I_NOR then to_rd (Z.lnot (Z.lor Rs Rt))
  else if f =? I_SLT then to_rd (if Rs <? Rt then 1 else 0)
  else if f =? I_SLTU then to_rd (if u32 Rs <? u32 Rt then 1 else 0)
  else u.

(** [case I_BCOND]; the two "and link" cases write the link before the test. *)
Definition bcond : res State :=
  let f := rt instr in
  let branch s (taken : bool) : res State := Ok (if taken then set_npc s branch_target else s) in
  let linked := set_R s 31 link in
  if f =? I_BLTZ then branch s (Rs <? 0)
  else if f =? I_BGEZ then branch s (Rs >=? 0)
  else if f =? I_BLTZAL then branch linked (R linked (rs instr) <? 0)
  else if f =? I_BGEZAL then branch linked (R linked (rs instr) >=? 0)
  else u.

(** The loads and stores. *)
Definition memory_access (op : Z) : res State :=
  let i := s32 (Rs + immed instr) in
  let load (r : res Z) : res State := v ← r; to_rt v in
  let word := fetch s (Z.land (u32 i) 0xfffffffc) in
  if op =? I_LB then load (cfetch s i)
  else if op =? I_LH then load (sfetch s i)
  else if op =? I_LWL then
    let old := Z.land Rt (Z.shiftr (-1) (8 * Z.land (- i) 3)) in
    v ← word; to_rt (Z.lor old (s32 (Z.shiftl v (8 * Z.land i 3))))
  else if op =? I_LW then load (fetch s i)
  else if op =? I_LBU then load (ucfetch s i)
  else if op =? I_LHU then load (usfetch s i)
  else if op =? I_LWR then
    let old := Z.land Rt (s32 (Z.shiftl (-1) (8 * Z.land i 3))) in
    let old := if Z.land i 3 =? 0 then 0 else old in
    v ← word; to_rt (Z.lor old (Z.shiftr v (8 * Z.land (- i) 3)))
  else if op =? I_SB then cstore s i Rt
  else if op =? I_SH then sstore s i Rt
  else if op =? I_SW then store s i Rt
  else (* I_SWL, I_SWR, the coprocessors, and what is no opcode *) u.

(** The switch. *)
Definition execute : res State :=
  let op := Z.land (Z.shiftr instr 26) 0x3f in
  let branch (taken : bool) : res State := Ok (if taken then set_npc s branch_target else s) in
  if op =? I_SPECIAL then special
  else if op =? I_BCOND then bcond
  else if op =? I_J then Ok (set_npc s jump_target)
  else if op =? I_JAL then Ok (set_npc (set_R s 31 link) jump_target)
  else if op =? I_BEQ then branch (Rs =? Rt)
  else if op =? I_BNE then branch (negb (Rs =? Rt))
  else if op =? I_BLEZ then branch (Rs <=? 0)
  else if op =? I_BGTZ then branch (Rs >? 0)
  else if op =? I_ADDI then to_rt (s32 (Rs + immed instr))
  else if op =? I_ADDIU then to_rt (s32 (Rs + immed instr))
  else if op =? I_SLTI then to_rt (if Rs <? immed instr then 1 else 0)
  else if op =? I_SLTIU then to_rt (if u32 Rs <? u32 (immed instr) then 1 else 0)
  else if op =? I_ANDI then to_rt (Z.land Rs (immed instr))
  else if op =? I_ORI then to_rt (Z.lor Rs (immed instr))
  else if op =? I_XORI then to_rt (Z.lxor Rs (immed instr))
  else if op =? I_LUI then to_rt (s32 (Z.shiftl instr 16))
  else memory_access op.
End with_instruction.

(** One round of the loop of [runprogram]. *)
Definition step (s : State) : res State :=
  let xpc := pc s in
  instr ← ifetch s xpc;
  let s := mkState (Reg s) (HI s) (LO s) (mem s) (npc s) (s32 (npc s + 4)) (s32 (icount s + 1)) in
  let s := set_R s 0 0 in
  if negb (instr =? 0) then execute instr xpc s else Ok s.

Fixpoint steps (n : nat) (s : State) : res State :=
  match n with O => Ok s | S n => s ← step s; steps n s end.

(** ** Starting a program

    The loop over [argv]; a string is written with its NUL. *)

Fixpoint store_args (argv : list (list Z)) (aci ai : Z) (s : State) : res State :=
  match argv with
  | [] => Ok s
  | arg :: argv =>
      s ← store_bytes s ai (arg ++ [0]);
      s ← store s aci ai;
      store_args argv (aci + 4) (ai + Z.of_nat (length arg) + 1) s
  end.

(** [runprogram] up to its loop. *)
Definition start (startpc : Z) (argv : list (list Z)) (memory : gmap Z Z) : res State :=
  let i := MEMSIZE - 1024 + memoffset in
  let s := mkState (<[29%nat := i]> (replicate 32 0)) 0 0 memory startpc (s32 (startpc + 4)) 0 in
  s ← store s i (Z.of_nat (length argv));
  store_args argv (i + 4) (i + 4 + 32) s.
End interpreter.

(** ** [ilog2]: the length of a number in binary *)

Definition ilog2_round (mask size : Z) (il : Z * Z) : Z * Z :=
  let '(i, l) := il in
  let j := s32 (Z.land (u32 i) mask) in
  if negb (j =? 0) then (j, l + size) else (i, l).

Definition ilog2 (i : Z) : Z :=
  if i =? 0 then 0
  else
    let il := ilog2_round 0xffff0000 16 (i, 1) in
    let il := ilog2_round 0xff00ff00 8 il in
    let il := ilog2_round 0xf0f0f0f0 4 il in
    let il := ilog2_round 0xcccccccc 2 il in
    let il := ilog2_round 0xaaaaaaaa 1 il in
    snd il.
End Execute.
