(* ===== verification/ExecuteProps.v ===== *)
(** * Two interpreters of one instruction set

    bin/execute.c and machine/mipssim.cc interpret the same machine code.  An
    instruction on which they mean to agree, and on which neither shows one of
    its known deviations ([agree_on]), takes corresponding states to
    corresponding states. *)

From S2P Require Import Prelude Machine MipsSim MipsProps Execute.
#[global] Open Scope Z_scope.

(** ** Fields of a signed word and of its unsigned reading *)

Lemma testbit_u32 x n : 0 ≤ n → Z.testbit (u32 x) n = (n <? 32) && Z.testbit x n.
Proof.
  intros Hn. unfold u32. change two32 with (2 ^ 32). destruct (Z.ltb_spec n 32).
  - by rewrite Z.mod_pow2_bits_low.
  - rewrite Z.mod_pow2_bits_high by lia. done.
Qed.

Lemma field_u32 x k w : 0 ≤ k → 0 ≤ w → k + w ≤ 32 →
  Z.land (Z.shiftr (u32 x) k) (Z.ones w) = Z.land (Z.shiftr x k) (Z.ones w).
Proof.
  intros Hk Hw Hkw. apply Z.bits_inj'. intros n Hn.
  rewrite !Z.land_spec, !Z.shiftr_spec by done. rewrite testbit_u32 by lia.
  destruct (Z.ltb_spec (n + k) 32); [done|]. rewrite Z.ones_spec_high by lia. by rewrite !andb_false_r.
Qed.

Lemma low_field_u32 x w : 0 ≤ w ≤ 32 → Z.land (u32 x) (Z.ones w) = Z.land x (Z.ones w).
Proof. intros Hw. pose proof (field_u32 x 0 w). rewrite !Z.shiftr_0_r in H. apply H; lia. Qed.

(** The immediate operand, taken apart in two ways. *)
Definition sign16 (v : Z) : Z := if v <? 32768 then v else v - 65536.

Lemma extra_sign16 v : 
  (if negb (Z.land (Z.land v 0xffff) 0x8000 =? 0) then s32 (Z.lor (Z.land v 0xffff) 0xffff0000)
   else Z.land v 0xffff) = sign16 (v mod 65536).
Proof.
  change 0xffff with (Z.ones 16). rewrite !Z.land_ones by done. change (2 ^ 16) with 65536.
  assert (∃ imm, -32768 ≤ imm < 32768 ∧ v mod 65536 = imm mod 65536) as (imm & Hi & ->).
  { exists (sign16 (v mod 65536)). unfold sign16. destruct (Z.ltb_spec (v mod 65536) 32768); Z.div_mod_to_equations; lia. }
  rewrite sign_extend by done. unfold sign16. destruct (Z.ltb_spec (imm mod 65536) 32768); Z.div_mod_to_equations; lia.
Qed.

Lemma immed_sign16 v : Execute.immed v = sign16 (v mod 65536).
Proof.
  unfold Execute.immed, sign16.
  assert (Z.land v 0x8000 = (v / 32768) mod 2 * 32768) as -> by apply (land_bit v 15 ltac:(done)).
  destruct (Z.eqb_spec ((v / 32768) mod 2 * 32768) 0) as [E|E]; simpl negb; cbn iota.
  - change 0x7fff with (Z.ones 15). rewrite Z.land_ones by done.
    destruct (Z.ltb_spec (v mod 65536) 32768); Z.div_mod_to_equations; lia.
  - assert (Z.lor v (-32768) = v mod 32768 + -1 * 2 ^ 15) as ->.
    { rewrite <- lor_add by (try apply Z.mod_pos_bound; lia). apply Z.bits_inj'. intros n Hn.
      rewrite !Z.lor_spec. change (-1 * 2 ^ 15) with (-32768). change (v mod 32768) with (v mod 2 ^ 15).
      destruct (Z.ltb_spec n 15).
      - by rewrite Z.mod_pow2_bits_low.
      - change (-32768) with (Z.shiftl (-1) 15). rewrite Z.shiftl_spec, Z.bits_m1 by lia. by rewrite !orb_true_r. }
    destruct (Z.ltb_spec (v mod 65536) 32768); Z.div_mod_to_equations; lia.
Qed.

(** ** Where an operation stands in the opcode maps *)

Definition primary (o : OpCode) : option Z :=
  match o with
  | OP_J => Some Execute.I_J | OP_JAL => Some Execute.I_JAL | OP_BEQ => Some Execute.I_BEQ
  | OP_BNE => Some Execute.I_BNE | OP_BLEZ => Some Execute.I_BLEZ | OP_BGTZ => Some Execute.I_BGTZ
  | OP_ADDI => Some Execute.I_ADDI | OP_ADDIU => Some Execute.I_ADDIU | OP_SLTI => Some Execute.I_SLTI
  | OP_SLTIU => Some Execute.I_SLTIU | OP_ANDI => Some Execute.I_ANDI | OP_ORI => Some Execute.I_ORI
  | OP_XORI => Some Execute.I_XORI | OP_LUI => Some Execute.I_LUI
  | OP_SB => Some Execute.I_SB | OP_SH => Some Execute.I_SH | OP_SW => Some Execute.I_SW | _ => None
  end.
Definition secondary (o : OpCode) : option Z :=
  match o with
  | OP_SLL => Some Execute.I_SLL | OP_SRL => Some Execute.I_SRL | OP_SRA => Some Execute.I_SRA
  | OP_SLLV => Some Execute.I_SLLV | OP_SRLV => Some Execute.I_SRLV | OP_SRAV => Some Execute.I_SRAV
  | OP_JR => Some Execute.I_JR | OP_JALR => Some Execute.I_JALR
  | OP_MFHI => Some Execute.I_MFHI | OP_MTHI => Some Execute.I_MTHI
  | OP_MFLO => Some Execute.I_MFLO | OP_MTLO => Some Execute.I_MTLO
  | OP_MULT => Some Execute.I_MULT | OP_MULTU => Some Execute.I_MULTU
  | OP_DIV => Some Execute.I_DIV | OP_DIVU => Some Execute.I_DIVU
  | OP_ADD => Some Execute.I_ADD | OP_ADDU => Some Execute.I_ADDU
  | OP_SUB => Some Execute.I_SUB | OP_SUBU => Some Execute.I_SUBU
  | OP_AND => Some Execute.I_AND | OP_OR => Some Execute.I_OR
  | OP_XOR => Some Execute.I_XOR | OP_NOR => Some Execute.I_NOR
  | OP_SLT => Some Execute.I_SLT | OP_SLTU => Some Execute.I_SLTU | _ => None
  end.
Definition conditional (o : OpCode) : option Z :=
  match o with
  | OP_BLTZ => Some Execute.I_BLTZ | OP_BGEZ => Some Execute.I_BGEZ
  | OP_BLTZAL => Some Execute.I_BLTZAL | OP_BGEZAL => Some Execute.I_BGEZAL | _ => None
  end.

(** [extra] of an operation of the first map. *)
Definition primary_extra (o : OpCode) (v : Z) : Z :=
  match o with OP_J | OP_JAL => Z.land v 0x3ffffff | _ => sign16 (v mod 65536) end.

(** The table entries, checked one by one. *)
Definition primary_entry (idx : Z) (e : OpCode * Format) : bool :=
  match primary e.1 with
  | Some p => (p =? idx) && bool_decide (e.2 = match e.1 with OP_J | OP_JAL => JFMT | _ => IFMT end)
  | None => bool_decide (secondary e.1 = None ∧ conditional e.1 = None)
  end && (negb (bool_decide (e.1 = SPECIAL)) || (idx =? 0) && bool_decide (e.2 = RFMT))
      && (negb (bool_decide (e.1 = BCOND)) || (idx =? 1) && bool_decide (e.2 = IFMT)).
Definition secondary_entry (idx : Z) (o : OpCode) : bool :=
  match secondary o with
  | Some p => p =? idx
  | None => bool_decide (primary o = None ∧ conditional o = None)
  end.

Lemma table_checked {A} (P : Z → A → bool) (l : list A) idx x :
  table_get l idx = Ok x → forallb (λ p, P (Z.of_nat p.1) p.2) (imap pair l) = true → P idx x = true.
Proof.
  intros Hx Hall. apply arr_get_ok in Hx as [Hi Hx]. rewrite forallb_forall in Hall.
  specialize (Hall (Z.to_nat idx, x)). simpl in Hall. rewrite Z2Nat.id in Hall by done. apply Hall.
  apply list_elem_of_In, list_elem_of_lookup_2 with (Z.to_nat idx). by rewrite list_lookup_imap, Hx.
Qed.

Lemma place_spec v i :
  Decode v = Ok i →
  rs i = Z.land (Z.shiftr v 21) 0x1f ∧ rt i = Z.land (Z.shiftr v 16) 0x1f ∧ rd i = Z.land (Z.shiftr v 11) 0x1f ∧
  let op := Z.land (Z.shiftr v 26) 0x3f in
  (∀ c, primary (opCode i) = Some c → op = c ∧ extra i = primary_extra (opCode i) v) ∧
  (∀ c, secondary (opCode i) = Some c → op = 0 ∧ Z.land v 0x3f = c ∧ extra i = Z.land (Z.shiftr v 6) 0x1f) ∧
  (∀ c, conditional (opCode i) = Some c → op = 1 ∧ rt i = c ∧ extra i = sign16 (v mod 65536)).
Proof.
  unfold Decode. intros HD. apply bind_ok in HD as ([op fmt] & E1 & HD).
  set (idx := Z.land (Z.shiftr v 26) 0x3f) in *. set (fn := Z.land v 0x3f) in *. clearbody idx fn.
  apply (table_checked primary_entry) in E1; [|reflexivity]. unfold primary_entry in E1.
  apply andb_true_iff in E1 as [E1 Hbc]. apply andb_true_iff in E1 as [Hpr Hsp]. cbn [fst snd] in Hpr, Hsp, Hbc.
  apply bind_ok in HD as (op' & E2 & [= <-]). cbn [MipsSim.rs MipsSim.rt MipsSim.rd opCode extra]. do 3 (split; [done|]). rewrite extra_sign16.
  destruct (decide (op = SPECIAL)) as [->|Hs].
  { cbn in Hsp, Hbc, E2. apply andb_true_iff in Hsp as [Hidx Hf]. apply Z.eqb_eq in Hidx. apply bool_decide_eq_true in Hf. subst fmt.
    apply (table_checked secondary_entry) in E2; [|reflexivity]. unfold secondary_entry in E2.
    split; [|split]; intros c Hc.
    - destruct (secondary op') eqn:Es; [by destruct op'|]. apply bool_decide_eq_true in E2 as [E2 _]. congruence.
    - rewrite Hc in E2. apply Z.eqb_eq in E2. done.
    - destruct (secondary op') eqn:Es; [by destruct op'|]. apply bool_decide_eq_true in E2 as [_ E2]. congruence. }
  rewrite (bool_decide_eq_false_2 (op = SPECIAL)) in E2 by done.
  destruct (decide (op = BCOND)) as [->|Hb].
  { cbn in Hsp, Hbc, E2. apply andb_true_iff in Hbc as [Hidx Hf]. apply Z.eqb_eq in Hidx. apply bool_decide_eq_true in Hf. subst fmt.
    assert (Z.land v 0x1f0000 = Z.land (Z.shiftr v 16) 0x1f * 2 ^ 16) as Hrt by
      (rewrite (field_value v 16 5) by done; apply (land_field v 5 16); done).
    rewrite Hrt in E2. simpl. set (f := Z.land (Z.shiftr v 16) 31) in *. injection E2 as <-.
    destruct (Z.eqb_spec (f * 2 ^ 16) 0); [|destruct (Z.eqb_spec (f * 2 ^ 16) 0x10000);
      [|destruct (Z.eqb_spec (f * 2 ^ 16) 0x100000); [|destruct (Z.eqb_spec (f * 2 ^ 16) 0x110000)]]];
      (split; [|split]; intros c [= <-]); unfold Execute.I_BLTZ, Execute.I_BGEZ, Execute.I_BLTZAL, Execute.I_BGEZAL;
      split_and!; done || lia. }
  rewrite (bool_decide_eq_false_2 (op = BCOND)) in E2 by done. injection E2 as <-.
  destruct (primary op) as [c0|] eqn:Ep.
  - apply andb_true_iff in Hpr as [Hc Hf]. apply Z.eqb_eq in Hc. apply bool_decide_eq_true in Hf.
    split; [|split]; intros c Hc'; [|by destruct op..]. injection Hc' as <-. split; [done|].
    subst fmt. by destruct op.
  - apply bool_decide_eq_true in Hpr as [Hx Hy]. split; [|split]; intros c Hc'; congruence.
Qed.

(** ** Corresponding states *)

(** The registers are equal (register 0 apart, which each interpreter clears at
    a point of its own), the program counters too, and no load is pending. *)
Record same_cpu (s : Execute.State) (m : Machine) : Prop := mkSameCpu {
  sc_len : length (Execute.Reg s) = 32%nat;
  sc_regs : ∀ r, 0 < r < NumGPRegs → Execute.R s r = reg m r;
  sc_hi : Execute.HI s = reg m HiReg;
  sc_lo : Execute.LO s = reg m LoReg;
  sc_pc : Execute.pc s = reg m PCReg;
  sc_npc : Execute.npc s = reg m NextPCReg;
  sc_load : reg m LoadReg = 0;
}.

(** The addresses of the array of bin/execute.c. *)
Definition linked (a size : Z) : Prop :=
  Execute.memoffset ≤ u32 a ∧ u32 a + size ≤ Execute.memoffset + Execute.MEMSIZE.

(** At the addresses of the array that the page table maps, both memories hold
    the same byte. *)
Definition same_memory (s : Execute.State) (m : Machine) : Prop :=
  ∀ a b, linked a 1 → ubyte m a = Some b → default 0 (Execute.mem s !! u32 a) = b.

(** What the switch of an instruction does to the memories. *)
Definition untouched (s : Execute.State) (m : Machine) (s2 : Execute.State) (mm : Machine) : Prop :=
  Execute.mem s2 = Execute.mem s ∧ mainMemory mm = mainMemory m ∧
  tlb mm = tlb m ∧ pageTable mm = pageTable m ∧ pageTableSize mm = pageTableSize m.
Definition tracks (s : Execute.State) (m : Machine) (s2 : Execute.State) (mm : Machine) : Prop :=
  same_space m mm ∧ (frames_inj m → same_memory s m → same_memory s2 mm).

Lemma same_memory_eq s m s2 mm :
  same_space m mm → mainMemory mm = mainMemory m → Execute.mem s2 = Execute.mem s →
  same_memory s m → same_memory s2 mm.
Proof.
  intros Hss Hm Hs Hsm a b Ha. unfold ubyte. rewrite <- Hss, Hm, Hs. by apply Hsm.
Qed.

Lemma untouched_tracks s m s2 mm : untouched s m s2 mm → tracks s m s2 mm.
Proof.
  intros (Hs & Hm & Ht & Hp & Hps). assert (same_space m mm) as Hss by (split; [done|done|by rewrite Hp]).
  split; [done|]. intros _. by apply same_memory_eq.
Qed.

(** The bytes of an aligned access are in one frame. *)
Lemma frame_offset m a size w pa j :
  size = 1 ∨ size = 2 ∨ size = 4 → aligned a size → frame m a w = Some pa → 0 ≤ j < size →
  u32 (a + j) = u32 a + j ∧ frame m (a + j) w = Some (pa + j).
Proof.
  intros Hs Ha Hf Hj. pose proof (aligned_in_page a size Hs Ha) as Hp. pose proof (u32_range a) as Hr.
  assert (u32 a + j < two32) as Hlt.
  { unfold is_u32, aligned, two32 in *. destruct Hs as [->|[->| ->]]; Z.div_mod_to_equations; lia. }
  assert (u32 (a + j) = u32 a + j) as E.
  { unfold u32 in *. rewrite <- Z.add_mod_idemp_l by done. apply Z.mod_small. unfold is_u32 in Hr. lia. }
  split; [done|]. pose proof (offset_range a) as Ho. unfold frame, vpn_of, offset_of in *. rewrite E.
  assert ((u32 a + j) / PageSize = u32 a / PageSize ∧ (u32 a + j) mod PageSize = u32 a mod PageSize + j) as [-> ->].
  { pose proof (Z.div_mod (u32 a) PageSize ltac:(done)). split; symmetry;
      [apply (Z.div_unique_pos _ _ _ (u32 a mod PageSize + j))|apply (Z.mod_unique_pos _ _ (u32 a / PageSize))]; lia. }
  destruct (tlb m); [done|]. destruct (pageTable m); [|done]. destruct (l !! _); [|done].
  destruct (_ && _ && _); [|done]. injection Hf as <-. f_equal. lia.
Qed.

(** What a successful [ReadMem] read. *)
Lemma ReadMem_inv {K : Type} `{Kernel K} m (k : K) pt a size v m' k' :
  linear m pt → size = 1 ∨ size = 2 ∨ size = 4 → ReadMem a size (m, k) = Ok (Some v, (m', k')) →
  ∃ pa, aligned a size ∧ frame m a false = Some pa ∧
    v = load_value size (read_bytes (mainMemory m) pa (Z.to_nat size)) ∧
    same_space m m' ∧ mainMemory m' = mainMemory m ∧ registers m' = registers m.
Proof.
  intros Hlin Hs E. pose proof (Translate_spec m pt Hlin a size false Hs) as (exc & pa & m1 & ET & T).
  assert (exc ≠ NoException → False) as Hexc.
  { intros Hne. unfold ReadMem in E. rewrite ET in E. simpl in E. rewrite bool_decide_eq_true_2 in E by done.
    by apply bind_ok in E as (? & _ & [=]). }
  assert (aligned a size ∧ ∃ pa', frame m a false = Some pa') as [Hal [pa' Hf]].
  { pose proof Hlin as [Htlb Htab _ _].
    destruct T as [| |e ? He Hv|e ? He Hv Hro Hw|e ? He Hv Hro Hb|e Hal He Hv Hro Hb]; try (exfalso; by apply Hexc).
    split; [done|]. unfold frame. rewrite Htlb, Htab, He, Hv, (bool_decide_eq_true_2 _ Hb), andb_false_r. by eexists. }
  destruct (ReadMem_frame m k pt Hlin a size pa' Hs Hal Hf) as (m2 & E2 & Hss & Hr & Hm).
  rewrite E in E2. injection E2 as -> -> ->. by exists pa'.
Qed.

(** Both read the same word. *)
Lemma read_alike s m a size pa :
  size = 1 ∨ size = 2 ∨ size = 4 → aligned a size → frame m a false = Some pa → linked a size → same_memory s m →
  read_bytes (mainMemory m) pa (Z.to_nat size) = read_bytes (Execute.mem s) (u32 a) (Z.to_nat size).
Proof.
  intros Hs Ha Hf Hl Hsm. apply list_eq. intros j.
  destruct (decide (j < Z.to_nat size)%nat) as [Hj|Hj].
  2:{ rewrite !lookup_ge_None_2; [done|rewrite length_read_bytes; lia..]. }
  rewrite !read_bytes_lookup by done. f_equal.
  destruct (frame_offset m a size false pa (Z.of_nat j) Hs Ha Hf) as [Eu Ef]; [lia|].
  symmetry. rewrite <- Eu. apply Hsm; [unfold linked in *; lia|]. unfold ubyte. rewrite Ef. done.
Qed.

(** The same between the switch of an instruction and the advance of the
    simulator's program counters. *)
Record midway (s : Execute.State) (m : Machine) (next : Z) : Prop := mkMidway {
  mw_len : length (Execute.Reg s) = 32%nat;
  mw_regs : ∀ r, 0 < r < NumGPRegs → Execute.R s r = reg m r;
  mw_hi : Execute.HI s = reg m HiReg;
  mw_lo : Execute.LO s = reg m LoReg;
  mw_pc : Execute.pc s = reg m NextPCReg;
  mw_npc : Execute.npc s = next;
  mw_load : reg m LoadReg = 0;
}.

Section midway.
Context (s : Execute.State) (m : Machine) (next : Z) (Hmw : midway s m next) (Hm : cpu_ok m).

Lemma R_set_R r r' v : 0 ≤ r < NumGPRegs → 0 ≤ r' →
  Execute.R (Execute.set_R s r v) r' = if bool_decide (r' = r) then v else Execute.R s r'.
Proof using Hmw.
  unfold NumGPRegs. intros Hr Hr'. unfold Execute.R, Execute.set_R. simpl. case_bool_decide as E.
  - subst. rewrite list_lookup_insert_eq; [done|]. rewrite (mw_len _ _ _ Hmw). lia.
  - rewrite list_lookup_insert_ne; [done|]. lia.
Qed.

(** Both write a general register. *)
Lemma midway_reg r v : 0 ≤ r < NumGPRegs → midway (Execute.set_R s r v) (set_reg m r v) next.
Proof using Hmw Hm.
  intros Hr. pose proof Hmw as [Hl Hrs Hh Hlo Hp Hn Hld]. unfold NumGPRegs in *.
  split; simpl; rewrite ?length_insert; try done;
    try (rewrite reg_set_ne by (unfold HiReg, LoReg, NextPCReg, LoadReg; lia); done).
  intros r' Hr'. rewrite R_set_R by (unfold NumGPRegs; lia). case_bool_decide as E.
  - subst. rewrite reg_set_eq; [done|done|]. unfold NumTotalRegs. lia.
  - rewrite reg_set_ne by lia. by apply Hrs.
Qed.

Lemma midway_hilo hi lo :
  midway (Execute.set_HI (Execute.set_LO s lo) hi) (set_reg (set_reg m LoReg lo) HiReg hi) next ∧
  midway (Execute.set_HI (Execute.set_LO s lo) hi) (set_reg (set_reg m HiReg hi) LoReg lo) next.
Proof using Hmw Hm.
  pose proof Hmw as [Hl Hrs Hh Hlo Hp Hn Hld]. pose proof (cpu_regs m Hm) as Hlen.
  split; split; simpl; try done; unfold reg, set_reg, with_registers, NumGPRegs, HiReg, LoReg, LoadReg, NextPCReg in *; simpl;
    try intros r Hr;
    repeat first [ rewrite list_lookup_insert_ne by lia
                 | rewrite list_lookup_insert_eq by (rewrite ?length_insert, Hlen; unfold NumTotalRegs; lia) ];
    try done; by apply Hrs.
Qed.

Lemma midway_hi v : midway (Execute.set_HI s v) (set_reg m HiReg v) next.
Proof using Hmw Hm.
  pose proof Hmw as [Hl Hrs Hh Hlo Hp Hn Hld].
  split; simpl; try done; try (by rewrite reg_set_ne); [|by rewrite reg_set_eq].
  intros r Hr. rewrite reg_set_ne by (unfold NumGPRegs, HiReg in *; lia). by apply Hrs.
Qed.
Lemma midway_lo v : midway (Execute.set_LO s v) (set_reg m LoReg v) next.
Proof using Hmw Hm.
  pose proof Hmw as [Hl Hrs Hh Hlo Hp Hn Hld].
  split; simpl; try done; try (by rewrite reg_set_ne); [|by rewrite reg_set_eq].
  intros r Hr. rewrite reg_set_ne by (unfold NumGPRegs, LoReg in *; lia). by apply Hrs.
Qed.

Lemma midway_npc v : midway (Execute.set_npc s v) m v.
Proof using Hmw. by destruct Hmw. Qed.
End midway.

(** Writing register 0 does not count. *)
Lemma midway_zero s m next v : midway s m next → cpu_ok m → midway s (set_reg m 0 v) next.
Proof.
  intros [Hl Hrs Hh Hlo Hp Hn Hld] Hm. split; try done; try (by rewrite reg_set_ne).
  intros r Hr. rewrite reg_set_ne by lia. by apply Hrs.
Qed.

(** The simulator advances. *)
Lemma advance_untouched {K : Type} s m (k : K) next lr lv m' k' :
  advance (m, k) next lr lv = Ok (m', k') → untouched s m s m'.
Proof.
  unfold advance, DelayedLoad. intros (m1 & E & [= <- _])%bind_ok. apply bind_ok in E as (rs & _ & [= <-]).
  by split_and!.
Qed.

Lemma midway_advance {K : Type} s m (k : K) next :
  midway s m next → cpu_ok m → is_s32 next →
  ∃ m', advance (m, k) next 0 0 = Ok (m', k) ∧ same_cpu s m' ∧ machine_ok m' ∧ tracks s m s m'.
Proof.
  intros [Hl Hrs Hh Hlo Hp Hn Hld] Hm Hs.
  destruct (advance_regs (λ _, True) m k next 0 0 Hm Hs) as (m' & E & Hok & HPC & _ & HN & HL & _ & Hr); [done|done|].
  exists m'. split; [done|]. enough (same_cpu s m') by (split_and!; [done|done|by eapply untouched_tracks, advance_untouched]).
  assert (∀ r, 0 < r < PCReg → reg m' r = reg m r) as Hr'.
  { intros r H. rewrite Hr by done. rewrite Hld. by rewrite bool_decide_eq_false_2 by lia. }
  split; try done; rewrite ?Hr' by done; try congruence.
  intros r H. rewrite Hr' by (unfold NumGPRegs, PCReg in *; lia). by apply Hrs.
Qed.

(** ** Where the interpreters agree

    The conditions are about the operands only.  They leave out what one of the
    two does not do (traps on overflow and on bad addresses, system calls, loads,
    which the simulator delays and bin/execute.c does not) and what one of them
    does wrongly: the unaligned stores, which bin/execute.c does not have, OR and the logical right shifts of the simulator, the
    immediate operands of ANDI, ORI and XORI and the high word of a product in
    bin/execute.c, and jumps out of a delay slot, which the manual forbids. *)

Definition sequential (m : Machine) : Prop := reg m NextPCReg = s32 (reg m PCReg + 4).
Definition same_region (m : Machine) : Prop :=
  Z.land (u32 (reg m PCReg)) 0xf0000000 = Z.land (u32 (s32 (reg m NextPCReg + 4))) 0xf0000000.
Definition shift_count (x : Z) : Prop := 0 ≤ x < 32.
Definition half (x : Z) : Prop := 0 ≤ x < 65536.

(** An aligned address that the program may write and the array has. *)
Definition store_allowed (m : Machine) (a size : Z) : Prop :=
  aligned a size ∧ frame m a true ≠ None ∧ linked a size.

Definition agree_on (i : Instruction) (m : Machine) : Prop :=
  let a := reg m (rs i) in
  let b := reg m (rt i) in
  match opCode i with
  | OP_ADDU | OP_ADDIU | OP_SUBU | OP_AND | OP_XOR | OP_NOR | OP_SLT | OP_SLTI | OP_SLTIU | OP_SLTU
  | OP_SLL | OP_SRA | OP_MFHI | OP_MFLO | OP_MTHI | OP_MTLO | OP_LUI | OP_JR => True
  | OP_ADD => is_s32 (a + b)
  | OP_ADDI => is_s32 (a + extra i)
  | OP_SUB => is_s32 (a - b)
  | OP_ANDI | OP_ORI | OP_XORI => 0 ≤ extra i
  | OP_OR => Z.lor a b = a
  | OP_SRL => 0 ≤ b
  | OP_SLLV | OP_SRAV => shift_count a
  | OP_SRLV => shift_count a ∧ 0 ≤ b
  | OP_MULT | OP_MULTU => half a ∧ half b
  | OP_DIV => b ≠ 0 ∧ ¬ (a = - two31 ∧ b = -1)
  | OP_DIVU => b ≠ 0
  | OP_BEQ | OP_BNE | OP_BLEZ | OP_BGTZ | OP_BLTZ | OP_BGEZ | OP_BLTZAL | OP_BGEZAL => sequential m
  | OP_J | OP_JAL => sequential m ∧ same_region m
  | OP_JALR => sequential m ∧ rd i ≠ rs i
  | OP_SB => store_allowed m (s32 (a + extra i)) 1
  | OP_SH => store_allowed m (s32 (a + extra i)) 2
  | OP_SW => store_allowed m (s32 (a + extra i)) 4
  | _ => False
  end.

#[global] Instance agree_on_dec i m : Decision (agree_on i m).
Proof.
  unfold agree_on, sequential, same_region, shift_count, half, store_allowed, aligned, linked. destruct (opCode i); apply _.
Defined.

Lemma mult_half sg a b : half a → half b → Mult a b sg = Execute.mult_words a b ∧ Execute.mult_signed a b = Execute.mult_words a b.
Proof.
  unfold half. intros Ha Hb.
  assert (Execute.mult_words a b = (0, s32 (a * b))) as Hw.
  { unfold Execute.mult_words.
    assert (∀ x, 0 ≤ x < 65536 → Z.land x 0xffff = x ∧ Z.land (Z.shiftr x 16) 0xffff = 0) as Hx.
    { intros x Hx. change 0xffff with (Z.ones 16). rewrite !Z.land_ones by done. change (2 ^ 16) with 65536.
      rewrite Z.shiftr_div_pow2 by done. change (2 ^ 16) with 65536. Z.div_mod_to_equations. lia. }
    destruct (Hx a Ha) as [-> ->]. by destruct (Hx b Hb) as [-> ->]. }
  split.
  - assert (is_s32 a ∧ is_s32 b) as [Ha' Hb'] by (unfold is_s32, two31; lia).
    pose proof (MultProof.mult_spec a b sg Ha' Hb') as HM. destruct (Mult a b sg) as [hi lo].
    destruct HM as (Hhi & Hlo & HM). rewrite Hw. assert (u32 a = a ∧ u32 b = b) as [Eua Eub].
    { unfold u32, two32. split; apply Z.mod_small; lia. }
    assert ((if sg then a * b else u32 a * u32 b) = a * b) as E by (rewrite Eua, Eub; by destruct sg). rewrite E in HM.
    assert (0 ≤ a * b < 65536 * 65536) by nia. unfold MultProof.dword, MultProof.two64 in HM.
    rewrite Z.mod_small in HM by lia. pose proof (u32_range hi) as Hh. pose proof (u32_range lo) as Hl.
    unfold is_u32, two32 in *. assert (u32 hi = 0 ∧ u32 lo = a * b) as [E1 E2] by lia.
    f_equal; [|rewrite <- E2]; unfold is_s32, u32, s32, two31, two32 in *; Z.div_mod_to_equations; lia.
  - unfold Execute.mult_signed. rewrite (proj2 (Z.ltb_ge a 0)), (proj2 (Z.ltb_ge b 0)) by lia.
    by destruct (Execute.mult_words a b).
Qed.

Lemma land_low16 x : 0 ≤ sign16 (x mod 65536) → Z.land (sign16 (x mod 65536)) 0xffff = sign16 (x mod 65536).
Proof.
  unfold sign16. pose proof (Z.mod_pos_bound x 65536 eq_refl). intros Hs.
  change 0xffff with (Z.ones 16). rewrite Z.land_ones by done. change (2 ^ 16) with 65536.
  destruct (Z.ltb_spec (x mod 65536) 32768); [|lia]. apply Z.mod_small. lia.
Qed.

Lemma lui_word raw : s32 (Z.shiftl raw 16) = s32 (Z.shiftl (sign16 (u32 raw mod 65536)) 16).
Proof.
  rewrite !Z.shiftl_mul_pow2 by done. unfold s32, u32, sign16, two31, two32.
  destruct (Z.ltb_spec (raw mod 4294967296 mod 65536) 32768); Z.div_mod_to_equations; lia.
Qed.

Lemma u32_nonneg x : is_s32 x → 0 ≤ x → u32 x = x.
Proof. intros Hx Hx0. unfold u32, is_s32, two31, two32 in *. apply Z.mod_small. lia. Qed.

Lemma sum4 x : s32 (s32 (x + 4) + 4) = s32 (x + 8).
Proof. unfold s32, two31, two32. Z.div_mod_to_equations. lia. Qed.
Lemma sum_s32 x y : s32 (s32 x + y) = s32 (x + y).
Proof. unfold s32, two31, two32. Z.div_mod_to_equations. lia. Qed.

Section execute.
Context {K : Type} `{Kernel K}.
Context (unix : Z → Z → Z → Z → gmap Z Z → res (Z * gmap Z Z)).
Context (i : Instruction) (m : Machine) (k : K) (s : Execute.State) (raw : Z).
Context (Hm : cpu_ok m) (H0 : reg m 0 = 0) (Hs0 : Execute.R s 0 = 0) (Hraw : is_s32 raw).
Context (HD : Decode (u32 raw) = Ok i) (Hi : decoded i).

Let pcAfter := s32 (reg m NextPCReg + 4).
Context (Hmw : midway s m pcAfter).

(** Both interpreters leave the switch, in corresponding states. *)
Definition leaves (x : res (outcome (K:=K))) (y : res Execute.State) : Prop :=
  ∃ mm s2 pc', x = Ok (Next (mm, k) pc' 0 0) ∧ y = Ok s2 ∧ midway s2 mm pc' ∧ untouched s m s2 mm.

Lemma leaves_reg r v v' :
  v = v' → 0 ≤ r < NumGPRegs → leaves (go pcAfter (m, k) (set_reg m r v)) (Ok (Execute.set_R s r v')).
Proof using Hm Hmw. intros <- Hr. do 3 eexists. do 2 (split; [reflexivity|]). split; [by apply midway_reg|done]. Qed.

Lemma leaves_npc v v' : v = v' → leaves (Ok (Next (m, k) v 0 0)) (Ok (Execute.set_npc s v')).
Proof using Hmw. intros <-. do 3 eexists. do 2 (split; [reflexivity|]). split; [by eapply midway_npc|done]. Qed.

Lemma leaves_link r l l' v v' :
  l = l' → v = v' → 0 ≤ r < NumGPRegs →
  leaves (Ok (Next (set_reg m r l, k) v 0 0)) (Ok (Execute.set_npc (Execute.set_R s r l') v')).
Proof using Hm Hmw.
  intros <- <- Hr. do 3 eexists. do 2 (split; [reflexivity|]). split; [|done].
  eapply midway_npc. by apply midway_reg.
Qed.

(** A conditional branch. *)
Lemma leaves_branch m' s' b b' :
  sequential m → extra i = Execute.immed raw → b = b' → reg m' NextPCReg = reg m NextPCReg →
  midway s' m' pcAfter → untouched s m s' m' →
  leaves (branch_to i pcAfter (m, k) b m')
    (Ok (if (b' : bool) then Execute.set_npc s' (s32 (reg m PCReg + 4 + s32 (Z.shiftl (Execute.immed raw) 2))) else s')).
Proof using H.
  intros Hseq Hex <- Hn Hmw' Hu. unfold leaves, branch_to, IndexToAddr. do 3 eexists. do 2 (split; [reflexivity|]).
  rewrite Hn, Hseq, Hex, sum_s32. destruct b; [|done]. split; [by eapply midway_npc|done].
Qed.

Lemma fields :
  rs i = Execute.rs raw ∧ rt i = Execute.rt raw ∧ rd i = Execute.rd raw ∧
  (∀ c, primary (opCode i) = Some c → Z.land (Z.shiftr raw 26) 0x3f = c ∧
     extra i = match opCode i with OP_J | OP_JAL => Z.land raw 0x3ffffff | _ => Execute.immed raw end) ∧
  (∀ c, secondary (opCode i) = Some c → Z.land (Z.shiftr raw 26) 0x3f = 0 ∧ Z.land raw 0x3f = c ∧
     extra i = Execute.shamt raw) ∧
  (∀ c, conditional (opCode i) = Some c → Z.land (Z.shiftr raw 26) 0x3f = 1 ∧ Execute.rt raw = c ∧
     extra i = Execute.immed raw).
Proof using All.
  destruct (place_spec _ _ HD) as (-> & Ert & -> & Hp & Hs & Hc).
  assert (u32 raw mod 65536 = raw mod 65536) as E16 by (unfold u32, two32; Z.div_mod_to_equations; lia).
  change 0x1f with (Z.ones 5) in *. change 0x3f with (Z.ones 6) in *. rewrite !field_u32 in * by lia.
  rewrite low_field_u32 in Hs by lia. rewrite E16, <- immed_sign16 in Hc.
  split; [done|]. split; [done|]. split; [done|]. split; [|split]; intros c E.
  - destruct (Hp c E) as [-> ->]. split; [done|]. unfold primary_extra. change 0x3ffffff with (Z.ones 26).
    rewrite low_field_u32, E16, <- immed_sign16 by lia. done.
  - by apply Hs.
  - assert (Execute.rt raw = rt i) as -> by (symmetry; exact Ert). by apply Hc.
Qed.

Lemma operand r : 0 ≤ r < NumGPRegs → Execute.R s r = reg m r.
Proof using Hmw H0 Hs0.
  intros Hr. destruct (decide (r = 0)) as [->|Hn]; [congruence|]. apply (mw_regs _ _ _ Hmw). lia.
Qed.

Hypothesis Ha : agree_on i m.

(** Decide the tests of the switch of bin/execute.c, whose opcode is known. *)
Ltac literal x := first [is_const x | lazymatch x with Z0 => idtac | Zpos _ => idtac end].
Ltac switch :=
  repeat (match goal with
          | |- context [Z.eqb ?a ?b] =>
              literal a; literal b;
              let r := eval vm_compute in (Z.eqb a b) in
              match r with
              | true => change (Z.eqb a b) with true
              | false => change (Z.eqb a b) with false
              end
          end; cbn [orb]; cbn iota).

(** Bring both switches to the case of the operation, over the same operands. *)
Ltac enter Eop :=
  let Ers := fresh "Ers" in
  let Ert := fresh "Ert" in
  let Erd := fresh "Erd" in
  let Hp := fresh "Hp" in
  let Hs := fresh "Hs" in
  let Hc := fresh "Hc" in
  let Hrs := fresh "Hrs" in
  let Hrt := fresh "Hrt" in
  let Hrd := fresh "Hrd" in
  let ERs := fresh "ERs" in
  let ERt := fresh "ERt" in
  let HRs := fresh "HRs" in
  let HRt := fresh "HRt" in
  let Hop := fresh "Hop" in
  let Hfn := fresh "Hfn" in
  let Eex := fresh "Eex" in
  unfold agree_on in Ha; rewrite Eop in Ha;
  pose proof fields as (Ers & Ert & Erd & Hp & Hs & Hc);
  pose proof (dec_rs i Hi) as Hrs; pose proof (dec_rt i Hi) as Hrt; pose proof (dec_rd i Hi) as Hrd;
  pose proof (operand _ Hrs) as ERs; pose proof (operand _ Hrt) as ERt;
  pose proof (reg_s32 m Hm (rs i)) as HRs; pose proof (reg_s32 m Hm (rt i)) as HRt;
  rewrite Eop in Hp, Hs, Hc;
  first [ destruct (Hp _ eq_refl) as [Hop Eex] | destruct (Hs _ eq_refl) as (Hop & Hfn & Eex)
        | destruct (Hc _ eq_refl) as (Hop & Hfn & Eex) ];
  unfold Execute.execute; cbv zeta; rewrite Hop; switch;
  unfold Execute.special, Execute.bcond; cbv zeta; rewrite ?Hfn; switch;
  rewrite <- ?Ers, <- ?Ert, <- ?Erd, ?ERs, ?ERt, <- ?Eex;
  unfold execute; rewrite Eop;
  unfold exec_add_and, exec_sub, exec_or, exec_xor, exec_shift_set, exec_hilo, exec_div, exec_jump, exec_branch, exec_load;
  rewrite ?Eop; cbn [fst snd].

Lemma arithmetic_agree :
  opCode i ∈ [OP_ADD; OP_ADDI; OP_ADDIU; OP_ADDU; OP_SUB; OP_SUBU; OP_LUI; OP_SLT; OP_SLTI; OP_SLTIU; OP_SLTU] →
  leaves (execute i pcAfter (m, k)) (Execute.execute unix raw (reg m PCReg) s).
Proof using All.
  intros Hin. pose proof (dec_extra i Hi) as Hex.
  repeat (apply elem_of_cons in Hin as [Eop|Hin]); [..|destruct (not_elem_of_nil _ Hin)]; enter Eop.
  - rewrite add_overflow, bool_decide_eq_true_2 by done. by apply leaves_reg.
  - rewrite addi_overflow, bool_decide_eq_true_2 by done. by apply leaves_reg.
  - by apply leaves_reg.
  - by apply leaves_reg.
  - rewrite sub_overflow, bool_decide_eq_true_2 by done. by apply leaves_reg.
  - by apply leaves_reg.
  - apply leaves_reg; [|done]. rewrite Eex, immed_sign16, (lui_word raw).
    by assert (u32 raw mod 65536 = raw mod 65536) as -> by (unfold u32, two32; Z.div_mod_to_equations; lia).
  - by apply leaves_reg.
  - by apply leaves_reg.
  - by apply leaves_reg.
  - by apply leaves_reg.
Qed.

Lemma logic_agree :
  opCode i ∈ [OP_AND; OP_ANDI; OP_OR; OP_ORI; OP_XOR; OP_XORI; OP_NOR] →
  leaves (execute i pcAfter (m, k)) (Execute.execute unix raw (reg m PCReg) s).
Proof using All.
  intros Hin.
  assert (0 ≤ extra i → extra i = Execute.immed raw → Z.land (extra i) 0xffff = extra i) as Hlow.
  { intros Hx E. rewrite E, immed_sign16 in *. by apply land_low16. }
  repeat (apply elem_of_cons in Hin as [Eop|Hin]); [..|destruct (not_elem_of_nil _ Hin)]; enter Eop;
    rewrite ?Hlow by done; try by apply leaves_reg.
  apply leaves_reg; [|done]. by rewrite Z.lor_diag.
Qed.

Lemma shift_agree :
  opCode i ∈ [OP_SLL; OP_SRL; OP_SRA; OP_SLLV; OP_SRLV; OP_SRAV] →
  leaves (execute i pcAfter (m, k)) (Execute.execute unix raw (reg m PCReg) s).
Proof using All.
  intros Hin. pose proof (dec_shift i Hi) as Hsh.
  assert (∀ x, shift_count x → Execute.shift_ok x = Ok tt ∧ Z.land x 0x1f = x) as Hcount.
  { intros x [Hx1 Hx2]. unfold Execute.shift_ok. rewrite (proj2 (Z.leb_le _ _)), (proj2 (Z.ltb_lt _ _)) by done.
    split; [done|]. change 0x1f with (Z.ones 5). rewrite Z.land_ones by done. apply Z.mod_small. done. }
  assert (∀ x n, is_s32 x → 0 ≤ x → 0 ≤ n → s32 (Z.shiftr (u32 x) n) = Z.shiftr x n) as Hsr.
  { intros x n Hx Hx0 Hn. rewrite u32_nonneg by done. apply s32_small. by apply shiftr_s32. }
  repeat (apply elem_of_cons in Hin as [Eop|Hin]); [..|destruct (not_elem_of_nil _ Hin)]; enter Eop.
  - by apply leaves_reg.
  - apply leaves_reg; [|done]. rewrite Hsr; [done|done|done|]. rewrite Eop in Hsh. by destruct Hsh.
  - by apply leaves_reg.
  - destruct (Hcount _ Ha) as [-> ->]. by apply leaves_reg.
  - destruct Ha as [Ha1 Ha2]. destruct (Hcount _ Ha1) as [-> ->]. apply leaves_reg; [|done].
    rewrite Hsr; [done..|]. by destruct Ha1.
  - destruct (Hcount _ Ha) as [-> ->]. by apply leaves_reg.
Qed.

Lemma leaves_hilo hi lo :
  leaves (go pcAfter (m, k) (set_reg (set_reg m LoReg lo) HiReg hi)) (Ok (Execute.set_HI (Execute.set_LO s lo) hi)) ∧
  leaves (go pcAfter (m, k) (set_reg (set_reg m HiReg hi) LoReg lo)) (Ok (Execute.set_HI (Execute.set_LO s lo) hi)).
Proof using Hm Hmw.
  destruct (midway_hilo s m pcAfter Hmw Hm hi lo) as [H1 H2].
  split; do 3 eexists; (do 2 (split; [reflexivity|]); split; [eassumption|done]).
Qed.

Lemma hilo_agree :
  opCode i ∈ [OP_MFHI; OP_MFLO; OP_MTHI; OP_MTLO; OP_MULT; OP_MULTU; OP_DIV; OP_DIVU] →
  leaves (execute i pcAfter (m, k)) (Execute.execute unix raw (reg m PCReg) s).
Proof using All.
  intros Hin. pose proof (mw_hi _ _ _ Hmw) as Ehi. pose proof (mw_lo _ _ _ Hmw) as Elo.
  repeat (apply elem_of_cons in Hin as [Eop|Hin]); [..|destruct (not_elem_of_nil _ Hin)]; enter Eop.
  - by apply leaves_reg.
  - by apply leaves_reg.
  - do 3 eexists. do 2 (split; [reflexivity|]). split; [by apply midway_hi|done].
  - do 3 eexists. do 2 (split; [reflexivity|]). split; [by apply midway_lo|done].
  - destruct Ha as [Ha1 Ha2]. destruct (mult_half true _ _ Ha1 Ha2) as [-> ->].
    destruct (Execute.mult_words _ _) as [hi lo]. apply leaves_hilo.
  - destruct Ha as [Ha1 Ha2]. destruct (mult_half false _ _ Ha1 Ha2) as [-> _].
    destruct (Execute.mult_words _ _) as [hi lo]. apply leaves_hilo.
  - destruct Ha as [Hb Hov]. unfold Execute.quotient_ok. rewrite (proj2 (Z.eqb_neq _ 0) Hb). cbn [orb].
    destruct ((reg m (rs i) =? - two31) && (reg m (rt i) =? -1)) eqn:E.
    { apply andb_true_iff in E as [E1 E2]. apply Z.eqb_eq in E1, E2. by destruct Hov. }
    simpl_res.
    assert (is_s32 (Z.quot (reg m (rs i)) (reg m (rt i))) ∧ is_s32 (Z.rem (reg m (rs i)) (reg m (rt i)))) as [Hq Hr].
    { apply andb_false_iff in E. rewrite !Z.eqb_neq in E. unfold is_s32, two31 in *.
      split; [|pose proof (Z.rem_bound_abs (reg m (rs i)) (reg m (rt i)) Hb); lia].
      pose proof (Z.quot_abs (reg m (rs i)) (reg m (rt i)) Hb) as Hqa.
      pose proof (Z.quot_rem' (reg m (rs i)) (reg m (rt i))).
      pose proof (Z.rem_bound_abs (reg m (rs i)) (reg m (rt i)) Hb). nia. }
    rewrite !s32_small by done. apply leaves_hilo.
  - assert (u32 (reg m (rt i)) ≠ 0) as Hu.
    { unfold is_s32, u32, two31, two32 in *. Z.div_mod_to_equations. lia. }
    rewrite (proj2 (Z.eqb_neq _ 0) Ha), (proj2 (Z.eqb_neq _ 0) Hu). apply leaves_hilo.
Qed.

Lemma branch_agree :
  opCode i ∈ [OP_BEQ; OP_BNE; OP_BLEZ; OP_BGTZ; OP_BLTZ; OP_BGEZ; OP_BLTZAL; OP_BGEZAL] →
  leaves (execute i pcAfter (m, k)) (Execute.execute unix raw (reg m PCReg) s).
Proof using All.
  intros Hin. set (linked := set_reg m R31 (s32 (reg m NextPCReg + 4))).
  assert (cpu_ok linked) as Hml by by apply linked_ok.
  assert (reg linked NextPCReg = reg m NextPCReg) as Hnl by (by apply reg_set_ne).
  assert (∀ l, l = s32 (reg m NextPCReg + 4) → midway (Execute.set_R s 31 l) linked pcAfter) as Hlink.
  { intros l ->. by apply (midway_reg s m pcAfter Hmw Hm R31). }
  assert (∀ l r, l = s32 (reg m NextPCReg + 4) → 0 ≤ r < NumGPRegs → Execute.R (Execute.set_R s 31 l) r = reg linked r) as HRl.
  { intros l r -> Hr. rewrite (R_set_R s m pcAfter Hmw 31) by (unfold NumGPRegs in *; lia). unfold linked.
    case_bool_decide as E; [subst; by rewrite (reg_set_eq m Hm R31)|].
    rewrite reg_set_ne by (unfold R31; lia). by apply operand. }
  assert (∀ x, negb (x <? 0) = (x >=? 0)) as Hge by (intros x; by rewrite Z.geb_leb, Z.leb_antisym).
  assert (sequential m → s32 (reg m PCReg + 8) = s32 (reg m NextPCReg + 4)) as Hl8.
  { intros ->. by rewrite sum4. }
  repeat (apply elem_of_cons in Hin as [Eop|Hin]); [..|destruct (not_elem_of_nil _ Hin)]; enter Eop; fold linked;
    rewrite ?(Hl8 Ha), ?HRl by done; rewrite ?sign_bit_neg by (by apply reg_s32); rewrite ?Eex;
    apply leaves_branch; auto; by split_and!.
Qed.

Lemma jump_target ex :
  ex = Z.land raw 0x3ffffff →
  u32 (IndexToAddr ex) = Z.shiftl (Z.land raw 0x3ffffff) 2.
Proof using All.
  intros ->. unfold IndexToAddr. rewrite Z.shiftl_mul_pow2 by done.
  pose proof (land_mask raw 26 0x3ffffff ltac:(done) eq_refl) as Hr.
  rewrite s32_small by (unfold is_s32, two31; lia). apply u32_small. unfold is_u32, two32. lia.
Qed.

Lemma set_R_npc t v r w : Execute.set_R (Execute.set_npc t v) r w = Execute.set_npc (Execute.set_R t r w) v.
Proof using Type. done. Qed.

Lemma jump_agree :
  opCode i ∈ [OP_J; OP_JAL; OP_JR; OP_JALR] →
  leaves (execute i pcAfter (m, k)) (Execute.execute unix raw (reg m PCReg) s).
Proof using All.
  intros Hin. assert (sequential m → s32 (reg m NextPCReg + 4) = s32 (reg m PCReg + 8)) as Hl8.
  { intros ->. by rewrite sum4. }
  assert (same_region m → ∀ ex, ex = Z.land raw 0x3ffffff →
    s32 (Z.lor (Z.land (u32 pcAfter) 0xf0000000) (u32 (IndexToAddr ex)))
    = s32 (Z.lor (Z.land (u32 (reg m PCReg)) 0xf0000000) (Z.shiftl (Z.land raw 0x3ffffff) 2))) as Hjump.
  { intros Hr ex Eex. unfold pcAfter. by rewrite <- Hr, jump_target by done. }
  repeat (apply elem_of_cons in Hin as [Eop|Hin]); [..|destruct (not_elem_of_nil _ Hin)]; enter Eop.
  - destruct Ha as [_ Hr]. rewrite Eex. apply leaves_npc, (Hjump Hr). reflexivity.
  - destruct Ha as [Hq Hr]. rewrite Eex, (Hl8 Hq), (Hjump Hr _ eq_refl). unfold R31.
    apply leaves_link; [reflexivity|reflexivity|unfold NumGPRegs; lia].
  - by apply leaves_npc.
  - destruct Ha as [Hq Hne]. rewrite set_R_npc, reg_set_ne by (exact Hne || apply Hrd || apply Hrs).
    apply leaves_link; [exact (Hl8 Hq)|reflexivity|exact Hrd].
Qed.

(** The stores. *)
Lemma write_tracks mm a v size :
  store_allowed m a size → WriteMem a size v (m, k) = Ok (true, (mm, k)) → size = 1 ∨ size = 2 ∨ size = 4 →
  ∃ s2, Execute.store_bytes s a (le_bytes (Z.to_nat size) v) = Ok s2 ∧ midway s2 mm pcAfter ∧ tracks s m s2 mm.
Proof using Hm Hmw.
  intros (Hal & [pa Hf]%not_eq_None_Some & Hl) E Hs. destruct (cpu_table m Hm) as [pt Hlin].
  destruct (WriteMem_frame m k pt Hlin a size v pa Hs Hal Hf) as (m' & E' & Hss & Hr & Hmem).
  rewrite E in E'. injection E' as <-. unfold Execute.store_bytes. rewrite length_le_bytes.
  assert (Z.of_nat (Z.to_nat size) = size ∧ 0 < size) as [Esz Hpos] by lia. rewrite Esz.
  assert ((Execute.memoffset <=? u32 a) && (u32 a + size <=? Execute.memoffset + Execute.MEMSIZE)
    = true) as -> by (unfold linked in Hl; rewrite andb_true_iff, !Z.leb_le; lia).
  eexists. split; [reflexivity|]. split.
  - pose proof Hmw as []. split; unfold reg in *; rewrite ?Hr; done.
  - split; [done|]. intros Hinj Hsm b x Hb. unfold ubyte. rewrite <- Hss. simpl.
    destruct (frame m b false) as [pb|] eqn:Eb; [|done]. simpl. rewrite Hmem. intros [= <-].
    rewrite !write_bytes_lookup, length_le_bytes, Esz. apply frame_write_read in Hf.
    destruct (decide (u32 a ≤ u32 b < u32 a + size)) as [Hin|Hout].
    + destruct (frame_offset m a size false pa (u32 b - u32 a) Hs Hal Hf) as [Eu Ef]; [lia|].
      assert (frame m (a + (u32 b - u32 a)) false = frame m b false) as Eb'.
      { unfold frame, vpn_of, offset_of. rewrite Eu. by replace (u32 a + (u32 b - u32 a)) with (u32 b) by lia. }
      rewrite Ef, Eb in Eb'. injection Eb' as <-.
      rewrite !bool_decide_eq_true_2 by lia. do 2 f_equal. lia.
    + rewrite bool_decide_eq_false_2 by lia. rewrite bool_decide_eq_false_2.
      * symmetry. symmetry. apply Hsm; [done|]. unfold ubyte. by rewrite Eb.
      * intros Hpb. destruct (frame_offset m a size false pa (pb - pa) Hs Hal Hf) as [Eu Ef]; [lia|].
        replace (pa + (pb - pa)) with pb in Ef by lia. pose proof (Hinj _ _ _ Ef Eb) as Heq. lia.
Qed.

Lemma store_agree :
  opCode i ∈ [OP_SB; OP_SH; OP_SW] →
  ∃ mm s2 pc', execute i pcAfter (m, k) = Ok (Next (mm, k) pc' 0 0) ∧
    Execute.execute unix raw (reg m PCReg) s = Ok s2 ∧ midway s2 mm pc' ∧ tracks s m s2 mm.
Proof using All.
  intros Hin.
  assert (∀ size, store_allowed m (s32 (reg m (rs i) + extra i)) size → size = 1 ∨ size = 2 ∨ size = 4 →
    ∃ mm, WriteMem (s32 (reg m (rs i) + extra i)) size (reg m (rt i)) (m, k) = Ok (true, (mm, k))) as Hwrite.
  { intros size (Hal & [pa Hf]%not_eq_None_Some & _) Hs. destruct (cpu_table m Hm) as [pt Hlin].
    destruct (WriteMem_frame m k pt Hlin _ size (reg m (rt i)) pa Hs Hal Hf) as (mm & E & _). by exists mm. }
  repeat (apply elem_of_cons in Hin as [Eop|Hin]); [..|destruct (not_elem_of_nil _ Hin)]; enter Eop;
    unfold Execute.memory_access, exec_store; cbv zeta; switch; rewrite Eop; cbn [fst snd];
    rewrite <- ?Ers, <- ?Ert, ?ERs, ?ERt, <- ?Eex;
    (destruct (Hwrite _ Ha ltac:(auto)) as [mm E]; destruct (write_tracks mm _ _ _ Ha E ltac:(auto)) as (s2 & E2 & Hmw2 & Ht);
     exists mm, s2, pcAfter; rewrite E; simpl_res; split; [reflexivity|]; split; [exact E2|]; by split).
Qed.

(** All of them. *)
Lemma leaves_tracks x y :
  leaves x y → ∃ mm s2 pc', x = Ok (Next (mm, k) pc' 0 0) ∧ y = Ok s2 ∧ midway s2 mm pc' ∧ tracks s m s2 mm.
Proof using Type.
  intros (mm & s2 & pc' & Ex & Ey & Hmw' & Hu). exists mm, s2, pc'. split_and!; try done. by apply untouched_tracks.
Qed.

Lemma execute_agree :
  ∃ mm s2 pc', execute i pcAfter (m, k) = Ok (Next (mm, k) pc' 0 0) ∧
    Execute.execute unix raw (reg m PCReg) s = Ok s2 ∧ midway s2 mm pc' ∧ tracks s m s2 mm.
Proof using All.
  pose proof Ha as Ha'. unfold agree_on in Ha'.
  destruct (opCode i) eqn:Eop; lazymatch type of Ha' with False => destruct Ha' | _ => clear Ha' end;
    first [ apply leaves_tracks, arithmetic_agree; rewrite Eop; repeat constructor; fail
          | apply leaves_tracks, logic_agree; rewrite Eop; repeat constructor; fail
          | apply leaves_tracks, shift_agree; rewrite Eop; repeat constructor; fail
          | apply leaves_tracks, hilo_agree; rewrite Eop; repeat constructor; fail
          | apply leaves_tracks, branch_agree; rewrite Eop; repeat constructor; fail
          | apply leaves_tracks, jump_agree; rewrite Eop; repeat constructor; fail
          | apply store_agree; rewrite Eop; repeat constructor; fail ].
Qed.
End execute.

Lemma execute_nop unix xpc s :
  Execute.R s 0 = 0 → length (Execute.Reg s) = 32%nat → Execute.execute unix 0 xpc s = Ok s.
Proof.
  intros H0 Hl. change (Ok (Execute.set_R s 0 (s32 (Z.shiftl (Execute.R s 0) 0))) = Ok s). rewrite H0.
  change (s32 (Z.shiftl 0 0)) with 0. f_equal. unfold Execute.set_R, Execute.set_Reg, Execute.R in *. destruct s as [r]. f_equal.
  apply list_insert_id. simpl in *. by destruct r as [|x r]; [|simpl in H0; subst].
Qed.

Lemma agree_no_fault i m e (P : Prop) : agree_on i m → host_fault i m e → P.
Proof.
  intros Ha [(_ & Hu & _)|(_ & Hop & H1 & H2)]; exfalso; unfold agree_on in Ha.
  - by destruct (opCode i).
  - rewrite Hop in Ha. destruct Ha as [_ Ha]. by apply Ha.
Qed.

Section programs.
Context {K : Type} `{Kernel K}.
Context (E : stop → Prop) (HK : kernel_keeps E).
Context (unix : Z → Z → Z → Z → gmap Z Z → res (Z * gmap Z Z)).

(** Corresponding states, and no byte of the program has two addresses. *)
Record same_state (s : Execute.State) (m : Machine) : Prop := mkSameState {
  ss_cpu : same_cpu s m;
  ss_memory : same_memory s m;
  ss_inj : frames_inj m;
}.

(** The simulator can read the next word and the array has it, and the two agree
    on what it does. *)
Definition agree_next (m : Machine) (k : K) : Prop :=
  linked (reg m PCReg) 4 ∧
  match ReadMem (reg m PCReg) 4 (m, k) with
  | Ok (Some raw, (m1, _)) => match Decode (u32 raw) with Ok i => agree_on i m1 | Stop _ => False end
  | _ => False
  end.

Lemma fetch_alike s m pa :
  aligned (reg m PCReg) 4 → frame m (reg m PCReg) false = Some pa → linked (reg m PCReg) 4 →
  same_memory s m → Execute.pc s = reg m PCReg →
  Execute.ifetch s (Execute.pc s) = Ok (load_value 4 (read_bytes (mainMemory m) pa 4)).
Proof using Type.
  intros Hal Hf Hl Hsm ->. unfold Execute.ifetch, Execute.fetch_bytes.
  assert ((Execute.memoffset <=? u32 (reg m PCReg)) && (u32 (reg m PCReg) + 4 <=? Execute.memoffset + Execute.MEMSIZE) = true)
    as -> by (unfold linked in Hl; rewrite andb_true_iff, !Z.leb_le; lia).
  simpl_res. by rewrite <- (read_alike s m _ 4 pa ltac:(auto) Hal Hf Hl Hsm).
Qed.

Lemma step_agree s m k :
  machine_ok m → same_state s m → agree_next m k →
  ∃ s' m', Execute.step unix s = Ok s' ∧ OneInstruction (m, k) = Ok (m', k) ∧ same_state s' m' ∧ machine_ok m'.
Proof using All.
  intros [Hm H0] [[Hl Hrs Hh Hlo Hpc Hnpc Hld] Hsm Hinj] [Hlink Hn].
  pose proof (ReadMem_ok E HK m k (reg m PCReg) 4 Hm (reg_s32 m Hm _) (or_intror (or_intror eq_refl))) as Hread.
  destruct (ReadMem (reg m PCReg) 4 (m, k)) as [[[raw|] [m1 k1]]|] eqn:ER; [|done..].
  simpl in Hread. destruct Hread as (Hm1 & Hraw & Hregs & ->). destruct (cpu_table m Hm) as [pt Hlin].
  destruct (ReadMem_inv m k pt _ 4 raw m1 k Hlin (or_intror (or_intror eq_refl)) ER) as (pa & Hal & Hf & Eraw & Hss & Hmem & _).
  pose proof (fetch_alike s m pa Hal Hf Hlink Hsm Hpc) as EF. change (Z.to_nat 4) with 4%nat in Eraw. rewrite <- Eraw in EF.
  destruct (Decode_ok (u32 raw)) as (i & Ei & Hi). rewrite Ei in Hn. rename Hn into Hag.
  assert (∀ r, reg m1 r = reg m r) as Hreg by (intros r; unfold reg; by rewrite Hregs).
  unfold Execute.step, OneInstruction. rewrite EF. simpl_res. cbn [fst]. rewrite ER. simpl_res. rewrite Ei. simpl_res. cbn [fst].
  set (s0 := Execute.set_R _ 0 0). set (pcAfter := s32 (reg m1 NextPCReg + 4)).
  assert (Execute.R s0 0 = 0) as Hs00.
  { unfold s0, Execute.R, Execute.set_R. simpl. by rewrite list_lookup_insert_eq by lia. }
  assert (midway s0 m1 pcAfter) as Hmw.
  { unfold s0. split; simpl; rewrite ?length_insert, ?Hreg; try done.
    - intros r Hr. rewrite Hreg, <- Hrs by done. unfold Execute.R, Execute.set_R. simpl.
      rewrite list_lookup_insert_ne by lia. done.
    - unfold pcAfter. by rewrite Hreg, Hnpc. }
  destruct (execute_agree (K:=K) unix i m1 k s0 raw Hm1 ltac:(by rewrite Hreg) Hs00 Hraw Ei Hi Hmw Hag)
    as (mm & s2 & pc' & Ex1 & Ex2 & Hmw2 & [Hss2 Hsm2]).
  pose proof (execute_ok E HK i pcAfter m1 k Hm1 Hi (s32_range _) (λ e, agree_no_fault i m1 e (E e) Hag)) as Hok.
  fold pcAfter in Ex1. rewrite Ex1 in Hok |- *. rewrite Hpc, <- Hreg.
  assert ((if negb (raw =? 0) then Execute.execute unix raw (reg m1 PCReg) s0 else Ok s0) = Ok s2) as ->.
  { destruct (Z.eqb_spec raw 0) as [->|]; [|exact Ex2]. rewrite <- Ex2. symmetry.
    apply execute_nop; [done|]. apply (mw_len _ _ _ Hmw). }
  destruct (midway_advance s2 mm k pc' Hmw2) as (m' & Ea & Hsc & Hmok & [Hss3 Hsm3]); [by apply Hok..|].
  assert (frames_inj m1) as Hinj1 by (by eapply frames_inj_same).
  assert (frames_inj mm) as Hinj2 by (by eapply frames_inj_same).
  exists s2, m'. split_and!; [done|done| |done]. split; [done| |by eapply frames_inj_same].
  apply Hsm3, Hsm2; [done|done|]. by eapply same_memory_eq.
Qed.
End programs.

(** ** Binary length

    Each round of [ilog2] halves the window of bits in which the highest one
    lies: with [h = 16, 8, 4, 2, 1] the mask consists of the upper halves of the
    windows of [2 * h] bits. *)

Definition upper_halves (h mask : Z) : Prop := ∀ n, 0 ≤ n < 32 → Z.testbit mask n = Z.odd (n / h).

Lemma upper_halves_dec h mask :
  forallb (λ n, Bool.eqb (Z.testbit mask (Z.of_nat n)) (Z.odd (Z.of_nat n / h))) (seq 0 32) = true → upper_halves h mask.
Proof.
  rewrite forallb_forall. intros Hall n Hn. specialize (Hall (Z.to_nat n)). rewrite Z2Nat.id in Hall by lia.
  apply Bool.eqb_prop, Hall, in_seq. lia.
Qed.

(** The highest bit of [v] is found in the window of [2 * h] bits from [base]. *)
Record window (v base w i : Z) : Prop := mkWindow {
  win_base : 0 ≤ base ∧ base + w ≤ 32 ∧ base mod w = 0;
  win_bits : ∃ x, u32 i = x * 2 ^ base ∧ 0 < x < 2 ^ w ∧ Z.log2 v = base + Z.log2 x;
}.

Lemma upper_half h mask base x :
  0 < h → 0 ≤ base → base + 2 * h ≤ 32 → base mod (2 * h) = 0 → 0 ≤ x < 2 ^ (2 * h) → upper_halves h mask →
  Z.land (x * 2 ^ base) mask = (x / 2 ^ h) * 2 ^ (base + h).
Proof.
  intros Hh Hb Hb2 Hbm Hx Hmask. apply Z.bits_inj'. intros n Hn.
  rewrite Z.land_spec. destruct (Z.ltb_spec n (base + h)) as [Hlt|Hge].
  - rewrite (Z.mul_pow2_bits_low (x / 2 ^ h)) by lia. destruct (Z.ltb_spec n base).
    + by rewrite Z.mul_pow2_bits_low by lia.
    + rewrite Hmask by lia. assert (n / h = 2 * (base / (2 * h))) as ->.
      { symmetry. apply (Z.div_unique_pos _ _ _ (n - base)); [lia|]. Z.div_mod_to_equations. nia. }
      rewrite Z.odd_mul. simpl. by rewrite andb_false_r.
  - rewrite Z.mul_pow2_bits, (Z.mul_pow2_bits (x / 2 ^ h)) by lia. rewrite Z.div_pow2_bits by lia.
    replace (n - (base + h) + h) with (n - base) by lia. destruct (Z.ltb_spec n (base + 2 * h)).
    + rewrite Hmask by lia. assert (n / h = 2 * (base / (2 * h)) + 1) as ->.
      { symmetry. apply (Z.div_unique_pos _ _ _ (n - base - h)); [lia|]. Z.div_mod_to_equations. nia. }
      rewrite Z.odd_add, Z.odd_mul. simpl. by rewrite andb_true_r.
    + destruct (decide (x = 0)) as [->|]; [by rewrite Z.testbit_0_l|].
      rewrite Z.bits_above_log2; [done|lia|]. apply Z.log2_lt_pow2; [lia|].
      eapply Z.lt_le_trans; [apply Hx|]. apply Z.pow_le_mono_r; lia.
Qed.

Lemma ilog2_round_spec v mask h base i :
  0 < h → upper_halves h mask → window v base (2 * h) i →
  ∃ i' base', Execute.ilog2_round mask h (i, base + 1) = (i', base' + 1) ∧ window v base' h i'.
Proof.
  intros Hh Hmask [(Hb0 & Hb2 & Hbm) (x & Hi & Hx & Hlog)]. unfold Execute.ilog2_round.
  rewrite Hi, (upper_half h mask base x) by (done || lia).
  assert (0 < 2 ^ h ∧ 0 < 2 ^ base ∧ 0 < 2 ^ (base + h)) as (Hp1 & Hp2 & Hp3) by (split_and!; apply Z.pow_pos_nonneg; lia).
  assert (2 ^ (2 * h) = 2 ^ h * 2 ^ h) as Hp by (rewrite <- Z.pow_add_r by lia; f_equal; lia).
  assert (0 ≤ x / 2 ^ h < 2 ^ h) as Hxh.
  { split; [apply Z.div_pos; lia|]. apply Z.div_lt_upper_bound; lia. }
  set (j := x / 2 ^ h * 2 ^ (base + h)).
  assert (is_u32 j) as Hj.
  { unfold is_u32, two32. unfold j. split; [nia|]. change 4294967296 with (2 ^ 32).
    apply Z.lt_le_trans with (2 ^ h * 2 ^ (base + h)); [nia|]. rewrite <- Z.pow_add_r by lia. apply Z.pow_le_mono_r; lia. }
  assert (u32 (s32 j) = j) as Hjj by (rewrite u32_s32; by apply u32_small).
  assert (base mod h = 0 ∧ (base + h) mod h = 0) as [Hbh Hbh'].
  { assert (base = (base / (2 * h) * 2) * h) as -> by (Z.div_mod_to_equations; nia).
    split; [by apply Z.mod_mul; lia|]. rewrite <- Z.mul_succ_l. apply Z.mod_mul. lia. }
  destruct (Z.eqb_spec (s32 j) 0) as [E|E]; simpl negb; cbn iota.
  - exists i, base. split; [done|]. split; [split_and!; lia|]. exists x. split; [done|]. split; [|done].
    rewrite E in Hjj. change (u32 0) with 0 in Hjj. unfold j in Hjj. split; [lia|].
    destruct (Z.lt_ge_cases x (2 ^ h)) as [|Hge]; [done|]. exfalso.
    pose proof (Z.div_le_lower_bound x (2 ^ h) 1 Hp1). nia.
  - exists (s32 j), (base + h). split; [f_equal; lia|]. split; [split_and!; lia|].
    exists (x / 2 ^ h). rewrite Hjj. split; [done|].
    assert (0 < x / 2 ^ h) as Hpos.
    { destruct (decide (x / 2 ^ h = 0)) as [E0|]; [|lia]. unfold j in E. rewrite E0 in E. done. }
    split; [lia|]. rewrite <- Z.shiftr_div_pow2 by lia. rewrite Z.log2_shiftr by lia.
    assert (h ≤ Z.log2 x).
    { apply Z.log2_le_pow2; [lia|]. destruct (Z.lt_ge_cases x (2 ^ h)); [|lia]. rewrite Z.div_small in Hpos; lia. }
    lia.
Qed.

(** ** The properties *)

Module ExecuteSpec.

Section spec.
Context {K : Type} `{Kernel K}.
Context (unix : Z → Z → Z → Z → gmap Z Z → res (Z * gmap Z Z)).

Fixpoint instructions (n : nat) (st : Machine * K) : res (Machine * K) :=
  match n with O => Ok st | S n => st ← OneInstruction st; instructions n st end.

(** The interpreters agree on the next [n] instructions of the simulator. *)
Fixpoint agree_run (n : nat) (st : Machine * K) : Prop :=
  match n with
  | O => True
  | S n => agree_next (fst st) (snd st) ∧
           match OneInstruction st with Ok st => agree_run n st | _ => True end
  end.

#[global] Instance agree_next_dec m (k : K) : Decision (agree_next m k).
Proof.
  unfold agree_next, linked. apply and_dec; [apply _|]. destruct (ReadMem _ _ _) as [[[raw|] [m1 k1]]|]; try apply _.
  destruct (Decode _); apply _.
Defined.
#[global] Instance agree_run_dec n st : Decision (agree_run n st).
Proof.
  revert st. induction n as [|n IH]; intros st; simpl; [apply _|]. destruct (OneInstruction st); apply _.
Defined.

(** C35. The interpreter of bin/execute.c and the simulator execute the same
    instruction set, loads and system calls apart.  From states with the same
    registers, program counters and memory (at the addresses of the program that
    both have), along any run of arithmetic, logic, branch, jump and aligned store
    instructions on whose operands none of their known deviations shows, neither
    stops, and after the run the registers, HI and LO, both program counters (the
    one of the delay slot included) and the memory are the same again. *)
Theorem interpreters_agree E n s m k :
  kernel_keeps E → machine_ok m → same_state s m → agree_run n (m, k) →
  ∃ s' m', Execute.steps unix n s = Ok s' ∧ instructions n (m, k) = Ok (m', k) ∧
    same_state s' m' ∧ machine_ok m'.
Proof.
  intros HK. revert s m. induction n as [|n IH]; intros s m Hm Hs Hrun; [by exists s, m|].
  destruct Hrun as [Hn Hrun]. simpl in Hn.
  destruct (step_agree E HK unix s m k Hm Hs Hn) as (s1 & m1 & E1 & E2 & Hs1 & Hm1).
  rewrite E2 in Hrun. destruct (IH s1 m1 Hm1 Hs1 Hrun) as (s' & m' & Es & Em & Hs' & Hm').
  exists s', m'. simpl. rewrite E1, E2. simpl_res. done.
Qed.
End spec.

(** The bit-twiddling [ilog2] of bin/execute.c is the length of its
    argument in binary, for each of the 2^32 words. *)
Theorem ilog2_counts_bits i :
  is_s32 i → Execute.ilog2 i = if bool_decide (i = 0) then 0 else Z.log2 (u32 i) + 1.
Proof.
  intros Hi. unfold Execute.ilog2. case_bool_decide as E; [by subst|].
  rewrite (proj2 (Z.eqb_neq _ _) E). set (v := u32 i).
  assert (window v 0 (2 * 16) i) as W.
  { split; [done|]. exists v. pose proof (u32_range i) as Hr. unfold is_u32, two32 in Hr. fold v in Hr.
    split; [unfold v; lia|]. split; [|done]. change (2 ^ (2 * 16)) with 4294967296.
    enough (v ≠ 0) by lia. unfold v, u32, is_s32, two31, two32 in *. Z.div_mod_to_equations. lia. }
  destruct (ilog2_round_spec v 0xffff0000 16 0 i eq_refl (upper_halves_dec 16 0xffff0000 eq_refl) W) as (i1 & b1 & E1 & W1).
  destruct (ilog2_round_spec v 0xff00ff00 8 b1 i1 eq_refl (upper_halves_dec 8 0xff00ff00 eq_refl) W1) as (i2 & b2 & E2 & W2).
  destruct (ilog2_round_spec v 0xf0f0f0f0 4 b2 i2 eq_refl (upper_halves_dec 4 0xf0f0f0f0 eq_refl) W2) as (i3 & b3 & E3 & W3).
  destruct (ilog2_round_spec v 0xcccccccc 2 b3 i3 eq_refl (upper_halves_dec 2 0xcccccccc eq_refl) W3) as (i4 & b4 & E4 & W4).
  destruct (ilog2_round_spec v 0xaaaaaaaa 1 b4 i4 eq_refl (upper_halves_dec 1 0xaaaaaaaa eq_refl) W4) as (i5 & b5 & E5 & W5).
  cbv zeta. change (i, 1) with (i, 0 + 1). rewrite E1, E2, E3, E4, E5. simpl.
  destruct W5 as [_ (x & _ & Hx & ->)]. assert (x = 1) as -> by (change (2 ^ 1) with 2 in Hx; lia).
  simpl. lia.
Qed.

Lemma ilog2_counts_bits_witness : Execute.ilog2 (-5) = 32 ∧ Execute.ilog2 1000 = 10.
Proof.
  split.
  - exact (ilog2_counts_bits (-5) ltac:(by vm_compute)).
  - exact (ilog2_counts_bits 1000 ltac:(by vm_compute)).
Defined.

(** A program that both run: it is linked at [memoffset], which the page table
    maps to frame 5. *)
#[local] Instance quiet_cpu : Kernel unit := {| setStatus := λ _ k, k; ExceptionHandler := λ _ st, Ok st |}.
Definition no_unix (n o0 o1 o2 : Z) (m : gmap Z Z) : res (Z * gmap Z Z) := Stop Halted.

Definition code : list Z :=
  [encode_i 9 0 1 5;        (* addiu $1, $0, 5 *)
   encode_r 0 1 2 3 0;      (* sll $2, $1, 3 *)
   encode_i 5 1 2 2;        (* bne $1, $2, over the next but one *)
   encode_r 2 1 3 0 34;     (* sub $3, $2, $1, in the delay slot *)
   0;
   encode_r 3 2 0 0 24;     (* mult $3, $2 *)
   encode_r 0 0 4 0 18;     (* mflo $4 *)
   encode_i 15 0 5 4096;    (* lui $5, 0x1000 *)
   encode_i 43 5 4 256].    (* sw $4, 256($5) *)
Definition image : list Z := code ≫= le_bytes 4.
Definition absent : TranslationEntry := mkEntry 0 0 false false false false.
Definition present : TranslationEntry := mkEntry 524288 5 true false false false.
Definition linked_machine : Machine :=
  set_reg (set_reg (mkMachine (replicate 40 0) (write_bytes ∅ (5 * PageSize) image) None
    (Some (replicate (Z.to_nat 524288) absent ++ [present])) 524289) PCReg Execute.memoffset) NextPCReg (Execute.memoffset + 4).
Definition linked_state : Execute.State :=
  Execute.mkState (replicate 32 0) 0 0 (write_bytes ∅ Execute.memoffset image) Execute.memoffset (Execute.memoffset + 4) 0.

Lemma linked_machine_ok : machine_ok linked_machine.
Proof.
  split; [|done]. split; try done.
  - apply (bool_decide_unpack _). vm_compute. reflexivity.
  - apply write_bytes_u8; [apply map_Forall_empty|]. apply Forall_bind, Forall_true. intros w. apply le_bytes_u8.
  - eexists. split; [reflexivity|reflexivity| |].
    + by rewrite length_app, length_replicate.
    + apply Forall_app. split; [by apply Forall_replicate|by repeat constructor].
Qed.

(** Only the page of [memoffset] is mapped. *)
Lemma linked_page a w pa :
  frame linked_machine a w = Some pa → vpn_of a = 524288 ∧ pa = 5 * PageSize + offset_of a.
Proof.
  unfold frame. change (tlb linked_machine) with (@None (list TranslationEntry)).
  change (pageTable linked_machine) with (Some (replicate (Z.to_nat 524288) absent ++ [present])). cbn iota.
  pose proof (vpn_range a) as Hv. destruct (_ !! _) as [e|] eqn:E; [|done].
  apply lookup_app_Some in E as [[-> _]%lookup_replicate|[Hge E]]; [done|].
  rewrite length_replicate in Hge, E. apply list_lookup_singleton_Some in E as [E <-]. simpl.
  intros [= <-]. split; [lia|]. done.
Qed.

Lemma linked_inj : frames_inj linked_machine.
Proof.
  intros a b pa [Ha ->]%linked_page [Hb E]%linked_page. unfold vpn_of, offset_of in *.
  rewrite (Z.div_mod (u32 a) PageSize), (Z.div_mod (u32 b) PageSize) by done. lia.
Qed.

Lemma page_memory s m base bs :
  Execute.mem s = write_bytes ∅ Execute.memoffset bs → mainMemory m = write_bytes ∅ base bs →
  (∀ a w pa, frame m a w = Some pa → vpn_of a = 524288 ∧ pa = base + offset_of a) → same_memory s m.
Proof.
  intros Es Em Hf a b Ha. rewrite Es. unfold ubyte. destruct (frame m a false) as [pa|] eqn:E; [|done].
  apply Hf in E as [Hv ->]. rewrite Em. intros [= <-].
  assert (u32 a = Execute.memoffset + offset_of a) as ->.
  { unfold offset_of, vpn_of in *. pose proof (Z.div_mod (u32 a) PageSize ltac:(done)) as E.
    rewrite Hv in E. exact E. }
  pose proof (offset_range a). rewrite !write_bytes_lookup, !lookup_empty.
  replace (Execute.memoffset + offset_of a - Execute.memoffset) with (offset_of a) by lia.
  replace (base + offset_of a - base) with (offset_of a) by lia.
  by repeat case_bool_decide; try lia.
Qed.

Lemma linked_memory : same_memory linked_state linked_machine.
Proof. exact (page_memory linked_state linked_machine _ image eq_refl eq_refl linked_page). Qed.

Lemma linked_cpu : same_cpu linked_state linked_machine.
Proof.
  split; try reflexivity. intros r Hr. unfold NumGPRegs in Hr.
  assert (Forall (λ k, Execute.R linked_state k = reg linked_machine k) (Z.of_nat <$> seq 0 32)) as Hall.
  { apply (bool_decide_unpack _). vm_compute. reflexivity. }
  apply (Forall_lookup_1 _ _ (Z.to_nat r) r Hall). rewrite list_lookup_fmap, lookup_seq_lt by lia.
  simpl. f_equal. lia.
Qed.

Lemma interpreters_agree_witness :
  ∃ s' m', Execute.steps no_unix 8 linked_state = Ok s' ∧ instructions 8 (linked_machine, tt) = Ok (m', tt) ∧
    same_state s' m' ∧ machine_ok m'.
Proof.
  apply (interpreters_agree no_unix (λ _, False)).
  - by intros which m [] Hm.
  - exact linked_machine_ok.
  - exact (mkSameState _ _ linked_cpu linked_memory linked_inj).
  - apply (bool_decide_unpack _). vm_compute. reflexivity.
Defined.

(** Where the interpreters differ: the immediate operand of ANDI is
    sign-extended, the carries into the high word of a product are lost, and
    LWL keeps every bit of the old register. *)
Lemma andi_extends_sign :
  Execute.execute no_unix (encode_i 12 1 2 (-1)) 0
    (Execute.set_R (Execute.set_R linked_state 1 0x12345678) 2 0) =
  Ok (Execute.set_R (Execute.set_R linked_state 1 0x12345678) 2 0x12345678).
Proof. reflexivity. Qed.

Lemma product_loses_carries :
  fst (Execute.mult_words 0x1ffff 0x1ffff) = 1 ∧ (0x1ffff * 0x1ffff) / 2 ^ 32 = 3.
Proof. split; reflexivity. Qed.
End ExecuteSpec.
