(* ===== verification/Disasm.v ===== *)
(** * The disassembler (bin/d.c, opstrings.c, and the listing of disasm.c)

    One instruction word as a line of text.  The disassembler shares the field
    macros and the opcode numbers with the interpreter of execute.c, and the
    question is whether its text tells everything that the interpreter does
    with the word.

    Loading the object file (disasm.c, through the ldfcn library) is left out:
    the listing starts from a memory that holds the program. *)

From S2P Require Import Prelude Machine MipsSim MipsProps Execute ExecuteProps.
Import Execute.

Module Disasm.

(** ** Names (opstrings.c; regstrings of d.c) *)

#[local] Open Scope string_scope.
Definition normalops : list (list Z) := chars <$>
  [ "special"; "bcond"; "j"; "jal"; "beq"; "bne"; "blez"; "bgtz"; "addi"; "addiu"; "slti"; "sltiu";
    "andi"; "ori"; "xori"; "lui"; "cop0"; "cop1"; "cop2"; "cop3"; "024"; "025"; "026"; "027";
    "030"; "031"; "032"; "033"; "034"; "035"; "036"; "037"; "lb"; "lh"; "lwl"; "lw"; "lbu"; "lhu";
    "lwr"; "047"; "sb"; "sh"; "swl"; "sw"; "054"; "055"; "swr"; "057"; "lwc0"; "lwc1"; "lwc2";
    "lwc3"; "064"; "065"; "066"; "067"; "swc0"; "swc1"; "swc2"; "swc3"; "074"; "075"; "076"; "077" ].

Definition specialops : list (list Z) := chars <$>
  [ "sll"; "001"; "srl"; "sra"; "sllv"; "005"; "srlv"; "srav"; "jr"; "jalr"; "012"; "013";
    "syscall"; "break"; "016"; "017"; "mfhi"; "mthi"; "mflo"; "mtlo"; "024"; "025"; "026"; "027";
    "mult"; "multu"; "div"; "divu"; "034"; "035"; "036"; "037"; "add"; "addu"; "sub"; "subu";
    "and"; "or"; "xor"; "nor"; "050"; "051"; "slt"; "sltu"; "054"; "055"; "056"; "057"; "060";
    "061"; "062"; "063"; "064"; "065"; "066"; "067"; "070"; "071"; "072"; "073"; "074"; "075";
    "076"; "077" ].

Definition regstrings : list (list Z) := chars <$>
  [ "0"; "r1"; "r2"; "r3"; "r4"; "r5"; "r6"; "r7"; "r8"; "r9"; "r10"; "r11"; "r12"; "r13"; "r14";
    "r15"; "r16"; "r17"; "r18"; "r19"; "r20"; "r21"; "r22"; "r23"; "r24"; "r25"; "r26"; "r27";
    "gp"; "sp"; "r30"; "r31" ].
#[local] Close Scope string_scope.

(** A table at a field; all fields are in range (see [tables_cover_fields]). *)
Definition name (table : list (list Z)) (i : Z) : list Z := default [] (table !! Z.to_nat i).
Definition R (i : Z) : list Z := name regstrings i.

(** ** [%x] and [%08x] *)

Definition hex_digit (d : Z) : Z := if d <? 10 then 48 + d else 87 + d.

Fixpoint hex_digits (fuel : nat) (n : Z) (acc : list Z) : list Z :=
  match fuel with
  | O => acc
  | S fuel' =>
      let acc := hex_digit (n mod 16) :: acc in
      if n / 16 =? 0 then acc else hex_digits fuel' (n / 16) acc
  end.

(** An [int] has at most eight digits. *)
Definition hex (n : Z) : list Z := hex_digits 8 (u32 n) [].
Definition hex08 (n : Z) : list Z := replicate (8 - length (hex n)) 48 ++ hex n.
Definition immediate (n : Z) : list Z := chars "0x" ++ hex n.

Definition comma : list Z := [44].
Definition tab : list Z := [9].

(** ** Fields of instr.h that the interpreter does not use *)

Definition off26 (i : Z) : Z := Z.shiftl (Z.land i (Z.shiftl 1 26 - 1)) 2.
Definition top4 (i : Z) : Z := Z.land i (Z.lnot (Z.shiftl 1 28 - 1)).
Definition off16 (i : Z) : Z := s32 (Z.shiftl (immed i) 2).

Definition I_COP0 := 16.
Definition I_COP1 := 17.
Definition I_COP2 := 18.
Definition I_COP3 := 19.
Definition I_SWL := 42.
Definition I_SWR := 46.
Definition I_LWC0 := 48.
Definition I_LWC3 := 51.
Definition I_SWC0 := 56.
Definition I_SWC3 := 59.

(** ** One instruction *)

Section with_instruction.
Context (instruction pc : Z).

Let Rd := R (rd instruction).
Let Rs := R (rs instruction).
Let Rt := R (rt instruction).
Let branch_target := hex08 (off16 instruction + pc + 4).

(** The switch over the function field of [I_SPECIAL]. *)
Definition special_operands (opcode : Z) : list Z :=
  if (opcode =? I_SLL) || (opcode =? I_SRL) || (opcode =? I_SRA)
  then Rd ++ comma ++ Rt ++ comma ++ immediate (shamt instruction)
  else if (opcode =? I_SLLV) || (opcode =? I_SRLV) || (opcode =? I_SRAV)
  then Rd ++ comma ++ Rt ++ comma ++ Rs
  else if (opcode =? I_JR) || (opcode =? I_JALR) || (opcode =? I_MFLO) || (opcode =? I_MTLO)
  then Rs
  else if (opcode =? I_SYSCALL) || (opcode =? I_BREAK)
  then []
  else if (opcode =? I_MFHI) || (opcode =? I_MTHI)
  then Rd
  else if (opcode =? I_MULT) || (opcode =? I_MULTU) || (opcode =? I_DIV) || (opcode =? I_DIVU)
  then Rs ++ comma ++ Rt
  else if (opcode =? I_ADD) || (opcode =? I_ADDU) || (opcode =? I_SUB) || (opcode =? I_SUBU) ||
          (opcode =? I_AND) || (opcode =? I_OR) || (opcode =? I_XOR) || (opcode =? I_NOR) ||
          (opcode =? I_SLT) || (opcode =? I_SLTU)
  then Rd ++ comma ++ Rs ++ comma ++ Rt
  else [].

(** The switch over the field that encodes a conditional branch. *)
Definition bcond_name : list Z :=
  let f := rt instruction in
  if f =? I_BLTZ then chars "bltz"
  else if f =? I_BGEZ then chars "bgez"
  else if f =? I_BLTZAL then chars "bltzal"
  else if f =? I_BGEZAL then chars "bgezal"
  else chars "BCOND".

(** The switch over the opcode. *)
Definition normal_operands (opcode : Z) : list Z :=
  if (opcode =? I_J) || (opcode =? I_JAL) then hex08 (Z.lor (top4 pc) (off26 instruction))
  else if (opcode =? I_BEQ) || (opcode =? I_BNE) then Rt ++ comma ++ Rs ++ comma ++ branch_target
  else if (opcode =? I_ADDI) || (opcode =? I_ADDIU) || (opcode =? I_SLTI) || (opcode =? I_SLTIU) ||
          (opcode =? I_ANDI) || (opcode =? I_ORI) || (opcode =? I_XORI)
  then Rt ++ comma ++ Rs ++ comma ++ immediate (immed instruction)
  else if opcode =? I_LUI then Rt ++ comma ++ immediate (immed instruction)
  else if (opcode =? I_COP0) || (opcode =? I_COP1) || (opcode =? I_COP2) || (opcode =? I_COP3) then []
  else if (opcode =? I_LB) || (opcode =? I_LH) || (opcode =? I_LWL) || (opcode =? I_LW) || (opcode =? I_LBU) ||
          (opcode =? I_LHU) || (opcode =? I_LWR) || (opcode =? I_SB) || (opcode =? I_SH) || (opcode =? I_SWL) ||
          (opcode =? I_SW) || (opcode =? I_SWR) ||
          ((I_LWC0 <=? opcode) && (opcode <=? I_LWC3)) || ((I_SWC0 <=? opcode) && (opcode <=? I_SWC3))
  then Rt ++ comma ++ immediate (immed instruction) ++ chars "(" ++ Rs ++ chars ")"
  else [].

(** [dump_ascii]; [longdis] also shows the address and the word. *)
Definition dump_ascii (longdis : bool) : list Z :=
  (if longdis then hex08 pc ++ chars ": " ++ hex08 instruction ++ chars "  " else []) ++ tab ++
  let opcode := Z.shiftr (u32 instruction) 26 in
  if instruction =? 0 then chars "nop"
  else if opcode =? I_SPECIAL then
    let f := Z.land instruction 0x3f in
    name specialops f ++ tab ++ special_operands f
  else if opcode =? I_BCOND then bcond_name ++ tab ++ Rs ++ comma ++ branch_target
  else name normalops opcode ++ tab ++ normal_operands opcode.
End with_instruction.

(** ** The listing (disasm.c) *)

(** [dis1] *)
Definition dis1 (longdis : bool) (s : State) (pc : Z) : res (list Z) :=
  instr ← fetch s pc; Ok (dump_ascii instr pc longdis ++ newline).

(** The loop of [disasm]: [n] words from [pc] on. *)
Fixpoint listing (longdis : bool) (n : nat) (s : State) (pc : Z) (out : list Z) : res (list Z) :=
  match n with
  | O => Ok out
  | S n' => line ← dis1 longdis s pc; listing longdis n' s (s32 (pc + 4)) (out ++ line)
  end.

(** [for (i = 0; i < texthead.s_size; i += 4)] *)
Definition disasm (longdis : bool) (s_size : Z) (s : State) : res (list Z) :=
  listing longdis (Z.to_nat (divRoundUp s_size 4)) s memoffset [].
End Disasm.

(** ** Reading the text back *)

(** *** Numbers *)

Definition digit_value (c : Z) : Z := if c <? 58 then c - 48 else c - 87.
Definition digits_value (v : Z) (bs : list Z) : Z := foldl (λ v c, 16 * v + digit_value c) v bs.

Section digits.
Import Disasm.

Lemma digit_roundtrip d : 0 ≤ d < 16 → digit_value (hex_digit d) = d.
Proof.
  intros Hd. unfold hex_digit, digit_value. destruct (Z.ltb_spec d 10).
  - rewrite (proj2 (Z.ltb_lt _ _)) by lia. lia.
  - rewrite (proj2 (Z.ltb_ge _ _)) by lia. lia.
Qed.

Lemma hex_digits_value fuel : ∀ n acc,
  (0 < fuel)%nat → 0 ≤ n < 16 ^ Z.of_nat fuel → digits_value 0 (hex_digits fuel n acc) = digits_value n acc.
Proof.
  induction fuel as [|fuel IH]; intros n acc Hf Hn; [lia|]. cbn [hex_digits].
  pose proof (Z.mod_pos_bound n 16 eq_refl) as Hm.
  assert (∀ v, digits_value v (hex_digit (n mod 16) :: acc) = digits_value (16 * v + n mod 16) acc) as Hcons.
  { intros v. unfold digits_value. cbn [foldl]. by rewrite digit_roundtrip. }
  destruct (Z.eqb_spec (n / 16) 0) as [Hz|Hz].
  - rewrite Hcons. f_equal. Z.div_mod_to_equations. lia.
  - rewrite Nat2Z.inj_succ, Z.pow_succ_r in Hn by lia. rewrite IH.
    + rewrite Hcons. f_equal. Z.div_mod_to_equations. lia.
    + destruct fuel; [|lia]. exfalso. apply Hz. apply Z.div_small. simpl in Hn. lia.
    + Z.div_mod_to_equations. lia.
Qed.

Lemma hex_value n : digits_value 0 (hex n) = u32 n.
Proof.
  unfold hex. rewrite hex_digits_value; [done|lia|]. apply u32_range.
Qed.

Lemma hex_inj a b : hex a = hex b → u32 a = u32 b.
Proof. intros E. by rewrite <- !hex_value, E. Qed.

Lemma hex08_inj a b : hex08 a = hex08 b → u32 a = u32 b.
Proof.
  intros E. assert (∀ k bs, digits_value 0 (replicate k 48 ++ bs) = digits_value 0 bs) as Hz.
  { intros k bs. unfold digits_value. rewrite foldl_app. f_equal. induction k; [done|]. exact IHk. }
  rewrite <- (hex_value a), <- (hex_value b), <- (Hz (8 - length (hex a))%nat), <- (Hz (8 - length (hex b))%nat (hex b)).
  by apply (f_equal (digits_value 0)) in E.
Qed.

(** *** Separators *)

Definition separator (c : Z) : bool := (c =? 9) || (c =? 40) || (c =? 44).
Definition clean (l : list Z) : bool := forallb (λ c, negb (separator c)) l.

Lemma split_at (a b : list Z) c x y :
  separator c = true → clean a = true → clean b = true → a ++ c :: x = b ++ c :: y → a = b ∧ x = y.
Proof.
  intros Hc. revert b. induction a as [|h a IH]; intros [|h' b] Ha Hb E; simpl in *.
  - by injection E as ->.
  - injection E as <- _. rewrite Hc in Hb. done.
  - injection E as -> _. rewrite Hc in Ha. done.
  - injection E as -> E. apply andb_true_iff in Ha as [_ Ha], Hb as [_ Hb].
    destruct (IH b Ha Hb E) as [-> ->]. done.
Qed.

Lemma hex_digits_clean fuel : ∀ n acc, clean acc = true → clean (hex_digits fuel n acc) = true.
Proof.
  induction fuel as [|fuel IH]; intros n acc Ha; [done|]. cbn [hex_digits].
  assert (clean (hex_digit (n mod 16) :: acc) = true) as Hc.
  { simpl. rewrite Ha, andb_true_r. pose proof (Z.mod_pos_bound n 16 eq_refl). unfold hex_digit, separator.
    destruct (Z.ltb_spec (n mod 16) 10); rewrite !(proj2 (Z.eqb_neq _ _)) by lia; done. }
  destruct (n / 16 =? 0); [done|by apply IH].
Qed.

Lemma immediate_clean n : clean (immediate n) = true.
Proof. unfold immediate, clean. rewrite forallb_app. by apply (hex_digits_clean 8). Qed.

(** *** Registers and operations *)

Lemma for_field (P : Z → Prop) n : Forall P (seqZ 0 n) → ∀ f, 0 ≤ f < n → P f.
Proof. intros HP f Hf. rewrite Forall_forall in HP. apply HP, elem_of_seqZ. lia. Qed.

Lemma R_clean r : 0 ≤ r < 32 → clean (R r) = true.
Proof. revert r. apply for_field. apply (bool_decide_unpack _). vm_compute. exact I. Qed.

Lemma R_inj a b : 0 ≤ a < 32 → 0 ≤ b < 32 → R a = R b → a = b.
Proof.
  intros Ha Hb. revert b Hb. revert a Ha.
  apply (for_field (λ a, ∀ b, 0 ≤ b < 32 → R a = R b → a = b)).
  assert (Forall (λ a, Forall (λ b, R a = R b → a = b) (seqZ 0 32)) (seqZ 0 32)) as Hall.
  { apply (bool_decide_unpack _). vm_compute. exact I. }
  eapply Forall_impl; [exact Hall|]. intros a Hr. exact (for_field (λ b, R a = R b → a = b) 32 Hr).
Qed.

Lemma immed_range i : -32768 ≤ immed i < 32768.
Proof.
  rewrite immed_sign16. unfold sign16. pose proof (Z.mod_pos_bound i 65536 eq_refl).
  destruct (Z.ltb_spec (i mod 65536) 32768); lia.
Qed.

Lemma small_inj a b : -32768 ≤ a < 32768 → -32768 ≤ b < 32768 → u32 a = u32 b → a = b.
Proof. unfold u32, two32. intros Ha Hb E. Z.div_mod_to_equations. lia. Qed.

Lemma immediate_inj a b : immediate a = immediate b → u32 a = u32 b.
Proof. unfold immediate. intros E%app_inv_head. by apply hex_inj. Qed.
End digits.

(** ** What the text tells *)

(** The opcodes the tables only number. *)
Definition numbered (text : list Z) : bool :=
  match text with c :: _ => c <? 58 | [] => false end.

Section effect.
Import Disasm.
Context (unix : Z → Z → Z → Z → gmap Z Z → res (Z * gmap Z Z)).
Context (pc : Z) (s : Execute.State).
Implicit Types i j : Z.

(** The opcodes whose operands the text does not tell: it shows rs where
    MFLO and MTHI have rd and rs the other way round, and not both registers
    of JALR, and no operands of BLEZ and BGTZ at all. *)
Definition hidden_special (f : Z) : bool := (f =? I_JALR) || (f =? I_MTHI) || (f =? I_MFLO).
Definition hidden_normal (op : Z) : bool := (op =? I_BLEZ) || (op =? I_BGTZ).

(** Evaluate the tests of an opcode against the table of opcodes. *)
Ltac eval_test t := let v := eval vm_compute in t in change t with v.
Ltac eval_tests :=
  repeat match goal with
  | |- context [Z0 =? ?b] => eval_test (Z0 =? b)
  | |- context [Zpos ?p =? ?b] => eval_test (Zpos p =? b)
  | |- context [Zpos ?p <=? ?b] => eval_test (Zpos p <=? b)
  | |- context [?a <=? Zpos ?p] => eval_test (a <=? Zpos p)
  end; cbn [orb andb negb]; cbv iota.

Lemma rd_inj i j : R (rd i) = R (rd j) → rd i = rd j.
Proof using Type. apply R_inj; apply field_range. Qed.
Lemma rs_inj i j : R (rs i) = R (rs j) → rs i = rs j.
Proof using Type. apply R_inj; apply field_range. Qed.
Lemma rt_inj i j : R (rt i) = R (rt j) → rt i = rt j.
Proof using Type. apply R_inj; apply field_range. Qed.
Lemma immed_inj i j : immediate (immed i) = immediate (immed j) → immed i = immed j.
Proof using Type. intros E%immediate_inj. apply small_inj; auto using immed_range. Qed.
Lemma shamt_inj i j : immediate (shamt i) = immediate (shamt j) → shamt i = shamt j.
Proof using Type.
  intros E%immediate_inj. pose proof (field_range i 6). pose proof (field_range j 6).
  apply small_inj; unfold shamt in *; lia.
Qed.

(** Take equal operand lists apart, and rewrite with the equal operands. *)
Ltac is_clean := first [apply R_clean, field_range | apply immediate_clean].
Ltac same_operands H :=
  repeat (let E := fresh "E" in apply split_at in H as [E H]; [|reflexivity|is_clean|is_clean]);
  try apply app_inv_tail in H;
  repeat match goal with
  | E : R (rd _) = R (rd _) |- _ => apply rd_inj in E; rewrite ?E
  | E : R (rs _) = R (rs _) |- _ => apply rs_inj in E; rewrite ?E
  | E : R (rt _) = R (rt _) |- _ => apply rt_inj in E; rewrite ?E
  | E : immediate (immed _) = immediate (immed _) |- _ => apply immed_inj in E; rewrite ?E
  | E : immediate (shamt _) = immediate (shamt _) |- _ => apply shamt_inj in E; rewrite ?E
  end.

(** All opcodes one by one. *)
Ltac each_opcode lo n :=
  let l := eval vm_compute in (seqZ lo n) in change (seqZ lo n) with l;
  repeat (apply Forall_cons; split); [..|apply Forall_nil; exact I].

Definition special_tells (f : Z) : Prop := ∀ i j,
  Z.land i 0x3f = f → Z.land j 0x3f = f → special_operands i f = special_operands j f →
  hidden_special f = false → special unix i pc s = special unix j pc s.

Lemma special_effect f : 0 ≤ f < 64 → special_tells f.
Proof using Type.
  revert f. apply for_field. each_opcode 0 64.
  all: intros i j Hi Hj; unfold special_operands, hidden_special, special; rewrite Hi, Hj; cbv zeta; eval_tests.
  all: unfold comma; cbn [app]; intros Hop Hhid; try discriminate Hhid; same_operands Hop; reflexivity.
Qed.

(** The conditional branches: equal targets are equal offsets. *)
Lemma target_equal i j :
  hex08 (off16 i + pc + 4) = hex08 (off16 j + pc + 4) →
  s32 (pc + 4 + s32 (Z.shiftl (immed i) 2)) = s32 (pc + 4 + s32 (Z.shiftl (immed j) 2)).
Proof using Type.
  intros E%hex08_inj. unfold off16 in E.
  replace (pc + 4 + s32 (Z.shiftl (immed i) 2)) with (s32 (Z.shiftl (immed i) 2) + pc + 4) by lia.
  replace (pc + 4 + s32 (Z.shiftl (immed j) 2)) with (s32 (Z.shiftl (immed j) 2) + pc + 4) by lia.
  rewrite <- (s32_u32 (s32 (Z.shiftl (immed i) 2) + pc + 4)), E. by rewrite s32_u32.
Qed.

Lemma jump_equal i j :
  hex08 (Z.lor (top4 pc) (off26 i)) = hex08 (Z.lor (top4 pc) (off26 j)) →
  s32 (Z.lor (Z.land (u32 pc) 0xf0000000) (Z.shiftl (Z.land i 0x03ffffff) 2))
  = s32 (Z.lor (Z.land (u32 pc) 0xf0000000) (Z.shiftl (Z.land j 0x03ffffff) 2)).
Proof using Type.
  intros E%hex08_inj. f_equal.
  assert (∀ x, Z.lor (Z.land (u32 pc) 0xf0000000) (Z.shiftl (Z.land x 0x03ffffff) 2)
    = u32 (Z.lor (top4 pc) (off26 x))) as Hx; [|by rewrite !Hx].
  clear. intros x. apply Z.bits_inj'. intros n Hn. rewrite testbit_u32 by done.
  unfold top4, off26. change (Z.shiftl 1 26 - 1) with (Z.ones 26). change 0x03ffffff with (Z.ones 26).
  change (Z.shiftl 1 28 - 1) with (Z.ones 28). change 0xf0000000 with (Z.shiftl (Z.ones 4) 28).
  rewrite !Z.lor_spec, !Z.land_spec, Z.lnot_spec, testbit_u32 by done.
  rewrite (Z.shiftl_spec (Z.ones 4)), (Z.shiftl_spec (Z.land x _)) by done.
  rewrite Z.land_spec, !Z.testbit_ones by lia.
  destruct (Z.testbit pc n), (Z.testbit x (n - 2)); repeat case_test; done || lia.
Qed.

Lemma lui_equal i j : immed i = immed j → s32 (Z.shiftl i 16) = s32 (Z.shiftl j 16).
Proof using Type.
  clear unix pc s. assert (∀ x, s32 (Z.shiftl x 16) = s32 (Z.shiftl (immed x) 16)) as Hx; [|intros E; by rewrite Hx, E, <- Hx].
  intros x. rewrite lui_word, immed_sign16. do 3 f_equal. unfold u32, two32. Z.div_mod_to_equations. lia.
Qed.

Definition normal_tells (op : Z) : Prop := ∀ i j,
  Z.land (Z.shiftr i 26) 0x3f = op → Z.land (Z.shiftr j 26) 0x3f = op →
  normal_operands i pc op = normal_operands j pc op → hidden_normal op = false →
  execute unix i pc s = execute unix j pc s.

Lemma normal_effect op : 2 ≤ op < 64 → normal_tells op.
Proof using Type.
  enough (Forall normal_tells (seqZ 2 62)) as Hall.
  { intros Hop. rewrite Forall_forall in Hall. apply Hall, elem_of_seqZ. lia. }
  each_opcode 2 62.
  all: intros i j Hi Hj; unfold normal_operands, hidden_normal, execute, memory_access; rewrite Hi, Hj; cbv zeta; eval_tests.
  all: unfold comma; cbn [app]; intros Hop Hhid; try discriminate Hhid; same_operands Hop;
    rewrite ?(target_equal i j), ?(jump_equal i j), ?(lui_equal i j) by assumption; reflexivity.
Qed.

(** They are not implemented. *)
Lemma special_numbered f : 0 ≤ f < 64 → ∀ i,
  Z.land i 0x3f = f → numbered (name specialops f) = true → special unix i pc s = u.
Proof using Type.
  revert f. apply (for_field (λ f, ∀ i, Z.land i 0x3f = f → numbered (name specialops f) = true → special unix i pc s = u)).
  each_opcode 0 64.
  all: intros i Hi Hn; first [vm_compute in Hn; discriminate Hn|unfold special; rewrite Hi; cbv zeta; eval_tests; reflexivity].
Qed.

Lemma normal_numbered op : 2 ≤ op < 64 → ∀ i,
  Z.land (Z.shiftr i 26) 0x3f = op → numbered (name normalops op) = true → execute unix i pc s = u.
Proof using Type.
  enough (Forall (λ op, ∀ i, Z.land (Z.shiftr i 26) 0x3f = op → numbered (name normalops op) = true →
    execute unix i pc s = u) (seqZ 2 62)) as Hall.
  { intros Hop. rewrite Forall_forall in Hall. apply Hall, elem_of_seqZ. lia. }
  each_opcode 2 62.
  all: intros i Hi Hn; first [vm_compute in Hn; discriminate Hn
    |unfold execute, memory_access; rewrite Hi; cbv zeta; eval_tests; reflexivity].
Qed.

Definition bcond_tells i j : Prop :=
  bcond_name i = bcond_name j → R (rs i) ++ comma ++ hex08 (off16 i + pc + 4) = R (rs j) ++ comma ++ hex08 (off16 j + pc + 4) →
  bcond i pc s = bcond j pc s.

Lemma bcond_effect i j : bcond_tells i j.
Proof using Type.
  unfold bcond_tells, bcond_name, bcond. cbv zeta. intros Hname Hop.
  unfold comma in Hop. cbn [app] in Hop. same_operands Hop. rewrite (target_equal i j) by assumption.
  revert Hname. 
  repeat match goal with |- context [if ?b =? ?c then _ else _] => destruct (b =? c) end; 
    intros Hn; try reflexivity; vm_compute in Hn; discriminate Hn.
Qed.
End effect.

(** *** The whole word *)

Section words.
Import Disasm.

(** What the first word of the text stands for; the conditional branches that
    the table does not name are all [KBcond 2]. *)
Inductive key := KSpecial (f : Z) | KBcond (g : Z) | KNormal (op : Z).
#[local] Instance key_eq_dec : EqDecision key.
Proof. solve_decision. Defined.

Definition key_name (k : key) : list Z :=
  match k with
  | KSpecial f => name specialops f
  | KBcond g => if g =? 0 then chars "bltz" else if g =? 1 then chars "bgez" else if g =? 16 then chars "bltzal"
                else if g =? 17 then chars "bgezal" else chars "BCOND"
  | KNormal op => name normalops op
  end.

Definition bcond_key (i : Z) : key :=
  let g := rt i in KBcond (if (g =? 0) || (g =? 1) || (g =? 16) || (g =? 17) then g else 2).

Lemma bcond_key_name i : bcond_name i = key_name (bcond_key i).
Proof.
  unfold bcond_key, bcond_name, I_BLTZ, I_BGEZ, I_BLTZAL, I_BGEZAL. cbn [key_name].
  destruct (Z.eqb_spec (rt i) 0) as [->|]; [reflexivity|]. destruct (Z.eqb_spec (rt i) 1) as [->|]; [reflexivity|].
  destruct (Z.eqb_spec (rt i) 16) as [->|]; [reflexivity|].
  destruct (Z.eqb_spec (rt i) 17) as [->|]; reflexivity.
Qed.

Definition word_key (i : Z) : key :=
  let op := Z.land (Z.shiftr i 26) 0x3f in
  if op =? 0 then KSpecial (Z.land i 0x3f)
  else if op =? 1 then bcond_key i
  else KNormal op.

Definition word_operands (i pc : Z) : list Z :=
  match word_key i with
  | KSpecial f => special_operands i f
  | KBcond _ => R (rs i) ++ comma ++ hex08 (off16 i + pc + 4)
  | KNormal op => normal_operands i pc op
  end.

Definition unnamed (k : key) : bool := numbered (key_name k).

Definition all_keys : list key :=
  (KSpecial <$> seqZ 0 64) ++ (KBcond <$> [0; 1; 2; 16; 17]) ++ (KNormal <$> seqZ 2 62).

Lemma word_key_in i : word_key i ∈ all_keys.
Proof.
  unfold word_key, all_keys.
  assert (0 ≤ Z.land (Z.shiftr i 26) 0x3f < 64 ∧ 0 ≤ Z.land i 0x3f < 64) as [Ho Hf].
  { change 0x3f with (Z.ones 6). rewrite !Z.land_ones by done. split; by apply Z.mod_pos_bound. }
  rewrite !elem_of_app. destruct (Z.eqb_spec (Z.land (Z.shiftr i 26) 0x3f) 0).
  - left. apply list_elem_of_fmap. eexists. split; [reflexivity|]. apply elem_of_seqZ. lia.
  - destruct (Z.eqb_spec (Z.land (Z.shiftr i 26) 0x3f) 1).
    + right. left. apply list_elem_of_fmap. eexists. split; [reflexivity|].
      destruct (_ || _) eqn:E; [|by apply (bool_decide_unpack _)]. rewrite !orb_true_iff, !Z.eqb_eq in E.
      destruct E as [[[E|E]|E]|E]; rewrite E; by apply (bool_decide_unpack _).
    + right. right. apply list_elem_of_fmap. eexists. split; [reflexivity|]. apply elem_of_seqZ. lia.
Qed.

Lemma key_name_clean k : k ∈ all_keys → clean (key_name k) = true.
Proof.
  revert k. apply Forall_forall. apply (bool_decide_unpack _). vm_compute. exact I.
Qed.

(** The names tell the operations apart, except for the numbers. *)
Lemma key_name_inj k k' :
  k ∈ all_keys → k' ∈ all_keys → key_name k = key_name k' → k = k' ∨ unnamed k = true ∧ unnamed k' = true.
Proof.
  intros Hk Hk'. revert k' Hk'. revert k Hk.
  assert (Forall (λ k, Forall (λ k', key_name k = key_name k' → k = k' ∨ unnamed k = true ∧ unnamed k' = true)
    all_keys) all_keys) as Hall.
  { apply (bool_decide_unpack _). vm_compute. exact I. }
  intros k Hk k' Hk'. rewrite Forall_forall in Hall. specialize (Hall k Hk).
  rewrite Forall_forall in Hall. exact (Hall k' Hk').
Qed.

Lemma dump_ascii_text i pc :
  is_s32 i → i ≠ 0 →
  dump_ascii i pc false = tab ++ key_name (word_key i) ++ tab ++ word_operands i pc.
Proof.
  intros Hi Hnz. unfold dump_ascii, word_operands, word_key. cbn [app].
  assert (Z.shiftr (u32 i) 26 = Z.land (Z.shiftr i 26) 0x3f) as ->.
  { change 0x3f with (Z.ones 6). rewrite <- (field_u32 i 26 6) by lia. rewrite Z.land_ones by done.
    symmetry. apply Z.mod_small. rewrite Z.shiftr_div_pow2 by done. pose proof (u32_range i) as Hu.
    unfold is_u32, two32 in Hu. Z.div_mod_to_equations. lia. }
  rewrite (proj2 (Z.eqb_neq i 0)) by done. unfold I_SPECIAL, I_BCOND.
  destruct (_ =? 0); [done|]. destruct (_ =? 1); [|done].
  by rewrite bcond_key_name.
Qed.

(** The words whose operands the text shows. *)
Definition shows_operands (i : Z) : bool :=
  match word_key i with
  | KSpecial f => negb (hidden_special f)
  | KBcond _ => true
  | KNormal op => negb (hidden_normal op)
  end.
End words.

(** ** The properties *)

Module DisasmSpec.
Import Disasm.

Section spec.
Context (unix : Z → Z → Z → Z → gmap Z Z → res (Z * gmap Z Z)).
Context (pc : Z) (s : Execute.State).

Lemma opcode_range i : 0 ≤ Z.land (Z.shiftr i 26) 0x3f < 64 ∧ 0 ≤ Z.land i 0x3f < 64.
Proof. change 0x3f with (Z.ones 6). rewrite !Z.land_ones by done. split; by apply Z.mod_pos_bound. Qed.

Lemma execute_special i : Z.land (Z.shiftr i 26) 0x3f = 0 → execute unix i pc s = special unix i pc s.
Proof. intros E. unfold execute. by rewrite E. Qed.
Lemma execute_bcond i : Z.land (Z.shiftr i 26) 0x3f = 1 → execute unix i pc s = bcond i pc s.
Proof. intros E. unfold execute. by rewrite E. Qed.

(** An instruction that is only numbered ends the program. *)
Lemma unnamed_execute i : unnamed (word_key i) = true → execute unix i pc s = u.
Proof.
  destruct (opcode_range i) as [Ho Hf]. unfold unnamed, word_key. cbv zeta.
  destruct (Z.eqb_spec (Z.land (Z.shiftr i 26) 0x3f) 0) as [E0|E0].
  - intros Hn. rewrite execute_special by done. by eapply special_numbered.
  - destruct (Z.eqb_spec (Z.land (Z.shiftr i 26) 0x3f) 1) as [E1|E1].
    + unfold bcond_key; cbn [key_name]; cbv zeta. repeat destruct (_ =? _); intros Hn; vm_compute in Hn; discriminate Hn.
    + intros Hn. eapply normal_numbered; [|reflexivity|exact Hn]. lia.
Qed.

(** The same operation with the same operands has the same effect. *)
Lemma same_key_effect i j :
  word_key i = word_key j → word_operands i pc = word_operands j pc → shows_operands i = true →
  execute unix i pc s = execute unix j pc s.
Proof.
  destruct (opcode_range i) as [Ho Hf]. unfold word_operands, shows_operands. intros Hk. rewrite <- Hk. revert Hk.
  unfold word_key. cbv zeta.
  destruct (Z.eqb_spec (Z.land (Z.shiftr i 26) 0x3f) 0) as [E0|E0], (Z.eqb_spec (Z.land (Z.shiftr j 26) 0x3f) 0) as [E0'|E0'];
    try (unfold bcond_key; intros; destruct (_ =? 1); discriminate).
  - intros [= Hk] Hop Hs. rewrite !execute_special by done. apply (special_effect unix pc s _ Hf); try done.
    by apply negb_true_iff.
  - destruct (Z.eqb_spec (Z.land (Z.shiftr i 26) 0x3f) 1) as [E1|E1], (Z.eqb_spec (Z.land (Z.shiftr j 26) 0x3f) 1) as [E1'|E1'];
      try (unfold bcond_key; discriminate).
    + intros Hk Hop _. rewrite !execute_bcond by done. apply bcond_effect; [|exact Hop].
      by rewrite !bcond_key_name, Hk.
    + intros [= Hk] Hop Hs. apply (normal_effect unix pc s (Z.land (Z.shiftr i 26) 0x3f)); try done; [lia|].
      by apply negb_true_iff.
Qed.

(** The zero word is the only one shown without operands. *)
Lemma nop_alone j : is_s32 j → j ≠ 0 → dump_ascii 0 pc false ≠ dump_ascii j pc false.
Proof.
  intros Hj Hnz E. change (dump_ascii 0 pc false) with (tab ++ chars "nop") in E.
  rewrite dump_ascii_text in E by done. apply app_inv_head in E.
  assert (9 ∈ chars "nop") as Hin by (rewrite E; apply elem_of_app; right; apply elem_of_app; left; by left).
  revert Hin. by apply (bool_decide_unpack _).
Qed.

(** C39. The disassembly tells what an instruction does.  Two instruction words
    that the disassembler shows as the same text at the same address have the
    same effect in the interpreter of execute.c, in every state: the names, the
    registers, the immediates and the targets can all be read back from the
    text.  The exceptions are JALR, MTHI, MFLO, BLEZ and BGTZ. *)
Theorem disassembly_tells_effect i j :
  is_s32 i → is_s32 j → shows_operands i = true →
  dump_ascii i pc false = dump_ascii j pc false → execute unix i pc s = execute unix j pc s.
Proof.
  intros Hi Hj Hs E. destruct (decide (i = 0)) as [->|Hi0], (decide (j = 0)) as [->|Hj0]; [done|..].
  { by apply nop_alone in E. }
  { symmetry in E. by apply nop_alone in E. }
  rewrite !dump_ascii_text in E by done. apply app_inv_head in E.
  apply split_at in E as [Ename Eops]; [|done|apply key_name_clean, word_key_in..].
  destruct (key_name_inj _ _ (word_key_in i) (word_key_in j) Ename) as [Hk|[Hui Huj]].
  - by apply same_key_effect.
  - by rewrite !unnamed_execute.
Qed.
End spec.

(** addu r3,r1,r2 with a shift amount that is not shown, and without. *)
Lemma disassembly_tells_effect_witness :
  let i := Z.lor (Z.shiftl 1 21) (Z.lor (Z.shiftl 2 16) (Z.lor (Z.shiftl 3 11) 33)) in
  let j := Z.lor i (Z.shiftl 5 6) in
  dump_ascii i 0 false = chars (String.String (Ascii.ascii_of_nat 9) "addu") ++ tab ++ chars "r3,r1,r2" ∧
  ∀ unix s, execute unix i 0 s = execute unix j 0 s.
Proof.
  split; [vm_compute; reflexivity|]. intros unix s.
  apply (disassembly_tells_effect unix 0 s).
  - apply (bool_decide_unpack _). vm_compute. exact I.
  - apply (bool_decide_unpack _). vm_compute. exact I.
  - vm_compute. reflexivity.
  - vm_compute. reflexivity.
Defined.

(** What the text hides: mflo r5 and mflo r6 are the same line, and so are all
    branches on "greater than zero". *)
Lemma mflo_and_bgtz_hide_operands :
  dump_ascii (Z.lor (Z.shiftl 5 11) 18) 0 false = dump_ascii (Z.lor (Z.shiftl 6 11) 18) 0 false ∧
  dump_ascii (Z.lor (Z.shiftl 7 26) (Z.shiftl 1 21)) 0 false = dump_ascii (Z.lor (Z.shiftl 7 26) 64) 0 false.
Proof. split; vm_compute; reflexivity. Qed.

(** Every field of an instruction is in range of the table it indexes. *)
Lemma tables_cover_fields i :
  Z.shiftr (u32 i) 26 < Z.of_nat (length normalops) ∧ Z.land i 0x3f < Z.of_nat (length specialops) ∧
  rd i < Z.of_nat (length regstrings) ∧ rs i < Z.of_nat (length regstrings) ∧ rt i < Z.of_nat (length regstrings).
Proof.
  pose proof (opcode_range i). pose proof (u32_range i) as Hu. unfold is_u32, two32 in Hu.
  pose proof (field_range i 11). pose proof (field_range i 16). pose proof (field_range i 21).
  change (length normalops) with 64%nat. change (length specialops) with 64%nat.
  change (length regstrings) with 32%nat. unfold rd, rs, rt. rewrite Z.shiftr_div_pow2 by done.
  split; [Z.div_mod_to_equations; lia|]. lia.
Qed.
End DisasmSpec.
