(* ===== verification/Interrupt.v ===== *)
(** * Simulated time and hardware interrupts (machine/interrupt.cc, stats.h)

    The clock, the queue of interrupts scheduled to occur (a [KeyedList]
    sorted by time) and the code that advances the clock and fires what is due.
    The device emulations and the kernel are behind the interface [Devices]:
    what the interrupt code calls back ([fire] runs a handler, [yield_thread]
    is [currentThread->Yield()], [delayed_load] is [machine->DelayedLoad(0, 0)]).
    The clock, the tick counters and the times of interrupts are [int]s.  Their
    sums go through [clock_of]: [int_clock] wraps around as the code does, and
    [long_clock] does not; they agree while the sums fit ([OneTick_agree]).  What
    interrupt.cc does is shown for both.  The devices in the other files run on
    the [long_clock], which is a machine that stops before tick 2^31. *)

From S2P Require Import Prelude NList Machine.

(** ** Time (stats.h) *)

Record Statistics := mkStatistics {
  totalTicks : Z;
  idleTicks : Z;
  systemTicks : Z;
  userTicks : Z;
  numDiskReads : Z;
  numDiskWrites : Z;
  numConsoleCharsRead : Z;
  numConsoleCharsWritten : Z;
  numPageFaults : Z;
  numPacketsSent : Z;
  numPacketsRecvd : Z;
}.

Definition Statistics_new : Statistics := mkStatistics 0 0 0 0 0 0 0 0 0 0 0.

Definition UserTick : Z := 1.
Definition SystemTick : Z := 10.
Definition RotationTime : Z := 500.
Definition SeekTime : Z := 500.
Definition ConsoleTime : Z := 100.
Definition NetworkTime : Z := 100.
Definition TimerTicks : Z := 100.

(** The sums of the clock: wrapped around to 32 bits, or not. *)
Class Clock := { clock_of : Z → Z }.
Definition int_clock : Clock := {| clock_of := s32 |}.
Definition long_clock : Clock := {| clock_of := λ t, t |}.

(** A sum that is what it should be. *)
Definition fits {C : Clock} (t : Z) : Prop := clock_of t = t.

(** The clock never ends. *)
Definition boundless {C : Clock} : Prop := ∀ t, fits t.
Lemma boundless_long : boundless (C := long_clock).
Proof. done. Qed.

Lemma fits_int t : fits (C := int_clock) t ↔ is_s32 t.
Proof.
  unfold fits, is_s32, two31. simpl. unfold s32, two31, two32. split; [intros <-|intros Ht].
  - pose proof (Z.mod_pos_bound (t + 2147483648) 4294967296). lia.
  - rewrite Z.mod_small; lia.
Qed.

Definition with_ticks (st : Statistics) (total idle system user : Z) : Statistics :=
  mkStatistics total idle system user (numDiskReads st) (numDiskWrites st)
    (numConsoleCharsRead st) (numConsoleCharsWritten st) (numPageFaults st)
    (numPacketsSent st) (numPacketsRecvd st).

(** ** Interrupts *)

Inductive IntStatus := IntOff | IntOn.
Inductive IntType :=
  TimerInt | DiskInt | ConsoleWriteInt | ConsoleReadInt | NetworkSendInt | NetworkRecvInt.

#[export] Instance IntStatus_eq_dec : EqDecision IntStatus.
Proof. solve_decision. Defined.
#[export] Instance IntType_eq_dec : EqDecision IntType.
Proof. solve_decision. Defined.

(** [F] is the type of handler functions. *)
Record PendingInterrupt (F : Type) := mkPending {
  handler : F;
  arg : Z;
  when : Z;
  type : IntType;
}.
Arguments mkPending {F}.
Arguments handler {F}.
Arguments arg {F}.
Arguments when {F}.
Arguments type {F}.

Record Interrupt (L : Type) := mkInterrupt {
  level : IntStatus;
  pending : L;
  inHandler : bool;
  yieldOnReturn : bool;
  status : MachineStatus;
}.
Arguments mkInterrupt {L}.
Arguments level {L}.
Arguments pending {L}.
Arguments inHandler {L}.
Arguments yieldOnReturn {L}.
Arguments status {L}.

(** The interrupt simulation, the statistics and everything else. *)
Record Sim (L D : Type) := mkSim {
  interrupt : Interrupt L;
  stats : Statistics;
  rest : D;
}.
Arguments mkSim {L D}.
Arguments interrupt {L D}.
Arguments stats {L D}.
Arguments rest {L D}.

Class Devices (F L D : Type) := {
  fire : F → Z → Sim L D → res (Sim L D);
  yield_thread : Sim L D → res (Sim L D);
  delayed_load : D → res D;
}.

Section interrupts.
Context {F L D : Type} `{KeyedList (PendingInterrupt F) L} `{!Devices F L D} {C : Clock}.

Definition Interrupt_new : Interrupt L := mkInterrupt IntOff kl_new false false SystemMode.

Definition with_interrupt (s : Sim L D) (i : Interrupt L) : Sim L D := mkSim i (stats s) (rest s).
Definition with_stats (s : Sim L D) (st : Statistics) : Sim L D := mkSim (interrupt s) st (rest s).
Definition with_rest (s : Sim L D) (d : D) : Sim L D := mkSim (interrupt s) (stats s) d.

Definition set_level (s : Sim L D) (l : IntStatus) : Sim L D :=
  let i := interrupt s in
  with_interrupt s (mkInterrupt l (pending i) (inHandler i) (yieldOnReturn i) (status i)).
Definition set_pending (s : Sim L D) (p : L) : Sim L D :=
  let i := interrupt s in
  with_interrupt s (mkInterrupt (level i) p (inHandler i) (yieldOnReturn i) (status i)).
Definition set_inHandler (s : Sim L D) (b : bool) : Sim L D :=
  let i := interrupt s in
  with_interrupt s (mkInterrupt (level i) (pending i) b (yieldOnReturn i) (status i)).
Definition set_yieldOnReturn (s : Sim L D) (b : bool) : Sim L D :=
  let i := interrupt s in
  with_interrupt s (mkInterrupt (level i) (pending i) (inHandler i) b (status i)).
Definition set_status (s : Sim L D) (st : MachineStatus) : Sim L D :=
  let i := interrupt s in
  with_interrupt s (mkInterrupt (level i) (pending i) (inHandler i) (yieldOnReturn i) st).

Definition ChangeLevel (s : Sim L D) (now : IntStatus) : Sim L D := set_level s now.

Definition YieldOnReturn (s : Sim L D) : res (Sim L D) :=
  ASSERT (inHandler (interrupt s));; Ok (set_yieldOnReturn s true).

Definition Schedule (s : Sim L D) (h : F) (a fromNow : Z) (t : IntType) : res (Sim L D) :=
  let w := clock_of (totalTicks (stats s) + fromNow) in
  let toOccur := mkPending h a w t in
  ASSERT (fromNow >? 0);;
  p ← kl_sorted_insert (pending (interrupt s)) toOccur w;
  Ok (set_pending s p).

(** The last part of [CheckIfDue]: the handler is called. *)
Definition invoke (s : Sim L D) (toOccur : PendingInterrupt F) (old : MachineStatus)
    : res (Sim L D) :=
  d ← delayed_load (rest s);
  let s1 := set_status (set_inHandler (with_rest s d) true) SystemMode in
  s2 ← fire (handler toOccur) (arg toOccur) s1;
  Ok (set_inHandler (set_status s2 old) false).

Definition CheckIfDue (s : Sim L D) (advanceClock : bool) : res (bool * Sim L D) :=
  let old := status (interrupt s) in
  ASSERT (bool_decide (level (interrupt s) = IntOff));;
  '(found, p) ← kl_sorted_remove (pending (interrupt s));
  let s0 := set_pending s p in
  match found with
  | None => Ok (false, s0)
  | Some (toOccur, w) =>
      let st := stats s in
      let put_back s1 :=
        p' ← kl_sorted_insert (pending (interrupt s1)) toOccur w; Ok (false, set_pending s1 p') in
      let go_on s1 :=
        if bool_decide (status (interrupt s1) = IdleMode) && bool_decide (type toOccur = TimerInt)
           && kl_is_empty (pending (interrupt s1))
        then put_back s1
        else s2 ← invoke s1 toOccur old; Ok (true, s2) in
      if advanceClock && (w >? totalTicks st) then
        go_on (with_stats s0 (with_ticks st w (clock_of (idleTicks st + (w - totalTicks st)))
                                (systemTicks st) (userTicks st)))
      else if w >? totalTicks st then put_back s0
      else go_on s0
  end.

(** [while (CheckIfDue(FALSE)) ;], with fuel. *)
Fixpoint check_all (fuel : nat) (s : Sim L D) : res (Sim L D) :=
  match fuel with
  | O => Stop OutOfFuel
  | S fuel' =>
      '(fired, s') ← CheckIfDue s false;
      if (fired : bool) then check_all fuel' s' else Ok s'
  end.

(** One round per interrupt that is pending at the start, and one more; an
    interrupt scheduled by a handler lies in the future. *)
Definition check_fuel (s : Sim L D) : nat := S (length (kl_elems (pending (interrupt s)))).

(** The clock of [OneTick]. *)
Definition advance_clock (s : Sim L D) : Sim L D :=
  let st := stats s in
  if bool_decide (status (interrupt s) = SystemMode)
  then with_stats s (with_ticks st (clock_of (totalTicks st + SystemTick)) (idleTicks st)
                       (clock_of (systemTicks st + SystemTick)) (userTicks st))
  else with_stats s (with_ticks st (clock_of (totalTicks st + UserTick)) (idleTicks st)
                       (systemTicks st) (clock_of (userTicks st + UserTick))).

Definition OneTick (s : Sim L D) : res (Sim L D) :=
  let old := status (interrupt s) in
  let s1 := ChangeLevel (advance_clock s) IntOff in
  s2 ← check_all (check_fuel s1) s1;
  let s3 := ChangeLevel s2 IntOn in
  if yieldOnReturn (interrupt s3) then
    s4 ← yield_thread (set_status (set_yieldOnReturn s3 false) SystemMode);
    Ok (set_status s4 old)
  else Ok s3.

Definition SetLevel (s : Sim L D) (now : IntStatus) : res (IntStatus * Sim L D) :=
  let old := level (interrupt s) in
  ASSERT (bool_decide (now = IntOff) || negb (inHandler (interrupt s)));;
  let s1 := ChangeLevel s now in
  if bool_decide (now = IntOn) && bool_decide (old = IntOff)
  then s2 ← OneTick s1; Ok (old, s2)
  else Ok (old, s1).

Definition Enable (s : Sim L D) : res (Sim L D) := '(_, s') ← SetLevel s IntOn; Ok s'.

(** [Halt] never returns. *)
Definition Idle (s : Sim L D) : res (Sim L D) :=
  '(fired, s1) ← CheckIfDue (set_status s IdleMode) true;
  if (fired : bool) then
    s2 ← check_all (check_fuel s1) s1;
    Ok (set_status (set_yieldOnReturn s2 false) SystemMode)
  else Stop Halted.
End interrupts.

(** ** What the interrupt code relies on *)

Section laws.
Context {F L D : Type} `{KeyedList (PendingInterrupt F) L}.

(** The entries of the pending queue, earliest first. *)
Definition queue (s : Sim L D) : list (Z * PendingInterrupt F) := kl_elems (pending (interrupt s)).
Definition now (s : Sim L D) : Z := totalTicks (stats s).

(** The interrupts that should have occurred by now. *)
Definition due (s : Sim L D) : list (Z * PendingInterrupt F) :=
  filter (λ e, e.1 ≤ now s) (queue s).

(** Every tick is accounted for once. *)
Definition balanced (st : Statistics) : Prop :=
  totalTicks st = idleTicks st + systemTicks st + userTicks st.

(** [dev_ok] is the invariant of the devices and the kernel. *)
Record sim_ok (dev_ok : D → Prop) (s : Sim L D) : Prop := mkSimOk {
  ok_wf : kl_wf (pending (interrupt s));
  ok_sorted : keys_sorted (queue s);
  ok_ticks : balanced (stats s);
  ok_dev : dev_ok (rest s);
}.

(** Interrupts scheduled one after the other. *)
Definition schedule_all (new q : list (Z * PendingInterrupt F)) : list (Z * PendingInterrupt F) :=
  foldl (λ l e, insert_by_key e.2 e.1 l) q new.

(** [s'] comes from [s] by scheduling future interrupts; the clock, the
    interrupt level and the mode are those of [s]. *)
Record scheduled (s s' : Sim L D) : Prop := mkScheduled {
  sch_now : now s' = now s;
  sch_level : level (interrupt s') = level (interrupt s);
  sch_handler : inHandler (interrupt s') = inHandler (interrupt s);
  sch_status : status (interrupt s') = status (interrupt s);
  sch_queue : ∃ new, queue s' = schedule_all new (queue s) ∧ Forall (λ e, now s < e.1) new;
}.
End laws.

(** The clock can go on for [n] ticks. *)
Definition room {L D : Type} {C : Clock} (n : Z) (s : Sim L D) : Prop := ∀ k, 0 ≤ k ≤ n → fits (now s + k).

(** A handler runs to completion with interrupts off; it may schedule further
    interrupts, at least one tick ahead (the ASSERT of [Schedule]) and at most
    [horizon], and change the devices and the kernel. *)
Class DeviceLaws (F L D : Type) `{KeyedList (PendingInterrupt F) L} `{!Devices F L D} {C : Clock} := {
  dev_ok : D → Prop;
  horizon : Z;
  horizon_future : 0 ≤ horizon;
  delayed_load_spec d : dev_ok d → ∃ d', delayed_load d = Ok d' ∧ dev_ok d';
  fire_spec h a (s : Sim L D) :
    sim_ok dev_ok s → level (interrupt s) = IntOff → inHandler (interrupt s) = true →
    status (interrupt s) = SystemMode → room horizon s →
    ∃ s', fire h a s = Ok s' ∧ sim_ok dev_ok s' ∧ scheduled s s';
}.

Section facts.
Context {F L D : Type} `{KeyedList (PendingInterrupt F) L} `{!Devices F L D} {C : Clock}.
Implicit Types (s : Sim L D) (q : list (Z * PendingInterrupt F)).

Lemma insert_future q x k t :
  t < k → filter (λ e, e.1 ≤ t) (insert_by_key x k q) = filter (λ e, e.1 ≤ t) q.
Proof.
  intros Hk. induction q as [|[k' y] q IH]; simpl.
  - by rewrite filter_cons_False by (simpl; lia).
  - destruct (k <? k').
    + by rewrite filter_cons_False by (simpl; lia).
    + rewrite !filter_cons. simpl. by rewrite IH.
Qed.

Lemma schedule_all_future new q t :
  Forall (λ e, t < e.1) new →
  filter (λ e, e.1 ≤ t) (schedule_all new q) = filter (λ e, e.1 ≤ t) q.
Proof.
  intros Hn. revert q. induction Hn as [|e new He _ IH]; intros q; simpl; [done|].
  unfold schedule_all in *. simpl. rewrite IH. by apply insert_future.
Qed.

Lemma schedule_all_perm new q : schedule_all new q ≡ₚ new ++ q.
Proof.
  revert q. induction new as [|e new IH]; intros q; simpl; [done|].
  unfold schedule_all in *. simpl. rewrite IH, insert_by_key_perm. destruct e as [k x]. simpl.
  by rewrite Permutation_middle.
Qed.

Lemma schedule_all_sorted new q : keys_sorted q → keys_sorted (schedule_all new q).
Proof.
  revert q. induction new as [|e new IH]; intros q Hq; [done|].
  apply IH. by apply insert_by_key_sorted.
Qed.

Lemma scheduled_due s s' : scheduled s s' → due s' = due s.
Proof.
  intros [Hn _ _ _ (new & Hq & Hf)]. unfold due. rewrite Hn, Hq. by apply schedule_all_future.
Qed.

#[export] Instance scheduled_refl : Reflexive (scheduled (F:=F) (L:=L) (D:=D)).
Proof. intros s. split; try done. by exists []. Qed.

#[export] Instance scheduled_trans : Transitive (scheduled (F:=F) (L:=L) (D:=D)).
Proof.
  intros s1 s2 s3 [N1 A1 B1 C1 (n1 & Q1 & F1)] [N2 A2 B2 C2 (n2 & Q2 & F2)].
  split; [congruence..|]. exists (n1 ++ n2). split.
  - rewrite Q2, Q1. unfold schedule_all. by rewrite foldl_app.
  - apply Forall_app. split; [done|]. by rewrite <- N1.
Qed.

Context `{!KeyedListLaws (PendingInterrupt F) L}.

(** Scheduling an interrupt. *)
Lemma Schedule_spec dok s h a fromNow t :
  sim_ok dok s → 0 < fromNow → fits (now s + fromNow) →
  ∃ s', Schedule s h a fromNow t = Ok s' ∧ sim_ok dok s' ∧ scheduled s s' ∧ rest s' = rest s ∧
        queue s' = insert_by_key (mkPending h a (now s + fromNow) t) (now s + fromNow) (queue s).
Proof using KeyedListLaws0.
  intros [Hw Hs Ht Hd] Hf Hfit. unfold Schedule. change (totalTicks (stats s)) with (now s).
  rewrite Hfit.
  rewrite (proj2 (Z.gtb_lt fromNow 0) Hf). simpl.
  destruct (kl_sorted_insert_spec (pending (interrupt s))
    (mkPending h a (now s + fromNow) t) (now s + fromNow) Hw)
    as (p & -> & Hw' & Hp). simpl.
  eexists. split; [reflexivity|]. split_and!; try done.
  - split; try done. unfold queue. simpl. rewrite Hp. by apply insert_by_key_sorted.
  - split; try done. exists [(now s + fromNow, mkPending h a (now s + fromNow) t)].
    split; [exact Hp|]. constructor; [simpl; lia|done].
Qed.
End facts.

(** ** Firing what is due *)

Section firing.
Context {F L D : Type} `{KeyedListLaws (PendingInterrupt F) L} `{!Devices F L D} {C : Clock}.
Context `{!DeviceLaws F L D}.
Implicit Types (s : Sim L D).

(** The loop [while (CheckIfDue(FALSE)) ;] fired the interrupts [es] in this
    order, each at the head of the queue when it was. *)
Inductive fires : list (Z * PendingInterrupt F) → Sim L D → Sim L D → Prop :=
  | fires_none s s' : CheckIfDue s false = Ok (false, s') → fires [] s s'
  | fires_one e es s s1 s' :
      head (queue s) = Some e → CheckIfDue s false = Ok (true, s1) → fires es s1 s' →
      fires (e :: es) s s'.

Record quiet (s : Sim L D) : Prop := mkQuiet {
  q_level : level (interrupt s) = IntOff;
  q_handler : inHandler (interrupt s) = false;
}.

Lemma invoke_spec s e :
  sim_ok dev_ok s → quiet s → room horizon s →
  ∃ s', invoke s e (status (interrupt s)) = Ok s' ∧ sim_ok dev_ok s' ∧ scheduled s s'.
Proof using All.
  intros [Hw Hs Hb Hd] [Hl Hh] Hroom. unfold invoke.
  destruct (delayed_load_spec (rest s) Hd) as (d & -> & Hd'). simpl.
  destruct (fire_spec (handler e) (arg e)
    (set_status (set_inHandler (with_rest s d) true) SystemMode))
    as (s2 & E2 & [Hw2 Hs2 Hb2 Hd2] & [N2 L2 I2 S2 Q2]); [by split|done..|].
  rewrite E2. simpl. eexists. split; [reflexivity|]. split; [by split|]. by split.
Qed.

Lemma keys_sorted_head_due s e q :
  keys_sorted (queue s) → queue s = e :: q → ¬ e.1 ≤ now s → due s = [].
Proof using Type.
  intros Hs Hq Hn. unfold due. rewrite Hq in *. destruct e as [w x]. simpl in *.
  destruct Hs as [Hall _]. rewrite filter_cons_False by done.
  apply list_filter_none. eapply Forall_impl; [exact Hall|]. simpl. intros. lia.
Qed.

(** The clock and the modes are the same, nothing is due, and the queue is the
    old one up to the order of simultaneous interrupts. *)
Record settled (s s' : Sim L D) : Prop := mkSettled {
  set_now : now s' = now s;
  set_quiet : quiet s';
  set_stat : status (interrupt s') = status (interrupt s);
  set_due : due s' = [];
  set_kept : ∃ new, queue s' ≡ₚ new ++ filter (λ e, ¬ e.1 ≤ now s) (queue s) ∧
                    Forall (λ e, now s < e.1) new;
}.

Lemma no_due_kept s : due s = [] → filter (λ e, ¬ e.1 ≤ now s) (queue s) = queue s.
Proof using Type.
  intros Hd. apply list_filter_all, Forall_forall. intros e He Hle.
  assert (e ∈ due s) as Hin by (apply list_elem_of_filter; done).
  rewrite Hd in Hin. by apply elem_of_nil in Hin.
Qed.

(** Nothing but the time-slice timer is left. *)
Definition lone_timer s : Prop := ∃ e, queue s = [e] ∧ type e.2 = TimerInt.

(** The test of [CheckIfDue] for an idle machine with nothing more to do. *)
Lemma idle_test s p w x q :
  kl_wf p → kl_elems p = q → queue s = (w, x) :: q →
  bool_decide (status (interrupt s) = IdleMode) && bool_decide (type x = TimerInt)
    && kl_is_empty p
  = bool_decide (status (interrupt s) = IdleMode ∧ q = [] ∧ type x = TimerInt).
Proof using All.
  intros Hwp Hp Hq. rewrite kl_is_empty_spec, Hp by done.
  repeat case_bool_decide; simpl; try done; naive_solver.
Qed.

(** One round: the head of the queue is fired if it is due. *)
Lemma CheckIfDue_spec s :
  sim_ok dev_ok s → quiet s → room horizon s → (status (interrupt s) = IdleMode → ¬ lone_timer s) →
  match due s with
  | [] => ∃ s', CheckIfDue s false = Ok (false, s') ∧ sim_ok dev_ok s' ∧ settled s s'
  | e :: es =>
      ∃ s', CheckIfDue s false = Ok (true, s') ∧ sim_ok dev_ok s' ∧ quiet s' ∧
            status (interrupt s') = status (interrupt s) ∧ now s' = now s ∧
            head (queue s) = Some e ∧ due s' = es ∧
            ∃ new, queue s' = schedule_all new (tail (queue s)) ∧ Forall (λ e, now s < e.1) new
  end.
Proof using All.
  intros [Hw Hs Hb Hd] [Hl Hh] Hroom Hst.
  unfold CheckIfDue. rewrite Hl. rewrite (bool_decide_eq_true_2 (IntOff = IntOff)) by done. simpl.
  destruct (kl_sorted_remove_spec (pending (interrupt s)) Hw) as (p & -> & Hwp & Hp).
  change (kl_elems (pending (interrupt s))) with (queue s) in *. simpl.
  destruct (queue s) as [|[w x] q] eqn:Hq; simpl in *.
  - assert (due s = []) as Hdue by (unfold due; by rewrite Hq). rewrite Hdue.
    assert (queue (set_pending s p) = []) as Hq' by exact Hp.
    eexists. split; [reflexivity|]. split; [split; try done; by rewrite Hq'|].
    split; try done; [by unfold due; rewrite Hq'|].
    exists []. rewrite Hq', Hq. split; [done|constructor].
  - rewrite Z.gtb_ltb. change (totalTicks (stats s)) with (now s).
    destruct (Z.ltb_spec (now s) w) as [Hlt|Hge].
    + assert (due s = []) as Hdue.
      { eapply keys_sorted_head_due; [by rewrite Hq|exact Hq|simpl; lia]. }
      rewrite Hdue.
      destruct (kl_sorted_insert_spec p x w Hwp) as (p' & -> & Hwp' & Hp'). simpl.
      eexists. split; [reflexivity|]. rewrite Hp in Hp'.
      assert (queue (set_pending (set_pending s p) p') = insert_by_key x w q) as Hq' by exact Hp'.
      destruct Hs as [Hall Hs].
      split; [split; try done; rewrite Hq'; by apply insert_by_key_sorted|].
      split; try done.
      * unfold due in *. rewrite Hq', insert_future by exact Hlt.
        rewrite Hq, filter_cons_False in Hdue by (simpl; lia). exact Hdue.
      * exists []. split; [|constructor]. rewrite no_due_kept by done.
        rewrite Hq', Hq. apply insert_by_key_perm.
    + assert (due s = (w, x) :: filter (λ e, e.1 ≤ now s) q) as ->.
      { unfold due. rewrite Hq. by rewrite filter_cons_True by (simpl; lia). }
      rewrite (idle_test s p w x q), bool_decide_eq_false_2 by
        (try done; intros (Hi & -> & Ht); apply (Hst Hi); by exists (w, x)).
      simpl. destruct Hs as [Hall Hs].
      destruct (invoke_spec (set_pending s p) x) as (s2 & E2 & Hok2 & Hsch).
      { split; try done. change (keys_sorted (kl_elems p)). by rewrite Hp. }
      { by split. }
      { exact Hroom. }
      change (status (interrupt (set_pending s p))) with (status (interrupt s)) in E2.
      rewrite E2. simpl. eexists. split; [reflexivity|].
      pose proof (scheduled_due _ _ Hsch) as Hdue.
      destruct Hsch as [N2 L2 I2 S2 (new & Q2 & F2)].
      assert (queue (set_pending s p) = q) as Hqp by exact Hp.
      split_and!; try done.
      * split; [by rewrite L2|by rewrite I2].
      * rewrite Hdue. unfold due. by rewrite Hqp.
      * exists new. by rewrite Q2, Hqp.
Qed.

(** The loop terminates within its fuel, and fires exactly what is due. *)
Lemma check_all_spec n s :
  sim_ok dev_ok s → quiet s → room horizon s → status (interrupt s) ≠ IdleMode →
  (length (due s) < n)%nat →
  ∃ s', check_all n s = Ok s' ∧ sim_ok dev_ok s' ∧ fires (due s) s s' ∧ settled s s'.
Proof using All.
  revert s. induction n as [|n IH]; intros s Hok Hq Hroom Hst Hn; [lia|].
  pose proof (CheckIfDue_spec s Hok Hq Hroom ltac:(done)) as Hc. simpl.
  destruct (due s) as [|e es] eqn:Hdue.
  - destruct Hc as (s' & E & Hok' & Hset). rewrite E. simpl.
    exists s'. split_and!; try done. by constructor.
  - destruct Hc as (s1 & E & Hok1 & Hq1 & Hst1 & Hn1 & Hhd & Hdue1 & new & Hqu & Hnew).
    rewrite E. simpl in Hn |- *.
    destruct (IH s1) as (s' & E' & Hok' & Hf & Hset); [done..|unfold room; by rewrite Hn1|by rewrite Hst1|rewrite Hdue1; lia|].
    exists s'. split_and!; try done.
    + rewrite Hdue1 in Hf. econstructor; done.
    + destruct Hset as [N Q S Du (new' & Hk & Hf')]. split; try congruence.
      rewrite Hn1 in Hf', Hk. exists (new' ++ new). split.
      * rewrite Hk, <- app_assoc. f_equiv. rewrite Hqu, schedule_all_perm.
        rewrite filter_app. destruct (queue s) as [|e' q]; [done|].
        injection Hhd as ->. simpl tail.
        assert (e.1 ≤ now s) as He.
        { assert (e ∈ due s) as Hin by (rewrite Hdue; by constructor).
          by apply list_elem_of_filter in Hin as [? _]. }
        rewrite (filter_cons_False _ e) by (intros Hx; by apply Hx).
        rewrite (list_filter_all _ new); [done|].
        eapply Forall_impl; [exact Hnew|]. simpl. intros. lia.
      * apply Forall_app. done.
Qed.

(** An idle machine with only the timer left puts it back. *)
Lemma CheckIfDue_lone s adv :
  (adv = true → boundless) → sim_ok dev_ok s → quiet s → status (interrupt s) = IdleMode → lone_timer s →
  ∃ s', CheckIfDue s adv = Ok (false, s') ∧ sim_ok dev_ok s' ∧ quiet s' ∧
        status (interrupt s') = IdleMode ∧ lone_timer s' ∧ (adv = false → now s' = now s).
Proof using All.
  intros Hbl [Hw Hs Hb Hd] [Hl Hh] Hst ([w x] & Hq & Ht). unfold CheckIfDue.
  rewrite Hl, (bool_decide_eq_true_2 (IntOff = IntOff)) by done. simpl.
  destruct (kl_sorted_remove_spec (pending (interrupt s)) Hw) as (p & -> & Hwp & Hp).
  change (kl_elems (pending (interrupt s))) with (queue s) in *. rewrite Hq in *. simpl in *.
  rewrite !(idle_test s p w x []), bool_decide_eq_true_2 by done.
  destruct (kl_sorted_insert_spec p x w Hwp) as (p' & Ei & Hwp' & Hp'). rewrite Ei. simpl.
  rewrite Hp in Hp'. simpl in Hp'.
  assert (∀ s1, pending (interrupt s1) = p → rest s1 = rest s → balanced (stats s1) → quiet s1 →
    status (interrupt s1) = IdleMode →
    sim_ok dev_ok (set_pending s1 p') ∧ quiet (set_pending s1 p') ∧
    status (interrupt (set_pending s1 p')) = IdleMode ∧ lone_timer (set_pending s1 p')) as Hback.
  { intros s1 Hp1 Hr1 Hb1 [Hl1 Hh1] Hs1. split_and!; try done.
    - split; simpl; rewrite ?Hr1; try done.
      change (keys_sorted (kl_elems p')). rewrite Hp'. by repeat constructor.
    - exists (w, x). done. }
  destruct adv; [rewrite (Hbl eq_refl (_ + (_ - _)))|]; simpl; destruct (w >? totalTicks (stats s)); simpl;
    eexists; (split; [reflexivity|]);
    match goal with |- sim_ok dev_ok (set_pending ?s1 _) ∧ _ =>
      destruct (Hback s1) as (? & ? & ? & ?);
        [done|done|unfold balanced in *; simpl; lia|by split|done|] end; by split_and!.
Qed.

(** The loop terminates in any mode; in an idle machine the timer may stay. *)
Lemma check_all_any n s :
  sim_ok dev_ok s → quiet s → room horizon s → (length (due s) < n)%nat →
  ∃ s', check_all n s = Ok s' ∧ sim_ok dev_ok s' ∧ quiet s' ∧ now s' = now s ∧
        status (interrupt s') = status (interrupt s) ∧ (due s' = [] ∨ lone_timer s').
Proof using All.
  revert s. induction n as [|n IH]; intros s Hok Hq Hroom Hn; [lia|]. simpl.
  assert (Decision (lone_timer s)) as Hdec.
  { unfold lone_timer. destruct (queue s) as [|e [|]]; [right; naive_solver| |right; naive_solver].
    destruct (decide (type e.2 = TimerInt)); [left; by exists e|right; naive_solver]. }
  destruct (decide (status (interrupt s) = IdleMode ∧ lone_timer s)) as [[Hi Ht]|Hnt].
  - destruct (CheckIfDue_lone s false ltac:(done) Hok Hq Hi Ht) as (s' & -> & ? & ? & ? & ? & Hnow).
    simpl. exists s'. split_and!; try done; [by apply Hnow|congruence|by right].
  - pose proof (CheckIfDue_spec s Hok Hq Hroom ltac:(naive_solver)) as Hc.
    destruct (due s) as [|e es] eqn:Hdue.
    + destruct Hc as (s' & -> & Hok' & [? ? ? ? _]). simpl.
      exists s'. split_and!; try done. by left.
    + destruct Hc as (s1 & -> & Hok1 & Hq1 & Hst1 & Hn1 & _ & Hdue1 & _). simpl in Hn |- *.
      destruct (IH s1) as (s' & -> & ? & ? & ? & ? & ?); [done..|unfold room; by rewrite Hn1|rewrite Hdue1; lia|].
      exists s'. split_and!; try done; congruence.
Qed.

Lemma due_fuel s : (length (due s) < check_fuel s)%nat.
Proof using Type.
  unfold due, check_fuel. pose proof (length_filter (λ e, e.1 ≤ now s) (queue s)).
  unfold queue in *. lia.
Qed.

(** With the clock allowed to move, the first interrupt is fired. *)
Lemma boundless_room n s : boundless → room n s.
Proof using Type. intros Hbl k _. apply Hbl. Qed.

Lemma CheckIfDue_advance s e q :
  boundless → sim_ok dev_ok s → quiet s → ¬ lone_timer s → queue s = e :: q →
  ∃ s', CheckIfDue s true = Ok (true, s') ∧ sim_ok dev_ok s' ∧ quiet s' ∧
        status (interrupt s') = status (interrupt s) ∧ now s' = Z.max (now s) e.1.
Proof using All.
  intros Hbl [Hw Hs Hb Hd] [Hl Hh] Hnt Hq. destruct e as [w x]. unfold CheckIfDue.
  rewrite Hl, (bool_decide_eq_true_2 (IntOff = IntOff)) by done. simpl.
  destruct (kl_sorted_remove_spec (pending (interrupt s)) Hw) as (p & -> & Hwp & Hp).
  change (kl_elems (pending (interrupt s))) with (queue s) in *. rewrite Hq in *. simpl in *.
  rewrite !(idle_test s p w x q), bool_decide_eq_false_2 by
    (try done; intros (Hi & -> & Ht); apply Hnt; by exists (w, x)).
  destruct Hs as [Hall Hs]. simpl. rewrite Z.gtb_ltb, (Hbl (_ + (_ - _))).
  destruct (Z.ltb_spec (totalTicks (stats s)) w) as [Hlt|Hge];
    match goal with |- context [invoke ?s1 ?y _] =>
      destruct (invoke_spec s1 y) as (s2 & E2 & Hok2 & [N2 L2 I2 S2 _]);
        [split; try done; try (change (keys_sorted (kl_elems p)); by rewrite Hp);
         unfold balanced in *; simpl; lia|by split|by apply boundless_room|] end;
    simpl in E2; rewrite E2; simpl; eexists; (split; [reflexivity|]);
    (split_and!; try done; [split; simpl in *; congruence|]);
    rewrite N2; unfold now in *; simpl; lia.
Qed.
(** One tick of the clock. *)
Definition tick_of s : Z := if bool_decide (status (interrupt s) = SystemMode) then SystemTick else UserTick.

(** The clock and the two tick counters can go on for a tick, and for as long
    as a handler looks ahead. *)
Record tick_fits s : Prop := mkTickFits {
  tf_room : ∀ k, 0 ≤ k ≤ horizon → fits (now s + tick_of s + k);
  tf_system : fits (systemTicks (stats s) + SystemTick);
  tf_user : fits (userTicks (stats s) + UserTick);
}.

Lemma boundless_tick s : boundless → tick_fits s.
Proof using Type. intros Hbl. split; intros; apply Hbl. Qed.

Lemma advance_clock_fits s :
  tick_fits s → sim_ok dev_ok s →
  sim_ok dev_ok (advance_clock s) ∧ now (advance_clock s) = now s + tick_of s ∧
  interrupt (advance_clock s) = interrupt s ∧ room horizon (advance_clock s).
Proof using Type.
  intros [Hr Hsys Hus] [Hw Hs Hb Hd]. pose proof (Hr 0 (conj (Z.le_refl 0) horizon_future)) as H0r.
  unfold tick_of, advance_clock, now, fits, balanced, room, fits in *. rewrite Z.add_0_r in H0r.
  case_bool_decide; simpl; rewrite ?Hsys, ?Hus, ?H0r; split_and!; try done; split; try done;
    unfold balanced; simpl; lia.
Qed.

Lemma at_tick s (s1 := ChangeLevel (advance_clock s) IntOff) :
  tick_fits s → sim_ok dev_ok s → inHandler (interrupt s) = false →
  sim_ok dev_ok s1 ∧ quiet s1 ∧ status (interrupt s1) = status (interrupt s) ∧
  now s1 = now s + tick_of s ∧ queue s1 = queue s ∧ room horizon s1.
Proof using Type.
  intros Hfit Hok Hh. destruct (advance_clock_fits s Hfit Hok) as ([Hw Hs Hb Hd] & Hn & Hi & Hroom).
  unfold queue, s1. simpl. rewrite Hi. split_and!; try done; split; simpl; by rewrite ?Hi.
Qed.

Lemma OneTick_spec s :
  tick_fits s → sim_ok dev_ok s → inHandler (interrupt s) = false → status (interrupt s) ≠ IdleMode →
  let s1 := ChangeLevel (advance_clock s) IntOff in
  ∃ s2, OneTick s =
      (let s3 := ChangeLevel s2 IntOn in
       if yieldOnReturn (interrupt s3) then
         s4 ← yield_thread (set_status (set_yieldOnReturn s3 false) SystemMode);
         Ok (set_status s4 (status (interrupt s)))
       else Ok s3) ∧
    now s2 = now s + tick_of s ∧ sim_ok dev_ok s2 ∧
    due s1 = filter (λ e, e.1 ≤ now s + tick_of s) (queue s) ∧ fires (due s1) s1 s2 ∧ due s2 = [].
Proof using All.
  intros Hfit Hok Hh Hst s1.
  destruct (at_tick s Hfit Hok Hh) as (Hok1 & Hq1 & Hst1 & Hn1 & Hqu1 & Hroom).
  destruct (check_all_spec (check_fuel s1) s1) as (s2 & E2 & Hok2 & Hf & Hset);
    [done..|unfold s1; by rewrite Hst1|apply due_fuel|].
  exists s2. split_and!; try done.
  - unfold OneTick. fold s1. rewrite E2. done.
  - rewrite (set_now _ _ Hset). exact Hn1.
  - unfold due, s1. by rewrite Hn1, Hqu1.
  - apply Hset.
Qed.


(** [OneTick] keeps the invariant of the devices. *)
Lemma OneTick_inv s :
  tick_fits s → sim_ok dev_ok s → inHandler (interrupt s) = false → status (interrupt s) ≠ IdleMode →
  (∀ s, yield_thread s = Ok s) →
  ∃ s', OneTick s = Ok s' ∧ sim_ok dev_ok s' ∧ inHandler (interrupt s') = false ∧
        status (interrupt s') = status (interrupt s).
Proof using All.
  intros Hfit Hok Hh Hst Hy. unfold OneTick. set (s1 := ChangeLevel (advance_clock s) IntOff).
  destruct (at_tick s Hfit Hok Hh) as (Hok1 & Hq1 & Hst1 & _ & _ & Hroom).
  destruct (check_all_any (check_fuel s1) s1 Hok1 Hq1 Hroom (due_fuel s1)) as (s2 & -> & [Hw Hs Hb Hd] & Hq2 & _ & Hst2 & _).
  simpl_res. change (status (interrupt s1) = status (interrupt s)) in Hst1. rewrite Hst1 in Hst2. destruct Hq2 as [_ Hh2].
  destruct (yieldOnReturn (interrupt (ChangeLevel s2 IntOn))); [rewrite Hy; simpl_res|];
    eexists; (split; [reflexivity|]); by split.
Qed.

(** So does [Idle], with something to wait for. *)
Lemma Idle_inv s :
  boundless → sim_ok dev_ok s → level (interrupt s) = IntOff → inHandler (interrupt s) = false →
  queue s ≠ [] → ¬ lone_timer s →
  ∃ s', Idle s = Ok s' ∧ sim_ok dev_ok s' ∧ inHandler (interrupt s') = false ∧
        status (interrupt s') = SystemMode.
Proof using All.
  intros Hbl [Hw Hs Hb Hd] Hl Hh Hq Ht. unfold Idle.
  destruct (queue s) as [|e q] eqn:Eq; [done|].
  destruct (CheckIfDue_advance (set_status s IdleMode) e q Hbl) as (s1 & -> & Hok1 & Hq1 & _);
    [split; try done; change (keys_sorted (queue s)); by rewrite Eq|by split|exact Ht|exact Eq|].
  simpl_res. destruct (check_all_any (check_fuel s1) s1 Hok1 Hq1 (boundless_room _ _ Hbl) (due_fuel s1))
    as (s2 & -> & [Hw2 Hs2 Hb2 Hd2] & [_ Hh2] & _).
  simpl_res. eexists. split; [reflexivity|]. by split.
Qed.

(** The clock is moved to the time of an interrupt that lies in the future. *)
Definition advance_to (s : Sim L D) (w : Z) : Sim L D :=
  let st := stats s in
  if w >? totalTicks st
  then with_stats s (with_ticks st w (clock_of (idleTicks st + (w - totalTicks st))) (systemTicks st) (userTicks st))
  else s.

(** What a check does with the first interrupt, unless it is the timer. *)
Lemma CheckIfDue_cases s adv w x q :
  kl_wf (pending (interrupt s)) → level (interrupt s) = IntOff → queue s = (w, x) :: q →
  type x ≠ TimerInt →
  ∃ p, kl_wf p ∧ kl_elems p = q ∧ CheckIfDue s adv =
    (if (w <=? now s) || adv then
       s2 ← invoke (advance_to (set_pending s p) w) x (status (interrupt s)); Ok (true, s2)
     else p' ← kl_sorted_insert p x w; Ok (false, set_pending (set_pending s p) p')).
Proof using H0.
  intros Hw Hl Hq Ht. unfold CheckIfDue. rewrite Hl. simpl.
  destruct (kl_sorted_remove_spec (pending (interrupt s)) Hw) as (p & -> & Hwp & Hp).
  change (kl_elems (pending (interrupt s))) with (queue s) in *. rewrite Hq in *. simpl in *.
  exists p. split; [done|]. split; [done|].
  rewrite (bool_decide_eq_false_2 (type x = TimerInt)), !andb_false_r by done. simpl.
  unfold advance_to. simpl. change (totalTicks (stats s)) with (now s). rewrite Z.gtb_ltb.
  destruct adv; simpl; destruct (Z.leb_spec w (now s)), (Z.ltb_spec (now s) w); try lia; done.
Qed.

(** An invariant of every round holds after the loop. *)
Lemma check_all_inv (I : Sim L D → Prop) n s s' :
  (∀ s b s', I s → CheckIfDue s false = Ok (b, s') → I s') →
  I s → check_all n s = Ok s' → I s'.
Proof using Type.
  intros Hr. revert s. induction n as [|n IH]; intros s Hs; simpl; [done|].
  intros E. apply bind_ok in E as ([b s1] & E1 & E). pose proof (Hr _ _ _ Hs E1) as H1.
  destruct b; [by apply (IH s1)|]. by injection E as <-.
Qed.

(** With nothing pending, a check finds nothing. *)
Lemma CheckIfDue_empty s adv :
  kl_wf (pending (interrupt s)) → level (interrupt s) = IntOff → queue s = [] →
  ∃ p, CheckIfDue s adv = Ok (false, set_pending s p) ∧ kl_wf p ∧ kl_elems p = [].
Proof using H0.
  intros Hw Hl Hq. unfold CheckIfDue. rewrite Hl. simpl.
  destruct (kl_sorted_remove_spec (pending (interrupt s)) Hw) as (p & -> & Hwp & Hp).
  change (kl_elems (pending (interrupt s))) with (queue s) in *. rewrite Hq in *. simpl.
  by exists p.
Qed.

Lemma check_all_empty s :
  kl_wf (pending (interrupt s)) → level (interrupt s) = IntOff → queue s = [] →
  ∃ p, check_all (check_fuel s) s = Ok (set_pending s p) ∧ kl_wf p ∧ kl_elems p = [].
Proof using H0.
  intros Hw Hl Hq.
  assert (check_fuel s = 1%nat) as -> by (unfold check_fuel; unfold queue in Hq; by rewrite Hq).
  simpl.
  destruct (CheckIfDue_empty s false Hw Hl Hq) as (p & -> & Hp). by exists p.
Qed.

Lemma OneTick_empty s :
  kl_wf (pending (interrupt s)) → queue s = [] → yieldOnReturn (interrupt s) = false →
  ∃ p, OneTick s = Ok (ChangeLevel (set_pending (ChangeLevel (advance_clock s) IntOff) p) IntOn) ∧
       kl_wf p ∧ kl_elems p = [].
Proof using H0.
  intros Hw Hq Hy. unfold OneTick. set (s1 := ChangeLevel (advance_clock s) IntOff).
  assert (interrupt s1 = interrupt (set_level s IntOff)) as Hi.
  { unfold s1, advance_clock. by case_bool_decide. }
  destruct (check_all_empty s1) as (p & -> & Hp); [by rewrite Hi|by rewrite Hi|
    unfold queue; by rewrite Hi|].
  clearbody s1. exists p. split; [|done]. simpl_res. unfold ChangeLevel.
  cbn [interrupt set_level set_pending with_interrupt yieldOnReturn]. by rewrite Hi; simpl; rewrite Hy.
Qed.
End firing.

(** ** The hardware timer (timer.cc) and its handler (system.cc)

    [Random n] is the [n]-th result of [rand()], which is not negative. *)

Module Timer.

Inductive Handler := TimerHandler.

Record Timer := mkTimer {
  randomize : bool;
  draws : nat;
}.

Section timer.
Context (Random : nat → Z).

Definition TimeOfNextInterrupt (t : Timer) : Z * Timer :=
  if randomize t
  then (1 + Z.rem (Random (draws t)) (TimerTicks * 2), mkTimer (randomize t) (S (draws t)))
  else (TimerTicks, t).

Context {L : Type} `{KeyedList (PendingInterrupt Handler) L} {C : Clock}.

Definition TimerInterruptHandler (s : Sim L Timer) : res (Sim L Timer) :=
  if bool_decide (status (interrupt s) ≠ IdleMode) then YieldOnReturn s else Ok s.

Definition TimerExpired (s : Sim L Timer) (this : Z) : res (Sim L Timer) :=
  let '(t, d) := TimeOfNextInterrupt (rest s) in
  s1 ← Schedule (with_rest s d) TimerHandler this t TimerInt;
  TimerInterruptHandler s1.

(** The constructor schedules the first interrupt. *)
Definition Timer_new (s : Sim L Timer) (this : Z) (doRandom : bool) : res (Sim L Timer) :=
  let '(t, d) := TimeOfNextInterrupt (mkTimer doRandom (draws (rest s))) in
  Schedule (with_rest s d) TimerHandler this t TimerInt.

(** A machine whose only device is the timer and whose only thread is the
    running one ([Yield] returns at once when no other thread is ready). *)
Definition timer_devices : Devices Handler L Timer := {|
  fire := λ _ this s, TimerExpired s this;
  yield_thread := λ s, Ok s;
  delayed_load := λ d, Ok d;
|}.

Hypothesis HRandom : ∀ n, 0 ≤ Random n.

Lemma next_interrupt_future t : 0 < fst (TimeOfNextInterrupt t) ≤ TimerTicks * 2.
Proof using HRandom.
  unfold TimeOfNextInterrupt. destruct (randomize t); simpl; [|done].
  specialize (HRandom (draws t)). unfold TimerTicks.
  pose proof (Z.rem_bound_pos (Random (draws t)) (100 * 2)). lia.
Qed.

#[local] Existing Instance timer_devices.
Context `{!KeyedListLaws (PendingInterrupt Handler) L}.

Lemma timer_laws : DeviceLaws Handler L Timer.
Proof using HRandom KeyedListLaws0.
  refine {| dev_ok := λ _, True; horizon := TimerTicks * 2 |}; [done| |].
  - intros d _. by exists d.
  - intros h a s Hok Hl Hh Hst Hroom. simpl. unfold TimerExpired.
    destruct (TimeOfNextInterrupt (rest s)) as [t d] eqn:E.
    assert (0 < t ≤ TimerTicks * 2) as Ht.
    { pose proof (next_interrupt_future (rest s)) as Hf. by rewrite E in Hf. }
    assert (sim_ok (λ _ : Timer, True) (with_rest s d)) as Hok' by (destruct Hok; by split).
    destruct (Schedule_spec _ _ TimerHandler a t TimerInt Hok' (proj1 Ht) (Hroom t ltac:(lia)))
      as (s1 & -> & [Hw Hs Hb Hd] & Hsch & _). simpl.
    assert (scheduled s s1) as Hsch' by (destruct Hsch; by split).
    unfold TimerInterruptHandler, YieldOnReturn.
    rewrite (sch_status _ _ Hsch'), (sch_handler _ _ Hsch'), Hst, Hh. simpl.
    eexists. split; [reflexivity|]. split; [by split|]. destruct Hsch'. by split.
Defined.
End timer.
End Timer.

(** ** The properties *)

Module InterruptSpec.
#[local] Existing Instance int_clock.

Section spec.
Context {F L D : Type} `{KeyedListLaws (PendingInterrupt F) L} `{!Devices F L D}.


(** While the sums fit, the clock that wraps around and the one that does not
    do the same. *)
Lemma CheckIfDue_agree (c1 c2 : Clock) (s : Sim L D) :
  CheckIfDue (C := c1) s false = CheckIfDue (C := c2) s false.
Proof using Type.
  unfold CheckIfDue. destruct (ASSERT _); [|done]. simpl_res.
  destruct (kl_sorted_remove _) as [[[[x w]|] p]|]; done.
Qed.
Lemma OneTick_agree (s : Sim L D) :
  is_s32 (now s + tick_of s) → is_s32 (systemTicks (stats s) + SystemTick) →
  is_s32 (userTicks (stats s) + UserTick) →
  OneTick (C := int_clock) s = OneTick (C := long_clock) s.
Proof using Type.
  intros Hn%fits_int Hs%fits_int Hu%fits_int. unfold fits, tick_of, now in *.
  assert (∀ n (s : Sim L D), check_all (C := int_clock) n s = check_all (C := long_clock) n s) as Hall.
  { induction n as [|n IH]; intros s1; [done|]. simpl. rewrite (CheckIfDue_agree int_clock long_clock).
    destruct (CheckIfDue _ _) as [[[] s2]|]; simpl_res; [apply IH|done..]. }
  assert (advance_clock (C := int_clock) s = advance_clock (C := long_clock) s) as Ha.
  { unfold advance_clock. case_bool_decide; by rewrite Hn, ?Hs, ?Hu. }
  unfold OneTick. by rewrite Ha, Hall.
Qed.

(** The idle machine, with a clock that does not end.  With no pending interrupt, or only the time-slice
    timer, [Idle] halts; otherwise it terminates with the clock moved to the
    time of the first pending interrupt (never backwards), that interrupt and
    every other due one fired, except possibly a last lone timer, and the
    skipped time accounted as idle. *)
Theorem idle_advances_or_halts {C : Clock} `{!DeviceLaws F L D} (s : Sim L D) :
  boundless → sim_ok dev_ok s → quiet s →
  match queue s with
  | [] => Idle s = Stop Halted
  | e :: q =>
      if bool_decide (q = [] ∧ type e.2 = TimerInt) then Idle s = Stop Halted
      else ∃ s', Idle s = Ok s' ∧ sim_ok dev_ok s' ∧ quiet s' ∧ now s' = Z.max (now s) e.1 ∧
                 status (interrupt s') = SystemMode ∧ yieldOnReturn (interrupt s') = false ∧
                 (due s' = [] ∨ lone_timer s')
  end.
Proof using All.
  intros Hbl Hok [Hl Hh]. set (si := set_status s IdleMode).
  assert (sim_ok dev_ok si) as Hoki by (destruct Hok; by split).
  assert (quiet si) as Hqi by by split.
  assert (queue si = queue s) as Hqu by done.
  assert (status (interrupt si) = IdleMode) as Hsti by done.
  assert (now si = now s) as Hni by done.
  unfold Idle. fold si. clearbody si. destruct (queue s) as [|[w x] q] eqn:Hq.
  - destruct (kl_sorted_remove_spec (pending (interrupt si)) (ok_wf _ _ Hoki)) as (p & E & _ & _).
    unfold CheckIfDue. rewrite (q_level _ Hqi). simpl. rewrite E.
    change (kl_elems (pending (interrupt si))) with (queue si). by rewrite Hqu.
  - case_bool_decide as Ht.
    + destruct Ht as [-> Ht].
      destruct (CheckIfDue_lone si true (λ _, Hbl) Hoki Hqi Hsti) as (s' & -> & _); [by exists (w, x)|done].
    + destruct (CheckIfDue_advance si (w, x) q Hbl Hoki Hqi) as (s1 & -> & Hok1 & Hq1 & Hst1 & Hn1).
      { intros ([w' x'] & Hq' & Ht'). rewrite Hqu in Hq'. simplify_eq; by apply Ht. }
      { done. }
      simpl_res. destruct (check_all_any (check_fuel s1) s1 Hok1 Hq1 (boundless_room _ _ Hbl) (due_fuel s1))
        as (s2 & -> & [Hw2 Hs2 Hb2 Hd2] & [Hl2 Hh2] & Hn2 & _ & Hdue).
      simpl. eexists. split; [reflexivity|]. split_and!; try done.
      change (now s2 = now s `max` w). by rewrite Hn2, Hn1, Hni.
Qed.
End spec.

(** The timer on a machine that has run for 95 ticks. *)
Definition L := NList.List (PendingInterrupt Timer.Handler).
Definition no_random : nat → Z := λ _, 0.
#[local] Existing Instance Timer.timer_devices.
#[local] Instance sample_devices : Devices Timer.Handler L Timer.Timer :=
  Timer.timer_devices no_random.
#[local] Instance sample_laws : DeviceLaws Timer.Handler L Timer.Timer :=
  Timer.timer_laws no_random (λ _, Z.le_refl 0).

Definition sample0 : Sim L Timer.Timer :=
  mkSim (mkInterrupt IntOn kl_new false false SystemMode)
    (mkStatistics 95 0 95 0 0 0 0 0 0 0 0) (Timer.mkTimer false 0).

Definition sample : Sim L Timer.Timer :=
  match Schedule sample0 Timer.TimerHandler 7 5 TimerInt with Ok s => s | Stop _ => sample0 end.

Lemma sample_sim_ok : sim_ok (dev_ok (D:=Timer.Timer)) sample.
Proof.
  destruct (Schedule_spec (D:=Timer.Timer) dev_ok sample0 Timer.TimerHandler 7 5 TimerInt)
    as (s & E & Hok & _); [|done|done|].
  - split; try done. apply kl_new_spec.
  - unfold sample. by rewrite E.
Qed.


(** Near the end of the clock the timer's next interrupt gets a negative time:
    it is due at once, and so is the one after it. *)
Section overflow.
Context {L' : Type} `{KeyedListLaws (PendingInterrupt Timer.Handler) L'}.
#[local] Instance overflow_devices : Devices Timer.Handler L' Timer.Timer :=
  Timer.timer_devices no_random.

Record stuck (s : Sim L' Timer.Timer) : Prop := mkStuck {
  st_list : kl_wf (pending (interrupt s));
  st_timer : rest s = Timer.mkTimer false 0;
  st_mode : status (interrupt s) = SystemMode;
  st_level : level (interrupt s) = IntOff;
  st_now : two31 - TimerTicks ≤ now s < two31;
  st_due : ∃ w, w ≤ now s ∧ queue s = [(w, mkPending Timer.TimerHandler 7 w TimerInt)];
}.

Lemma stuck_round s : stuck s → ∃ s', CheckIfDue s false = Ok (true, s') ∧ stuck s'.
Proof using All.
  intros [Hw Ht Hm Hl Hn (w & Hle & Hq)]. unfold CheckIfDue. rewrite Hl. simpl.
  destruct (kl_sorted_remove_spec (pending (interrupt s)) Hw) as (p & E & Hwp & Hp). rewrite E.
  change (kl_elems (pending (interrupt s))) with (queue s) in *. rewrite Hq in *. simpl in Hp. simpl.
  rewrite Z.gtb_ltb, (proj2 (Z.ltb_ge _ _)) by exact Hle. rewrite Hm. simpl.
  unfold invoke. simpl. unfold Timer.TimerExpired. simpl. rewrite Ht. simpl.
  unfold Schedule. simpl. change (totalTicks (stats s)) with (now s).
  assert (s32 (now s + TimerTicks) = now s + TimerTicks - two32) as Hneg.
  { unfold s32, two31, two32, TimerTicks in *.
    rewrite <- (Z.mod_unique (now s + 100 + 2147483648) 4294967296 1 (now s + 100 + 2147483648 - 4294967296)).
    - lia.
    - left. lia.
    - lia. }
  rewrite Hneg.
  destruct (kl_sorted_insert_spec p (mkPending Timer.TimerHandler 7 (now s + TimerTicks - two32) TimerInt)
    (now s + TimerTicks - two32) Hwp) as (p' & E' & Hwp' & Hp'). rewrite E'. simpl.
  eexists. split; [reflexivity|]. split; try done.
  exists (now s + TimerTicks - two32). split; [change (now s + TimerTicks - two32 ≤ now s); unfold two32, TimerTicks; lia|].
  change (kl_elems p' = [(now s + TimerTicks - two32,
    mkPending Timer.TimerHandler 7 (now s + TimerTicks - two32) TimerInt)]). by rewrite Hp', Hp.
Qed.

Lemma stuck_forever n s : stuck s → check_all n s = Stop OutOfFuel.
Proof using All.
  revert s. induction n as [|n IH]; intros s Hs; [done|]. simpl.
  destruct (stuck_round s Hs) as (s' & -> & Hs'). by apply IH.
Qed.
End overflow.

Definition late : Sim L Timer.Timer :=
  let s := mkSim (mkInterrupt IntOn kl_new false false SystemMode)
             (mkStatistics (two31 - 60) 0 (two31 - 60) 0 0 0 0 0 0 0 0) (Timer.mkTimer false 0) in
  match Schedule s Timer.TimerHandler 7 5 TimerInt with Ok s => s | Stop _ => s end.

(** However long the loop of [OneTick] runs, it does not end. *)
Lemma clock_overflow_hangs n : check_all n (ChangeLevel (advance_clock late) IntOff) = Stop OutOfFuel.
Proof.
  apply stuck_forever. split; [|vm_compute; reflexivity..| |].
  - unfold late. set (s0 := mkSim _ _ _).
    destruct (Schedule_spec (D:=Timer.Timer) dev_ok s0 Timer.TimerHandler 7 5 TimerInt)
      as (s & E & [Hw _ _ _] & _); [split; try done; apply kl_new_spec|done|done|].
    cbv zeta. fold s0. rewrite E. unfold advance_clock. by case_bool_decide.
  - vm_compute. split; [discriminate|reflexivity].
  - exists (two31 - 55). split; [vm_compute; discriminate|vm_compute; reflexivity].
Qed.

Definition idle_sample : Sim L Timer.Timer := set_level sample IntOff.

Lemma idle_advances_or_halts_witness :
  Idle (C := long_clock) idle_sample = Stop Halted.
Proof.
  exact (idle_advances_or_halts (C := long_clock)
    (DeviceLaws0 := Timer.timer_laws (C := long_clock) no_random (λ _, Z.le_refl 0)) idle_sample
    boundless_long (mkSimOk (λ _, True) idle_sample (ok_wf _ _ sample_sim_ok) (ok_sorted _ _ sample_sim_ok)
      (ok_ticks _ _ sample_sim_ok) I) (mkQuiet idle_sample eq_refl eq_refl)).
Defined.
End InterruptSpec.

(** The devices of the other files run on the clock that does not end. *)
#[export] Existing Instance long_clock.
