(* ===== verification/Disk.v ===== *)
(** * The disk (machine/disk.cc) and its synchronous interface (filesys/synchdisk.cc)

    The physical disk: a UNIX file holding the sectors behind a magic number,
    one request at a time, an interrupt when it completes, and the rotational
    latency model.  [SynchDisk] turns a request into a call that returns when
    the interrupt has arrived.

    The file system uses the disk through the interface [SectorDevice]. *)

From S2P Require Import Prelude NList Machine Interrupt.

Definition SectorsPerTrack : Z := 32.
Definition NumTracks : Z := 32.
Definition NumSectors : Z := SectorsPerTrack * NumTracks.
Definition MagicNumber : Z := 0x456789ab.
Definition MagicSize : Z := 4.
Definition DiskSize : Z := MagicSize + NumSectors * SectorSize.

#[global] Arguments read_bytes : simpl never.
#[global] Arguments write_bytes : simpl never.

(** ** The interface of a sector device *)

Class SectorDevice (T : Type) := {
  sd_ok : T → Prop;
  sd_sector : T → Z → list Z;            (* the bytes of a sector *)
  sd_read : Z → T → res (list Z * T);
  sd_write : Z → list Z → T → res T;
}.

Definition is_sector (n : Z) : Prop := 0 ≤ n < NumSectors.
#[export] Instance is_sector_dec n : Decision (is_sector n).
Proof. unfold is_sector. apply _. Defined.

(** A sector's worth of bytes. *)
Definition sector_data (bs : list Z) : Prop := length bs = Z.to_nat SectorSize ∧ Forall is_u8 bs.

Class SectorDeviceLaws (T : Type) `{SectorDevice T} := {
  sd_data (d : T) n : sd_ok d → is_sector n → sector_data (sd_sector d n);
  sd_read_spec (d : T) n : sd_ok d → is_sector n →
    ∃ d', sd_read n d = Ok (sd_sector d n, d') ∧ sd_ok d' ∧
          ∀ k, is_sector k → sd_sector d' k = sd_sector d k;
  sd_write_spec (d : T) n bs : sd_ok d → is_sector n → sector_data bs →
    ∃ d', sd_write n bs d = Ok d' ∧ sd_ok d' ∧
          ∀ k, is_sector k → sd_sector d' k = if bool_decide (k = n) then bs else sd_sector d k;
  sd_read_range (d : T) n : ¬ is_sector n → sd_read n d = Stop AssertFailed;
  sd_write_range (d : T) n bs : length bs = Z.to_nat SectorSize → ¬ is_sector n →
    sd_write n bs d = Stop AssertFailed;
}.

(** ** The physical disk *)

Module Disk.

(** The UNIX file that holds the disk: its bytes (an absent byte is 0) and its
    length.  A [Read] past the end comes back short, which the wrapper of
    sysdep.cc catches. *)
Record UnixFile := mkFile {
  contents : gmap Z Z;
  file_length : Z;
}.

Definition Read (f : UnixFile) (offset n : Z) : res (list Z) :=
  ASSERT (offset + n <=? file_length f);; Ok (read_bytes (contents f) offset (Z.to_nat n)).

Definition WriteFile (f : UnixFile) (offset : Z) (bs : list Z) : UnixFile :=
  mkFile (write_bytes (contents f) offset bs)
    (Z.max (file_length f) (offset + Z.of_nat (length bs))).

Record Disk := mkDisk {
  fileno : UnixFile;
  active : bool;
  lastSector : Z;
  bufferInit : Z;
}.

(** The constructor: [existing] is the UNIX file of that name, if there is one. *)
Definition Disk_new (existing : option UnixFile) : res Disk :=
  f ← match existing with
      | Some f =>
          bs ← Read f 0 MagicSize;
          ASSERT (s32 (le_value bs) =? MagicNumber);; Ok f
      | None =>
          let f := WriteFile (mkFile ∅ 0) 0 (le_bytes 4 MagicNumber) in
          Ok (WriteFile f (DiskSize - 4) (le_bytes 4 0))
      end;
  Ok (mkDisk f false 0 0).

Section timing.
Context (now : Z) (d : Disk).

(** The seek time and the wait for the next sector boundary. *)
Definition TimeToSeek (newSector : Z) : Z * Z :=
  let newTrack := Z.quot newSector SectorsPerTrack in
  let oldTrack := Z.quot (lastSector d) SectorsPerTrack in
  let seek := Z.abs (newTrack - oldTrack) * SeekTime in
  let over := Z.rem (now + seek) RotationTime in
  (seek, if over >? 0 then RotationTime - over else 0).

Definition ModuloDiff (to from : Z) : Z :=
  let toOffset := Z.rem to SectorsPerTrack in
  let fromOffset := Z.rem from SectorsPerTrack in
  Z.rem ((toOffset - fromOffset) + SectorsPerTrack) SectorsPerTrack.

(** The request can be served from the track buffer. *)
Definition buffered (newSector : Z) (writing : bool) : bool :=
  let '(seek, rotation) := TimeToSeek newSector in
  let timeAfter := now + seek + rotation in
  negb writing && (seek =? 0) &&
  (Z.quot (timeAfter - bufferInit d) RotationTime
     >? ModuloDiff newSector (Z.quot (bufferInit d) RotationTime)).

Definition ComputeLatency (newSector : Z) (writing : bool) : Z :=
  let '(seek, rotation) := TimeToSeek newSector in
  let timeAfter := now + seek + rotation in
  if buffered newSector writing then RotationTime
  else
    let rotation := rotation + ModuloDiff newSector (Z.quot timeAfter RotationTime) * RotationTime in
    seek + rotation + RotationTime.

Definition UpdateLast (newSector : Z) : Disk :=
  let '(seek, rotate) := TimeToSeek newSector in
  mkDisk (fileno d) (active d) newSector
    (if seek =? 0 then bufferInit d else now + seek + rotate).
End timing.

Definition with_active (d : Disk) (b : bool) : Disk :=
  mkDisk (fileno d) b (lastSector d) (bufferInit d).
Definition with_file (d : Disk) (f : UnixFile) : Disk :=
  mkDisk f (active d) (lastSector d) (bufferInit d).

(** The parts of a request on the disk itself: the data and the disk
    afterwards; the delay after which the interrupt is due. *)
Definition ReadRequest (now : Z) (d : Disk) (sectorNumber : Z) : res (list Z * Disk * Z) :=
  let ticks := ComputeLatency now d sectorNumber false in
  ASSERT (negb (active d));;
  ASSERT ((sectorNumber >=? 0) && (sectorNumber <? NumSectors));;
  data ← Read (fileno d) (SectorSize * sectorNumber + MagicSize) SectorSize;
  Ok (data, UpdateLast now (with_active d true) sectorNumber, ticks).

(** [data] points at [SectorSize] bytes. *)
Definition WriteRequest (now : Z) (d : Disk) (sectorNumber : Z) (data : list Z)
    : res (Disk * Z) :=
  let ticks := ComputeLatency now d sectorNumber true in
  ASSERT (negb (active d));;
  ASSERT ((sectorNumber >=? 0) && (sectorNumber <? NumSectors));;
  if bool_decide (length data = Z.to_nat SectorSize) then
    let f := WriteFile (fileno d) (SectorSize * sectorNumber + MagicSize) data in
    Ok (UpdateLast now (with_active (with_file d f) true) sectorNumber, ticks)
  else Stop Undefined.

(** [HandleInterrupt], up to the call of the kernel's handler. *)
Definition HandleInterrupt (d : Disk) : Disk := with_active d false.

(** The disk's file has its full length and holds bytes. *)
Record wf (d : Disk) : Prop := mkWf {
  wf_length : file_length (fileno d) = DiskSize;
  wf_bytes : map_Forall (λ _, is_u8) (contents (fileno d));
  wf_magic : read_bytes (contents (fileno d)) 0 4 = le_bytes 4 MagicNumber;
  wf_last : is_sector (lastSector d);
  wf_init : 0 ≤ bufferInit d;
}.

(** The bytes of a sector. *)
Definition sector (d : Disk) (n : Z) : list Z :=
  read_bytes (contents (fileno d)) (SectorSize * n + MagicSize) (Z.to_nat SectorSize).

(** ** Facts about the disk *)

Section facts.
Implicit Types d : Disk.

Lemma sector_range_test n : ((n >=? 0) && (n <? NumSectors)) = bool_decide (is_sector n).
Proof.
  unfold is_sector. rewrite Z.geb_leb.
  destruct (Z.leb_spec 0 n), (Z.ltb_spec n NumSectors); case_bool_decide; done || lia.
Qed.

Lemma sector_is_data d n : wf d → sector_data (sector d n).
Proof.
  intros Hwf. split; [apply length_read_bytes|]. apply read_bytes_u8, Hwf.
Qed.

Lemma UpdateLast_wf now d n : 0 ≤ now → wf d → is_sector n → wf (UpdateLast now d n).
Proof.
  intros Hn [Hl Hb Hmg Hls Hbi] Hs. unfold UpdateLast, TimeToSeek. split; simpl; try done.
  case_match; [done|].
  assert (0 ≤ Z.rem (now + Z.abs (Z.quot n SectorsPerTrack - Z.quot (lastSector d) SectorsPerTrack)
    * SeekTime) RotationTime < RotationTime) by (apply Z.rem_bound_pos; unfold SeekTime; lia || done).
  case_match; unfold SeekTime in *; lia.
Qed.

Lemma ReadRequest_spec now d n :
  0 ≤ now → wf d → active d = false → is_sector n →
  ∃ d', ReadRequest now d n = Ok (sector d n, d', ComputeLatency now d n false) ∧ wf d' ∧
        active d' = true ∧ ∀ k, sector d' k = sector d k.
Proof.
  intros Hn Hwf Ha Hs. unfold ReadRequest. rewrite Ha, sector_range_test, bool_decide_eq_true_2 by done.
  simpl. unfold Read. rewrite (wf_length d Hwf).
  assert ((SectorSize * n + MagicSize + SectorSize <=? DiskSize) = true) as ->.
  { apply Z.leb_le. unfold is_sector, DiskSize, NumSectors, SectorSize in *. lia. }
  simpl. eexists. split; [reflexivity|]. split_and!; try done.
  apply UpdateLast_wf; try done. destruct Hwf. by split.
Qed.

Lemma WriteRequest_spec now d n bs :
  0 ≤ now → wf d → active d = false → is_sector n → sector_data bs →
  ∃ d', WriteRequest now d n bs = Ok (d', ComputeLatency now d n true) ∧ wf d' ∧
        active d' = true ∧
        ∀ k, sector d' k = if bool_decide (k = n) then bs else sector d k.
Proof.
  intros Hn Hwf Ha Hs [Hlen Hbs]. unfold WriteRequest.
  rewrite Ha, sector_range_test, !bool_decide_eq_true_2 by done. simpl.
  eexists. split; [reflexivity|]. split_and!; try done.
  - apply UpdateLast_wf; try done. destruct Hwf as [Hl Hb Hmg Hls Hbi]. split; simpl; try done.
    + rewrite Hl. unfold is_sector, DiskSize, NumSectors, SectorSize in *. lia.
    + by apply write_bytes_u8.
    + rewrite read_write_disjoint; [done|]. left. unfold is_sector, MagicSize, SectorSize in *. lia.
  - intros k. unfold sector. simpl. case_bool_decide as Hk.
    + subst k. rewrite <- Hlen. apply read_write_same.
    + apply read_write_disjoint. rewrite Hlen. unfold SectorSize. lia.
Qed.

(** A new disk, and a disk whose UNIX file already exists. *)
Lemma Disk_new_spec : ∃ d, Disk_new None = Ok d ∧ wf d ∧ active d = false.
Proof.
  eexists. split; [reflexivity|]. split; [|done]. split; simpl; try done.
  apply write_bytes_u8; [|apply (le_bytes_u8 4)].
  apply write_bytes_u8; [apply map_Forall_empty|apply (le_bytes_u8 4)].
Qed.

Lemma Disk_reopen d :
  wf d → ∃ d', Disk_new (Some (fileno d)) = Ok d' ∧ wf d' ∧ active d' = false ∧
               fileno d' = fileno d.
Proof.
  intros [Hl Hb Hmg Hls Hbi]. unfold Disk_new, Read. rewrite Hl.
  change (Z.to_nat MagicSize) with 4%nat. rewrite Hmg.
  eexists. split; [reflexivity|]. split; [by split|]. done.
Qed.

Lemma request_busy now d n bs :
  active d = true →
  ReadRequest now d n = Stop AssertFailed ∧ WriteRequest now d n bs = Stop AssertFailed.
Proof. intros Ha. unfold ReadRequest, WriteRequest. by rewrite Ha. Qed.

Lemma ModuloDiff_spec to from :
  0 ≤ to → 0 ≤ from →
  0 ≤ ModuloDiff to from < SectorsPerTrack ∧
  (from + ModuloDiff to from) mod SectorsPerTrack = to mod SectorsPerTrack.
Proof.
  intros Ht Hf. unfold ModuloDiff.
  assert (0 < SectorsPerTrack) by done.
  rewrite (Z.rem_mod_nonneg to), (Z.rem_mod_nonneg from) by lia.
  pose proof (Z.mod_pos_bound to SectorsPerTrack). pose proof (Z.mod_pos_bound from SectorsPerTrack).
  rewrite Z.rem_mod_nonneg by lia. split; [by apply Z.mod_pos_bound|].
  rewrite Zplus_mod_idemp_r.
  replace (from + (to mod SectorsPerTrack - from mod SectorsPerTrack + SectorsPerTrack))
    with (to mod SectorsPerTrack + (from - from mod SectorsPerTrack) + 1 * SectorsPerTrack) by lia.
  rewrite Z_mod_plus_full. rewrite Zplus_mod, Zmod_mod.
  rewrite (Zminus_mod_idemp_r from from), Z.sub_diag, Zmod_0_l, Z.add_0_r, Zmod_mod. done.
Qed.

Lemma TimeToSeek_spec now d n :
  0 ≤ now → is_sector (lastSector d) → is_sector n →
  let '(seek, rotation) := TimeToSeek now d n in
  seek = Z.abs (n / SectorsPerTrack - lastSector d / SectorsPerTrack) * SeekTime ∧
  0 ≤ seek ≤ (NumTracks - 1) * SeekTime ∧ 0 ≤ rotation < RotationTime ∧
  (now + seek + rotation) mod RotationTime = 0.
Proof.
  unfold is_sector, NumSectors, SectorsPerTrack, NumTracks. intros Hn Hl Hs. unfold TimeToSeek.
  unfold SectorsPerTrack, SeekTime, RotationTime.
  rewrite !Z.quot_div_nonneg by lia. set (seek := Z.abs (n / 32 - lastSector d / 32) * 500).
  assert (0 ≤ seek ≤ 31 * 500) as Hseek by (unfold seek; Z.div_mod_to_equations; lia).
  rewrite Z.rem_mod_nonneg by lia. clearbody seek.
  split_and!; try lia; destruct (Z.gtb_spec ((now + seek) mod 500) 0);
    Z.div_mod_to_equations; lia.
Qed.

Lemma ComputeLatency_pos now d n w :
  0 ≤ now → is_sector (lastSector d) → is_sector n → 0 < ComputeLatency now d n w.
Proof.
  intros Hn Hl Hs. pose proof (TimeToSeek_spec now d n Hn Hl Hs) as Ht. unfold ComputeLatency.
  destruct (TimeToSeek now d n) as [seek rotation]. destruct Ht as (_ & Hseek & Hr & _).
  case_match; [done|].
  pose proof (ModuloDiff_spec n (Z.quot (now + seek + rotation) RotationTime)) as Hm.
  unfold RotationTime, SeekTime, is_sector in *.
  destruct Hm as [Hm _]; [lia|apply Z.quot_pos; lia|]. lia.
Qed.
End facts.
End Disk.

(** ** The synchronous disk *)

Module SynchDisk.

Inductive Handler := DiskDone.

(** The disk and the semaphore the caller waits on (its value); [Lock] is an
    empty class in threads/synch.cc, so acquiring it does nothing. *)
Record SynchDisk := mkSynchDisk {
  disk : Disk.Disk;
  semaphore : Z;
}.

Section synch.
Context {L : Type} `{KeyedList (PendingInterrupt Handler) L}.
Notation Sim := (Sim L SynchDisk).

Definition with_disk (s : Sim) (d : Disk.Disk) : Sim :=
  with_rest s (mkSynchDisk d (semaphore (rest s))).
Definition with_semaphore (s : Sim) (v : Z) : Sim :=
  with_rest s (mkSynchDisk (disk (rest s)) v).

(** [semaphore->V()] from the interrupt handler: the value is incremented (the
    waiting thread, if any, is the one that called [P] below). *)
Definition RequestDone (s : Sim) : Sim := with_semaphore s (semaphore (rest s) + 1).

(** [DiskDone]: the disk's [HandleInterrupt], which calls [DiskRequestDone]. *)
Definition fire_disk (s : Sim) : res Sim :=
  Ok (RequestDone (with_disk s (Disk.HandleInterrupt (disk (rest s))))).

(** A machine with one thread and the disk. *)
#[export] Instance disk_devices : Devices Handler L SynchDisk := {|
  fire := λ _ _ s, fire_disk s;
  yield_thread := λ s, Ok s;
  delayed_load := λ d, Ok d;
|}.

(** The waiting loop of [Semaphore::P]: while the value is 0 the thread sleeps
    and, no other thread being ready, the machine idles. *)
Fixpoint wait (fuel : nat) (s : Sim) : res Sim :=
  match fuel with
  | O => Stop OutOfFuel
  | S fuel' =>
      if semaphore (rest s) =? 0 then s' ← Idle s; wait fuel' s'
      else Ok (with_semaphore s (semaphore (rest s) - 1))
  end.

Definition P (s : Sim) : res Sim :=
  '(oldLevel, s1) ← SetLevel s IntOff;
  s2 ← wait 2 s1;
  '(_, s3) ← SetLevel s2 oldLevel;
  Ok s3.

Definition count_read (st : Statistics) : Statistics :=
  mkStatistics (totalTicks st) (idleTicks st) (systemTicks st) (userTicks st)
    (numDiskReads st + 1) (numDiskWrites st) (numConsoleCharsRead st) (numConsoleCharsWritten st)
    (numPageFaults st) (numPacketsSent st) (numPacketsRecvd st).
Definition count_write (st : Statistics) : Statistics :=
  mkStatistics (totalTicks st) (idleTicks st) (systemTicks st) (userTicks st)
    (numDiskReads st) (numDiskWrites st + 1) (numConsoleCharsRead st) (numConsoleCharsWritten st)
    (numPageFaults st) (numPacketsSent st) (numPacketsRecvd st).

Definition ReadSector (sectorNumber : Z) (s : Sim) : res (list Z * Sim) :=
  '(data, d, ticks) ← Disk.ReadRequest (totalTicks (stats s)) (disk (rest s)) sectorNumber;
  let s1 := with_stats (with_disk s d) (count_read (stats s)) in
  s2 ← Schedule s1 DiskDone 0 ticks DiskInt;
  s3 ← P s2;
  Ok (data, s3).

Definition WriteSector (sectorNumber : Z) (data : list Z) (s : Sim) : res Sim :=
  '(d, ticks) ← Disk.WriteRequest (totalTicks (stats s)) (disk (rest s)) sectorNumber data;
  let s1 := with_stats (with_disk s d) (count_write (stats s)) in
  s2 ← Schedule s1 DiskDone 0 ticks DiskInt;
  P s2.

(** ** Every request completes *)

Context `{!KeyedListLaws (PendingInterrupt Handler) L}.

#[export] Instance disk_laws : DeviceLaws Handler L SynchDisk.
Proof using KeyedListLaws0.
  refine {| dev_ok := λ d, Disk.wf (disk d); horizon := 0 |}; [done| |].
  - intros d Hd. by exists d.
  - intros h a s [Hw Hs Hb Hd] Hl Hh Hst _. eexists. split; [reflexivity|].
    split; [split; try done; destruct Hd; by split|]. split; try done. by exists [].
Defined.

(** Between two requests: the disk is idle and no interrupt is pending. *)
Record ready (s : Sim) : Prop := mkReady {
  rd_sim : sim_ok dev_ok s;
  rd_time : 0 ≤ now s;
  rd_level : level (interrupt s) = IntOn;
  rd_handler : inHandler (interrupt s) = false;
  rd_status : status (interrupt s) = SystemMode;
  rd_yield : yieldOnReturn (interrupt s) = false;
  rd_idle : Disk.active (disk (rest s)) = false;
  rd_sem : semaphore (rest s) = 0;
  rd_queue : queue s = [];
}.

(** A request has been sent to the disk. *)
Record busy (s : Sim) : Prop := mkBusy {
  bs_sim : sim_ok dev_ok s;
  bs_time : 0 ≤ now s;
  bs_level : level (interrupt s) = IntOn;
  bs_handler : inHandler (interrupt s) = false;
  bs_status : status (interrupt s) = SystemMode;
  bs_yield : yieldOnReturn (interrupt s) = false;
  bs_sem : semaphore (rest s) = 0;
  bs_queue : ∃ t, now s < t ∧ queue s = [(t, mkPending DiskDone 0 t DiskInt)];
}.

(** The idle machine takes the disk interrupt off the queue. *)
Lemma CheckIfDue_disk s t :
  kl_wf (pending (interrupt s)) → level (interrupt s) = IntOff →
  yieldOnReturn (interrupt s) = false → now s < t →
  queue s = [(t, mkPending DiskDone 0 t DiskInt)] →
  ∃ p, kl_wf p ∧ kl_elems p = [] ∧ CheckIfDue s true =
    Ok (true, mkSim (mkInterrupt IntOff p false false (status (interrupt s)))
                (with_ticks (stats s) t (idleTicks (stats s) + (t - now s))
                   (systemTicks (stats s)) (userTicks (stats s)))
                (mkSynchDisk (Disk.HandleInterrupt (disk (rest s))) (semaphore (rest s) + 1))).
Proof using KeyedListLaws0.
  intros Hw Hl Hy Hnow Hq. unfold CheckIfDue. rewrite Hl. simpl.
  destruct (kl_sorted_remove_spec (pending (interrupt s)) Hw) as (p & -> & Hwp & Hp).
  unfold queue in Hq. rewrite Hq in *. simpl in Hp |- *.
  exists p. split; [done|]. split; [done|]. unfold now in *.
  rewrite (proj2 (Z.gtb_lt t (totalTicks (stats s))) Hnow), andb_false_r. simpl.
  unfold invoke, fire_disk, set_inHandler, set_status, set_pending, set_level, RequestDone,
    with_semaphore, with_disk, with_rest, with_stats, with_interrupt. simpl. by rewrite Hl, Hy.
Qed.

(** The machine idles until the disk interrupt arrives. *)
Lemma Idle_disk s t :
  kl_wf (pending (interrupt s)) → level (interrupt s) = IntOff →
  yieldOnReturn (interrupt s) = false → now s < t →
  queue s = [(t, mkPending DiskDone 0 t DiskInt)] →
  ∃ p, kl_wf p ∧ kl_elems p = [] ∧ Idle s =
    Ok (mkSim (mkInterrupt IntOff p false false SystemMode)
          (with_ticks (stats s) t (idleTicks (stats s) + (t - now s))
             (systemTicks (stats s)) (userTicks (stats s)))
          (mkSynchDisk (Disk.HandleInterrupt (disk (rest s))) (semaphore (rest s) + 1))).
Proof using KeyedListLaws0.
  intros Hw Hl Hy Hnow Hq.
  destruct (CheckIfDue_disk (set_status s IdleMode) t) as (p & Hwp & Hp & E1); [done..|].
  unfold Idle. rewrite E1. simpl_res.
  match type of E1 with _ = Ok (_, ?s0) => set (s1 := s0) end.
  destruct (check_all_empty s1) as (p' & -> & Hwp' & Hp'); [done|done|exact Hp|].
  exists p'. done.
Qed.

Lemma wait_spec s :
  busy s → ∃ s', wait 2 (set_level s IntOff) = Ok s' ∧ sim_ok dev_ok s' ∧ now s ≤ now s' ∧
    level (interrupt s') = IntOff ∧ inHandler (interrupt s') = false ∧
    status (interrupt s') = SystemMode ∧ yieldOnReturn (interrupt s') = false ∧
    rest s' = mkSynchDisk (Disk.HandleInterrupt (disk (rest s))) 0 ∧ queue s' = [].
Proof using KeyedListLaws0.
  intros [[Hw Hso Hb Hd] Ht Hl Hh Hst Hy Hsem (t & Hnow & Hq)].
  destruct (Idle_disk (set_level s IntOff) t) as (p & Hwp & Hp & E); [done..|].
  simpl in E. rewrite Hsem in E.
  eexists. split; [unfold wait; simpl; rewrite Hsem, E; reflexivity|].
  split_and!; try done.
  - split; [done| | |].
    + change (keys_sorted (kl_elems p)). by rewrite Hp.
    + unfold balanced, now in *. simpl. lia.
    + destruct Hd as [? ? ? ? ?]. by split.
  - unfold now in *. simpl. lia.
Qed.

Lemma P_spec s :
  busy s → ∃ s', P s = Ok s' ∧ ready s' ∧
    disk (rest s') = Disk.HandleInterrupt (disk (rest s)).
Proof using KeyedListLaws0.
  intros Hbusy. pose proof Hbusy as [_ Ht Hl Hh Hst _ _ _].
  destruct (wait_spec s Hbusy) as (s2 & E2 & [Hw Hso Hb Hd] & Hn & Hl2 & Hh2 & Hst2 & Hy2 & Hr & Hq).
  unfold P. assert (SetLevel s IntOff = Ok (IntOn, set_level s IntOff)) as ->.
  { unfold SetLevel. simpl. by rewrite Hl. }
  simpl_res. rewrite E2. simpl_res.
  destruct (OneTick_empty (ChangeLevel s2 IntOn)) as (p & E3 & Hwp & Hp); [done..|].
  assert (SetLevel s2 IntOn =
    Ok (IntOff, ChangeLevel (set_pending (ChangeLevel (advance_clock (ChangeLevel s2 IntOn)) IntOff) p)
                  IntOn)) as ->.
  { unfold SetLevel. rewrite Hh2, Hl2. simpl. by rewrite E3. }
  eexists. split; [reflexivity|].
  assert (rest (advance_clock (ChangeLevel s2 IntOn)) = rest s2) as Hrest.
  { unfold advance_clock. by case_bool_decide. }
  split; [|simpl; by rewrite Hrest, Hr].
  assert (interrupt (advance_clock (ChangeLevel s2 IntOn)) = interrupt (ChangeLevel s2 IntOn)) as Hi.
  { unfold advance_clock. by case_bool_decide. }
  assert (balanced (stats (advance_clock (ChangeLevel s2 IntOn))) ∧
          now s2 ≤ totalTicks (stats (advance_clock (ChangeLevel s2 IntOn)))) as [Hb3 Hn3].
  { unfold advance_clock, balanced, now, SystemTick, UserTick in *.
    case_bool_decide; simpl; lia. }
  split; simpl; rewrite ?Hrest, ?Hi, ?Hr; try done.
  - split; simpl; rewrite ?Hrest, ?Hr; try done.
    + change (keys_sorted (kl_elems p)). by rewrite Hp.
    + by rewrite Hr in Hd.
  - unfold now in *. simpl. lia.
Qed.

(** Scheduling the disk interrupt makes the machine [busy]. *)
Lemma request_in_progress s d st ticks :
  ready s → Disk.wf d → totalTicks st = now s → balanced st → 0 < ticks →
  ∃ s2, Schedule (with_stats (with_disk s d) st) DiskDone 0 ticks DiskInt = Ok s2 ∧
        busy s2 ∧ disk (rest s2) = d.
Proof using KeyedListLaws0.
  intros [[Hw Hso Hb Hd] Ht Hl Hh Hst Hy Ha Hsem Hq] Hwd Htot Hbal Hticks.
  destruct (Schedule_spec dev_ok (with_stats (with_disk s d) st) DiskDone 0 ticks DiskInt)
    as (s2 & E & Hok & [Hn2 Hl2 Hh2 Hst2 _] & Hr & Hq2); [by split|done..|].
  assert (yieldOnReturn (interrupt s2) = false) as Hy2.
  { unfold Schedule in E. rewrite (proj2 (Z.gtb_lt ticks 0) Hticks) in E. simpl in E.
    apply bind_ok in E as (p & _ & E). by injection E as <-. }
  change (queue (with_stats (with_disk s d) st)) with (queue s) in Hq2.
  change (now (with_stats (with_disk s d) st)) with (totalTicks st) in *.
  exists s2. split; [done|]. split; [|by rewrite Hr].
  split; try done.
  - lia.
  - by rewrite Hl2.
  - by rewrite Hh2.
  - by rewrite Hst2.
  - by rewrite Hr.
  - exists (totalTicks st + ticks). split; [lia|]. rewrite Hq2, Hq. done.
Qed.

Lemma ReadSector_spec s n :
  ready s → is_sector n →
  ∃ s', ReadSector n s = Ok (Disk.sector (disk (rest s)) n, s') ∧ ready s' ∧
        ∀ k, Disk.sector (disk (rest s')) k = Disk.sector (disk (rest s)) k.
Proof using KeyedListLaws0.
  intros Hr Hn. pose proof (rd_time s Hr) as Ht.
  assert (Disk.wf (disk (rest s))) as Hwf by exact (ok_dev _ _ (rd_sim s Hr)).
  unfold ReadSector.
  destruct (Disk.ReadRequest_spec (now s) (disk (rest s)) n Ht Hwf (rd_idle s Hr) Hn)
    as (d & E & Hwd & Ha & Hsec). unfold now in E. rewrite E. simpl_res.
  destruct (request_in_progress s d (count_read (stats s))
    (Disk.ComputeLatency (totalTicks (stats s)) (disk (rest s)) n false))
    as (s2 & -> & Hbusy & Hd2); [done|done|done|exact (ok_ticks _ _ (rd_sim s Hr))|
      apply Disk.ComputeLatency_pos; [done|apply Hwf|done]|].
  destruct (P_spec s2 Hbusy) as (s3 & -> & Hready & Hd3).
  exists s3. split; [done|]. split; [done|]. intros k. rewrite Hd3, Hd2. exact (Hsec k).
Qed.

Lemma WriteSector_spec s n bs :
  ready s → is_sector n → sector_data bs →
  ∃ s', WriteSector n bs s = Ok s' ∧ ready s' ∧
        ∀ k, Disk.sector (disk (rest s')) k
             = if bool_decide (k = n) then bs else Disk.sector (disk (rest s)) k.
Proof using KeyedListLaws0.
  intros Hr Hn Hbs. pose proof (rd_time s Hr) as Ht.
  assert (Disk.wf (disk (rest s))) as Hwf by exact (ok_dev _ _ (rd_sim s Hr)).
  unfold WriteSector.
  destruct (Disk.WriteRequest_spec (now s) (disk (rest s)) n bs Ht Hwf (rd_idle s Hr) Hn Hbs)
    as (d & E & Hwd & Ha & Hsec). unfold now in E. rewrite E. simpl_res.
  destruct (request_in_progress s d (count_write (stats s))
    (Disk.ComputeLatency (totalTicks (stats s)) (disk (rest s)) n true))
    as (s2 & -> & Hbusy & Hd2); [done|done|done|exact (ok_ticks _ _ (rd_sim s Hr))|
      apply Disk.ComputeLatency_pos; [done|apply Hwf|done]|].
  destruct (P_spec s2 Hbusy) as (s3 & -> & Hready & Hd3).
  exists s3. split; [done|]. split; [done|]. intros k. rewrite Hd3, Hd2. exact (Hsec k).
Qed.

(** The synchronous disk is a sector device. *)
#[export] Instance synch_device : SectorDevice Sim := {|
  sd_ok := ready;
  sd_sector := λ s, Disk.sector (disk (rest s));
  sd_read := ReadSector;
  sd_write := WriteSector;
|}.

#[export] Instance synch_device_laws : SectorDeviceLaws Sim.
Proof using KeyedListLaws0.
  split; simpl.
  - intros s n Hr _. apply Disk.sector_is_data. exact (ok_dev _ _ (rd_sim s Hr)).
  - intros s n Hr Hn. destruct (ReadSector_spec s n Hr Hn) as (s' & ? & ? & ?). by exists s'.
  - intros s n bs Hr Hn Hb. destruct (WriteSector_spec s n bs Hr Hn Hb) as (s' & ? & ? & ?).
    by exists s'.
  - intros s n Hn. unfold ReadSector, Disk.ReadRequest.
    rewrite Disk.sector_range_test, bool_decide_eq_false_2 by done.
    by destruct (Disk.active _).
  - intros s n bs Hl Hn. unfold WriteSector, Disk.WriteRequest.
    rewrite Disk.sector_range_test, (bool_decide_eq_false_2 (is_sector n)) by done.
    by destruct (Disk.active _).
Qed.
End synch.
End SynchDisk.

#[export] Existing Instance SynchDisk.synch_device.
#[export] Existing Instance SynchDisk.synch_device_laws.

(** ** The properties *)

Module DiskSpec.

(** The track buffer was started at boundary [bufferInit / RotationTime] of the
    rotation, and between it and the boundary [b] the sector [n] has passed
    under the head completely. *)
Definition passed (d : Disk.Disk) (n b : Z) : Prop :=
  ∃ j, Disk.bufferInit d / RotationTime ≤ j < b ∧ j mod SectorsPerTrack = n mod SectorsPerTrack.

(** The next boundary of a sector, at the time [now] or later. *)
Definition next_boundary (now : Z) : Z := (now + RotationTime - 1) / RotationTime.

Lemma next_boundary_spec now r :
  0 ≤ r < RotationTime → (now + r) mod RotationTime = 0 → (now + r) / RotationTime = next_boundary now.
Proof.
  unfold next_boundary, RotationTime. intros Hr Hm.
  pose proof (Z.div_mod (now + r) 500). pose proof (Z.div_mod (now + 500 - 1) 500).
  pose proof (Z.mod_pos_bound (now + 500 - 1) 500). lia.
Qed.

Lemma buffered_spec now d n writing :
  0 ≤ now → is_sector (Disk.lastSector d) → is_sector n →
  0 ≤ Disk.bufferInit d → Disk.bufferInit d mod RotationTime = 0 →
  Disk.buffered now d n writing = true ↔
  writing = false ∧ n / SectorsPerTrack = Disk.lastSector d / SectorsPerTrack ∧
  passed d n (next_boundary now).
Proof.
  intros Hn Hl Hs Hi Him. pose proof (Disk.TimeToSeek_spec now d n Hn Hl Hs) as Ht. unfold Disk.buffered.
  destruct (Disk.TimeToSeek now d n) as [seek rotation]. destruct Ht as (-> & _ & Hr & Hmod).
  rewrite !andb_true_iff, negb_true_iff, Z.eqb_eq, Z.gtb_lt, (Z.quot_div_nonneg (Disk.bufferInit d)) by (done || lia).
  destruct (Disk.ModuloDiff_spec n (Disk.bufferInit d / RotationTime)) as [Hd Hm].
  { apply Hs. }
  { apply Z.div_pos; done. }
  set (diff := Disk.ModuloDiff _ _) in *. set (start := Disk.bufferInit d / RotationTime) in *.
  assert (Disk.bufferInit d = start * RotationTime) as Hst.
  { pose proof (Z.div_mod (Disk.bufferInit d) RotationTime ltac:(done)). unfold start. lia. }
  destruct (decide (n / SectorsPerTrack = Disk.lastSector d / SectorsPerTrack)) as [Hsame|Hother].
  2:{ split; [|by intros (_ & ? & _)]. intros [[_ Hz] _]. unfold SeekTime in Hz. lia. }
  rewrite Hsame, Z.sub_diag in *. change (Z.abs 0 * SeekTime) with 0 in *. rewrite Z.add_0_r in *.
  pose proof (Z.div_mod (now + rotation) RotationTime ltac:(done)) as Hb.
  rewrite (next_boundary_spec now rotation Hr Hmod), Hmod in Hb. set (b := next_boundary now) in *.
  replace (now + rotation - Disk.bufferInit d) with ((b - start) * RotationTime) by lia.
  rewrite Z.quot_mul by done. unfold passed. fold start. split.
  - intros [[-> _] Hq]. split_and!; try done. exists (start + diff). split; [lia|done].
  - intros (-> & _ & j & Hj & Hjn). split_and!; try done.
    assert (diff = (j - start) mod SectorsPerTrack) as ->.
    { rewrite <- (Zminus_mod_idemp_l j), Hjn, <- Hm, Zminus_mod_idemp_l.
      replace (start + diff - start) with diff by lia. by rewrite Z.mod_small. }
    pose proof (Z.mod_le (j - start) SectorsPerTrack). unfold SectorsPerTrack in *. lia.
Qed.

(** A request that is not served from the track buffer. *)
Lemma latency_unbuffered now d n writing :
  0 ≤ now → is_sector (Disk.lastSector d) → is_sector n →
  Disk.buffered now d n writing = false →
  let latency := Disk.ComputeLatency now d n writing in
  let seek := Z.abs (n / SectorsPerTrack - Disk.lastSector d / SectorsPerTrack) * SeekTime in
  (now + latency) mod RotationTime = 0 ∧
  ((now + latency) / RotationTime) mod SectorsPerTrack = (n + 1) mod SectorsPerTrack ∧
  seek + RotationTime ≤ latency < seek + RotationTime + SectorsPerTrack * RotationTime.
Proof.
  intros Hn Hl Hs Hbuf. pose proof (Disk.TimeToSeek_spec now d n Hn Hl Hs) as Ht.
  unfold Disk.ComputeLatency. rewrite Hbuf.
  destruct (Disk.TimeToSeek now d n) as [seek rotation].
  destruct Ht as (-> & Hseek & Hr & Hmod). cbv zeta.
  set (seek := Z.abs _ * SeekTime) in *. set (after := now + seek + rotation) in *.
  assert (0 ≤ after) as Hafter by (unfold after, NumTracks, SeekTime in *; lia).
  rewrite Z.quot_div_nonneg by (done || lia).
  destruct (Disk.ModuloDiff_spec n (after / RotationTime)) as [Hd Hm].
  { apply Hs. }
  { apply Z.div_pos; done. }
  set (diff := Disk.ModuloDiff n (after / RotationTime)) in *.
  replace (now + (seek + (rotation + diff * RotationTime) + RotationTime))
    with (after + (diff + 1) * RotationTime) by (unfold after; lia).
  rewrite Z_mod_plus_full, Z.div_add by done. split; [exact Hmod|]. split.
  - rewrite Z.add_assoc, <- Zplus_mod_idemp_l, Hm, Zplus_mod_idemp_l. done.
  - unfold RotationTime, SectorsPerTrack in *. lia.
Qed.

(** C13. The latency of a request.  A read from the track that the head is on,
    of a sector that has passed under the head since the track buffer was
    started, takes the time of one transfer.  Every other request takes seek,
    rotation and transfer: when it is over, the disk is at a sector boundary
    and has just rotated past the requested sector, and the rotation is less
    than one turn after the next boundary.  The buffer is always started at a
    boundary. *)
Theorem latency_passes_sector now d n writing :
  0 ≤ now → is_sector (Disk.lastSector d) → is_sector n →
  0 ≤ Disk.bufferInit d → Disk.bufferInit d mod RotationTime = 0 →
  let latency := Disk.ComputeLatency now d n writing in
  let seek := Z.abs (n / SectorsPerTrack - Disk.lastSector d / SectorsPerTrack) * SeekTime in
  let served := writing = false ∧ n / SectorsPerTrack = Disk.lastSector d / SectorsPerTrack ∧
                passed d n (next_boundary now) in
  (served → latency = RotationTime) ∧
  (¬ served →
    (now + latency) mod RotationTime = 0 ∧
    ((now + latency) / RotationTime) mod SectorsPerTrack = (n + 1) mod SectorsPerTrack ∧
    seek + RotationTime ≤ latency < seek + RotationTime + SectorsPerTrack * RotationTime) ∧
  Disk.bufferInit (Disk.UpdateLast now d n) mod RotationTime = 0.
Proof.
  intros Hn Hl Hs Hi Him latency seek served. unfold latency, seek, served.
  rewrite <- (buffered_spec now d n writing) by done. split_and!.
  - intros Hbuf. unfold Disk.ComputeLatency. rewrite Hbuf. by destruct (Disk.TimeToSeek now d n).
  - intros Hbuf%not_true_is_false. by apply latency_unbuffered.
  - pose proof (Disk.TimeToSeek_spec now d n Hn Hl Hs) as Ht. unfold Disk.UpdateLast.
    destruct (Disk.TimeToSeek now d n) as [sk rot]. destruct Ht as (_ & _ & _ & Hmod). simpl.
    by destruct (sk =? 0).
Qed.

(** The synchronous disk.  A read returns exactly the bytes the last write
    of that sector stored, other sectors are untouched, both calls terminate
    (the completion interrupt arrives and the caller's P returns), and the disk
    is idle again afterwards. *)
Theorem sector_write_then_read {L} `{KeyedListLaws (PendingInterrupt SynchDisk.Handler) L}
    (s : Sim L SynchDisk.SynchDisk) n k bs :
  SynchDisk.ready s → is_sector n → is_sector k → sector_data bs →
  ∃ s1 s2, SynchDisk.WriteSector n bs s = Ok s1 ∧
    SynchDisk.ReadSector k s1
      = Ok (if bool_decide (k = n) then bs else Disk.sector (SynchDisk.disk (rest s)) k, s2) ∧
    SynchDisk.ready s2.
Proof.
  intros Hr Hn Hk Hbs.
  destruct (SynchDisk.WriteSector_spec s n bs Hr Hn Hbs) as (s1 & E1 & Hr1 & Hs1).
  destruct (SynchDisk.ReadSector_spec s1 k Hr1 Hk) as (s2 & E2 & Hr2 & _).
  exists s1, s2. split; [exact E1|]. split; [|exact Hr2]. rewrite E2, Hs1. done.
Qed.

(** The disk image survives a restart: reopening the UNIX file of a disk on
    which any sequence of sector writes was performed passes the check of the
    magic number and gives a disk with the same sectors. *)
Theorem disk_survives_restart {L} `{KeyedListLaws (PendingInterrupt SynchDisk.Handler) L}
    (s : Sim L SynchDisk.SynchDisk) (ws : list (Z * list Z)) :
  SynchDisk.ready s → Forall (λ w, is_sector w.1 ∧ sector_data w.2) ws →
  ∃ s' d, foldl (λ r w, s1 ← r; SynchDisk.WriteSector w.1 w.2 s1) (Ok s) ws = Ok s' ∧
    Disk.Disk_new (Some (Disk.fileno (SynchDisk.disk (rest s')))) = Ok d ∧
    ∀ n, Disk.sector d n = Disk.sector (SynchDisk.disk (rest s')) n.
Proof.
  intros Hr Hws. revert s Hr. induction Hws as [|[n bs] ws [Hn Hbs] _ IH]; intros s Hr; simpl.
  - destruct (Disk.Disk_reopen (SynchDisk.disk (rest s))) as (d & E & _ & _ & Hf).
    { exact (ok_dev _ _ (SynchDisk.rd_sim s Hr)). }
    exists s, d. split; [done|]. split; [exact E|]. intros k. unfold Disk.sector. by rewrite Hf.
  - destruct (SynchDisk.WriteSector_spec s n bs Hr Hn Hbs) as (s1 & E1 & Hr1 & _).
    simpl in E1. rewrite E1. by apply IH.
Qed.

(** A machine with a new, empty disk. *)
Definition L := NList.List (PendingInterrupt SynchDisk.Handler).

Definition sample : Sim L SynchDisk.SynchDisk :=
  mkSim (mkInterrupt IntOn kl_new false false SystemMode) Statistics_new
    (SynchDisk.mkSynchDisk
       (match Disk.Disk_new None with
        | Ok d => d | Stop _ => Disk.mkDisk (Disk.mkFile ∅ 0) true 0 0 end) 0).

Lemma sample_ready : SynchDisk.ready sample.
Proof.
  destruct Disk.Disk_new_spec as (d & E & Hwf & Ha). unfold sample. rewrite E.
  destruct (kl_new_spec (A:=PendingInterrupt SynchDisk.Handler) (L:=L)) as [Hw He].
  split; try done.
Qed.

Lemma sample_device : sd_ok sample.
Proof. exact sample_ready. Qed.

Definition stripes : list Z := concat (replicate 256 [170; 85]).

Lemma stripes_data : sector_data stripes.
Proof.
  split; [done|]. unfold stripes. apply Forall_concat, Forall_replicate.
  repeat constructor; unfold is_u8; lia.
Qed.

(** After 5000 ticks: sector 5 comes from the buffer, sector 20 does not. *)
Lemma latency_passes_sector_witness :
  let d := SynchDisk.disk (rest sample) in
  Disk.ComputeLatency 5000 d 5 false = RotationTime ∧
  (5000 + Disk.ComputeLatency 5000 d 20 false) / RotationTime mod SectorsPerTrack = 21.
Proof.
  assert (Disk.wf (SynchDisk.disk (rest sample))) as Hwf
    by exact (ok_dev _ _ (SynchDisk.rd_sim sample sample_ready)).
  pose proof (λ n (Hn : is_sector n), latency_passes_sector 5000 (SynchDisk.disk (rest sample)) n false
    ltac:(done) (Disk.wf_last _ Hwf) Hn (Disk.wf_init _ Hwf) eq_refl) as Hlat.
  split.
  - apply (Hlat 5); [done|]. split_and!; [done|reflexivity|]. exists 5. done.
  - refine (proj1 (proj2 (proj1 (proj2 (Hlat 20 ltac:(done))) _))).
    intros (_ & _ & j & Hj & Hm). change (0 ≤ j < 10) in Hj. change (j mod 32 = 20) in Hm.
    rewrite Z.mod_small in Hm by lia. lia.
Defined.

Lemma sector_write_then_read_witness :
  ∃ s1 s2, SynchDisk.WriteSector 5 stripes sample = Ok s1 ∧
           SynchDisk.ReadSector 5 s1 = Ok (stripes, s2).
Proof.
  destruct (sector_write_then_read sample 5 5 stripes sample_ready) as (s1 & s2 & E1 & E2 & _);
    [done|done|apply stripes_data|].
  exists s1, s2. split; [exact E1|exact E2].
Defined.

Lemma disk_survives_restart_witness :
  ∃ s' d, SynchDisk.WriteSector 5 stripes sample = Ok s' ∧
    Disk.Disk_new (Some (Disk.fileno (SynchDisk.disk (rest s')))) = Ok d ∧
    ∀ n, Disk.sector d n = Disk.sector (SynchDisk.disk (rest s')) n.
Proof.
  apply (disk_survives_restart sample [(5, stripes)] sample_ready).
  constructor; [|constructor]. split; [done|apply stripes_data].
Defined.

(** The lock of [SynchDisk] is a stub: a second thread that issues a request
    before the first has completed runs into the disk's ASSERT. *)
Lemma second_request_asserts now d n m bs data d' ticks :
  Disk.ReadRequest now d n = Ok (data, d', ticks) →
  Disk.ReadRequest now d' m = Stop AssertFailed ∧ Disk.WriteRequest now d' m bs = Stop AssertFailed.
Proof.
  intros E. apply Disk.request_busy. unfold Disk.ReadRequest in E.
  apply bind_ok in E as (_ & _ & E). apply bind_ok in E as (_ & _ & E).
  apply bind_ok in E as (? & _ & E). injection E as _ <- _.
  unfold Disk.UpdateLast. by destruct (Disk.TimeToSeek _ _ _).
Qed.
End DiskSpec.
