(* ===== verification/FileHdr.v ===== *)
(** * File headers (filesys/filehdr.cc, filehdr.h)

    The "i-node": the length of a file and the disk sectors that hold its
    data, itself stored in one sector.  Sectors are allocated from any
    [FreeMap] and the header is read and written through any [SectorDevice]. *)

From S2P Require Import Prelude NList Bitmap Machine Interrupt Disk.

Definition NumDirect : Z := Z.quot (SectorSize - 2 * 4) 4.
Definition MaxFileSize : Z := NumDirect * SectorSize.

Module FileHdr.

Record FileHeader := mkHeader {
  numBytes : Z;
  numSectors : Z;
  dataSectors : list Z;       (* an array of [NumDirect] ints *)
}.

(** The header in memory, as the sector it is copied to. *)
Definition header_bytes (h : FileHeader) : list Z :=
  le_bytes 4 (numBytes h) ++ le_bytes 4 (numSectors h) ++
  concat (le_bytes 4 <$> dataSectors h).

(** The ints of a sector read over the header. *)
Fixpoint words (n : nat) (bs : list Z) : list Z :=
  match n with
  | O => []
  | S n' => s32 (le_value (take 4 bs)) :: words n' (drop 4 bs)
  end.

Definition header_of (bs : list Z) : FileHeader :=
  mkHeader (s32 (le_value (take 4 bs))) (s32 (le_value (take 4 (drop 4 bs))))
    (words (Z.to_nat NumDirect) (drop 8 bs)).

Section with_map.
Context {T : Type} `{FreeMap T}.

(** [for (i = 0; i < numSectors; i++) dataSectors[i] = freeMap->FindFreeSlot()] *)
Definition alloc_step (i : Z) (st : list Z * T) : res (list Z * T) :=
  let '(ds, m) := st in
  '(r, m') ← fm_find m;
  ds' ← arr_set ds i r;
  Ok (ds', m').

Definition Allocate (h : FileHeader) (freeMap : T) (fileSize : Z) : res (bool * FileHeader * T) :=
  let n := divRoundUp fileSize SectorSize in
  let h1 := mkHeader fileSize n (dataSectors h) in
  clear ← fm_num_clear freeMap;
  if clear <? n then Ok (false, h1, freeMap)
  else
    '(ds, m) ← for_loop (Z.to_nat n) 0 alloc_step (dataSectors h, freeMap);
    Ok (true, mkHeader fileSize n ds, m).

Definition free_step (h : FileHeader) (i : Z) (m : T) : res T :=
  s ← arr_get (dataSectors h) i;
  t ← fm_test m s;
  ASSERT t;;
  fm_clear m s.

Definition Deallocate (h : FileHeader) (freeMap : T) : res T :=
  for_loop (Z.to_nat (numSectors h)) 0 (free_step h) freeMap.
End with_map.

Section with_disk.
Context {D : Type} `{SectorDevice D}.

Definition FetchFrom (sector : Z) (dev : D) : res (FileHeader * D) :=
  '(bs, dev') ← sd_read sector dev; Ok (header_of bs, dev').

Definition WriteBack (h : FileHeader) (sector : Z) (dev : D) : res D :=
  sd_write sector (header_bytes h) dev.
End with_disk.

Definition ByteToSector (h : FileHeader) (offset : Z) : res Z :=
  arr_get (dataSectors h) (Z.quot offset SectorSize).

Definition FileLength (h : FileHeader) : Z := numBytes h.

(** ** Headers on disk *)

(** A header of C ints. *)
Record wf (h : FileHeader) : Prop := mkWf {
  wf_bytes : is_s32 (numBytes h);
  wf_count : is_s32 (numSectors h);
  wf_array : length (dataSectors h) = Z.to_nat NumDirect;
  wf_ints : Forall is_s32 (dataSectors h);
}.

(** The sectors the file uses. *)
Definition used_sectors (h : FileHeader) : list Z := take (Z.to_nat (numSectors h)) (dataSectors h).

Lemma words_bytes ws rest :
  Forall is_s32 ws → words (length ws) (concat (le_bytes 4 <$> ws) ++ rest) = ws.
Proof.
  intros Hw. induction Hw as [|w ws Hw' _ IH]; simpl length; [done|].
  rewrite fmap_cons. cbn [concat words].
  rewrite <- app_assoc, take_app_length', drop_app_length' by (by rewrite length_le_bytes).
  by rewrite le_word_roundtrip, IH.
Qed.

Lemma length_header_bytes h : wf h → length (header_bytes h) = Z.to_nat SectorSize.
Proof.
  intros [_ _ Hl _]. unfold header_bytes. rewrite !length_app, !length_le_bytes.
  assert (∀ l : list Z, length (concat (le_bytes 4 <$> l)) = (4 * length l)%nat) as Hc.
  { induction l as [|w ws IH]; [done|].
    rewrite fmap_cons. cbn [concat]. rewrite length_app, length_le_bytes, IH. simpl length. lia. }
  rewrite Hc, Hl. done.
Qed.

Lemma header_bytes_data h : wf h → sector_data (header_bytes h).
Proof.
  intros Hwf. split; [by apply length_header_bytes|]. unfold header_bytes.
  rewrite !Forall_app. split; [apply le_bytes_u8|]. split; [apply le_bytes_u8|].
  apply Forall_concat, Forall_fmap, Forall_true. intros w. apply le_bytes_u8.
Qed.

Lemma header_roundtrip h : wf h → header_of (header_bytes h) = h.
Proof.
  intros [Hb Hc Hl Hi]. unfold header_of, header_bytes.
  rewrite (take_app_length' (le_bytes 4 (numBytes h))) by (by rewrite length_le_bytes).
  rewrite (drop_app_length' (le_bytes 4 (numBytes h))) by (by rewrite length_le_bytes).
  rewrite (take_app_length' (le_bytes 4 (numSectors h))) by (by rewrite length_le_bytes).
  rewrite app_assoc, (drop_app_length' (le_bytes 4 (numBytes h) ++ _))
    by (by rewrite length_app, !length_le_bytes).
  rewrite !le_word_roundtrip by done.
  pose proof (words_bytes (dataSectors h) [] Hi) as Hw. rewrite app_nil_r, Hl in Hw.
  rewrite Hw. by destruct h.
Qed.

Lemma words_s32 n bs : Forall is_s32 (words n bs) ∧ length (words n bs) = n.
Proof.
  revert bs. induction n as [|n IH]; intros bs; simpl; [done|].
  destruct (IH (drop 4 bs)) as [H1 H2]. split; [|by rewrite H2].
  constructor; [apply s32_range|done].
Qed.

Lemma header_of_wf bs : wf (header_of bs).
Proof. split; [apply s32_range|apply s32_range|apply words_s32|apply words_s32]. Qed.
End FileHdr.

(** ** Allocation *)

Section allocation.
Context {T : Type} `{FreeMapLaws T}.
Implicit Types (m : T) (h : FileHdr.FileHeader).
Import FileHdr.

Lemma full_size (s : gset Z) n : 0 ≤ n → (∀ j, 0 ≤ j < n → j ∈ s) → n ≤ Z.of_nat (size s).
Proof using Type.
  intros Hn Hall. assert (list_to_set (seqZ 0 n) ⊆ s) as Hsub.
  { intros j Hj. apply elem_of_list_to_set, elem_of_seqZ in Hj. apply Hall. lia. }
  apply subseteq_size in Hsub. rewrite size_list_to_set in Hsub by apply NoDup_seqZ.
  rewrite length_seqZ in Hsub. lia.
Qed.

Lemma free_slot_exists m :
  fm_wf m → Z.of_nat (size (fm_used m)) < fm_size m →
  ∃ r m', fm_find m = Ok (r, m') ∧ fm_wf m' ∧ fm_size m' = fm_size m ∧
          0 ≤ r < fm_size m ∧ r ∉ fm_used m ∧ fm_used m' = {[r]} ∪ fm_used m.
Proof using Type*.
  intros Hwf Hfree. destruct (fm_find_spec m Hwf)
    as [(r & m' & ? & ? & ? & ? & ? & _ & ?)|[_ Hfull]]; [by exists r, m'|].
  apply full_size in Hfull; lia.
Qed.

(** The state of the loop after [j] rounds. *)
Record alloc_inv (ds0 : list Z) (m0 : T) (j : Z) (st : list Z * T) : Prop := mkAllocInv {
  ai_len : length st.1 = Z.to_nat NumDirect;
  ai_wf : fm_wf st.2;
  ai_size : fm_size st.2 = fm_size m0;
  ai_used : fm_used st.2 = fm_used m0 ∪ list_to_set (take (Z.to_nat j) st.1);
  ai_nodup : NoDup (take (Z.to_nat j) st.1);
  ai_new : Forall (λ s, 0 ≤ s < fm_size m0 ∧ s ∉ fm_used m0) (take (Z.to_nat j) st.1);
  ai_rest : drop (Z.to_nat j) st.1 = drop (Z.to_nat j) ds0;
}.

Lemma take_insert_next (l : list Z) j x :
  (j < length l)%nat → take (S j) (<[j := x]> l) = take j l ++ [x].
Proof using Type.
  intros Hj. rewrite (take_S_r _ _ x) by (by apply list_lookup_insert_eq).
  by rewrite take_insert_ge by lia.
Qed.

Lemma used_size m0 ds (l : list Z) :
  fm_used ds = fm_used m0 ∪ list_to_set l → NoDup l →
  Forall (λ s, 0 ≤ s < fm_size m0 ∧ s ∉ fm_used m0) l →
  size (fm_used ds) = (size (fm_used m0) + length l)%nat.
Proof using Type.
  intros -> Hnd Hnew. rewrite size_union, size_list_to_set by
    (try done; intros x Hx Hl; apply elem_of_list_to_set in Hl;
     rewrite Forall_forall in Hnew; by apply (Hnew x Hl)). done.
Qed.

Lemma alloc_step_spec ds0 m0 n j st :
  0 ≤ j < n → n ≤ NumDirect → n ≤ fm_size m0 - Z.of_nat (size (fm_used m0)) →
  alloc_inv ds0 m0 j st → ∃ st', alloc_step j st = Ok st' ∧ alloc_inv ds0 m0 (j + 1) st'.
Proof using Type*.
  intros Hj Hn Hfree [Hlen Hwf Hsize Hused Hnd Hnew Hrest]. destruct st as [ds m]. simpl in *.
  pose proof (used_size m0 m _ Hused Hnd Hnew) as Hsz. rewrite length_take in Hsz.
  destruct (free_slot_exists m Hwf) as (r & m' & E & Hwf' & Hsize' & Hr & Hout & Hused'); [lia|].
  unfold alloc_step. rewrite E. simpl_res. rewrite arr_set_in by lia. simpl_res.
  eexists. split; [reflexivity|].
  assert (take (Z.to_nat (j + 1)) (<[Z.to_nat j:=r]> ds) = take (Z.to_nat j) ds ++ [r]) as Htk.
  { replace (Z.to_nat (j + 1)) with (S (Z.to_nat j)) by lia. apply take_insert_next. lia. }
  rewrite Hused in Hout. apply not_elem_of_union in Hout as [Hout1 Hout2].
  split; simpl; rewrite ?Htk; try done.
  - by rewrite length_insert.
  - by rewrite Hsize'.
  - rewrite Hused', Hused. rewrite list_to_set_app_L. set_solver.
  - apply NoDup_snoc; [done|]. by rewrite <- (elem_of_list_to_set (C:=gset Z)).
  - apply Forall_app. split; [done|]. constructor; [|constructor]. by rewrite <- Hsize.
  - replace (Z.to_nat (j + 1)) with (Z.to_nat j + 1)%nat by lia.
    rewrite drop_insert_lt by lia. by rewrite <- !drop_drop, Hrest.
Qed.

Lemma Allocate_spec m h fileSize :
  fm_wf m → length (dataSectors h) = Z.to_nat NumDirect → 0 ≤ fileSize ≤ MaxFileSize →
  let n := divRoundUp fileSize SectorSize in
  if fm_size m - Z.of_nat (size (fm_used m)) <? n
  then Allocate h m fileSize = Ok (false, mkHeader fileSize n (dataSectors h), m)
  else ∃ h' m', Allocate h m fileSize = Ok (true, h', m') ∧
    numBytes h' = fileSize ∧ numSectors h' = n ∧ 0 ≤ n ≤ NumDirect ∧
    length (dataSectors h') = Z.to_nat NumDirect ∧
    drop (Z.to_nat n) (dataSectors h') = drop (Z.to_nat n) (dataSectors h) ∧
    fm_wf m' ∧ fm_size m' = fm_size m ∧
    NoDup (used_sectors h') ∧ length (used_sectors h') = Z.to_nat n ∧
    Forall (λ s, 0 ≤ s < fm_size m ∧ s ∉ fm_used m) (used_sectors h') ∧
    fm_used m' = fm_used m ∪ list_to_set (used_sectors h').
Proof using Type*.
  intros Hwf Hlen Hfs n.
  assert (0 ≤ n ≤ NumDirect) as Hn.
  { pose proof (divRoundUp_spec fileSize SectorSize) as Hd.
    pose proof (divRoundUp_nonneg fileSize SectorSize).
    unfold MaxFileSize, NumDirect, SectorSize in *. fold n in Hd. simpl in *. lia. }
  unfold Allocate. fold n. rewrite fm_num_clear_spec by done. simpl_res.
  destruct (Z.ltb_spec (fm_size m - Z.of_nat (size (fm_used m))) n); [done|].
  destruct (for_loop_inv alloc_step (alloc_inv (dataSectors h) m) (Z.to_nat n) 0 (dataSectors h, m))
    as ([ds m'] & E & [Hl' Hwf' Hs' Hu' Hnd' Hnew' Hrest']).
  - change (Z.to_nat 0) with 0%nat. split; simpl; rewrite ?take_0; try done; [set_solver|constructor].
  - intros j st Hj Hinv. apply (alloc_step_spec (dataSectors h) m n); [lia|lia|lia|done].
  - simpl in *. rewrite E. simpl_res.
    replace (Z.to_nat (0 + Z.of_nat (Z.to_nat n))) with (Z.to_nat n) in * by lia.
    eexists _, _. split; [reflexivity|]. unfold used_sectors. simpl.
    split_and!; try done; try lia. rewrite length_take. lia.
Qed.

(** With too few free sectors nothing happens, whatever the size. *)
Lemma Allocate_full m h fileSize (n := divRoundUp fileSize SectorSize) :
  fm_wf m → fm_size m - Z.of_nat (size (fm_used m)) < n →
  Allocate h m fileSize = Ok (false, mkHeader fileSize n (dataSectors h), m).
Proof using Type*.
  intros Hwf Hn. unfold Allocate. fold n. rewrite fm_num_clear_spec by done. simpl_res.
  by rewrite (proj2 (Z.ltb_lt _ _) Hn).
Qed.

(** With enough of them, a file that needs more than [NumDirect] sectors is
    written past the end of the array. *)
Lemma Allocate_overrun m h fileSize (n := divRoundUp fileSize SectorSize) :
  fm_wf m → length (dataSectors h) = Z.to_nat NumDirect → MaxFileSize < fileSize →
  n ≤ fm_size m - Z.of_nat (size (fm_used m)) → Allocate h m fileSize = Stop Undefined.
Proof using Type*.
  intros Hwf Hlen Hfs Hn.
  assert (NumDirect < n) as Hbig.
  { change MaxFileSize with 64512 in Hfs. change NumDirect with 126.
    pose proof (divRoundUp_spec fileSize SectorSize ltac:(lia) ltac:(done)) as Hd.
    change SectorSize with 512 in Hd. unfold n. change SectorSize with 512. lia. }
  unfold Allocate. fold n. rewrite fm_num_clear_spec by done. simpl_res.
  destruct (Z.ltb_spec (fm_size m - Z.of_nat (size (fm_used m))) n); [lia|].
  replace (Z.to_nat n) with (Z.to_nat NumDirect + S (Z.to_nat (n - NumDirect - 1)))%nat
    by (change NumDirect with 126 in *; lia).
  rewrite for_loop_app.
  destruct (for_loop_inv alloc_step (alloc_inv (dataSectors h) m) (Z.to_nat NumDirect) 0 (dataSectors h, m))
    as ([ds m'] & -> & [Hl' Hwf' Hs' Hu' Hnd' Hnew' _]).
  - change (Z.to_nat 0) with 0%nat. split; simpl; rewrite ?take_0; try done; [set_solver|constructor].
  - intros j st Hj Hinv. apply (alloc_step_spec (dataSectors h) m NumDirect); [|lia|lia|done].
    change NumDirect with 126 in *. lia.
  - simpl_res. cbn [for_loop]. simpl in *.
    pose proof (used_size m m' _ Hu' Hnd' Hnew') as Hsz. rewrite length_take in Hsz.
    destruct (free_slot_exists m' Hwf') as (r & m'' & E & _); [change NumDirect with 126 in *; lia|].
    unfold alloc_step at 1. rewrite E. simpl_res. unfold arr_set.
    rewrite bool_decide_eq_false_2 by (change NumDirect with 126 in *; lia). done.
Qed.

(** The state of the freeing loop after [j] rounds. *)
Lemma Deallocate_spec m h :
  fm_wf m → 0 ≤ numSectors h ≤ Z.of_nat (length (dataSectors h)) →
  NoDup (used_sectors h) → Forall (λ s, 0 ≤ s < fm_size m ∧ s ∈ fm_used m) (used_sectors h) →
  ∃ m', Deallocate h m = Ok m' ∧ fm_wf m' ∧ fm_size m' = fm_size m ∧
        fm_used m' = fm_used m ∖ list_to_set (used_sectors h).
Proof using Type*.
  intros Hwf Hn Hnd Hall. unfold Deallocate.
  destruct (for_loop_inv (free_step h) (λ j m', fm_wf m' ∧ fm_size m' = fm_size m ∧
    fm_used m' = fm_used m ∖ list_to_set (take (Z.to_nat j) (dataSectors h)))
    (Z.to_nat (numSectors h)) 0 m) as (m' & E & Hwf' & Hs' & Hu').
  - split; [done|]. split; [done|]. set_solver.
  - intros j m' Hj (Hwf' & Hs' & Hu').
    destruct (arr_get_total (dataSectors h) j) as (s & Es & Hs); [lia|].
    assert (used_sectors h !! Z.to_nat j = Some s) as Hlk.
    { unfold used_sectors. by rewrite lookup_take_lt by lia. }
    pose proof (Forall_lookup_1 _ _ _ _ Hall Hlk) as [Hr Hin].
    assert (s ∉ take (Z.to_nat j) (dataSectors h)) as Hnin.
    { intros Hx. apply list_elem_of_lookup_1 in Hx as [i Hi].
      apply lookup_take_Some in Hi as [Hi Hij].
      assert (used_sectors h !! i = Some s) as Hlk'.
      { unfold used_sectors. rewrite lookup_take_lt by lia. done. }
      pose proof (NoDup_lookup _ _ _ _ Hnd Hlk Hlk'). lia. }
    assert (s ∈ fm_used m') as Hin'.
    { rewrite Hu'. apply elem_of_difference. split; [done|]. by rewrite elem_of_list_to_set. }
    unfold free_step. rewrite Es. simpl_res.
    rewrite fm_test_spec, (bool_decide_eq_true_2 _ Hin') by (done || lia). simpl_res.
    destruct (fm_clear_spec m' s Hwf') as (m'' & E & Hwf'' & Hs'' & Hu''); [lia|].
    exists m''. split; [exact E|]. split; [done|]. split; [congruence|].
    rewrite Hu'', Hu'. replace (Z.to_nat (j + 1)) with (S (Z.to_nat j)) by lia.
    rewrite (take_S_r _ _ s Hs), list_to_set_app_L. set_solver.
  - exists m'. split; [exact E|]. split; [done|]. split; [done|].
    by replace (Z.to_nat (0 + Z.of_nat (Z.to_nat (numSectors h)))) with (Z.to_nat (numSectors h))
      in Hu' by lia.
Qed.
End allocation.

(** ** The properties *)

Module FileHdrSpec.
Import FileHdr.

Section map_spec.
Context {T : Type} `{FreeMapLaws T}.

(** Allocating the sectors of a file.  With too few free sectors nothing is
    allocated and the map is unchanged; otherwise the header gets as many
    sectors as the size needs (and no more), all distinct, all inside the disk
    and free before, exactly these become used, and deallocating the header
    gives the map back as it was. *)
Theorem allocate_then_deallocate (m : T) h fileSize :
  fm_wf m → length (dataSectors h) = Z.to_nat NumDirect → 0 ≤ fileSize ≤ MaxFileSize →
  let free := fm_size m - Z.of_nat (size (fm_used m)) in
  let n := divRoundUp fileSize SectorSize in
  (n - 1) * SectorSize < fileSize ≤ n * SectorSize ∧
  if free <? n then ∃ h', Allocate h m fileSize = Ok (false, h', m)
  else ∃ h' m' m'', Allocate h m fileSize = Ok (true, h', m') ∧
    FileLength h' = fileSize ∧ length (used_sectors h') = Z.to_nat n ∧ NoDup (used_sectors h') ∧
    (∀ s, s ∈ used_sectors h' → 0 ≤ s < fm_size m ∧ s ∉ fm_used m) ∧
    fm_used m' = fm_used m ∪ list_to_set (used_sectors h') ∧
    Deallocate h' m' = Ok m'' ∧ fm_wf m'' ∧ fm_used m'' = fm_used m.
Proof using H0.
  intros Hwf Hlen Hfs free n.
  split; [apply divRoundUp_spec; done || lia|].
  pose proof (Allocate_spec m h fileSize Hwf Hlen Hfs) as Hal. cbv zeta in Hal. fold n free in Hal.
  destruct (free <? n); [by eexists; exact Hal|].
  destruct Hal as (h' & m' & E & Hb & Hns & Hn & Hlen' & _ & Hwf' & Hsize & Hnd & Hl & Hnew & Hused).
  rewrite Forall_forall in Hnew.
  destruct (Deallocate_spec m' h') as (m'' & E' & Hwf'' & _ & Hused'').
  { done. }
  { rewrite Hns, Hlen'. unfold NumDirect in *. lia. }
  { done. }
  { apply Forall_forall. intros s Hs. rewrite Hused, Hsize. set_solver. }
  exists h', m', m''. split_and!; try done.
  rewrite Hused'', Hused. apply set_eq. intros x.
  rewrite elem_of_difference, elem_of_union, elem_of_list_to_set.
  split; [naive_solver|]. intros Hx. split; [by left|]. intros Hin. by destruct (Hnew x Hin).
Qed.

End map_spec.

Section disk_spec.
Context {D : Type} `{SectorDeviceLaws D}.

(** A header survives its trip to the disk: fetched from the sector it was
    written back to, it is the same header, and no other sector has changed. *)
Theorem header_disk_roundtrip (dev : D) h n :
  sd_ok dev → is_sector n → wf h →
  ∃ dev1 dev2, WriteBack h n dev = Ok dev1 ∧ FetchFrom n dev1 = Ok (h, dev2) ∧ sd_ok dev2 ∧
    ∀ k, is_sector k → k ≠ n → sd_sector dev2 k = sd_sector dev k.
Proof using H0.
  intros Hok Hn Hwf.
  destruct (sd_write_spec dev n (header_bytes h) Hok Hn (header_bytes_data h Hwf))
    as (dev1 & E1 & Hok1 & Hs1).
  destruct (sd_read_spec dev1 n Hok1 Hn) as (dev2 & E2 & Hok2 & Hs2).
  exists dev1, dev2. unfold WriteBack, FetchFrom. rewrite E2. split_and!; try done.
  - simpl_res. rewrite Hs1, bool_decide_eq_true_2, header_roundtrip by done. done.
  - intros k Hk Hne. rewrite Hs2, Hs1 by done. by rewrite bool_decide_eq_false_2.
Qed.
End disk_spec.

Definition blank : FileHeader := mkHeader 0 0 (replicate (Z.to_nat NumDirect) 0).
Definition sector_map : BitMap.BitMap := BitMap.mkBitMap 1024 32 (7 :: replicate 31 0).

Lemma sector_map_wf : fm_wf sector_map.
Proof.
  split; try done. simpl. repeat constructor; unfold two32; lia.
Qed.

Lemma allocate_then_deallocate_witness :
  ∃ h' m' m'', Allocate blank sector_map 1300 = Ok (true, h', m') ∧
    length (used_sectors h') = 3%nat ∧ Deallocate h' m' = Ok m'' ∧
    fm_used m'' = fm_used sector_map.
Proof.
  destruct (allocate_then_deallocate sector_map blank 1300 sector_map_wf) as [_ Hal];
    [done|change MaxFileSize with 64512; lia|].
  assert ((fm_size sector_map - Z.of_nat (size (fm_used sector_map))
           <? divRoundUp 1300 SectorSize) = false) as Hfree by (vm_compute; reflexivity).
  rewrite Hfree in Hal. destruct Hal as (h' & m' & m'' & E & _ & Hl & _ & _ & _ & E' & _ & Hu).
  exists h', m', m''. split; [exact E|]. split; [exact Hl|]. split; [exact E'|exact Hu].
Defined.

Definition sample_header : FileHeader :=
  mkHeader 700 2 ([17; 18] ++ replicate 124 0).

Lemma header_disk_roundtrip_witness :
  ∃ dev1 dev2, WriteBack sample_header 9 DiskSpec.sample = Ok dev1 ∧
               FetchFrom 9 dev1 = Ok (sample_header, dev2).
Proof.
  destruct (header_disk_roundtrip DiskSpec.sample sample_header 9 DiskSpec.sample_device)
    as (dev1 & dev2 & E1 & E2 & _).
  - done.
  - split; try done.
    apply Forall_app. split; [|apply Forall_replicate]; repeat constructor; unfold two31; simpl; lia.
  - exists dev1, dev2. split; [exact E1|exact E2].
Defined.

(** Nothing in [Allocate] compares the size with [NumDirect]: one sector more
    than fits writes past the array. *)
Lemma allocate_overruns_array :
  Allocate blank sector_map (MaxFileSize + 1) = Stop Undefined.
Proof. vm_compute. reflexivity. Qed.
End FileHdrSpec.
