(* ===== verification/OpenFile.v ===== *)
(** * Open files (filesys/openfile.cc, openfile.h)

    Reading and writing a byte range of a file that is stored in whole disk
    sectors.  Everything is relative to a [SectorDevice].  The abstract state
    of a file is its sequence of bytes ([contents]).

    [fresh] is the uninitialised memory that [new char[n]] returns. *)

From S2P Require Import Prelude NList Bitmap Machine Interrupt Disk FileHdr.

Module OpenFile.
Import FileHdr.

Record OpenFile := mkOpenFile {
  hdr : FileHeader;
  seekPosition : Z;
  type : Z;
}.

Section with_disk.
Context {D : Type} `{SectorDevice D}.
Context (fresh : Z → list Z).

(** The two constructors. *)
Definition OpenFile_new (sector : Z) (dev : D) : res (OpenFile * D) :=
  '(h, dev') ← FetchFrom sector dev; Ok (mkOpenFile h 0 1, dev').
Definition OpenFile_new_type (sector _type : Z) (dev : D) : res (OpenFile * D) :=
  '(h, dev') ← FetchFrom sector dev; Ok (mkOpenFile h 0 _type, dev').

Definition Seek (f : OpenFile) (position : Z) : OpenFile := mkOpenFile (hdr f) position (type f).
Definition Length (f : OpenFile) : Z := FileLength (hdr f).

(** The two guards shared by [ReadAt] and [WriteAt]: [None] to return 0 at
    once, otherwise the number of bytes to transfer. *)
Definition clamp (fileLength numBytes position : Z) : option Z :=
  if (numBytes <=? 0) || (position >=? fileLength) then None
  else Some (if s32 (position + numBytes) >? fileLength then fileLength - position else numBytes).

(** [for (i = firstSector; i <= lastSector; i++) ReadSector(...)], filling the
    buffer one sector after the other. *)
Definition read_step (h : FileHeader) (i : Z) (st : list Z * D) : res (list Z * D) :=
  let '(buf, dev) := st in
  sector ← ByteToSector h (i * SectorSize);
  '(bs, dev') ← sd_read sector dev;
  Ok (buf ++ bs, dev').

(** The bytes copied to [into]; their number is the result. *)
Definition ReadAt (h : FileHeader) (numBytes position : Z) (dev : D) : res (list Z * D) :=
  match clamp (FileLength h) numBytes position with
  | None => Ok ([], dev)
  | Some n =>
      let firstSector := divRoundDown position SectorSize in
      let lastSector := divRoundDown (position + n - 1) SectorSize in
      let numSectors := 1 + lastSector - firstSector in
      '(buf, dev') ← for_loop (Z.to_nat numSectors) firstSector (read_step h) ([], dev);
      into ← slice buf (position - firstSector * SectorSize) n;
      Ok (into, dev')
  end.

(** [for (i = firstSector; i <= lastSector; i++) WriteSector(...)] *)
Definition write_step (h : FileHeader) (firstSector : Z) (buf : list Z) (i : Z) (dev : D) : res D :=
  sector ← ByteToSector h (i * SectorSize);
  bs ← slice buf ((i - firstSector) * SectorSize) SectorSize;
  sd_write sector bs dev.

(** A sector that is to be partially modified is read into the buffer first:
    [if (partial) ReadAt(&buf[off], SectorSize, position)]. *)
Definition read_partial (partial : bool) (h : FileHeader) (position : Z) (buf : list Z) (off : Z)
    (dev : D) : res (list Z * D) :=
  if partial then
    '(bs, dev') ← ReadAt h SectorSize position dev;
    buf' ← overlay buf off bs;
    Ok (buf', dev')
  else Ok (buf, dev).

(** The number of bytes written. *)
Definition WriteAt (h : FileHeader) (from : list Z) (numBytes position : Z) (dev : D)
    : res (Z * D) :=
  match clamp (FileLength h) numBytes position with
  | None => Ok (0, dev)
  | Some n =>
      let firstSector := divRoundDown position SectorSize in
      let lastSector := divRoundDown (position + n - 1) SectorSize in
      let numSectors := 1 + lastSector - firstSector in
      let buf0 := fresh (numSectors * SectorSize) in
      let firstAligned := position =? firstSector * SectorSize in
      let lastAligned := position + n =? (lastSector + 1) * SectorSize in
      '(buf1, dev1) ← read_partial (negb firstAligned) h (firstSector * SectorSize) buf0 0 dev;
      '(buf2, dev2) ←
        read_partial (negb lastAligned && (negb (firstSector =? lastSector) || firstAligned)) h
          (lastSector * SectorSize) buf1 ((lastSector - firstSector) * SectorSize) dev1;
      src ← slice from 0 n;
      buf3 ← overlay buf2 (position - firstSector * SectorSize) src;
      dev3 ← for_loop (Z.to_nat numSectors) firstSector (write_step h firstSector buf3) dev2;
      Ok (n, dev3)
  end.

Definition Read (f : OpenFile) (numBytes : Z) (dev : D) : res (list Z * OpenFile * D) :=
  '(bs, dev') ← ReadAt (hdr f) numBytes (seekPosition f) dev;
  Ok (bs, Seek f (seekPosition f + Z.of_nat (length bs)), dev').

Definition Write (f : OpenFile) (from : list Z) (numBytes : Z) (dev : D)
    : res (Z * OpenFile * D) :=
  '(n, dev') ← WriteAt (hdr f) from numBytes (seekPosition f) dev;
  Ok (n, Seek f (seekPosition f + n), dev').

(** ** The file as a sequence of bytes *)

(** A header whose sectors exist, are distinct and hold all of the file. *)
Record file_ok (h : FileHeader) : Prop := mkFileOk {
  fo_sectors : 0 ≤ numSectors h ≤ Z.of_nat (length (dataSectors h));
  fo_array : length (dataSectors h) = Z.to_nat NumDirect;
  fo_bytes : 0 ≤ numBytes h ≤ numSectors h * SectorSize;
  fo_range : Forall is_sector (used_sectors h);
  fo_nodup : NoDup (used_sectors h);
}.

(** All bytes of the file's sectors. *)
Definition flat (dev : D) (h : FileHeader) : list Z := concat (sd_sector dev <$> used_sectors h).

Definition contents (dev : D) (h : FileHeader) : list Z := take (Z.to_nat (numBytes h)) (flat dev h).

(** Two states of the device with the same sectors. *)
Definition same_disk (dev dev' : D) : Prop :=
  ∀ k, is_sector k → sd_sector dev' k = sd_sector dev k.
End with_disk.

(** ** Sequences of sectors *)

Section concat.
Context (w : nat).
Implicit Types ls : list (list Z).

Lemma concat_length ls :
  Forall (λ l, length l = w) ls → length (concat ls) = (length ls * w)%nat.
Proof. induction 1 as [|l ls Hl _ IH]; simpl; [done|]. rewrite length_app. lia. Qed.

Lemma concat_drop ls i :
  Forall (λ l, length l = w) ls → drop (i * w) (concat ls) = concat (drop i ls).
Proof.
  intros Hl. revert i. induction Hl as [|l ls Hl _ IH]; intros [|i]; simpl; try done.
  - by rewrite drop_nil.
  - rewrite <- Hl at 1. rewrite drop_app_add', IH by done. done.
Qed.

Lemma concat_take ls i :
  Forall (λ l, length l = w) ls → take (i * w) (concat ls) = concat (take i ls).
Proof.
  intros Hl. revert i. induction Hl as [|l ls Hl _ IH]; intros [|i]; simpl; try done.
  - by rewrite take_nil.
  - rewrite <- Hl at 1. rewrite take_app_add', IH by done. done.
Qed.

Lemma concat_lookup ls i j l :
  Forall (λ l, length l = w) ls → ls !! i = Some l → (j < w)%nat →
  concat ls !! (i * w + j)%nat = l !! j.
Proof.
  intros Hl Hi Hj. rewrite <- lookup_drop, concat_drop by done.
  rewrite (drop_S _ _ _ Hi). simpl. rewrite lookup_app_l; [done|].
  pose proof (Forall_lookup_1 _ _ _ _ Hl Hi). simpl in *. lia.
Qed.
End concat.

(** ** Reading *)

Section reading.
Context {D : Type} `{SectorDeviceLaws D}.
Context (h : FileHeader) (Hf : file_ok h).
Implicit Types dev : D.

Lemma used_lookup i :
  0 ≤ i < numSectors h → used_sectors h !! Z.to_nat i = dataSectors h !! Z.to_nat i.
Proof using Type. intros Hi. unfold used_sectors. apply lookup_take_lt. lia. Qed.

Lemma length_used : length (used_sectors h) = Z.to_nat (numSectors h).
Proof using Hf. unfold used_sectors. rewrite length_take. pose proof (fo_sectors h Hf). lia. Qed.

Lemma ByteToSector_spec i :
  0 ≤ i < numSectors h →
  ∃ s, ByteToSector h (i * SectorSize) = Ok s ∧ used_sectors h !! Z.to_nat i = Some s ∧ is_sector s.
Proof using Hf.
  intros Hi. unfold ByteToSector. rewrite Z.quot_mul by done.
  destruct (arr_get_total (dataSectors h) i) as (s & E & Hs).
  { pose proof (fo_sectors h Hf). lia. }
  exists s. rewrite used_lookup by done. split_and!; try done.
  apply (Forall_lookup_1 _ _ (Z.to_nat i) _ (fo_range h Hf)). by rewrite used_lookup.
Qed.

Lemma sectors_uniform dev :
  sd_ok dev → Forall (λ l, length l = Z.to_nat SectorSize) (sd_sector dev <$> used_sectors h).
Proof using All.
  intros Hok. apply Forall_fmap. eapply Forall_impl; [exact (fo_range h Hf)|].
  intros s Hs. by apply sd_data.
Qed.

Lemma length_flat dev : sd_ok dev → length (flat dev h) = Z.to_nat (numSectors h * SectorSize).
Proof using All.
  intros Hok. unfold flat. rewrite (concat_length (Z.to_nat SectorSize)) by by apply sectors_uniform.
  rewrite length_fmap, length_used. pose proof (fo_sectors h Hf). unfold SectorSize. lia.
Qed.

Lemma length_contents dev : sd_ok dev → length (contents dev h) = Z.to_nat (numBytes h).
Proof using All.
  intros Hok. unfold contents. rewrite length_take, length_flat by done.
  pose proof (fo_bytes h Hf). lia.
Qed.

Lemma same_disk_flat dev dev' : same_disk dev dev' → flat dev' h = flat dev h.
Proof using Hf.
  intros Hs. unfold flat. f_equal. apply list_fmap_ext. intros i s Hi. apply Hs.
  exact (Forall_lookup_1 _ _ _ _ (fo_range h Hf) Hi).
Qed.

Lemma read_loop dev first n :
  sd_ok dev → 0 ≤ first → 0 ≤ n → first + n ≤ numSectors h →
  ∃ dev', for_loop (Z.to_nat n) first (read_step h) ([], dev)
          = Ok (take (Z.to_nat (n * SectorSize)) (drop (Z.to_nat (first * SectorSize)) (flat dev h)),
                dev') ∧ sd_ok dev' ∧ same_disk dev dev'.
Proof using All.
  intros Hok H1 H2 H3.
  destruct (for_loop_inv (read_step h) (λ j st, sd_ok st.2 ∧ same_disk dev st.2 ∧
    st.1 = concat (take (Z.to_nat (j - first)) (drop (Z.to_nat first) (sd_sector dev <$> used_sectors h))))
    (Z.to_nat n) first ([], dev)) as ([buf dev'] & E & Hok' & Hs & Hb).
  - simpl. replace (first - first) with 0 by lia. split; [done|]. split; [by intros ??|done].
  - intros j [buf dev'] Hj (Hok' & Hs & Hb). simpl in Hok', Hs, Hb.
    destruct (ByteToSector_spec j) as (s & Es & Hu & Hsec); [lia|].
    unfold read_step. rewrite Es. simpl_res.
    destruct (sd_read_spec dev' s Hok' Hsec) as (dev'' & -> & Hok'' & Hs''). simpl_res.
    eexists. split; [reflexivity|]. simpl. split; [done|]. split.
    + intros k Hk. by rewrite Hs'', Hs.
    + rewrite Hb. replace (Z.to_nat (j + 1 - first)) with (S (Z.to_nat (j - first))) by lia.
      rewrite (take_S_r _ _ (sd_sector dev s)).
      * rewrite concat_app. simpl. rewrite app_nil_r. f_equal. by apply Hs.
      * rewrite lookup_drop, list_lookup_fmap.
        replace (Z.to_nat first + Z.to_nat (j - first))%nat with (Z.to_nat j) by lia. by rewrite Hu.
  - simpl in *. exists dev'. split; [|done]. rewrite E, Hb. do 2 f_equal.
    replace (first + Z.of_nat (Z.to_nat n) - first) with n by lia.
    unfold flat. pose proof (sectors_uniform dev Hok) as Hu.
    replace (Z.to_nat (first * SectorSize)) with (Z.to_nat first * Z.to_nat SectorSize)%nat
      by (unfold SectorSize; lia).
    replace (Z.to_nat (n * SectorSize)) with (Z.to_nat n * Z.to_nat SectorSize)%nat
      by (unfold SectorSize; lia).
    rewrite concat_drop by done. rewrite concat_take by (by apply Forall_drop). done.
Qed.

(** The sectors a byte range touches. *)
Lemma sector_span position n :
  0 ≤ position → 0 < n → position + n ≤ numBytes h →
  let first := divRoundDown position SectorSize in
  let last := divRoundDown (position + n - 1) SectorSize in
  0 ≤ first ≤ last ∧ last < numSectors h ∧ first * SectorSize ≤ position < (first + 1) * SectorSize ∧
  last * SectorSize < position + n ≤ (last + 1) * SectorSize.
Proof using Hf.
  intros Hp Hn Hl. pose proof (fo_bytes h Hf) as Hb. unfold divRoundDown, SectorSize in *. simpl.
  rewrite !Z.quot_div_nonneg by lia. Z.div_mod_to_equations. lia.
Qed.

Lemma clamp_some numBytes' position n :
  0 ≤ position → is_s32 (position + numBytes') → clamp (numBytes h) numBytes' position = Some n →
  0 < n ∧ position + n ≤ numBytes h ∧ n = Z.min numBytes' (numBytes h - position).
Proof using Type.
  intros Hp Hs. unfold clamp. rewrite s32_small by done.
  destruct (Z.leb_spec numBytes' 0), (Z.geb_spec position (numBytes h)); simpl; try done.
  destruct (Z.gtb_spec (position + numBytes') (numBytes h)); intros [= <-]; lia.
Qed.

Lemma clamp_none numBytes' position :
  clamp (numBytes h) numBytes' position = None → numBytes' ≤ 0 ∨ numBytes h ≤ position.
Proof using Type.
  unfold clamp. destruct (Z.leb_spec numBytes' 0), (Z.geb_spec position (numBytes h)); simpl; try done; lia.
Qed.

Lemma ReadAt_spec dev n position :
  sd_ok dev → 0 ≤ position → is_s32 (position + n) →
  ∃ dev', ReadAt h n position dev
          = Ok (take (Z.to_nat n) (drop (Z.to_nat position) (contents dev h)), dev') ∧
          sd_ok dev' ∧ same_disk dev dev'.
Proof using All.
  intros Hok Hp Hs. unfold ReadAt, FileLength.
  destruct (clamp (numBytes h) n position) as [m|] eqn:Ec.
  - apply clamp_some in Ec as (Hm & Hle & Heq); [|done..].
    destruct (sector_span position m Hp Hm Hle) as (Hfl & Hln & Hfp & Hlp).
    set (first := divRoundDown position SectorSize) in *.
    set (last := divRoundDown (position + m - 1) SectorSize) in *.
    destruct (read_loop dev first (1 + last - first)) as (dev' & -> & Hok' & Hsd); [done|lia..|].
    simpl_res. rewrite slice_in; unfold SectorSize in *.
    + simpl_res. exists dev'. split; [|done]. do 2 f_equal.
      rewrite skipn_firstn_comm, drop_drop, take_take. unfold contents.
      rewrite skipn_firstn_comm, take_take.
      f_equal; [lia|]. f_equal. lia.
    + lia.
    + lia.
    + rewrite length_take, length_drop, length_flat by done. unfold SectorSize. lia.
  - apply clamp_none in Ec. exists dev. split; [|split; [done|by intros ??]]. do 2 f_equal.
    destruct Ec as [Ec|Ec].
    + by replace (Z.to_nat n) with 0%nat by lia.
    + rewrite drop_ge; [by rewrite take_nil|]. rewrite length_contents by done. lia.
Qed.
End reading.

(** ** Writing *)

Section writing.
Context {D : Type} `{SectorDeviceLaws D}.
Context (h : FileHeader) (Hf : file_ok h).
Implicit Types dev : D.

Lemma flat_lookup dev i j s :
  sd_ok dev → used_sectors h !! i = Some s → (j < Z.to_nat SectorSize)%nat →
  flat dev h !! (i * Z.to_nat SectorSize + j)%nat = sd_sector dev s !! j.
Proof using All.
  intros Hok Hi Hj. unfold flat. apply concat_lookup; [by apply sectors_uniform| |done].
  by rewrite list_lookup_fmap, Hi.
Qed.

(** The sectors [first .. first + n - 1] of the file replaced by the buffer. *)
Record written (first n : Z) (buf : list Z) (dev dev' : D) : Prop := mkWritten {
  wr_ok : sd_ok dev';
  wr_in : ∀ i s, used_sectors h !! Z.to_nat i = Some s → 0 ≤ i →
    sd_sector dev' s =
      if bool_decide (first ≤ i < first + n)
      then take (Z.to_nat SectorSize) (drop (Z.to_nat ((i - first) * SectorSize)) buf)
      else sd_sector dev s;
  wr_out : ∀ k, is_sector k → k ∉ used_sectors h → sd_sector dev' k = sd_sector dev k;
}.

Lemma write_loop dev first n buf :
  sd_ok dev → 0 ≤ first → 0 ≤ n → first + n ≤ numSectors h →
  length buf = Z.to_nat (n * SectorSize) → Forall is_u8 buf →
  ∃ dev', for_loop (Z.to_nat n) first (write_step h first buf) dev = Ok dev' ∧
          written first n buf dev dev'.
Proof using All.
  intros Hok H1 H2 H3 Hlen Hbuf.
  destruct (for_loop_inv (write_step h first buf) (λ j dev', written first (j - first) buf dev dev')
    (Z.to_nat n) first dev) as (dev' & E & Hw).
  - split; try done. intros i s Hi Hpos. by rewrite bool_decide_eq_false_2 by lia.
  - intros j dev' Hj [Hok' Hin Hout].
    destruct (ByteToSector_spec h Hf j) as (s & Es & Hu & Hsec); [lia|].
    unfold write_step. rewrite Es. simpl_res.
    rewrite slice_in by (unfold SectorSize in *; lia). simpl_res.
    destruct (sd_write_spec dev' s
      (take (Z.to_nat SectorSize) (drop (Z.to_nat ((j - first) * SectorSize)) buf)) Hok' Hsec)
      as (dev'' & E & Hok'' & Hs'').
    { split; [rewrite length_slice; unfold SectorSize in *; lia|].
      by apply Forall_take, Forall_drop. }
    exists dev''. split; [exact E|]. split; [done| |].
    + intros i s' Hi Hpos. assert (is_sector s') as Hsec'.
      { exact (Forall_lookup_1 _ _ _ _ (fo_range h Hf) Hi). }
      rewrite Hs'' by done. destruct (decide (s' = s)) as [->|Hne].
      * rewrite (bool_decide_eq_true_2 (s = s)) by done.
        pose proof (NoDup_lookup _ _ _ _ (fo_nodup h Hf) Hi Hu) as Hij.
        replace j with i by lia. by rewrite bool_decide_eq_true_2 by lia.
      * rewrite (bool_decide_eq_false_2 (s' = s)) by done. rewrite (Hin i s' Hi Hpos).
        assert (i ≠ j) by (intros ->; congruence).
        destruct (decide (first ≤ i < j)).
        -- rewrite !bool_decide_eq_true_2 by lia. done.
        -- rewrite !bool_decide_eq_false_2 by lia. done.
    + intros k Hk Hnk. rewrite Hs'', bool_decide_eq_false_2 by
        (try done; intros ->; by apply Hnk, (list_elem_of_lookup_2 _ _ _ Hu)). by apply Hout.
  - exists dev'. split; [exact E|].
    by replace (first + Z.of_nat (Z.to_nat n) - first) with n in Hw by lia.
Qed.

(** Byte by byte: what the file holds after its sectors are written. *)
Lemma written_flat dev dev' first n buf p :
  sd_ok dev → written first n buf dev dev' → 0 ≤ first → 0 ≤ p < numSectors h * SectorSize →
  flat dev' h !! Z.to_nat p =
    if bool_decide (first * SectorSize ≤ p < (first + n) * SectorSize)
    then buf !! Z.to_nat (p - first * SectorSize) else flat dev h !! Z.to_nat p.
Proof using All.
  intros Hok [Hok' Hin Hout] Hfirst Hp.
  set (i := p / SectorSize). set (j := p mod SectorSize).
  assert (p = i * SectorSize + j ∧ 0 ≤ j < SectorSize ∧ 0 ≤ i < numSectors h) as (Hpij & Hj & Hi).
  { unfold i, j, SectorSize in *. Z.div_mod_to_equations. lia. }
  destruct (ByteToSector_spec h Hf i Hi) as (s & _ & Hu & Hsec).
  assert (∀ d, sd_ok d → flat d h !! Z.to_nat p = sd_sector d s !! Z.to_nat j) as Hflat.
  { intros d Hd. replace (Z.to_nat p) with (Z.to_nat i * Z.to_nat SectorSize + Z.to_nat j)%nat
      by (unfold SectorSize in *; lia).
    apply flat_lookup; [done|done|lia]. }
  rewrite !Hflat by done. rewrite (Hin i s Hu) by lia.
  destruct (decide (first ≤ i < first + n)).
  - rewrite !bool_decide_eq_true_2 by (unfold SectorSize in *; lia).
    rewrite slice_lookup by (unfold SectorSize in *; lia). f_equal. unfold SectorSize in *. lia.
  - rewrite !bool_decide_eq_false_2 by (unfold SectorSize in *; lia). done.
Qed.

Lemma contents_lookup dev p :
  sd_ok dev → 0 ≤ p < numBytes h → contents dev h !! Z.to_nat p = flat dev h !! Z.to_nat p.
Proof using Type. intros Hok Hp. unfold contents. by rewrite lookup_take_lt by lia. Qed.

(** A partial sector is read in: the buffer then holds the bytes of the file
    there. *)
Lemma read_partial_spec dev partial sec buf off :
  sd_ok dev → 0 ≤ sec * SectorSize < numBytes h → is_s32 (sec * SectorSize + SectorSize) →
  0 ≤ off → off + SectorSize ≤ Z.of_nat (length buf) → Forall is_u8 buf →
  ∃ buf' dev', read_partial partial h (sec * SectorSize) buf off dev = Ok (buf', dev') ∧
    sd_ok dev' ∧ same_disk dev dev' ∧ length buf' = length buf ∧ Forall is_u8 buf' ∧
    (∀ q, ¬ (off ≤ Z.of_nat q < off + SectorSize) → buf' !! q = buf !! q) ∧
    (partial = false → buf' = buf) ∧
    (partial = true → ∀ p, sec * SectorSize ≤ p < (sec + 1) * SectorSize → p < numBytes h →
       buf' !! Z.to_nat (off + (p - sec * SectorSize)) = contents dev h !! Z.to_nat p).
Proof using All.
  intros Hok Hsec Hs Ho Hl Hbuf. unfold read_partial. destruct partial.
  2:{ exists buf, dev. split_and!; try done. }
  destruct (ReadAt_spec h Hf dev SectorSize (sec * SectorSize) Hok) as (dev' & -> & Hok' & Hsd);
    [lia|done|]. simpl_res.
  set (bs := take _ (drop _ (contents dev h))).
  assert (length bs ≤ Z.to_nat SectorSize)%nat as Hbl.
  { unfold bs. rewrite length_take. lia. }
  assert (Forall is_u8 bs) as Hbb.
  { unfold bs. apply Forall_take, Forall_drop, Forall_take, Forall_concat, Forall_fmap.
    eapply Forall_impl; [exact (fo_range h Hf)|]. intros k Hk. by apply sd_data. }
  destruct (overlay_in buf off bs) as (buf' & E & Hlen & Hlk); [lia|unfold SectorSize in *; lia|].
  rewrite E. exists buf', dev'. split_and!; try done.
  - eapply Forall_overlay; [exact Hbuf|exact Hbb|exact E].
  - intros q Hq. rewrite Hlk. by rewrite bool_decide_eq_false_2 by (unfold SectorSize in *; lia).
  - intros _ p Hp Hpn. rewrite Hlk.
    assert (length bs = Z.to_nat (Z.min SectorSize (numBytes h - sec * SectorSize))) as Hbs.
    { unfold bs. rewrite length_take, length_drop, (length_contents h Hf) by done. lia. }
    rewrite bool_decide_eq_true_2 by lia. unfold bs. rewrite lookup_take_lt, lookup_drop by lia.
    f_equal. lia.
Qed.

(** Before the copy, every byte of the buffer that stands for a byte of the
    file outside the written range is that byte. *)
Lemma prepared_spec dev position n buf0 :
  sd_ok dev → 0 ≤ position → 0 < n → position + n ≤ numBytes h → is_s32 (numBytes h + SectorSize) →
  let first := divRoundDown position SectorSize in
  let last := divRoundDown (position + n - 1) SectorSize in
  let firstAligned := position =? first * SectorSize in
  let lastAligned := position + n =? (last + 1) * SectorSize in
  length buf0 = Z.to_nat ((1 + last - first) * SectorSize) → Forall is_u8 buf0 →
  ∃ buf1 dev1 buf2 dev2,
    read_partial (negb firstAligned) h (first * SectorSize) buf0 0 dev = Ok (buf1, dev1) ∧
    read_partial (negb lastAligned && (negb (first =? last) || firstAligned)) h
      (last * SectorSize) buf1 ((last - first) * SectorSize) dev1 = Ok (buf2, dev2) ∧
    sd_ok dev2 ∧ same_disk dev dev2 ∧ length buf2 = length buf0 ∧ Forall is_u8 buf2 ∧
    ∀ p, first * SectorSize ≤ p < (last + 1) * SectorSize → p < numBytes h →
      p < position ∨ position + n ≤ p →
      buf2 !! Z.to_nat (p - first * SectorSize) = contents dev h !! Z.to_nat p.
Proof using All.
  intros Hok Hp Hn Hle Hs first last fa la Hlen Hbuf.
  destruct (sector_span h Hf position n Hp Hn Hle) as (Hfl & Hln & Hfp & Hlp).
  fold first last in Hfl, Hln, Hfp, Hlp.
  destruct (read_partial_spec dev (negb fa) first buf0 0)
    as (buf1 & dev1 & E1 & Hok1 & Hsd1 & Hlen1 & Hb1 & Hkeep1 & Hno1 & Hyes1);
    [done|unfold is_s32, two31, SectorSize in *; lia..|done|].
  destruct (read_partial_spec dev1 (negb la && (negb (first =? last) || fa)) last buf1
    ((last - first) * SectorSize))
    as (buf2 & dev2 & E2 & Hok2 & Hsd2 & Hlen2 & Hb2 & Hkeep2 & Hno2 & Hyes2);
    [done|unfold is_s32, two31, SectorSize in *; lia..|done|].
  exists buf1, dev1, buf2, dev2. split_and!; try done.
  - intros k Hk. by rewrite Hsd2, Hsd1.
  - by rewrite Hlen2.
  - assert (contents dev1 h = contents dev h) as Hc1.
    { unfold contents. by rewrite (same_disk_flat h Hf dev dev1). }
    rewrite Hc1 in Hyes2. intros p Hpr Hpn Hside. unfold fa, la, SectorSize in *.
    destruct (Z.eqb_spec position (first * 512)), (Z.eqb_spec (position + n) ((last + 1) * 512)),
      (Z.eqb_spec first last); simpl in *; try lia;
      try (rewrite (Hno2 eq_refl)); try (rewrite (Hno1 eq_refl) in * );
      first [ replace (p - first * 512) with (0 + (p - first * 512)) by lia;
              apply Hyes1; done || lia
            | replace (p - first * 512) with ((last - first) * 512 + (p - last * 512)) by lia;
              apply Hyes2; done || lia
            | destruct Hside;
              [ rewrite Hkeep2 by lia; replace (p - first * 512) with (0 + (p - first * 512)) by lia;
                apply Hyes1; done || lia
              | replace (p - first * 512) with ((last - first) * 512 + (p - last * 512)) by lia;
                apply Hyes2; done || lia ] ].
Qed.

(** The bytes after a write, one by one. *)
Definition spliced (c from : list Z) (position n : Z) : list Z :=
  take (Z.to_nat position) c ++ take (Z.to_nat n) from ++ drop (Z.to_nat (position + n)) c.

Lemma spliced_lookup c from position n p :
  0 ≤ position → 0 ≤ n → n ≤ Z.of_nat (length from) → position + n ≤ Z.of_nat (length c) → 0 ≤ p →
  spliced c from position n !! Z.to_nat p =
    if bool_decide (position ≤ p < position + n) then from !! Z.to_nat (p - position)
    else c !! Z.to_nat p.
Proof using Type.
  intros Hp Hn Hf' Hc Hpp. unfold spliced.
  destruct (decide (p < position)).
  - rewrite bool_decide_eq_false_2 by lia. rewrite lookup_app_l by (rewrite length_take; lia).
    by rewrite lookup_take_lt by lia.
  - rewrite lookup_app_r by (rewrite length_take; lia). rewrite length_take.
    destruct (decide (p < position + n)).
    + rewrite bool_decide_eq_true_2 by lia. rewrite lookup_app_l by (rewrite length_take; lia).
      rewrite lookup_take_lt by lia. f_equal. lia.
    + rewrite bool_decide_eq_false_2 by lia. rewrite lookup_app_r by (rewrite length_take; lia).
      rewrite length_take, lookup_drop. f_equal. lia.
Qed.

Lemma length_spliced c from position n :
  0 ≤ position → 0 ≤ n → n ≤ Z.of_nat (length from) → position + n ≤ Z.of_nat (length c) →
  length (spliced c from position n) = length c.
Proof using Type.
  intros. unfold spliced. rewrite !length_app, !length_take, length_drop. lia.
Qed.

(** How many bytes a transfer moves. *)
Definition transferred (n position : Z) : Z := Z.max 0 (Z.min n (numBytes h - position)).

Context (fresh : Z → list Z).
Context (Hfresh : ∀ n, length (fresh n) = Z.to_nat n ∧ Forall is_u8 (fresh n)).

Lemma WriteAt_spec dev from n position :
  sd_ok dev → 0 ≤ position ≤ numBytes h → is_s32 (position + n) →
  n ≤ Z.of_nat (length from) → Forall is_u8 from →
  ∃ dev', WriteAt fresh h from n position dev = Ok (transferred n position, dev') ∧ sd_ok dev' ∧
    contents dev' h = spliced (contents dev h) from position (transferred n position) ∧
    ∀ k, is_sector k → k ∉ used_sectors h → sd_sector dev' k = sd_sector dev k.
Proof using All.
  intros Hok Hp Hs Hfl Hfb. unfold WriteAt, FileLength.
  pose proof (fo_bytes h Hf) as Hbytes. pose proof (fo_sectors h Hf) as Hsecs.
  pose proof (fo_array h Hf) as Harr. change (Z.to_nat NumDirect) with 126%nat in Harr.
  destruct (clamp (numBytes h) n position) as [m|] eqn:Ec.
  - apply clamp_some in Ec as (Hm & Hle & Heq); [|lia|done].
    assert (transferred n position = m) as -> by (unfold transferred; lia).
    destruct (sector_span h Hf position m) as (Hfl' & Hln & Hfp & Hlp); [lia..|].
    destruct (prepared_spec dev position m
      (fresh ((1 + divRoundDown (position + m - 1) SectorSize - divRoundDown position SectorSize)
              * SectorSize)))
      as (buf1 & dev1 & buf2 & dev2 & E1 & E2 & Hok2 & Hsd2 & Hlen2 & Hb2 & Hprep);
      [done|lia|done|done|unfold is_s32, two31, SectorSize in *; lia|apply Hfresh|apply Hfresh|].
    set (first := divRoundDown position SectorSize) in *.
    set (last := divRoundDown (position + m - 1) SectorSize) in *.
    rewrite (proj1 (Hfresh _)) in Hlen2.
    rewrite E1. simpl_res. rewrite E2. simpl_res. rewrite slice_in by lia. simpl_res.
    change (drop (Z.to_nat 0) from) with from.
    destruct (overlay_in buf2 (position - first * SectorSize) (take (Z.to_nat m) from))
      as (buf3 & E3 & Hlen3 & Hlk3);
      [lia|rewrite length_take; unfold SectorSize in *; lia|].
    assert (Forall is_u8 buf3) as Hb3 by (eapply Forall_overlay; [exact Hb2| |exact E3]; by apply Forall_take).
    rewrite E3. simpl_res.
    destruct (write_loop dev2 first (1 + last - first) buf3) as (dev3 & E4 & Hw);
      [done|lia|lia|lia|congruence|done|].
    rewrite E4. exists dev3. pose proof Hw as [Hok3 _ Hout]. split_and!; try done.
    + apply list_eq. intros q.
      destruct (decide (q < Z.to_nat (numBytes h))%nat) as [Hq|Hq].
      * replace q with (Z.to_nat (Z.of_nat q)) by lia.
        rewrite contents_lookup, spliced_lookup by
          (done || lia || (rewrite (length_contents h Hf) by done; lia)).
        rewrite (written_flat dev2 dev3 first (1 + last - first) buf3) by
          (done || unfold SectorSize in *; lia).
        rewrite (same_disk_flat h Hf dev dev2) by done.
        destruct (decide (position ≤ Z.of_nat q < position + m)).
        -- rewrite !bool_decide_eq_true_2 by (unfold SectorSize in *; lia). rewrite Hlk3.
           rewrite bool_decide_eq_true_2 by (rewrite length_take; unfold SectorSize in *; lia).
           rewrite lookup_take_lt by (unfold SectorSize in *; lia). f_equal. lia.
        -- rewrite (bool_decide_eq_false_2 (position ≤ _ < _)) by lia. case_bool_decide.
           ++ rewrite Hlk3, bool_decide_eq_false_2 by
                (rewrite length_take; unfold SectorSize in *; lia).
              apply Hprep; unfold SectorSize in *; lia.
           ++ by rewrite contents_lookup by (done || lia).
      * rewrite !lookup_ge_None_2; [done| |].
        -- rewrite length_spliced by (lia || (rewrite (length_contents h Hf) by done; lia)).
           rewrite (length_contents h Hf) by done. lia.
        -- rewrite (length_contents h Hf) by done. lia.
    + intros k Hk Hnk. rewrite Hout by done. by apply Hsd2.
  - apply clamp_none in Ec.
    assert (transferred n position = 0) as -> by (unfold transferred; lia).
    exists dev. split_and!; try done. unfold spliced. simpl.
    replace (position + 0) with position by lia. by rewrite take_drop.
Qed.
End writing.
End OpenFile.

(** ** The properties *)

Module OpenFileSpec.
Import FileHdr OpenFile.

Section spec.
Context {D : Type} `{SectorDeviceLaws D}.
Context (h : FileHeader) (fresh : Z → list Z).
Implicit Types dev : D.

(** C9. Reading a range of a file through its sectors gives exactly the bytes
    of the file in that range (fewer at the end of the file, none beyond it),
    terminates, and leaves the disk as it was. *)
Theorem read_returns_contents dev n position :
  file_ok h → sd_ok dev → 0 ≤ position → is_s32 (position + n) →
  ∃ dev', ReadAt h n position dev
          = Ok (take (Z.to_nat n) (drop (Z.to_nat position) (contents dev h)), dev') ∧
          sd_ok dev' ∧ same_disk dev dev'.
Proof using H0. intros Hf. by apply ReadAt_spec. Qed.

(** C2. Writing a range of a file replaces exactly these bytes of the file, up
    to its end: a partially written first or last sector keeps its other
    bytes, whatever uninitialised memory the buffer came from; the result is
    the number of bytes written, and no sector outside the file changes. *)
Theorem write_updates_contents dev from n position :
  file_ok h → (∀ n, length (fresh n) = Z.to_nat n ∧ Forall is_u8 (fresh n)) →
  sd_ok dev → 0 ≤ position ≤ numBytes h → is_s32 (position + n) →
  n ≤ Z.of_nat (length from) → Forall is_u8 from →
  let w := Z.max 0 (Z.min n (numBytes h - position)) in
  ∃ dev', WriteAt fresh h from n position dev = Ok (w, dev') ∧ sd_ok dev' ∧
    contents dev' h = take (Z.to_nat position) (contents dev h) ++ take (Z.to_nat w) from ++
                      drop (Z.to_nat (position + w)) (contents dev h) ∧
    ∀ k, is_sector k → k ∉ used_sectors h → sd_sector dev' k = sd_sector dev k.
Proof using All. intros Hf Hfr. by apply WriteAt_spec. Qed.

(** What is written at a position is what is read there afterwards. *)
Theorem file_write_then_read dev from n position :
  file_ok h → (∀ n, length (fresh n) = Z.to_nat n ∧ Forall is_u8 (fresh n)) →
  sd_ok dev → 0 ≤ position → 0 ≤ n → position + n ≤ numBytes h →
  n = Z.of_nat (length from) → Forall is_u8 from →
  ∃ dev1 dev2, WriteAt fresh h from n position dev = Ok (n, dev1) ∧
               ReadAt h n position dev1 = Ok (from, dev2).
Proof using All.
  intros Hf Hfr Hok Hp Hn Hle Hlen Hfb.
  assert (is_s32 (position + n)) as Hs.
  { pose proof (fo_bytes h Hf). pose proof (fo_sectors h Hf). pose proof (fo_array h Hf) as Ha.
    change (Z.to_nat NumDirect) with 126%nat in Ha. unfold is_s32, two31, SectorSize in *. lia. }
  destruct (WriteAt_spec h Hf fresh Hfr dev from n position) as (dev1 & E1 & Hok1 & Hc & _);
    [done|lia|done|lia|done|].
  destruct (ReadAt_spec h Hf dev1 n position Hok1 Hp Hs) as (dev2 & E2 & _).
  assert (transferred h n position = n) as Ht by (unfold transferred; lia). rewrite Ht in *.
  exists dev1, dev2. split; [exact E1|]. rewrite E2, Hc. do 2 f_equal. unfold spliced.
  rewrite drop_app_length' by (rewrite length_take, (length_contents h Hf) by done; lia).
  rewrite take_app_length' by (rewrite length_take; lia). by rewrite take_ge by lia.
Qed.
End spec.

(** A file of 700 bytes in sectors 17 and 18 of a new disk; uninitialised
    memory is full of 205s. *)
Definition junk (n : Z) : list Z := replicate (Z.to_nat n) 205.

Lemma junk_ok n : length (junk n) = Z.to_nat n ∧ Forall is_u8 (junk n).
Proof. split; [apply length_replicate|]. apply Forall_replicate. unfold is_u8. lia. Qed.

Lemma sample_file_ok : file_ok FileHdrSpec.sample_header.
Proof.
  split.
  - done.
  - done.
  - done.
  - apply (bool_decide_unpack (Forall is_sector [17; 18])). vm_compute. done.
  - apply (bool_decide_unpack (NoDup [17; 18])). vm_compute. done.
Qed.

Lemma read_returns_contents_witness :
  ∃ dev', ReadAt FileHdrSpec.sample_header 100 690 DiskSpec.sample
          = Ok (take 100 (drop 690 (contents DiskSpec.sample FileHdrSpec.sample_header)), dev').
Proof.
  destruct (read_returns_contents FileHdrSpec.sample_header DiskSpec.sample 100 690
    sample_file_ok DiskSpec.sample_device) as (dev' & E & _);
    [lia|unfold is_s32, two31; lia|]. exists dev'. exact E.
Defined.

Lemma write_updates_contents_witness :
  ∃ dev', WriteAt junk FileHdrSpec.sample_header [1; 2; 3] 3 698 DiskSpec.sample = Ok (2, dev') ∧
    contents dev' FileHdrSpec.sample_header
    = take 698 (contents DiskSpec.sample FileHdrSpec.sample_header) ++ [1; 2] ++
      drop 700 (contents DiskSpec.sample FileHdrSpec.sample_header).
Proof.
  destruct (write_updates_contents FileHdrSpec.sample_header junk DiskSpec.sample [1; 2; 3] 3 698
    sample_file_ok junk_ok DiskSpec.sample_device) as (dev' & E & _ & Hc & _);
    [simpl; lia|unfold is_s32, two31; lia|simpl; lia|repeat constructor; unfold is_u8; lia|].
  exists dev'. split; [exact E|exact Hc].
Defined.

Lemma file_write_then_read_witness :
  ∃ dev1 dev2, WriteAt junk FileHdrSpec.sample_header [65; 66; 67; 68] 4 510 DiskSpec.sample
                 = Ok (4, dev1) ∧
               ReadAt FileHdrSpec.sample_header 4 510 dev1 = Ok ([65; 66; 67; 68], dev2).
Proof.
  apply (file_write_then_read FileHdrSpec.sample_header junk DiskSpec.sample [65; 66; 67; 68] 4 510
    sample_file_ok junk_ok DiskSpec.sample_device);
    [lia|lia|simpl; lia|reflexivity|repeat constructor; unfold is_u8; lia].
Defined.
End OpenFileSpec.
