(* ===== verification/Directory.v ===== *)
(** * Directories (filesys/directory.cc, directory.h)

    A table of (file name, sector of the file header), kept in a file.  A C
    string is the list of its bytes; beyond its end there are zeros, so the
    terminating NUL is the first zero.  The padding of a [DirectoryEntry] is
    written as zeros. *)

From S2P Require Import Prelude NList Bitmap Machine Interrupt Disk FileHdr OpenFile.

Module Directory.

Definition FileNameMaxLen : Z := 9.

(** [name] is an array of [FileNameMaxLen + 1] chars. *)
Record DirectoryEntry := mkDirEntry {
  inUse : bool;
  sector : Z;
  name : list Z;
}.

Record Directory := mkDirectory {
  tableSize : Z;
  table : list DirectoryEntry;
}.

(** [garbage] is what the uninitialised entries hold. *)
Definition Directory_new (garbage : list DirectoryEntry) (size : Z) : Directory :=
  mkDirectory size ((λ e, mkDirEntry false (sector e) (name e)) <$> garbage).

(** ** C strings *)

(** [!strncmp(a, b, n)] *)
Fixpoint strneq (n : nat) (a b : list Z) : bool :=
  match n with
  | O => true
  | S n' =>
      if default 0 (head a) =? default 0 (head b)
      then (if default 0 (head a) =? 0 then true else strneq n' (tail a) (tail b))
      else false
  end.

(** [strncpy(dst, src, n)]: the first [n] bytes of [dst] afterwards. *)
Fixpoint strncpy (n : nat) (src : list Z) : list Z :=
  match n with
  | O => []
  | S n' =>
      match src with
      | c :: src' => if c =? 0 then replicate n 0 else c :: strncpy n' src'
      | [] => replicate n 0
      end
  end.

(** The part of a name that is stored and compared. *)
Fixpoint until_nul (s : list Z) : list Z :=
  match s with
  | [] => []
  | c :: s' => if c =? 0 then [] else c :: until_nul s'
  end.
Definition key (s : list Z) : list Z := take (Z.to_nat FileNameMaxLen) (until_nul s).

(** ** Operations *)

(** [table[i].inUse && !strncmp(table[i].name, name, FileNameMaxLen)] *)
Definition matches (e : DirectoryEntry) (s : list Z) : bool :=
  inUse e && strneq (Z.to_nat FileNameMaxLen) (name e) s.

Fixpoint find_index (t : list DirectoryEntry) (s : list Z) (i : Z) : Z :=
  match t with
  | [] => -1
  | e :: t' => if matches e s then i else find_index t' s (i + 1)
  end.

Definition FindIndex (d : Directory) (s : list Z) : Z := find_index (table d) s 0.

Definition Find (d : Directory) (s : list Z) : res Z :=
  let i := FindIndex d s in
  if negb (i =? -1) then e ← arr_get (table d) i; Ok (sector e) else Ok (-1).

(** The first entry that is not in use is filled in. *)
Fixpoint add_entry (t : list DirectoryEntry) (s : list Z) (newSector : Z)
    : option (list DirectoryEntry) :=
  match t with
  | [] => None
  | e :: t' =>
      if negb (inUse e) then
        Some (mkDirEntry true newSector
                (strncpy (Z.to_nat FileNameMaxLen) s ++ drop (Z.to_nat FileNameMaxLen) (name e)) :: t')
      else option_map (cons e) (add_entry t' s newSector)
  end.

Definition Add (d : Directory) (s : list Z) (newSector : Z) : bool * Directory :=
  if negb (FindIndex d s =? -1) then (false, d)
  else
    match add_entry (table d) s newSector with
    | Some t => (true, mkDirectory (tableSize d) t)
    | None => (false, d)
    end.

Definition Remove (d : Directory) (s : list Z) : res (bool * Directory) :=
  let i := FindIndex d s in
  if i =? -1 then Ok (false, d)
  else
    e ← arr_get (table d) i;
    t ← arr_set (table d) i (mkDirEntry false (sector e) (name e));
    Ok (true, mkDirectory (tableSize d) t).

(** ** On disk *)

Definition entry_size : Z := 20.

Definition entry_bytes (e : DirectoryEntry) : list Z :=
  [if inUse e then 1 else 0; 0; 0; 0] ++ le_bytes 4 (sector e) ++ name e ++ [0; 0].

Definition entry_of (bs : list Z) : DirectoryEntry :=
  mkDirEntry (negb (default 0 (head bs) =? 0)) (s32 (le_value (take 4 (drop 4 bs))))
    (take 10 (drop 8 bs)).

Definition table_bytes (t : list DirectoryEntry) : list Z := concat (entry_bytes <$> t).

Fixpoint table_of (n : nat) (bs : list Z) : list DirectoryEntry :=
  match n with
  | O => []
  | S n' => entry_of (take (Z.to_nat entry_size) bs) :: table_of n' (drop (Z.to_nat entry_size) bs)
  end.

Section with_disk.
Context {D : Type} `{SectorDevice D}.
Context (fresh : Z → list Z).

(** The bytes that were read replace those at the start of the table. *)
Definition FetchFrom (d : Directory) (file : OpenFile.OpenFile) (dev : D) : res (Directory * D) :=
  '(bs, dev') ← OpenFile.ReadAt (OpenFile.hdr file) (tableSize d * entry_size) 0 dev;
  Ok (mkDirectory (tableSize d)
        (table_of (Z.to_nat (tableSize d)) (bs ++ drop (length bs) (table_bytes (table d)))), dev').

Definition WriteBack (d : Directory) (file : OpenFile.OpenFile) (dev : D) : res D :=
  '(_, dev') ← OpenFile.WriteAt fresh (OpenFile.hdr file) (table_bytes (table d))
                 (tableSize d * entry_size) 0 dev;
  Ok dev'.
End with_disk.

(** ** Names *)

Lemma until_nul_head s :
  until_nul s = if default 0 (head s) =? 0 then [] else default 0 (head s) :: until_nul (tail s).
Proof. by destruct s as [|c s]. Qed.

Lemma strneq_spec n a b :
  strneq n a b = bool_decide (take n (until_nul a) = take n (until_nul b)).
Proof.
  revert a b. induction n as [|n IH]; intros a b; cbn [strneq]; [done|].
  rewrite (until_nul_head a), (until_nul_head b).
  destruct (Z.eqb_spec (default 0 (head a)) (default 0 (head b))) as [E|E].
  - rewrite <- E. destruct (default 0 (head a) =? 0); [done|]. rewrite IH. simpl.
    apply bool_decide_ext. split; [by intros ->|by intros [= ->]].
  - symmetry. apply bool_decide_eq_false.
    destruct (Z.eqb_spec (default 0 (head a)) 0), (Z.eqb_spec (default 0 (head b)) 0);
      simpl; intros Heq; first [discriminate Heq | congruence | injection Heq; congruence].
Qed.

Lemma matches_spec e s : matches e s = inUse e && bool_decide (key (name e) = key s).
Proof. unfold matches, key. by rewrite strneq_spec. Qed.

Lemma until_nul_replicate n : until_nul (replicate n 0) = [].
Proof. by destruct n. Qed.

Lemma length_strncpy n s : length (strncpy n s) = n.
Proof.
  revert s. induction n as [|n IH]; intros [|c s]; simpl; try done.
  - by rewrite length_replicate.
  - destruct (c =? 0); simpl; [by rewrite length_replicate|by rewrite IH].
Qed.

Lemma take_until_strncpy n s rest : take n (until_nul (strncpy n s ++ rest)) = take n (until_nul s).
Proof.
  revert s. induction n as [|n IH]; intros [|c s]; simpl; try done.
  - destruct (c =? 0) eqn:Ec; simpl; [done|]. rewrite Ec. simpl. by rewrite IH.
Qed.

Lemma key_strncpy s rest : key (strncpy (Z.to_nat FileNameMaxLen) s ++ rest) = key s.
Proof. apply take_until_strncpy. Qed.

(** ** The directory as a finite map from names to header sectors *)

Definition live (t : list DirectoryEntry) : list DirectoryEntry := filter inUse t.

Definition files_of (t : list DirectoryEntry) : gmap (list Z) Z :=
  list_to_map ((λ e, (key (name e), sector e)) <$> live t).
Definition files (d : Directory) : gmap (list Z) Z := files_of (table d).

Record entry_ok (e : DirectoryEntry) : Prop := mkEntryOk {
  eo_name : length (name e) = 10%nat;
  eo_bytes : Forall is_u8 (name e);
  eo_sector : is_s32 (sector e);
}.

Record dir_ok (d : Directory) : Prop := mkDirOk {
  do_size : tableSize d = Z.of_nat (length (table d));
  do_entries : Forall entry_ok (table d);
  do_unique : NoDup ((λ e, key (name e)) <$> live (table d));
}.

Section tables.
Implicit Types (t : list DirectoryEntry) (e : DirectoryEntry).

Lemma live_cons e t : live (e :: t) = if inUse e then e :: live t else live t.
Proof. unfold live. rewrite filter_cons. by destruct (inUse e). Qed.

Lemma files_of_cons e t :
  files_of (e :: t) = if inUse e then <[key (name e) := sector e]> (files_of t) else files_of t.
Proof. unfold files_of. rewrite live_cons. by destruct (inUse e). Qed.

Lemma files_of_absent t k :
  k ∉ ((λ e, key (name e)) <$> live t) → files_of t !! k = None.
Proof.
  intros Hk. apply not_elem_of_list_to_map_1. rewrite <- list_fmap_compose. done.
Qed.

(** The search finds the entry of the name, if the map has one. *)
Lemma find_index_spec t s i :
  NoDup ((λ e, key (name e)) <$> live t) →
  match files_of t !! key s with
  | None => find_index t s i = -1 ∧ Forall (λ e, matches e s = false) t
  | Some x => ∃ n e, find_index t s i = i + Z.of_nat n ∧ t !! n = Some e ∧ inUse e = true ∧
                     key (name e) = key s ∧ sector e = x
  end.
Proof.
  revert i. induction t as [|e t IH]; intros i Hnd; [by split|].
  cbn [find_index]. rewrite matches_spec, files_of_cons, live_cons in *.
  destruct (inUse e) eqn:Eu; simpl in *.
  - apply NoDup_cons in Hnd as [Hout Hnd]. case_bool_decide as Ek.
    + rewrite Ek, lookup_insert_eq. exists 0%nat, e. split_and!; try done. lia.
    + rewrite lookup_insert_ne by done. specialize (IH (i + 1) Hnd).
      destruct (files_of t !! key s).
      * destruct IH as (n & e' & -> & ? & ? & ? & ?). exists (S n), e'. split_and!; try done. lia.
      * destruct IH as [? ?]. split; [done|]. constructor; [|done].
        rewrite matches_spec, Eu. by rewrite bool_decide_eq_false_2.
  - specialize (IH (i + 1) Hnd). destruct (files_of t !! key s).
    + destruct IH as (n & e' & -> & ? & ? & ? & ?). exists (S n), e'. split_and!; try done. lia.
    + destruct IH as [? ?]. split; [done|]. constructor; [|done]. by rewrite matches_spec, Eu.
Qed.

Definition new_entry (e : DirectoryEntry) (s : list Z) (x : Z) : DirectoryEntry :=
  mkDirEntry true x (strncpy (Z.to_nat FileNameMaxLen) s ++ drop (Z.to_nat FileNameMaxLen) (name e)).

Lemma key_new_entry e s x : key (name (new_entry e s x)) = key s.
Proof. apply key_strncpy. Qed.

Lemma strncpy_u8 n s : Forall is_u8 s → Forall is_u8 (strncpy n s).
Proof.
  intros Hs. revert n. induction Hs as [|c s Hc _ IH]; intros [|n]; simpl; try constructor.
  - unfold is_u8. lia.
  - apply Forall_replicate. unfold is_u8. lia.
  - destruct (c =? 0); constructor; [unfold is_u8; lia|apply Forall_replicate; unfold is_u8; lia|done|done].
Qed.

Lemma new_entry_ok e s x : entry_ok e → Forall is_u8 s → is_s32 x → entry_ok (new_entry e s x).
Proof.
  intros [Hn Hb Hs] Hsb Hx. split; [| |exact Hx]; unfold new_entry; cbn [name].
  - rewrite length_app, length_strncpy, length_drop, Hn. done.
  - apply Forall_app. split; [by apply strncpy_u8|by apply Forall_drop].
Qed.

Lemma add_entry_spec t s x :
  match add_entry t s x with
  | None => Forall (λ e, inUse e = true) t
  | Some t' => ∃ i e, t !! i = Some e ∧ inUse e = false ∧ t' = <[i := new_entry e s x]> t
  end.
Proof.
  induction t as [|e t IH]; simpl; [done|]. destruct (inUse e) eqn:Eu; simpl.
  - destruct (add_entry t s x) as [t'|]; simpl.
    + destruct IH as (i & e' & Hi & Hu & ->). by exists (S i), e'.
    + by constructor.
  - by exists 0%nat, e.
Qed.

(** Filling and clearing one entry, up to the order of the entries. *)
Lemma live_fill t i e e' :
  t !! i = Some e → inUse e = false → inUse e' = true → live (<[i := e']> t) ≡ₚ e' :: live t.
Proof.
  revert i. induction t as [|x t IH]; intros [|i] Hi Hu Hu'; simplify_eq/=.
  - by rewrite !live_cons, Hu, Hu'.
  - rewrite !live_cons. destruct (inUse x); [|by apply IH].
    rewrite (IH i) by done. apply Permutation_swap.
Qed.

Lemma live_clear t i e e' :
  t !! i = Some e → inUse e = true → inUse e' = false → live t ≡ₚ e :: live (<[i := e']> t).
Proof.
  revert i. induction t as [|x t IH]; intros [|i] Hi Hu Hu'; simplify_eq/=.
  - by rewrite !live_cons, Hu, Hu'.
  - rewrite !live_cons. destruct (inUse x); [|by apply IH].
    rewrite (IH i) by done. apply Permutation_swap.
Qed.

Lemma files_of_perm t l :
  NoDup ((λ e, key (name e)) <$> live t) → live t ≡ₚ l →
  files_of t = list_to_map ((λ e, (key (name e), sector e)) <$> l).
Proof.
  intros Hnd Hp. unfold files_of. apply list_to_map_proper.
  - by rewrite <- list_fmap_compose.
  - by rewrite Hp.
Qed.
End tables.

Section operations.
Implicit Types d : Directory.

Lemma Find_spec d s : dir_ok d → Find d s = Ok (default (-1) (files d !! key s)).
Proof.
  intros [_ _ Hnd]. unfold Find, FindIndex, files.
  pose proof (find_index_spec (table d) s 0 Hnd) as Hf.
  destruct (files_of (table d) !! key s) as [x|].
  - destruct Hf as (n & e & -> & He & _ & _ & <-).
    destruct (Z.eqb_spec (0 + Z.of_nat n) (-1)); [lia|].
    assert (arr_get (table d) (0 + Z.of_nat n) = Ok e) as ->; [|done].
    apply arr_get_in; [lia|]. by rewrite Z.add_0_l, Nat2Z.id.
  - by destruct Hf as [-> _].
Qed.

Lemma Add_exists d s x :
  dir_ok d → is_Some (files d !! key s) → Add d s x = (false, d).
Proof.
  intros [_ _ Hnd] [y Hy]. unfold Add, FindIndex.
  pose proof (find_index_spec (table d) s 0 Hnd) as Hf. unfold files in Hy. rewrite Hy in Hf.
  destruct Hf as (n & e & -> & _). by destruct (Z.eqb_spec (0 + Z.of_nat n) (-1)); [lia|].
Qed.

(** A new name: added, unless the table is full. *)
Lemma Add_new d s x :
  dir_ok d → files d !! key s = None → Forall is_u8 s → is_s32 x →
  (Add d s x = (false, d) ∧ length (live (table d)) = length (table d)) ∨
  (∃ d', Add d s x = (true, d') ∧ dir_ok d' ∧ tableSize d' = tableSize d ∧
         files d' = <[key s := x]> (files d)).
Proof.
  intros [Hsz Hent Hnd] Hs Hsb Hx. unfold Add, FindIndex, files in *.
  pose proof (find_index_spec (table d) s 0 Hnd) as Hf. rewrite Hs in Hf.
  destruct Hf as [-> _]. simpl.
  pose proof (add_entry_spec (table d) s x) as Ha.
  destruct (add_entry (table d) s x) as [t'|].
  - right. destruct Ha as (i & e & Hi & Hu & ->). eexists. split; [reflexivity|]. simpl.
    pose proof (live_fill _ _ _ (new_entry e s x) Hi Hu eq_refl) as Hl.
    assert (NoDup ((λ e, key (name e)) <$> live (<[i:=new_entry e s x]> (table d)))) as Hnd'.
    { rewrite Hl. rewrite fmap_cons, key_new_entry. apply NoDup_cons. split; [|done].
      intros Hin. apply list_elem_of_fmap in Hin as (e' & Ek & He').
      assert (files_of (table d) !! key s = Some (sector e')) as Hs'.
      { apply elem_of_list_to_map_1; [by rewrite <- list_fmap_compose|].
        apply list_elem_of_fmap. exists e'. by rewrite Ek. }
      congruence. }
    split; [|split; [done|]].
    + split; simpl; [by rewrite length_insert| |done].
      apply Forall_insert; [done|]. apply new_entry_ok; try done.
      exact (Forall_lookup_1 _ _ _ _ Hent Hi).
    + rewrite (files_of_perm _ _ Hnd' Hl), fmap_cons, key_new_entry. done.
  - left. split; [done|]. unfold live. rewrite list_filter_all; [done|].
    eapply Forall_impl; [exact Ha|]. simpl. by intros e ->.
Qed.

Lemma remove_entry_spec d s :
  dir_ok d →
  match files d !! key s with
  | None => Remove d s = Ok (false, d)
  | Some _ => ∃ d', Remove d s = Ok (true, d') ∧ dir_ok d' ∧ tableSize d' = tableSize d ∧
                    files d' = delete (key s) (files d)
  end.
Proof.
  intros [Hsz Hent Hnd]. unfold Remove, FindIndex, files in *.
  pose proof (find_index_spec (table d) s 0 Hnd) as Hf.
  destruct (files_of (table d) !! key s) as [x|]; [|by destruct Hf as [-> _]].
  destruct Hf as (n & e & -> & Hn & Hu & Hk & _).
  destruct (Z.eqb_spec (0 + Z.of_nat n) (-1)); [lia|].
  replace (0 + Z.of_nat n) with (Z.of_nat n) by lia.
  rewrite (arr_get_in _ _ e) by (lia || by rewrite Nat2Z.id). simpl_res.
  pose proof (lookup_lt_Some _ _ _ Hn). rewrite arr_set_in by lia. simpl_res. rewrite Nat2Z.id.
  eexists. split; [reflexivity|]. simpl.
  set (e' := mkDirEntry false (sector e) (name e)).
  pose proof (live_clear _ _ _ e' Hn Hu eq_refl) as Hl.
  pose proof Hnd as Hnd0. rewrite Hl, fmap_cons in Hnd0. apply NoDup_cons in Hnd0 as [Hout Hnd'].
  split; [|split; [done|]].
  - split; simpl; [by rewrite length_insert| |done].
    apply Forall_insert; [done|]. pose proof (Forall_lookup_1 _ _ _ _ Hent Hn) as [? ? ?]. by split.
  - rewrite (files_of_perm _ _ Hnd Hl), fmap_cons, <- Hk. simpl.
    rewrite delete_insert_id; [done|]. by apply files_of_absent.
Qed.
End operations.

(** ** The table on disk *)

Lemma entry_roundtrip e : entry_ok e → entry_of (entry_bytes e) = e.
Proof.
  intros [Hn Hb Hs]. unfold entry_of, entry_bytes. simpl head. cbn [default].
  rewrite drop_app_length' by done.
  rewrite take_app_length' by (by rewrite length_le_bytes).
  rewrite app_assoc, drop_app_length' by (by rewrite length_app, length_le_bytes).
  rewrite take_app_length' by done. rewrite le_word_roundtrip by done.
  destruct e as [[] ? ?]; done.
Qed.

Lemma length_entry_bytes e : entry_ok e → length (entry_bytes e) = Z.to_nat entry_size.
Proof. intros [Hn _ _]. unfold entry_bytes. rewrite !length_app, length_le_bytes, Hn. done. Qed.

Lemma entry_bytes_u8 e : entry_ok e → Forall is_u8 (entry_bytes e).
Proof.
  intros [_ Hb _]. unfold entry_bytes. rewrite !Forall_app. split_and!; try done.
  - destruct (inUse e); repeat constructor; unfold is_u8; lia.
  - apply le_bytes_u8.
  - repeat constructor; unfold is_u8; lia.
Qed.

Lemma table_bytes_u8 t : Forall entry_ok t → Forall is_u8 (table_bytes t).
Proof.
  intros Ht. apply Forall_concat, Forall_fmap. eapply Forall_impl; [exact Ht|]. apply entry_bytes_u8.
Qed.

Lemma length_table_bytes t :
  Forall entry_ok t → length (table_bytes t) = Z.to_nat (Z.of_nat (length t) * entry_size).
Proof.
  intros Ht. unfold table_bytes. rewrite (OpenFile.concat_length (Z.to_nat entry_size)).
  - rewrite length_fmap. unfold entry_size. lia.
  - apply Forall_fmap. eapply Forall_impl; [exact Ht|]. apply length_entry_bytes.
Qed.

Lemma table_roundtrip t rest :
  Forall entry_ok t → table_of (length t) (table_bytes t ++ rest) = t.
Proof.
  induction 1 as [|e t He _ IH]; [done|]. cbn [length table_of].
  unfold table_bytes in *. rewrite fmap_cons. cbn [concat]. rewrite <- app_assoc.
  rewrite take_app_length', drop_app_length' by (by rewrite length_entry_bytes).
  by rewrite entry_roundtrip, IH.
Qed.
End Directory.

(** ** The properties *)

Module DirectorySpec.
Import Directory.

(** Requests to a directory and their answers. *)
Inductive request := RFind (s : list Z) | RAdd (s : list Z) (x : Z) | RRemove (s : list Z).

Definition request_ok (r : request) : Prop :=
  match r with RAdd s x => Forall is_u8 s ∧ is_s32 x | _ => True end.

Definition b2z (b : bool) : Z := if b then 1 else 0.

Definition serve (r : request) (d : Directory) : res (Z * Directory) :=
  match r with
  | RFind s => x ← Find d s; Ok (x, d)
  | RAdd s x => let '(b, d') := Add d s x in Ok (b2z b, d')
  | RRemove s => '(b, d') ← Remove d s; Ok (b2z b, d')
  end.

(** The same requests to a finite map with room for [n] names, of which only
    the first nine characters count. *)
Definition serve_map (n : Z) (r : request) (m : gmap (list Z) Z) : Z * gmap (list Z) Z :=
  match r with
  | RFind s => (default (-1) (m !! key s), m)
  | RAdd s x =>
      if bool_decide (m !! key s = None ∧ Z.of_nat (size m) < n) then (1, <[key s := x]> m) else (0, m)
  | RRemove s => if bool_decide (m !! key s = None) then (0, m) else (1, delete (key s) m)
  end.

Fixpoint session (rs : list request) (d : Directory) : res (list Z * Directory) :=
  match rs with
  | [] => Ok ([], d)
  | r :: rs' => '(a, d1) ← serve r d; '(l, d2) ← session rs' d1; Ok (a :: l, d2)
  end.

Fixpoint session_map (n : Z) (rs : list request) (m : gmap (list Z) Z) : list Z * gmap (list Z) Z :=
  match rs with
  | [] => ([], m)
  | r :: rs' =>
      let '(a, m1) := serve_map n r m in
      let '(l, m2) := session_map n rs' m1 in (a :: l, m2)
  end.

Lemma size_files d : dir_ok d → size (files d) = length (live (table d)).
Proof.
  intros [_ _ Hnd]. unfold files, files_of. rewrite map_size_list_to_map, length_fmap; [done|].
  by rewrite <- list_fmap_compose.
Qed.

Lemma length_live t : (length (live t) ≤ length t)%nat.
Proof. apply length_filter. Qed.

Lemma serve_map_refines r d :
  dir_ok d → request_ok r →
  ∃ d', serve r d = Ok ((serve_map (tableSize d) r (files d)).1, d') ∧ dir_ok d' ∧
        tableSize d' = tableSize d ∧ files d' = (serve_map (tableSize d) r (files d)).2.
Proof.
  intros Hd Hr. pose proof (size_files d Hd) as Hsz. pose proof (do_size d Hd) as Hts.
  destruct r as [s|s x|s]; simpl.
  - rewrite Find_spec by done. by exists d.
  - destruct Hr as [Hs Hx]. destruct (files d !! key s) as [y|] eqn:Ek.
    + rewrite bool_decide_eq_false_2 by naive_solver. rewrite Add_exists by done. by exists d.
    + destruct (Add_new d s x Hd Ek Hs Hx) as [[-> Hfull]|(d' & -> & Hd' & Hts' & Hf')].
      * rewrite bool_decide_eq_false_2 by (intros [_ ?]; lia). by exists d.
      * pose proof (size_files d' Hd') as Hsz'. pose proof (length_live (table d')).
        pose proof (do_size d' Hd'). rewrite Hf', map_size_insert_None in Hsz' by done.
        rewrite bool_decide_eq_true_2 by (split; [done|lia]). by exists d'.
  - pose proof (remove_entry_spec d s Hd) as Hrm. destruct (files d !! key s) as [y|] eqn:Ek.
    + destruct Hrm as (d' & -> & ? & ? & ?). by exists d'.
    + rewrite Hrm. by exists d.
Qed.

(** C10. A directory behaves as a finite map from names (their first nine
    characters) to header sectors, for any sequence of requests: Find looks the
    name up, Add fails exactly when the name is there or the table is full,
    Remove exactly when the name is not there, and names stay unique. *)
Theorem directory_refines_map rs d :
  dir_ok d → Forall request_ok rs →
  ∃ d', session rs d = Ok ((session_map (tableSize d) rs (files d)).1, d') ∧ dir_ok d' ∧
        files d' = (session_map (tableSize d) rs (files d)).2.
Proof.
  intros Hd Hrs. revert d Hd. induction Hrs as [|r rs Hr _ IH]; intros d Hd; [by exists d|].
  cbn [session session_map].
  destruct (serve_map_refines r d Hd Hr) as (d1 & -> & Hd1 & Hts & Hf1).
  destruct (serve_map (tableSize d) r (files d)) as [a m1]. simpl in Hf1. subst m1.
  destruct (IH d1 Hd1) as (d2 & E & Hd2 & Hf2). rewrite Hts in *. simpl_res. rewrite E.
  destruct (session_map (tableSize d) rs (files d1)) as [l m2]. by exists d2.
Qed.

(** An empty directory with two entries. *)
Definition blank_entry : DirectoryEntry := mkDirEntry false 0 (replicate 10 205).
Definition sample : Directory := Directory_new [blank_entry; blank_entry] 2.

Lemma sample_dir_ok : dir_ok sample.
Proof.
  split; [done| |constructor].
  assert (entry_ok blank_entry) as He.
  { split; [done| |unfold is_s32, two31; simpl; lia]. apply Forall_replicate. unfold is_u8. lia. }
  repeat constructor; apply He.
Qed.

Definition sample_requests : list request :=
  [RAdd [97; 98] 5; RAdd [97; 98] 6; RAdd [99] 7; RAdd [100] 8; RFind [97; 98]; RRemove [99]; RFind [99]].

Lemma directory_refines_map_witness :
  ∃ d', session sample_requests sample = Ok ([1; 0; 1; 0; 5; 1; -1], d') ∧ dir_ok d'.
Proof.
  destruct (directory_refines_map sample_requests sample sample_dir_ok) as (d' & E & Hd & _).
  - repeat constructor; unfold is_u8, two31; simpl; lia.
  - exists d'. split; [exact E|exact Hd].
Defined.
End DirectorySpec.
