(* ===== verification/FileSys.v ===== *)
(** * The file system (filesys/filesys.cc, filesys.h; BitMap::FetchFrom and
    WriteBack of userprog/bitmap.cc)

    Creating, opening and removing files on a disk: the bitmap of free sectors
    and the directory are themselves files, whose headers are in sectors 0 and
    1.  The model is relative to any [SectorDevice].

    The routines allocate their working copies with [new]; [garbage_map],
    [garbage_dir], [garbage_hdr] and [fresh] are what that memory holds before
    it is written. *)

From S2P Require Import Prelude NList Bitmap Machine Interrupt Disk FileHdr OpenFile Directory.

Definition FreeMapSector : Z := 0.
Definition DirectorySector : Z := 1.
Definition FreeMapFileSize : Z := Z.quot NumSectors BitMap.BitsInByte.
Definition NumDirEntries : Z := 10.
Definition DirectoryFileSize : Z := Directory.entry_size * NumDirEntries.
Definition N_FILES_IN_TABLE : Z := 100.

(** ** The bitmap as a file *)

Module BitMapFile.

Definition map_bytes (bm : BitMap.BitMap) : list Z := concat (le_bytes 4 <$> BitMap.map bm).

(** The unsigned ints of the bytes read over the map. *)
Fixpoint uwords (n : nat) (bs : list Z) : list Z :=
  match n with
  | O => []
  | S n' => le_value (take 4 bs) :: uwords n' (drop 4 bs)
  end.

Section with_disk.
Context {D : Type} `{SectorDevice D}.
Context (fresh : Z → list Z).

Definition FetchFrom (bm : BitMap.BitMap) (file : OpenFile.OpenFile) (dev : D)
    : res (BitMap.BitMap * D) :=
  '(bs, dev') ← OpenFile.ReadAt (OpenFile.hdr file) (BitMap.numWords bm * 4) 0 dev;
  Ok (BitMap.with_map bm
        (uwords (Z.to_nat (BitMap.numWords bm)) (bs ++ drop (length bs) (map_bytes bm))), dev').

Definition WriteBack (bm : BitMap.BitMap) (file : OpenFile.OpenFile) (dev : D) : res D :=
  '(_, dev') ← OpenFile.WriteAt fresh (OpenFile.hdr file) (map_bytes bm)
                 (BitMap.numWords bm * 4) 0 dev;
  Ok dev'.
End with_disk.
End BitMapFile.

(** ** The file system *)

Module FileSys.
Import OpenFile.

(** [None] in the table is a NULL pointer; a file that the constructor has not
    opened yet is an uninitialised pointer. *)
Record FileSystem := mkFileSystem {
  file_table : list (option OpenFile);
  freeMapFile : option OpenFile;
  directoryFile : option OpenFile;
}.

Definition deref {A} (p : option A) : res A :=
  match p with Some x => Ok x | None => Stop Undefined end.

Section with_disk.
Context {D : Type} `{SectorDevice D}.
Context (fresh : Z → list Z).
Context (garbage_map : list Z) (garbage_dir : list Directory.DirectoryEntry).
Context (garbage_hdr : FileHdr.FileHeader).

Definition new_directory : Directory.Directory :=
  Directory.Directory_new garbage_dir NumDirEntries.

(** [new Directory(NumDirEntries)] and [FetchFrom(directoryFile)] *)
Definition fetch_directory (fs : FileSystem) (dev : D) : res (Directory.Directory * D) :=
  file ← deref (directoryFile fs); Directory.FetchFrom new_directory file dev.

(** [new BitMap(NumSectors)] and [FetchFrom(freeMapFile)] *)
Definition fetch_map (fs : FileSystem) (dev : D) : res (BitMap.BitMap * D) :=
  bm ← BitMap.BitMap_new garbage_map NumSectors;
  file ← deref (freeMapFile fs);
  BitMapFile.FetchFrom bm file dev.

Definition write_directory (fs : FileSystem) (d : Directory.Directory) (dev : D) : res D :=
  file ← deref (directoryFile fs); Directory.WriteBack fresh d file dev.
Definition write_map (fs : FileSystem) (bm : BitMap.BitMap) (dev : D) : res D :=
  file ← deref (freeMapFile fs); BitMapFile.WriteBack fresh bm file dev.

Definition Create (fs : FileSystem) (name : list Z) (initialSize : Z) (dev : D) : res (bool * D) :=
  '(directory, dev) ← fetch_directory fs dev;
  found ← Directory.Find directory name;
  if negb (found =? -1) then Ok (false, dev)
  else
    '(freeMap, dev) ← fetch_map fs dev;
    '(sector, freeMap) ← BitMap.FindFreeSlot freeMap;
    if sector =? -1 then Ok (false, dev)
    else
      let '(added, directory) := Directory.Add directory name sector in
      if negb added then Ok (false, dev)
      else
        '(allocated, hdr, freeMap) ← FileHdr.Allocate garbage_hdr freeMap initialSize;
        if negb allocated then Ok (false, dev)
        else
          dev ← FileHdr.WriteBack hdr sector dev;
          dev ← write_directory fs directory dev;
          dev ← write_map fs freeMap dev;
          Ok (true, dev).

(** [for (i = 2; i < N_FILES_IN_TABLE; ++i) if (!file_table[i]) return i] *)
Fixpoint free_slot_from (t : list (option OpenFile)) (i : Z) (n : nat) : res Z :=
  match n with
  | O => Ok (-1)
  | S n' =>
      f ← arr_get t i;
      match f with None => Ok i | Some _ => free_slot_from t (i + 1) n' end
  end.
Definition getIdxFreeSlot (fs : FileSystem) : res Z :=
  free_slot_from (file_table fs) 2 (Z.to_nat (N_FILES_IN_TABLE - 2)).

(** [Open(char *name)] *)
Definition Open (fs : FileSystem) (name : list Z) (dev : D) : res (option OpenFile * D) :=
  freeslot ← getIdxFreeSlot fs;
  if freeslot =? -1 then Ok (None, dev)
  else
    '(directory, dev) ← fetch_directory fs dev;
    sector ← Directory.Find directory name;
    if sector >=? 0 then
      '(f, dev) ← OpenFile_new sector dev; Ok (Some f, dev)
    else Ok (None, dev).

(** [Open(char *name, int _type)] *)
Definition Open_type (fs : FileSystem) (name : list Z) (_type : Z) (dev : D)
    : res (Z * FileSystem * D) :=
  freeslot ← (if _type =? 2 then Ok 0
              else if _type =? 3 then Ok 1
              else if (_type =? 0) || (_type =? 1) then getIdxFreeSlot fs
              else Ok (-1));
  if freeslot =? -1 then Ok (-1, fs, dev)
  else
    '(directory, dev) ← fetch_directory fs dev;
    sector ← Directory.Find directory name;
    if sector >=? 0 then
      '(f, dev) ← OpenFile_new_type sector _type dev;
      t ← arr_set (file_table fs) freeslot (Some f);
      Ok (freeslot, mkFileSystem t (freeMapFile fs) (directoryFile fs), dev)
    else Ok (-1, fs, dev).

Definition Remove (fs : FileSystem) (name : list Z) (dev : D) : res (bool * D) :=
  '(directory, dev) ← fetch_directory fs dev;
  sector ← Directory.Find directory name;
  if sector =? -1 then Ok (false, dev)
  else
    '(fileHdr, dev) ← FileHdr.FetchFrom sector dev;
    '(freeMap, dev) ← fetch_map fs dev;
    freeMap ← FileHdr.Deallocate fileHdr freeMap;
    freeMap ← BitMap.Clear freeMap sector;
    '(_, directory) ← Directory.Remove directory name;
    dev ← write_map fs freeMap dev;
    dev ← write_directory fs directory dev;
    Ok (true, dev).

(** The branch of the constructor that formats the disk. *)
Definition format_disk (t : list (option OpenFile)) (dev : D) : res (FileSystem * D) :=
  freeMap ← BitMap.BitMap_new garbage_map NumSectors;
  let directory := new_directory in
  freeMap ← BitMap.Mark freeMap FreeMapSector;
  freeMap ← BitMap.Mark freeMap DirectorySector;
  '(ok1, mapHdr, freeMap) ← FileHdr.Allocate garbage_hdr freeMap FreeMapFileSize;
  ASSERT ok1;;
  '(ok2, dirHdr, freeMap) ← FileHdr.Allocate garbage_hdr freeMap DirectoryFileSize;
  ASSERT ok2;;
  dev ← FileHdr.WriteBack mapHdr FreeMapSector dev;
  dev ← FileHdr.WriteBack dirHdr DirectorySector dev;
  '(mf, dev) ← OpenFile_new FreeMapSector dev;
  '(df, dev) ← OpenFile_new DirectorySector dev;
  dev ← BitMapFile.WriteBack fresh freeMap mf dev;
  dev ← Directory.WriteBack fresh directory df dev;
  Ok (mkFileSystem t (Some mf) (Some df), dev).

(** The branch that opens the files of an already formatted disk. *)
Definition mount (t : list (option OpenFile)) (dev : D) : res (FileSystem * D) :=
  '(mf, dev) ← OpenFile_new FreeMapSector dev;
  '(df, dev) ← OpenFile_new DirectorySector dev;
  Ok (mkFileSystem t (Some mf) (Some df), dev).

(** The whole constructor: it creates and opens "stdin" and "stdout" before the
    two files are opened. *)
Definition stdin_name : list Z := [115; 116; 100; 105; 110].
Definition stdout_name : list Z := [115; 116; 100; 111; 117; 116].

Definition FileSystem_new (format : bool) (dev : D) : res (FileSystem * D) :=
  let fs := mkFileSystem (replicate (Z.to_nat N_FILES_IN_TABLE) None) None None in
  '(_, dev) ← Create fs stdin_name 0 dev;
  '(_, dev) ← Create fs stdout_name 0 dev;
  '(_, fs, dev) ← Open_type fs stdin_name 2 dev;
  '(_, fs, dev) ← Open_type fs stdout_name 3 dev;
  if format then format_disk (file_table fs) dev else mount (file_table fs) dev.

(** ** The state of the disk *)

(** The sectors of one file: its header and its data. *)
Definition extent (dev : D) (s : Z) : list Z :=
  s :: FileHdr.used_sectors (FileHdr.header_of (sd_sector dev s)).

(** All sectors that belong to somebody. *)
Definition owned (mh dh : FileHdr.FileHeader) (dev : D) (m : gmap (list Z) Z) : list Z :=
  [FreeMapSector; DirectorySector] ++ FileHdr.used_sectors mh ++ FileHdr.used_sectors dh ++
  (map_to_list m ≫= λ '(_, s), extent dev s).

(** The file system [fs] on the disk [dev], with its files [fs_mf] and [fs_df],
    holds the free map [bm] and the directory [d], and every allocated sector belongs to exactly one file. *)
Record fs_ok (fs : FileSystem) (fs_mf fs_df : OpenFile) (dev : D) (bm : BitMap.BitMap)
    (d : Directory.Directory) : Prop := mkFsOk {
  fs_map_file : freeMapFile fs = Some fs_mf;
  fs_dir_file : directoryFile fs = Some fs_df;
  fs_dev : sd_ok dev;
  fs_h0 : FileHdr.header_of (sd_sector dev FreeMapSector) = hdr fs_mf;
  fs_h1 : FileHdr.header_of (sd_sector dev DirectorySector) = hdr fs_df;
  fs_mh : file_ok (hdr fs_mf) ∧ FileHdr.numBytes (hdr fs_mf) = FreeMapFileSize;
  fs_dh : file_ok (hdr fs_df) ∧ FileHdr.numBytes (hdr fs_df) = DirectoryFileSize;
  fs_map : contents dev (hdr fs_mf) = BitMapFile.map_bytes bm;
  fs_bm : BitMap.wf bm ∧ BitMap.numBits bm = NumSectors;
  fs_dir : contents dev (hdr fs_df) = Directory.table_bytes (Directory.table d);
  fs_d : Directory.dir_ok d ∧ Directory.tableSize d = NumDirEntries;
  fs_headers : map_Forall (λ _ s, file_ok (FileHdr.header_of (sd_sector dev s))) (Directory.files d);
  fs_nodup : NoDup (owned (hdr fs_mf) (hdr fs_df) dev (Directory.files d));
  fs_used : BitMap.allocated bm = list_to_set (owned (hdr fs_mf) (hdr fs_df) dev (Directory.files d));
}.
End with_disk.

(** ** Reading and writing the two files *)

Lemma uwords_bytes ws rest :
  Forall is_u32 ws → BitMapFile.uwords (length ws) (concat (le_bytes 4 <$> ws) ++ rest) = ws.
Proof.
  intros Hw. induction Hw as [|w ws Hw' _ IH]; [done|]. cbn [length BitMapFile.uwords].
  rewrite fmap_cons. cbn [concat].
  rewrite <- app_assoc, take_app_length', drop_app_length' by (by rewrite length_le_bytes).
  rewrite IH, le_value_bytes. change (256 ^ Z.of_nat 4) with two32. by rewrite Z.mod_small.
Qed.

Lemma map_bytes_ok bm :
  BitMap.wf bm → BitMap.numBits bm = NumSectors →
  BitMap.numWords bm = 32 ∧ length (BitMap.map bm) = 32%nat ∧
  length (BitMapFile.map_bytes bm) = 128%nat ∧ Forall is_u8 (BitMapFile.map_bytes bm).
Proof.
  intros [_ Hw Hl _] Hb. rewrite Hb in Hw.
  assert (BitMap.numWords bm = 32) as E by done. assert (length (BitMap.map bm) = 32%nat) as El by lia.
  split_and!; try done.
  - unfold BitMapFile.map_bytes. rewrite (OpenFile.concat_length 4).
    + by rewrite length_fmap, El.
    + apply Forall_fmap, Forall_true. intros w. apply length_le_bytes.
  - apply Forall_concat, Forall_fmap, Forall_true. intros w. apply le_bytes_u8.
Qed.

Section files.
Context {D : Type} `{SectorDeviceLaws D}.
Context (fresh : Z → list Z) (Hfresh : ∀ n, length (fresh n) = Z.to_nat n ∧ Forall is_u8 (fresh n)).
Context (garbage_map : list Z) (garbage_dir : list Directory.DirectoryEntry).
Context (Hgm : length garbage_map = 32%nat ∧ Forall is_u32 garbage_map).
Implicit Types (dev : D) (fs : FileSystem).

Lemma contents_agree h dev dev' :
  (∀ s, s ∈ FileHdr.used_sectors h → sd_sector dev' s = sd_sector dev s) →
  contents dev' h = contents dev h.
Proof using Type.
  intros Hs. unfold contents, flat. do 2 f_equal. apply list_fmap_ext.
  intros i s Hi. apply Hs. by eapply list_elem_of_lookup_2.
Qed.

(** A whole file read from and written to its start. *)
Lemma read_whole h dev n bs :
  file_ok h → sd_ok dev → FileHdr.numBytes h = n → contents dev h = bs →
  ∃ dev', ReadAt h n 0 dev = Ok (bs, dev') ∧ sd_ok dev' ∧ same_disk dev dev'.
Proof using All.
  intros Hf Hok Hn Hc. pose proof (fo_bytes h Hf). pose proof (fo_sectors h Hf).
  pose proof (fo_array h Hf) as Ha. change (Z.to_nat NumDirect) with 126%nat in Ha.
  destruct (ReadAt_spec h Hf dev n 0) as (dev' & E & Hok' & Hs); [done|lia|
    unfold is_s32, two31, SectorSize in *; lia|].
  exists dev'. split; [|done]. rewrite E, Hc. do 2 f_equal.
  change (drop (Z.to_nat 0) bs) with bs. apply take_ge.
  rewrite <- Hc, (length_contents h Hf) by done. lia.
Qed.

Lemma write_whole h dev n bs :
  file_ok h → sd_ok dev → FileHdr.numBytes h = n → length bs = Z.to_nat n → Forall is_u8 bs →
  ∃ dev' w, WriteAt fresh h bs n 0 dev = Ok (w, dev') ∧ sd_ok dev' ∧ contents dev' h = bs ∧
    ∀ k, is_sector k → k ∉ FileHdr.used_sectors h → sd_sector dev' k = sd_sector dev k.
Proof using All.
  intros Hf Hok Hn Hl Hb. pose proof (fo_bytes h Hf). pose proof (fo_sectors h Hf).
  pose proof (fo_array h Hf) as Ha. change (Z.to_nat NumDirect) with 126%nat in Ha.
  destruct (WriteAt_spec h Hf fresh Hfresh dev bs n 0) as (dev' & E & Hok' & Hc & Hout);
    [done|lia|unfold is_s32, two31, SectorSize in *; lia|lia|done|].
  eexists _, _. split; [exact E|]. split; [done|]. split; [|done]. rewrite Hc. unfold spliced.
  assert (transferred h n 0 = n) as -> by (unfold transferred; lia).
  rewrite (take_ge bs) by lia. rewrite drop_ge by (rewrite (length_contents h Hf) by done; lia).
  by rewrite app_nil_r.
Qed.

Lemma fetch_map_spec fs mf df dev bm d :
  fs_ok fs mf df dev bm d →
  ∃ dev', fetch_map garbage_map fs dev = Ok (bm, dev') ∧ sd_ok dev' ∧ same_disk dev dev'.
Proof using All.
  intros Hfs. pose proof (fs_bm _ _ _ _ _ _ Hfs) as [Hwf Hb]. destruct Hgm as [Hgl Hgu].
  destruct (BitMap.BitMap_new_refines garbage_map NumSectors) as (bm0 & E0 & [_ Hw0 _ _] & Hb0 & _);
    [done|by rewrite Hgl|done|].
  destruct (map_bytes_ok bm Hwf Hb) as (Hw & Hl & Hlb & Hbb).
  assert (BitMap.numWords bm0 = 32) as Hw0' by (rewrite Hw0, Hb0; done).
  unfold fetch_map. rewrite E0. simpl_res. rewrite (fs_map_file _ _ _ _ _ _ Hfs). simpl_res.
  unfold BitMapFile.FetchFrom. rewrite Hw0'.
  destruct (fs_mh _ _ _ _ _ _ Hfs) as [Hmf Hmn].
  destruct (read_whole (hdr mf) dev (32 * 4) (BitMapFile.map_bytes bm)) as (dev' & E & Hok & Hs);
    [done|apply Hfs|done|apply Hfs|].
  simpl deref. simpl_res. rewrite E. simpl_res. exists dev'. split; [|done].
  do 2 f_equal. unfold BitMap.with_map. rewrite Hb0, Hw0', <- Hb, <- Hw.
  rewrite Hw. change (Z.to_nat 32) with 32%nat. rewrite <- Hl. unfold BitMapFile.map_bytes at 1.
  rewrite uwords_bytes by apply Hwf. rewrite <- Hw. by destruct bm.
Qed.

Lemma fetch_directory_spec fs mf df dev bm d :
  fs_ok fs mf df dev bm d →
  ∃ dev', fetch_directory garbage_dir fs dev = Ok (d, dev') ∧ sd_ok dev' ∧ same_disk dev dev'.
Proof using All.
  intros Hfs. destruct (fs_d _ _ _ _ _ _ Hfs) as [Hd Hts]. pose proof (do_size := Directory.do_size d Hd).
  unfold fetch_directory. rewrite (fs_dir_file _ _ _ _ _ _ Hfs). simpl deref. simpl_res.
  unfold Directory.FetchFrom. cbn [new_directory Directory.Directory_new Directory.tableSize].
  destruct (fs_dh _ _ _ _ _ _ Hfs) as [Hdf Hdn].
  destruct (read_whole (hdr df) dev (NumDirEntries * Directory.entry_size)
    (Directory.table_bytes (Directory.table d))) as (dev' & E & Hok & Hs);
    [done|apply Hfs|done|apply Hfs|].
  rewrite E. simpl_res. exists dev'. split; [|done]. do 2 f_equal.
  replace (Z.to_nat NumDirEntries) with (length (Directory.table d)) by lia.
  rewrite Directory.table_roundtrip by apply Hd. rewrite <- Hts. by destruct d.
Qed.

Lemma write_map_spec fs mf df dev bm d dev0 bm' :
  fs_ok fs mf df dev0 bm d → sd_ok dev → BitMap.wf bm' → BitMap.numBits bm' = NumSectors →
  ∃ dev', write_map fresh fs bm' dev = Ok dev' ∧ sd_ok dev' ∧
    contents dev' (hdr mf) = BitMapFile.map_bytes bm' ∧
    ∀ k, is_sector k → k ∉ FileHdr.used_sectors (hdr mf) → sd_sector dev' k = sd_sector dev k.
Proof using All.
  intros Hfs Hok Hwf Hb. destruct (map_bytes_ok bm' Hwf Hb) as (Hw & Hl & Hlb & Hbb).
  unfold write_map. rewrite (fs_map_file _ _ _ _ _ _ Hfs). simpl deref. simpl_res.
  unfold BitMapFile.WriteBack. rewrite Hw. destruct (fs_mh _ _ _ _ _ _ Hfs) as [Hmf Hmn].
  destruct (write_whole (hdr mf) dev (32 * 4) (BitMapFile.map_bytes bm'))
    as (dev' & w & E & Hok' & Hc & Hout); [done|done|done|done|done|].
  rewrite E. by exists dev'.
Qed.

Lemma write_directory_spec fs mf df dev bm d dev0 d' :
  fs_ok fs mf df dev0 bm d → sd_ok dev → Directory.dir_ok d' →
  Directory.tableSize d' = NumDirEntries →
  ∃ dev', write_directory fresh fs d' dev = Ok dev' ∧ sd_ok dev' ∧
    contents dev' (hdr df) = Directory.table_bytes (Directory.table d') ∧
    ∀ k, is_sector k → k ∉ FileHdr.used_sectors (hdr df) → sd_sector dev' k = sd_sector dev k.
Proof using All.
  intros Hfs Hok Hd Hts. unfold write_directory. rewrite (fs_dir_file _ _ _ _ _ _ Hfs).
  simpl deref. simpl_res. unfold Directory.WriteBack. rewrite Hts.
  destruct (fs_dh _ _ _ _ _ _ Hfs) as [Hdf Hdn].
  destruct (write_whole (hdr df) dev (NumDirEntries * Directory.entry_size)
    (Directory.table_bytes (Directory.table d'))) as (dev' & w & E & Hok' & Hc & Hout);
    [done|done|done| | |].
  - rewrite Directory.length_table_bytes by apply Hd. rewrite <- (Directory.do_size d' Hd), Hts. done.
  - apply Directory.table_bytes_u8, Hd.
  - rewrite E. by exists dev'.
Qed.
End files.

(** ** Who owns which sector *)

Section ownership.
Context {D : Type} `{SectorDevice D}.
Implicit Types (dev : D) (m : gmap (list Z) Z).

Lemma owned_insert mh dh dev m k s :
  m !! k = None → owned mh dh dev (<[k := s]> m) ≡ₚ extent dev s ++ owned mh dh dev m.
Proof using Type.
  intros Hk. unfold owned. rewrite map_to_list_insert by done. rewrite bind_cons.
  generalize [FreeMapSector; DirectorySector], (FileHdr.used_sectors mh),
    (FileHdr.used_sectors dh), (extent dev s), (map_to_list m ≫= λ '(_, s), extent dev s).
  intros a b c x y. rewrite !app_assoc. apply Permutation_app_tail.
  rewrite <- !app_assoc. rewrite (Permutation_app_comm x), <- !app_assoc. done.
Qed.

Lemma owned_delete mh dh dev m k s :
  m !! k = Some s → owned mh dh dev m ≡ₚ extent dev s ++ owned mh dh dev (delete k m).
Proof using Type.
  intros Hk. rewrite <- (insert_delete_id m k s Hk) at 1. apply owned_insert. apply lookup_delete_eq.
Qed.

(** The owners only depend on the sectors that hold file headers. *)
Lemma extents_agree dev dev' (l : list (list Z * Z)) :
  (∀ k s, (k, s) ∈ l → sd_sector dev' s = sd_sector dev s) →
  (l ≫= λ '(_, s), extent dev' s) = (l ≫= λ '(_, s), extent dev s) :> list Z.
Proof using Type.
  intros Ha. induction l as [|[k s] l IH]; [done|]. rewrite !bind_cons. f_equal.
  - unfold extent. by rewrite (Ha k s) by set_solver.
  - apply IH. intros k' s' Hin. apply (Ha k'). by right.
Qed.

Lemma owned_agree mh dh dev dev' m :
  (∀ k s, m !! k = Some s → sd_sector dev' s = sd_sector dev s) →
  owned mh dh dev' m = owned mh dh dev m.
Proof using Type.
  intros Ha. unfold owned. rewrite (extents_agree dev dev'); [done|]. intros k s Hin.
  apply (Ha k), elem_of_map_to_list, Hin.
Qed.

Lemma owned_map mh dh dev m s : s ∈ FileHdr.used_sectors mh → s ∈ owned mh dh dev m.
Proof using Type. unfold owned. set_solver. Qed.
Lemma owned_dir mh dh dev m s : s ∈ FileHdr.used_sectors dh → s ∈ owned mh dh dev m.
Proof using Type. unfold owned. set_solver. Qed.

Lemma owned_file mh dh dev m k s x :
  m !! k = Some s → x ∈ extent dev s → x ∈ owned mh dh dev m.
Proof using Type.
  intros Hk Hx. rewrite (owned_delete mh dh dev m k s Hk). apply elem_of_app. by left.
Qed.

(** The header of a file lies outside the free map's and the directory's data,
    and these are disjoint. *)
Lemma owned_disjoint mh dh dev m :
  NoDup (owned mh dh dev m) →
  (∀ s, s ∈ FileHdr.used_sectors mh → s ∉ FileHdr.used_sectors dh) ∧
  (∀ s, s = FreeMapSector ∨ s = DirectorySector →
     s ∉ FileHdr.used_sectors mh ∧ s ∉ FileHdr.used_sectors dh) ∧
  (∀ k s x, m !! k = Some s → x ∈ extent dev s →
     x ∉ FileHdr.used_sectors mh ∧ x ∉ FileHdr.used_sectors dh).
Proof using Type.
  intros Hnd. split.
  - unfold owned in Hnd. rewrite !NoDup_app in Hnd. set_solver.
  - split; [unfold owned in Hnd; rewrite !NoDup_app in Hnd; set_solver|].
    intros k s x Hk Hx. rewrite (owned_delete mh dh dev m k s Hk) in Hnd.
    apply NoDup_app in Hnd as (_ & Hdis & _). specialize (Hdis x Hx).
    split; intros Hin; apply Hdis; [by apply owned_map|by apply owned_dir].
Qed.

Lemma fs_owned_sector fs mf df dev bm d s :
  fs_ok fs mf df dev bm d → s ∈ owned (hdr mf) (hdr df) dev (Directory.files d) → is_sector s.
Proof using Type.
  intros Hfs Hs. assert (s ∈ BitMap.allocated bm) as Hal.
  { rewrite (fs_used _ _ _ _ _ _ Hfs). by apply elem_of_list_to_set. }
  apply BitMap.elem_of_allocated in Hal as [Hal _]. unfold is_sector.
  by rewrite <- (proj2 (fs_bm _ _ _ _ _ _ Hfs)).
Qed.
End ownership.

(** ** Creating, opening and removing *)

(** A freshly allocated header describes a file. *)
Lemma header_fresh_ok h n fileSize (u : gset Z) :
  length (FileHdr.dataSectors h) = Z.to_nat NumDirect → FileHdr.numSectors h = n →
  FileHdr.numBytes h = fileSize → n = divRoundUp fileSize SectorSize →
  0 ≤ n ≤ NumDirect → 0 ≤ fileSize → NoDup (FileHdr.used_sectors h) →
  Forall (λ s, 0 ≤ s < NumSectors ∧ s ∉ u) (FileHdr.used_sectors h) → file_ok h.
Proof.
  intros Hl Hn Hb Hnd Hnn Hfs Hdup Hall. split; try done.
  - rewrite Hl, Hn. unfold NumDirect in *. lia.
  - rewrite Hb, Hn, Hnd. pose proof (divRoundUp_spec fileSize SectorSize Hfs). unfold SectorSize in *. lia.
  - eapply Forall_impl; [exact Hall|]. by intros s [? _].
Qed.

(** It is made of C ints, if the memory it was allocated in was. *)
Lemma header_fresh_wf g h n (u : gset Z) :
  FileHdr.wf g → length (FileHdr.dataSectors h) = Z.to_nat NumDirect →
  drop (Z.to_nat n) (FileHdr.dataSectors h) = drop (Z.to_nat n) (FileHdr.dataSectors g) →
  FileHdr.numSectors h = n → 0 ≤ n ≤ NumDirect → 0 ≤ FileHdr.numBytes h ≤ MaxFileSize →
  Forall (λ s, 0 ≤ s < NumSectors ∧ s ∉ u) (FileHdr.used_sectors h) → FileHdr.wf h.
Proof.
  intros [_ _ _ Hg] Hl Hd Hn Hnn Hb Hall. change NumDirect with 126 in *.
  change MaxFileSize with 64512 in *. change NumSectors with 1024 in *.
  split; try done; [unfold is_s32, two31; lia..|].
  rewrite <- (take_drop (Z.to_nat n) (FileHdr.dataSectors h)). apply Forall_app. split.
  - rewrite <- Hn. eapply Forall_impl; [exact Hall|]. intros s [Hs _]. unfold is_s32, two31. lia.
  - rewrite Hd. by apply Forall_drop.
Qed.

(** The lowest free slot of the table of open files, from slot 2 on. *)
Lemma free_slot_spec (t : list (option OpenFile)) i n :
  0 ≤ i → i + Z.of_nat n ≤ Z.of_nat (length t) →
  (∃ j, free_slot_from t i n = Ok j ∧ i ≤ j < i + Z.of_nat n ∧ t !! Z.to_nat j = Some None ∧
        ∀ j', i ≤ j' < j → ∃ f, t !! Z.to_nat j' = Some (Some f)) ∨
  (free_slot_from t i n = Ok (-1) ∧
   ∀ j', i ≤ j' < i + Z.of_nat n → ∃ f, t !! Z.to_nat j' = Some (Some f)).
Proof.
  revert i. induction n as [|n IH]; intros i Hi Hn; cbn [free_slot_from].
  - right. split; [done|]. intros; lia.
  - destruct (arr_get_total t i) as (f & -> & Hf); [lia|]. simpl_res. destruct f as [f|].
    + destruct (IH (i + 1)) as [(j & E & Hj & Hnone & Hb)|[E Hb]]; [lia..| |].
      * left. exists j. split; [done|]. split; [lia|]. split; [done|].
        intros j' Hj'. destruct (decide (j' = i)) as [->|]; [by exists f|]. apply Hb. lia.
      * right. split; [done|]. intros j' Hj'.
        destruct (decide (j' = i)) as [->|]; [by exists f|]. apply Hb. lia.
    + left. exists i. split; [done|]. split; [lia|]. split; [done|]. intros; lia.
Qed.

Section operations.
Context {D : Type} `{SectorDeviceLaws D}.
Context (fresh : Z → list Z) (Hfresh : ∀ n, length (fresh n) = Z.to_nat n ∧ Forall is_u8 (fresh n)).
Context (garbage_map : list Z) (garbage_dir : list Directory.DirectoryEntry).
Context (garbage_hdr : FileHdr.FileHeader).
Context (Hgm : length garbage_map = 32%nat ∧ Forall is_u32 garbage_map).
Context (Hgh : FileHdr.wf garbage_hdr).
Context (fs : FileSystem) (mf df : OpenFile).
Implicit Types dev : D.

Lemma fs_ok_same dev dev' bm d :
  fs_ok fs mf df dev bm d → sd_ok dev' → same_disk dev dev' → fs_ok fs mf df dev' bm d.
Proof using Type.
  intros Hfs Hok Hs.
  assert (∀ k s, Directory.files d !! k = Some s → sd_sector dev' s = sd_sector dev s) as Hhd.
  { intros k s Hk. apply Hs, (fs_owned_sector fs mf df dev bm d); [done|].
    eapply owned_file; [done|]. by left. }
  assert (∀ h, Forall is_sector (FileHdr.used_sectors h) → contents dev' h = contents dev h) as Hct.
  { intros h Hh. apply contents_agree. intros s Hx. apply Hs. rewrite Forall_forall in Hh. auto. }
  destruct Hfs as [H1 H2 H3 Hh0 Hh1 [H4 H4'] [H5 H5'] H6 H7 H8 H9 H10 H11 H12].
  split; try assumption; try (split; assumption).
  - by rewrite Hs.
  - by rewrite Hs.
  - rewrite Hct by apply H4. done.
  - rewrite Hct by apply H5. done.
  - intros k s Hk. rewrite (Hhd k s Hk). by apply (H10 k).
  - by rewrite (owned_agree _ _ dev dev').
  - by rewrite (owned_agree _ _ dev dev').
Qed.

(** The three writes at the end of [Create]: the new header, the directory and
    the free map. *)
Lemma commit_create dev bm d bm' d' h k r :
  fs_ok fs mf df dev bm d →
  is_sector r → r ∉ owned (hdr mf) (hdr df) dev (Directory.files d) →
  FileHdr.wf h → file_ok h → r ∉ FileHdr.used_sectors h →
  (∀ s, s ∈ FileHdr.used_sectors h → s ∉ owned (hdr mf) (hdr df) dev (Directory.files d)) →
  Directory.files d !! k = None → Directory.dir_ok d' → Directory.tableSize d' = NumDirEntries →
  Directory.files d' = <[k := r]> (Directory.files d) →
  BitMap.wf bm' → BitMap.numBits bm' = NumSectors →
  BitMap.allocated bm' = {[r]} ∪ BitMap.allocated bm ∪ list_to_set (FileHdr.used_sectors h) →
  ∃ dev1 dev2 dev3, FileHdr.WriteBack h r dev = Ok dev1 ∧
    write_directory fresh fs d' dev1 = Ok dev2 ∧ write_map fresh fs bm' dev2 = Ok dev3 ∧
    fs_ok fs mf df dev3 bm' d' ∧ FileHdr.header_of (sd_sector dev3 r) = h ∧
    (∀ k' s x, Directory.files d !! k' = Some s → x ∈ extent dev s →
               sd_sector dev3 x = sd_sector dev x).
Proof using All.
  intros Hfs Hr Hrnew Hwfh Hfh Hrh Hhnew Hk Hd' Hts Hfiles Hwf' Hb' Hal'.
  destruct (sd_write_spec dev r (FileHdr.header_bytes h) (fs_dev _ _ _ _ _ _ Hfs) Hr
    (FileHdr.header_bytes_data h Hwfh)) as (dev1 & E1 & Hok1 & Hs1).
  destruct (write_directory_spec fresh Hfresh garbage_map garbage_dir Hgm fs mf df dev1 bm d dev d')
    as (dev2 & E2 & Hok2 & Hc2 & Hs2); [done..|].
  destruct (write_map_spec fresh Hfresh garbage_map garbage_dir Hgm fs mf df dev2 bm d dev bm')
    as (dev3 & E3 & Hok3 & Hc3 & Hs3); [done..|].
  exists dev1, dev2, dev3. split; [exact E1|]. split; [exact E2|]. split; [exact E3|].
  destruct (owned_disjoint _ _ _ _ (fs_nodup _ _ _ _ _ _ Hfs)) as (Hmd & Hwell & Hext).
  assert (∀ x, is_sector x → x ≠ r → x ∉ FileHdr.used_sectors (hdr mf) →
    x ∉ FileHdr.used_sectors (hdr df) → sd_sector dev3 x = sd_sector dev x) as Hkeep.
  { intros x Hx Hxr Hxm Hxd. rewrite Hs3, Hs2, Hs1 by done. by rewrite bool_decide_eq_false_2. }
  assert (∀ k' s x, Directory.files d !! k' = Some s → x ∈ extent dev s →
    sd_sector dev3 x = sd_sector dev x) as Hother.
  { intros k' s x Hs Hx. assert (x ∈ owned (hdr mf) (hdr df) dev (Directory.files d)) as Ho
      by (by eapply owned_file).
    destruct (Hext k' s x Hs Hx) as [? ?]. apply Hkeep; try done.
    - by eapply fs_owned_sector.
    - intros ->. done. }
  assert (sd_sector dev3 r = FileHdr.header_bytes h) as Hsr.
  { assert (r ∉ FileHdr.used_sectors (hdr mf)) by (intros Hx; by apply Hrnew, owned_map).
    assert (r ∉ FileHdr.used_sectors (hdr df)) by (intros Hx; by apply Hrnew, owned_dir).
    rewrite Hs3, Hs2, Hs1 by done. by rewrite bool_decide_eq_true_2. }
  assert (FileHdr.header_of (sd_sector dev3 r) = h) as Hhr.
  { by rewrite Hsr, FileHdr.header_roundtrip. }
  assert (owned (hdr mf) (hdr df) dev3 (Directory.files d') ≡ₚ
    (r :: FileHdr.used_sectors h) ++ owned (hdr mf) (hdr df) dev (Directory.files d)) as Hown.
  { rewrite Hfiles, owned_insert by done. unfold extent at 1. rewrite Hhr.
    rewrite (owned_agree _ _ dev dev3); [done|]. intros k' s Hs. apply (Hother k' s); [done|by left]. }
  split; [|done]. pose proof Hfs as [F1 F2 F3 Fh0 Fh1 F4 F5 F6 F7 F8 F9 F10 F11 F12].
  assert (∀ x, x = FreeMapSector ∨ x = DirectorySector → sd_sector dev3 x = sd_sector dev x) as Hh01.
  { intros x Hx. destruct (Hwell x Hx) as [? ?]. apply Hkeep; try done.
    - destruct Hx as [->| ->]; done.
    - intros ->. apply Hrnew. unfold owned. destruct Hx as [->| ->]; set_solver. }
  split; try assumption; try (split; assumption); [rewrite Hh01; auto|rewrite Hh01; auto|..].
  - rewrite (contents_agree (hdr df) dev2 dev3); [exact Hc2|].
    intros s Hs. apply Hs3; [|intros Hm; by apply (Hmd s)].
    destruct F5 as [F5 _]. pose proof (fo_range _ F5) as Hrg. rewrite Forall_forall in Hrg. auto.
  - rewrite Hfiles. apply map_Forall_insert_2; [by rewrite Hhr|].
    intros k' s Hs. rewrite (Hother k' s s Hs) by by left. by apply (F10 k').
  - rewrite Hown. apply NoDup_app. split; [|split; [|done]].
    + apply NoDup_cons. split; [done|apply Hfh].
    + intros x Hx Hin. apply elem_of_cons in Hx as [->|Hx]; [done|]. by apply (Hhnew x Hx).
  - rewrite Hal', Hown, F12. rewrite list_to_set_app_L, list_to_set_cons. clear. set_solver.
Qed.

(** What happened to the disk. *)
Definition unchanged dev bm d dev' : Prop := same_disk dev dev' ∧ fs_ok fs mf df dev' bm d.

Definition created dev d name size dev' : Prop :=
  ∃ bm' d' r, fs_ok fs mf df dev' bm' d' ∧
    Directory.files d' = <[Directory.key name := r]> (Directory.files d) ∧
    FileHdr.FileLength (FileHdr.header_of (sd_sector dev' r)) = size ∧
    FileHdr.numSectors (FileHdr.header_of (sd_sector dev' r)) = divRoundUp size SectorSize ∧
    (∀ k s x, Directory.files d !! k = Some s → x ∈ extent dev s →
              sd_sector dev' x = sd_sector dev x).

(** There is room: a free entry in the directory, and free sectors for the
    header and the data. *)
Definition room (bm : BitMap.BitMap) (d : Directory.Directory) (fileSize : Z) : Prop :=
  Z.of_nat (size (Directory.files d)) < NumDirEntries ∧
  1 + divRoundUp fileSize SectorSize ≤ NumSectors - Z.of_nat (size (BitMap.allocated bm)).

Lemma Create_any dev bm d name fileSize :
  fs_ok fs mf df dev bm d → 0 ≤ fileSize → Forall is_u8 name →
  let made := Directory.files d !! Directory.key name = None ∧ room bm d fileSize in
  let r := Create fresh garbage_map garbage_dir garbage_hdr fs name fileSize dev in
  (MaxFileSize < fileSize ∧ made ∧ r = Stop Undefined) ∨
  ((made → fileSize ≤ MaxFileSize) ∧ ∃ ok dev', r = Ok (ok, dev') ∧
    (if ok then created dev d name fileSize dev' else unchanged dev bm d dev') ∧ (ok = true ↔ made)).
Proof using All.
  intros Hfs Hpos0 Hname made r. unfold made, r, Create. clear made r.
  destruct (fs_bm _ _ _ _ _ _ Hfs) as [Hwf Hb]. destruct (fs_d _ _ _ _ _ _ Hfs) as [Hd Hts].
  destruct (fetch_directory_spec fresh Hfresh garbage_map garbage_dir Hgm fs mf df dev bm d Hfs)
    as (dev1 & -> & Hok1 & Hs1). simpl_res. rewrite Directory.Find_spec by done. simpl_res.
  destruct (Directory.files d !! Directory.key name) as [s|] eqn:Ek.
  { assert (is_sector s) as Hsec.
    { eapply fs_owned_sector; [done|]. eapply owned_file; [done|by left]. }
    simpl. destruct (Z.eqb_spec s (-1)); [unfold is_sector in *; lia|].
    right. split; [by intros []|]. eexists _, _. split; [reflexivity|]. split; [|naive_solver].
    split; [done|]. by eapply fs_ok_same. }
  simpl default. cbn [negb Z.eqb Pos.eqb].
  pose proof (fs_ok_same _ _ _ _ Hfs Hok1 Hs1) as Hfs1.
  destruct (fetch_map_spec fresh Hfresh garbage_map garbage_dir Hgm fs mf df dev1 bm d Hfs1)
    as (dev2 & -> & Hok2 & Hs2). simpl_res.
  assert (same_disk dev dev2) as Hs12 by (intros k Hk; by rewrite Hs2, Hs1).
  pose proof (fs_ok_same _ _ _ _ Hfs Hok2 Hs12) as Hfs2.
  assert (0 ≤ divRoundUp fileSize SectorSize) as Hpos by (apply divRoundUp_nonneg; done || lia).
  destruct (BitMap.FindFreeSlot_refines bm Hwf)
    as [(r & bm1 & -> & Hwf1 & Hb1 & Hr & Hout & _ & Ha1)|[-> Hfull]]; simpl_res.
  2:{ assert (¬ 1 + divRoundUp fileSize SectorSize ≤ NumSectors - Z.of_nat (size (BitMap.allocated bm))) as Hnone.
      { apply FileHdr.full_size in Hfull; [|apply Hwf]. rewrite Hb in Hfull. lia. }
      right. split; [by intros [_ [_ ?]]|]. eexists _, _. split; [reflexivity|]. split; [by split|].
      split; [done|]. by intros [_ [_ ?]]. }
  destruct (Z.eqb_spec r (-1)); [lia|].
  assert (is_sector r) as Hrsec by (unfold is_sector; lia).
  assert (is_s32 r) as Hr32.
  { unfold is_s32, is_sector, two31 in *. change NumSectors with 1024 in *. lia. }
  assert (r ∉ owned (hdr mf) (hdr df) dev2 (Directory.files d)) as Hrout.
  { rewrite <- (elem_of_list_to_set (C:=gset Z)), <- (fs_used _ _ _ _ _ _ Hfs2). done. }
  destruct (Directory.Add_new d name r Hd Ek Hname Hr32) as [[-> Hdfull]|(d' & -> & Hd' & Hts' & Hf')].
  { assert (¬ Z.of_nat (size (Directory.files d)) < NumDirEntries) as Hnone.
    { rewrite DirectorySpec.size_files, Hdfull by done. rewrite <- (Directory.do_size d Hd). lia. }
    right. split; [by intros [_ [? _]]|]. eexists _, _. split; [reflexivity|]. split; [by split|].
    split; [done|]. by intros [_ [? _]]. }
  assert (Z.of_nat (size (Directory.files d)) < NumDirEntries) as Hdroom.
  { pose proof (DirectorySpec.size_files d' Hd') as Hsz'.
    rewrite Hf', map_size_insert_None in Hsz' by done.
    pose proof (DirectorySpec.length_live (Directory.table d')).
    pose proof (Directory.do_size d' Hd'). lia. }
  cbn [negb].
  assert (size (BitMap.allocated bm1) = S (size (BitMap.allocated bm))) as Hsize1.
  { rewrite Ha1, size_union, size_singleton by set_solver. done. }
  assert (NumSectors - Z.of_nat (S (size (BitMap.allocated bm)))
    = fm_size bm1 - Z.of_nat (size (fm_used bm1))) as Hfree by (simpl; rewrite Hb1, Hb, Hsize1; done).
  destruct (Z.ltb_spec (NumSectors - Z.of_nat (S (size (BitMap.allocated bm))))
    (divRoundUp fileSize SectorSize)) as [Hno|Hyes].
  { rewrite FileHdr.Allocate_full by (done || lia). simpl_res. right. split; [intros [_ [_ Hroom]]; lia|].
    eexists _, _. split; [reflexivity|]. split; [by split|]. split; [done|].
    intros [_ [_ Hroom]]. lia. }
  destruct (Z.le_gt_cases fileSize MaxFileSize) as [Hsize|Hbig].
  2:{ left. split; [lia|]. split; [split; [done|]; split; [done|lia]|].
      by rewrite (FileHdr.Allocate_overrun bm1 garbage_hdr) by (done || apply FileHdr.wf_array, Hgh || lia). }
  right. split; [done|].
  pose proof (FileHdr.Allocate_spec bm1 garbage_hdr fileSize Hwf1 (FileHdr.wf_array _ Hgh) (conj Hpos0 Hsize)) as Hal.
  cbv zeta in Hal. simpl fm_size in Hal. simpl fm_used in Hal. rewrite Hb1, Hb, Hsize1 in Hal.
  rewrite (proj2 (Z.ltb_ge _ _) Hyes) in Hal.
  destruct Hal as (h & bm2 & -> & Hnb & Hns & Hn & Hlen & Hrest & Hwf2 & Hb2 & Hnd & _ & Hnew & Hused).
  simpl_res. simpl in Hwf2, Hb2, Hused.
  assert (Forall (λ s, 0 ≤ s < NumSectors ∧ s ∉ BitMap.allocated bm1) (FileHdr.used_sectors h)) as Hnew'
    by exact Hnew.
  assert (∀ s, s ∈ FileHdr.used_sectors h → s ∉ BitMap.allocated bm1) as Hnew1.
  { rewrite Forall_forall in Hnew'. intros s Hs. by apply Hnew'. }
  destruct (commit_create dev2 bm d bm2 d' h (Directory.key name) r)
    as (dev3 & dev4 & dev5 & -> & E2 & E3 & Hfs5 & Hhr & Hother).
  { done. } { done. } { done. }
  { eapply header_fresh_wf; try done. by rewrite Hnb. }
  { by eapply header_fresh_ok. }
  { intros Hin. apply (Hnew1 r Hin). rewrite Ha1. set_solver. }
  { intros s Hs Hin. apply (Hnew1 s Hs). rewrite Ha1, (fs_used _ _ _ _ _ _ Hfs2).
    apply elem_of_union_r. by apply elem_of_list_to_set. }
  { done. } { done. } { congruence. } { done. } { done. } { congruence. }
  { rewrite Hused, Ha1. done. }
  simpl_res. rewrite E2. simpl_res. rewrite E3. simpl_res.
  eexists _, _. split; [reflexivity|]. split.
  - exists bm2, d', r. split; [done|]. split; [done|].
    split; [by rewrite Hhr|]. split; [by rewrite Hhr|].
    intros k s x Hk Hx. assert (is_sector s) as Hsec.
    { eapply fs_owned_sector; [exact Hfs|]. eapply owned_file; [done|by left]. }
    rewrite (Hother k s x Hk); [|unfold extent in *; by rewrite Hs12].
    apply Hs12. eapply fs_owned_sector; [exact Hfs|]. by eapply owned_file.
  - split; [|done]. intros _. split; [done|]. split; [done|lia].
Qed.

Lemma Create_spec dev bm d name fileSize :
  fs_ok fs mf df dev bm d → 0 ≤ fileSize ≤ MaxFileSize → Forall is_u8 name →
  ∃ ok dev', Create fresh garbage_map garbage_dir garbage_hdr fs name fileSize dev = Ok (ok, dev') ∧
    (if ok then created dev d name fileSize dev' else unchanged dev bm d dev') ∧
    (ok = true ↔ Directory.files d !! Directory.key name = None ∧ room bm d fileSize).
Proof using All.
  intros Hfs [Hpos Hsize] Hname.
  destruct (Create_any dev bm d name fileSize Hfs Hpos Hname) as [[? _]|[_ Hok]]; [lia|exact Hok].
Qed.

Definition removed dev d name dev' : Prop :=
  ∃ bm' d', fs_ok fs mf df dev' bm' d' ∧
    Directory.files d' = delete (Directory.key name) (Directory.files d) ∧
    (∀ k s x, Directory.files d' !! k = Some s → x ∈ extent dev s →
              sd_sector dev' x = sd_sector dev x).

(** The two writes at the end of [Remove]. *)
Lemma commit_remove dev bm d bm' d' k r :
  fs_ok fs mf df dev bm d → Directory.files d !! k = Some r →
  Directory.dir_ok d' → Directory.tableSize d' = NumDirEntries →
  Directory.files d' = delete k (Directory.files d) →
  BitMap.wf bm' → BitMap.numBits bm' = NumSectors →
  BitMap.allocated bm' = BitMap.allocated bm ∖ list_to_set (extent dev r) →
  ∃ dev1 dev2, write_map fresh fs bm' dev = Ok dev1 ∧
    write_directory fresh fs d' dev1 = Ok dev2 ∧ fs_ok fs mf df dev2 bm' d' ∧
    (∀ k' s x, Directory.files d !! k' = Some s → x ∈ extent dev s →
               sd_sector dev2 x = sd_sector dev x).
Proof using All.
  intros Hfs Hk Hd' Hts Hfiles Hwf' Hb' Hal'.
  destruct (write_map_spec fresh Hfresh garbage_map garbage_dir Hgm fs mf df dev bm d dev bm')
    as (dev1 & E1 & Hok1 & Hc1 & Hs1); [done|apply Hfs|done|done|].
  destruct (write_directory_spec fresh Hfresh garbage_map garbage_dir Hgm fs mf df dev1 bm d dev d')
    as (dev2 & E2 & Hok2 & Hc2 & Hs2); [done..|].
  exists dev1, dev2. split; [exact E1|]. split; [exact E2|].
  destruct (owned_disjoint _ _ _ _ (fs_nodup _ _ _ _ _ _ Hfs)) as (Hmd & Hwell & Hext).
  assert (∀ k' s x, Directory.files d !! k' = Some s → x ∈ extent dev s →
    sd_sector dev2 x = sd_sector dev x) as Hother.
  { intros k' s x Hs Hx. destruct (Hext k' s x Hs Hx) as [? ?].
    assert (is_sector x) by (eapply fs_owned_sector; [done|]; by eapply owned_file).
    by rewrite Hs2, Hs1. }
  split; [|done]. pose proof Hfs as [F1 F2 F3 Fh0 Fh1 F4 F5 F6 F7 F8 F9 F10 F11 F12].
  assert (owned (hdr mf) (hdr df) dev2 (Directory.files d')
          = owned (hdr mf) (hdr df) dev (Directory.files d')) as Hown.
  { apply owned_agree. intros k' s Hs. rewrite Hfiles in Hs.
    apply lookup_delete_Some in Hs as [_ Hs]. apply (Hother k' s); [done|by left]. }
  pose proof (owned_delete (hdr mf) (hdr df) dev _ _ _ Hk) as Hdel. rewrite <- Hfiles in Hdel.
  pose proof F11 as Hnd. rewrite Hdel in Hnd. apply NoDup_app in Hnd as (_ & Hdis & Hnd).
  assert (∀ x, x = FreeMapSector ∨ x = DirectorySector → sd_sector dev2 x = sd_sector dev x) as Hh01.
  { intros x Hx. destruct (Hwell x Hx) as [? ?].
    assert (is_sector x) by (destruct Hx as [->| ->]; done). by rewrite Hs2, Hs1. }
  split; try assumption; try (split; assumption); [rewrite Hh01; auto|rewrite Hh01; auto|..].
  - rewrite (contents_agree (hdr mf) dev1 dev2); [exact Hc1|].
    intros s Hs. apply Hs2; [|by apply Hmd].
    destruct F4 as [F4 _]. pose proof (fo_range _ F4) as Hrg. rewrite Forall_forall in Hrg. auto.
  - intros k' s Hs. rewrite Hfiles in Hs. apply lookup_delete_Some in Hs as [_ Hs].
    rewrite (Hother k' s s Hs) by by left. by apply (F10 k').
  - by rewrite Hown.
  - rewrite Hown, Hal', F12, Hdel, list_to_set_app_L. apply set_eq. intros x.
    rewrite elem_of_difference, elem_of_union, !elem_of_list_to_set.
    split; [by intros [[?|?] ?]|]. intros Hx. split; [by right|]. intros Hin. by apply (Hdis x).
Qed.

Lemma remove_file_spec dev bm d name :
  fs_ok fs mf df dev bm d →
  ∃ ok dev', Remove fresh garbage_map garbage_dir fs name dev = Ok (ok, dev') ∧
    (if ok then removed dev d name dev' else unchanged dev bm d dev') ∧
    (ok = true ↔ is_Some (Directory.files d !! Directory.key name)).
Proof using All.
  intros Hfs. unfold Remove.
  destruct (fs_bm _ _ _ _ _ _ Hfs) as [Hwf Hb]. destruct (fs_d _ _ _ _ _ _ Hfs) as [Hd Hts].
  destruct (fetch_directory_spec fresh Hfresh garbage_map garbage_dir Hgm fs mf df dev bm d Hfs)
    as (dev1 & -> & Hok1 & Hs1). simpl_res. rewrite Directory.Find_spec by done. simpl_res.
  pose proof (Directory.remove_entry_spec d name Hd) as Hrm.
  destruct (Directory.files d !! Directory.key name) as [r|] eqn:Ek.
  2:{ simpl. eexists _, _. split; [reflexivity|]. split; [|split; [done|by intros [? ?]]].
      split; [done|]. by eapply fs_ok_same. }
  destruct Hrm as (d' & Erm & Hd' & Hts' & Hf').
  assert (r ∈ owned (hdr mf) (hdr df) dev (Directory.files d)) as Hro
    by (eapply owned_file; [done|by left]).
  assert (is_sector r) as Hrsec by by eapply fs_owned_sector.
  simpl default. destruct (Z.eqb_spec r (-1)); [unfold is_sector in *; lia|].
  pose proof (fs_ok_same _ _ _ _ Hfs Hok1 Hs1) as Hfs1.
  destruct (sd_read_spec dev1 r Hok1 Hrsec) as (dev2 & E2 & Hok2 & Hs2).
  unfold FileHdr.FetchFrom at 1. rewrite E2. simpl_res. rewrite Hs1 by done.
  assert (same_disk dev dev2) as Hs12 by (intros k Hk; by rewrite Hs2, Hs1).
  pose proof (fs_ok_same _ _ _ _ Hfs Hok2 Hs12) as Hfs2.
  destruct (fetch_map_spec fresh Hfresh garbage_map garbage_dir Hgm fs mf df dev2 bm d Hfs2)
    as (dev3 & -> & Hok3 & Hs3). simpl_res.
  assert (same_disk dev dev3) as Hs13 by (intros k Hk; by rewrite Hs3, Hs12).
  pose proof (fs_ok_same _ _ _ _ Hfs Hok3 Hs13) as Hfs3.
  set (h := FileHdr.header_of (sd_sector dev r)).
  assert (file_ok h) as Hfh by exact (fs_headers _ _ _ _ _ _ Hfs _ _ Ek).
  assert (NoDup (extent dev r)) as Hnde.
  { pose proof (fs_nodup _ _ _ _ _ _ Hfs) as Hnd. rewrite (owned_delete _ _ _ _ _ _ Ek) in Hnd.
    by apply NoDup_app in Hnd as [? _]. }
  unfold extent in Hnde. fold h in Hnde. apply NoDup_cons in Hnde as [Hrh Hndh].
  assert (∀ x, x ∈ extent dev r → x ∈ BitMap.allocated bm) as Hext.
  { intros x Hx. rewrite (fs_used _ _ _ _ _ _ Hfs). apply elem_of_list_to_set. by eapply owned_file. }
  pose proof (FileHdr.Deallocate_spec bm h) as Hde.
  destruct (Hde Hwf (fo_sectors h Hfh) Hndh) as (bm1 & -> & Hwf1 & Hb1 & Ha1).
  { apply Forall_forall. intros x Hx. assert (x ∈ extent dev r) as Hxe by (by right).
    split; [|exact (Hext x Hxe)]. change (0 ≤ x < BitMap.numBits bm). rewrite Hb.
    eapply fs_owned_sector; [exact Hfs|]. by eapply owned_file. }
  simpl_res. simpl in Hwf1, Hb1, Ha1.
  destruct (BitMap.Clear_refines bm1 r Hwf1) as (bm2 & -> & Hwf2 & Hb2 & Ha2).
  { rewrite Hb1, Hb. exact Hrsec. }
  simpl_res. rewrite Erm. simpl_res.
  destruct (commit_remove dev3 bm d bm2 d' (Directory.key name) r)
    as (dev4 & dev5 & -> & E5 & Hfs5 & Hother); try done.
  { congruence. } { congruence. }
  { rewrite Ha2, Ha1. unfold extent. rewrite Hs13 by done. fold h. set_solver. }
  simpl_res. rewrite E5. simpl_res. eexists _, _. split; [reflexivity|]. split; [|done].
  exists bm2, d'. split; [done|]. split; [done|]. intros k s x Hk Hx.
  rewrite Hf' in Hk. apply lookup_delete_Some in Hk as [_ Hk].
  assert (is_sector s) as Hsec.
  { eapply fs_owned_sector; [exact Hfs|]. eapply owned_file; [done|by left]. }
  rewrite (Hother k s x Hk); [|unfold extent in *; by rewrite Hs13].
  apply Hs13. eapply fs_owned_sector; [exact Hfs|]. by eapply owned_file.
Qed.

(** Opening a file for reading and writing (0) or reading (1). *)
Lemma Open_type_spec dev bm d name ty :
  fs_ok fs mf df dev bm d → length (file_table fs) = Z.to_nat N_FILES_IN_TABLE → ty = 0 ∨ ty = 1 →
  ∃ r fs' dev', Open_type garbage_dir fs name ty dev = Ok (r, fs', dev') ∧
    unchanged dev bm d dev' ∧
    match Directory.files d !! Directory.key name with
    | Some s =>
        if bool_decide (r = -1) then fs' = fs ∧ ∀ j, 2 ≤ j < N_FILES_IN_TABLE →
          ∃ f, file_table fs !! Z.to_nat j = Some (Some f)
        else 2 ≤ r < N_FILES_IN_TABLE ∧ file_table fs !! Z.to_nat r = Some None ∧
             fs' = mkFileSystem
                     (<[Z.to_nat r := Some (mkOpenFile (FileHdr.header_of (sd_sector dev s)) 0 ty)]>
                        (file_table fs)) (freeMapFile fs) (directoryFile fs)
    | None => r = -1 ∧ fs' = fs
    end.
Proof using All.
  intros Hfs Hlen Hty. unfold Open_type. destruct (fs_d _ _ _ _ _ _ Hfs) as [Hd Hts].
  assert ((if ty =? 2 then Ok 0 else if ty =? 3 then Ok 1
           else if (ty =? 0) || (ty =? 1) then getIdxFreeSlot fs else Ok (-1)) = getIdxFreeSlot fs) as ->.
  { by destruct Hty as [->| ->]. }
  unfold getIdxFreeSlot.
  destruct (free_slot_spec (file_table fs) 2 (Z.to_nat (N_FILES_IN_TABLE - 2)))
    as [(j & -> & Hj & Hfree & _)|[-> Hfull]]; [lia|rewrite Hlen; done| |]; simpl_res.
  - destruct (Z.eqb_spec j (-1)); [lia|].
    destruct (fetch_directory_spec fresh Hfresh garbage_map garbage_dir Hgm fs mf df dev bm d Hfs)
      as (dev1 & -> & Hok1 & Hs1). simpl_res. rewrite Directory.Find_spec by done. simpl_res.
    pose proof (fs_ok_same _ _ _ _ Hfs Hok1 Hs1) as Hfs1.
    destruct (Directory.files d !! Directory.key name) as [s|] eqn:Ek; simpl default.
    + assert (is_sector s) as Hsec.
      { eapply fs_owned_sector; [exact Hfs|]. eapply owned_file; [done|by left]. }
      destruct (Z.geb_spec s 0); [|unfold is_sector in *; lia].
      destruct (sd_read_spec dev1 s Hok1 Hsec) as (dev2 & E2 & Hok2 & Hs2).
      unfold OpenFile_new_type, FileHdr.FetchFrom. rewrite E2. simpl_res.
      rewrite arr_set_in by (rewrite Hlen; change N_FILES_IN_TABLE with 100 in *; lia). simpl_res.
      eexists _, _, _. split; [reflexivity|].
      assert (same_disk dev dev2) as Hs12 by (intros k Hk; by rewrite Hs2, Hs1).
      split; [split; [done|by eapply fs_ok_same]|].
      rewrite bool_decide_eq_false_2 by lia. rewrite Hs1 by done.
      split; [change N_FILES_IN_TABLE with 100 in *; lia|]. done.
    + eexists _, _, _. split; [reflexivity|]. split; [by split|]. done.
  - eexists _, _, _. split; [reflexivity|]. split.
    + split; [by intros ??|done].
    + destruct (Directory.files d !! Directory.key name); [|done].
      simpl. split; [done|]. intros j Hj. apply Hfull. change N_FILES_IN_TABLE with 100 in *. lia.
Qed.
End operations.

(** ** Formatting and mounting *)

Section formatting.
Context {D : Type} `{SectorDeviceLaws D}.
Context (fresh : Z → list Z) (Hfresh : ∀ n, length (fresh n) = Z.to_nat n ∧ Forall is_u8 (fresh n)).
Context (garbage_map : list Z) (garbage_dir : list Directory.DirectoryEntry).
Context (garbage_hdr : FileHdr.FileHeader).
Context (Hgm : length garbage_map = 32%nat ∧ Forall is_u32 garbage_map).
Context (Hgd : length garbage_dir = 10%nat ∧ Forall Directory.entry_ok garbage_dir).
Context (Hgh : FileHdr.wf garbage_hdr).
Implicit Types dev : D.

(** Opening the file whose header is in a sector. *)
Lemma OpenFile_new_spec dev s :
  sd_ok dev → is_sector s →
  ∃ dev', OpenFile_new s dev = Ok (mkOpenFile (FileHdr.header_of (sd_sector dev s)) 0 1, dev') ∧
          sd_ok dev' ∧ same_disk dev dev'.
Proof using All.
  intros Hok Hs. destruct (sd_read_spec dev s Hok Hs) as (dev' & E & Hok' & Hsd).
  exists dev'. unfold OpenFile_new, FileHdr.FetchFrom. rewrite E. done.
Qed.

Lemma mount_spec fs mf df dev bm d t :
  fs_ok fs mf df dev bm d →
  ∃ fs' mf' df' dev', mount t dev = Ok (fs', dev') ∧ fs_ok fs' mf' df' dev' bm d ∧
    same_disk dev dev' ∧ file_table fs' = t.
Proof using All.
  intros Hfs. unfold mount.
  destruct (OpenFile_new_spec dev FreeMapSector) as (dev1 & -> & Hok1 & Hs1); [apply Hfs|done|].
  simpl_res.
  destruct (OpenFile_new_spec dev1 DirectorySector) as (dev2 & -> & Hok2 & Hs2); [done|done|].
  simpl_res. assert (same_disk dev dev2) as Hs12 by (intros k Hk; by rewrite Hs2, Hs1).
  rewrite (Hs1 DirectorySector) by done.
  rewrite (fs_h0 _ _ _ _ _ _ Hfs), (fs_h1 _ _ _ _ _ _ Hfs).
  eexists _, _, _, _. split; [reflexivity|]. split; [|done].
  pose proof (fs_ok_same fs mf df dev dev2 bm d Hfs Hok2 Hs12)
    as [F1 F2 F3 Fh0 Fh1 F4 F5 F6 F7 F8 F9 F10 F11 F12]. by split.
Qed.

(** The bitmap of a new disk: the two header sectors and one data sector for
    each of the two files. *)
Lemma format_map_spec :
  ∃ bm0 bm1 bm2 bm3 bm4 mh dh,
    BitMap.BitMap_new garbage_map NumSectors = Ok bm0 ∧
    BitMap.Mark bm0 FreeMapSector = Ok bm1 ∧ BitMap.Mark bm1 DirectorySector = Ok bm2 ∧
    FileHdr.Allocate garbage_hdr bm2 FreeMapFileSize = Ok (true, mh, bm3) ∧
    FileHdr.Allocate garbage_hdr bm3 DirectoryFileSize = Ok (true, dh, bm4) ∧
    FileHdr.wf mh ∧ FileHdr.wf dh ∧ file_ok mh ∧ file_ok dh ∧
    FileHdr.numBytes mh = FreeMapFileSize ∧ FileHdr.numBytes dh = DirectoryFileSize ∧
    BitMap.wf bm4 ∧ BitMap.numBits bm4 = NumSectors ∧
    let all := [FreeMapSector; DirectorySector] ++ FileHdr.used_sectors mh ++ FileHdr.used_sectors dh in
    NoDup all ∧ BitMap.allocated bm4 = list_to_set all ∧ length all = 4%nat.
Proof using All.
  destruct Hgm as [Hgl Hgu].
  destruct (BitMap.BitMap_new_refines garbage_map NumSectors) as (bm0 & E0 & Hwf0 & Hb0 & Ha0);
    [done|by rewrite Hgl|done|].
  destruct (BitMap.Mark_refines bm0 FreeMapSector Hwf0) as (bm1 & E1 & Hwf1 & Hb1 & Ha1).
  { rewrite Hb0. done. }
  destruct (BitMap.Mark_refines bm1 DirectorySector Hwf1) as (bm2 & E2 & Hwf2 & Hb2 & Ha2).
  { rewrite Hb1, Hb0. done. }
  assert (BitMap.numBits bm2 = NumSectors) as Hn2 by congruence.
  assert (BitMap.allocated bm2 = list_to_set [FreeMapSector; DirectorySector]) as Hu2.
  { rewrite Ha2, Ha1, Ha0. set_solver. }
  pose proof (FileHdr.Allocate_spec bm2 garbage_hdr FreeMapFileSize Hwf2 (FileHdr.wf_array _ Hgh)
    ltac:(done)) as Hal.
  cbv zeta in Hal. simpl fm_size in Hal. simpl fm_used in Hal. rewrite Hn2, Hu2 in Hal.
  assert ((NumSectors - Z.of_nat (size (list_to_set [FreeMapSector; DirectorySector] : gset Z))
    <? divRoundUp FreeMapFileSize SectorSize) = false) as Ht by (vm_compute; reflexivity).
  rewrite Ht in Hal. clear Ht.
  destruct Hal as (mh & bm3 & E3 & Hmb & Hms & Hmn & Hml & Hmr & Hwf3 & Hb3 & Hmd & Hmu & Hmnew & Hu3).
  simpl in Hwf3.
  assert (size (BitMap.allocated bm3) = 3%nat) as Hsz3.
  { rewrite Hu3, size_union, !size_list_to_set, Hmu; [done|done|..].
    - apply NoDup_cons. split; [|apply NoDup_singleton]. rewrite list_elem_of_singleton. done.
    - intros x Hx Hy. rewrite Forall_forall in Hmnew. apply elem_of_list_to_set in Hy.
      by apply (proj2 (Hmnew x Hy)). }
  pose proof (FileHdr.Allocate_spec bm3 garbage_hdr DirectoryFileSize Hwf3 (FileHdr.wf_array _ Hgh)
    ltac:(done)) as Hal.
  cbv zeta in Hal. simpl fm_size in Hal. simpl fm_used in Hal. rewrite Hb3, Hsz3 in Hal.
  assert ((NumSectors - Z.of_nat 3 <? divRoundUp DirectoryFileSize SectorSize) = false) as Ht
    by (vm_compute; reflexivity).
  rewrite Ht in Hal. clear Ht.
  destruct Hal as (dh & bm4 & E4 & Hdb & Hds & Hdn & Hdl & Hdr & Hwf4 & Hb4 & Hdd & Hdu & Hdnew & Hu4).
  simpl in Hwf4.
  exists bm0, bm1, bm2, bm3, bm4, mh, dh. split_and!; try done.
  - eapply header_fresh_wf; try done; try congruence. rewrite Hmb. done.
  - eapply header_fresh_wf; try done; try congruence. rewrite Hdb. done.
  - eapply header_fresh_ok; try done; congruence.
  - eapply header_fresh_ok; try done; congruence.
  - cbv zeta. split; [|split; [rewrite Hu4, Hu3, !list_to_set_app_L; set_solver|
      rewrite !length_app, Hmu, Hdu; done]].
    rewrite Forall_forall in Hmnew, Hdnew. rewrite Hu3 in Hdnew. rewrite !NoDup_app.
    split_and!; try done.
    + apply NoDup_cons. split; [|apply NoDup_singleton]. rewrite list_elem_of_singleton. done.
    + intros x Hx Hin. apply elem_of_app in Hin as [Hin|Hin].
      * apply (proj2 (Hmnew x Hin)). by apply elem_of_list_to_set.
      * apply (proj2 (Hdnew x Hin)). apply elem_of_union_l. by apply elem_of_list_to_set.
    + intros x Hx Hin. apply (proj2 (Hdnew x Hin)). apply elem_of_union_r. by apply elem_of_list_to_set.
Qed.

Lemma new_directory_ok :
  Directory.dir_ok (new_directory garbage_dir) ∧
  Directory.files (new_directory garbage_dir) = ∅ ∧
  Directory.tableSize (new_directory garbage_dir) = NumDirEntries.
Proof using Hgd.
  destruct Hgd as [Hl He].
  assert (Directory.live (Directory.table (new_directory garbage_dir)) = []) as Hlive.
  { unfold Directory.live, new_directory. simpl. apply list_filter_none, Forall_fmap, Forall_true.
    intros e. simpl. auto. }
  split; [|split; [|done]].
  - split; simpl; [by rewrite length_fmap, Hl| |].
    + apply Forall_fmap. eapply Forall_impl; [exact He|]. intros e [? ? ?]. by split.
    + simpl in Hlive. rewrite Hlive. constructor.
  - unfold Directory.files, Directory.files_of. by rewrite Hlive.
Qed.

Lemma format_spec dev t :
  sd_ok dev →
  ∃ fs mf df dev' bm d,
    format_disk fresh garbage_map garbage_dir garbage_hdr t dev = Ok (fs, dev') ∧
    fs_ok fs mf df dev' bm d ∧ Directory.files d = ∅ ∧ file_table fs = t ∧
    size (BitMap.allocated bm) = 4%nat.
Proof using All.
  intros Hok. destruct format_map_spec as (bm0 & bm1 & bm2 & bm3 & bm & mh & dh & E0 & E1 & E2 & E3 & E4
    & Hwm & Hwd & Hfm & Hfd & Hnm & Hnd & Hwf & Hb & Hdup & Hused & Hcount).
  destruct new_directory_ok as (Hdok & Hfiles & Hts).
  unfold format_disk. rewrite E0. simpl_res. rewrite E1. simpl_res. rewrite E2. simpl_res.
  rewrite E3. simpl_res. rewrite E4. simpl_res. unfold ASSERT. simpl_res. unfold FileHdr.WriteBack.
  destruct (sd_write_spec dev FreeMapSector (FileHdr.header_bytes mh)) as (dev1 & -> & Hok1 & Hs1);
    [done|done|by apply FileHdr.header_bytes_data|]. simpl_res.
  destruct (sd_write_spec dev1 DirectorySector (FileHdr.header_bytes dh)) as (dev2 & -> & Hok2 & Hs2);
    [done|done|by apply FileHdr.header_bytes_data|]. simpl_res.
  destruct (OpenFile_new_spec dev2 FreeMapSector) as (dev3 & -> & Hok3 & Hs3); [done|done|]. simpl_res.
  destruct (OpenFile_new_spec dev3 DirectorySector) as (dev4 & -> & Hok4 & Hs4); [done|done|]. simpl_res.
  assert (sd_sector dev4 FreeMapSector = FileHdr.header_bytes mh) as H40.
  { rewrite Hs4, Hs3, Hs2, Hs1 by done. done. }
  assert (sd_sector dev4 DirectorySector = FileHdr.header_bytes dh) as H41.
  { rewrite Hs4, Hs3, Hs2 by done. done. }
  rewrite <- (Hs4 DirectorySector), <- (Hs3 FreeMapSector), <- (Hs4 FreeMapSector) by done.
  rewrite H40, H41, !FileHdr.header_roundtrip by done.
  set (mf := mkOpenFile mh 0 1). set (df := mkOpenFile dh 0 1).
  destruct (map_bytes_ok bm Hwf Hb) as (Hw & _ & Hlb & Hbb).
  destruct (write_whole fresh Hfresh garbage_map garbage_dir Hgm mh dev4 (32 * 4)
    (BitMapFile.map_bytes bm)) as (dev5 & w5 & E5 & Hok5 & Hc5 & Hs5); [done..|].
  unfold BitMapFile.WriteBack. rewrite Hw. cbn [hdr mf]. rewrite E5. simpl_res.
  destruct (write_whole fresh Hfresh garbage_map garbage_dir Hgm dh dev5
    (NumDirEntries * Directory.entry_size)
    (Directory.table_bytes (Directory.table (new_directory garbage_dir))))
    as (dev6 & w6 & E6 & Hok6 & Hc6 & Hs6); [done|done|done| | |].
  { rewrite Directory.length_table_bytes by apply Hdok. rewrite <- (Directory.do_size _ Hdok), Hts. done. }
  { apply Directory.table_bytes_u8, Hdok. }
  unfold Directory.WriteBack. rewrite Hts. cbn [hdr df]. rewrite E6. simpl_res.
  eexists _, mf, df, _, bm, (new_directory garbage_dir). split; [reflexivity|].
  split; [|split; [done|split; [done|]]].
  2:{ rewrite Hused, size_list_to_set by exact Hdup. exact Hcount. }
  assert (owned mh dh dev6 ∅ = [FreeMapSector; DirectorySector] ++ FileHdr.used_sectors mh ++
          FileHdr.used_sectors dh) as Hown.
  { unfold owned. rewrite map_to_list_empty. simpl. by rewrite app_nil_r. }
  destruct (owned_disjoint mh dh dev6 ∅) as (Hmd & Hwell & _); [by rewrite Hown|].
  assert (∀ x, is_sector x → x = FreeMapSector ∨ x = DirectorySector →
    sd_sector dev6 x = sd_sector dev4 x) as Hkeep.
  { intros x Hx Hx'. destruct (Hwell x Hx') as [? ?]. by rewrite Hs6, Hs5. }
  split; try done; rewrite ?Hfiles; cbn [hdr mf df].
  - rewrite Hkeep, H40, FileHdr.header_roundtrip by (done || by left). done.
  - rewrite Hkeep, H41, FileHdr.header_roundtrip by (done || by right). done.
  - rewrite (contents_agree mh dev5 dev6); [done|]. intros s Hs. apply Hs6; [|by apply Hmd].
    pose proof (fo_range _ Hfm) as Hrg. rewrite Forall_forall in Hrg. auto.
  - apply map_Forall_empty.
  - rewrite Hown. done.
  - rewrite Hown. done.
Qed.
End formatting.
End FileSys.

(** ** The properties *)

Module FileSysSpec.
Import OpenFile FileSys.

(** What an observer sees of the file system: the sizes of the files, by name,
    and the number of free sectors. *)
Record View := mkView { sizes : gmap (list Z) Z; free : Z }.

Inductive request := RCreate (name : list Z) (initialSize : Z) | RRemove (name : list Z).

Definition request_ok (r : request) : Prop :=
  match r with
  | RCreate name n => Forall is_u8 name ∧ 0 ≤ n
  | RRemove _ => True
  end.

(** The sectors a file of [n] bytes takes: its header and its data. *)
Definition cost (n : Z) : Z := 1 + divRoundUp n SectorSize.

(** [None]: the request would have to be granted, but the file is larger than a
    header can describe, and the code writes past the header's table. *)
Definition serve_view (r : request) (v : View) : option (bool * View) :=
  match r with
  | RCreate name n =>
      let k := Directory.key name in
      if bool_decide (sizes v !! k = None ∧ Z.of_nat (size (sizes v)) < NumDirEntries ∧
                      cost n ≤ free v)
      then if MaxFileSize <? n then None
           else Some (true, mkView (<[k := n]> (sizes v)) (free v - cost n))
      else Some (false, v)
  | RRemove name =>
      let k := Directory.key name in
      match sizes v !! k with
      | Some n => Some (true, mkView (delete k (sizes v)) (free v + cost n))
      | None => Some (false, v)
      end
  end.

Fixpoint session_view (rs : list request) (v : View) : option (list bool * View) :=
  match rs with
  | [] => Some ([], v)
  | r :: rs' => '(b, v1) ← serve_view r v; '(l, v2) ← session_view rs' v1; Some (b :: l, v2)
  end.

Section spec.
Context {D : Type} `{SectorDeviceLaws D}.
Context (fresh : Z → list Z) (garbage_map : list Z) (garbage_dir : list Directory.DirectoryEntry).
Context (garbage_hdr : FileHdr.FileHeader).

(** What uninitialised memory can be: bytes, words, ints. *)
Record memory_ok : Prop := mkMemoryOk {
  mo_fresh : ∀ n, length (fresh n) = Z.to_nat n ∧ Forall is_u8 (fresh n);
  mo_map : length garbage_map = 32%nat ∧ Forall is_u32 garbage_map;
  mo_dir : length garbage_dir = 10%nat ∧ Forall Directory.entry_ok garbage_dir;
  mo_hdr : FileHdr.wf garbage_hdr;
}.

Context (Hmem : memory_ok).
Implicit Types dev : D.

Definition serve (fs : FileSystem) (r : request) (dev : D) : res (bool * D) :=
  match r with
  | RCreate name n => Create fresh garbage_map garbage_dir garbage_hdr fs name n dev
  | RRemove name => Remove fresh garbage_map garbage_dir fs name dev
  end.

Fixpoint session (fs : FileSystem) (rs : list request) (dev : D) : res (list bool * D) :=
  match rs with
  | [] => Ok ([], dev)
  | r :: rs' => '(b, dev1) ← serve fs r dev; '(l, dev2) ← session fs rs' dev1; Ok (b :: l, dev2)
  end.

(** The disk shows the view. *)
Definition shows (fs : FileSystem) (mf df : OpenFile) (dev : D) (v : View) : Prop :=
  ∃ bm d, fs_ok fs mf df dev bm d ∧
    sizes v = (λ s, FileHdr.FileLength (FileHdr.header_of (sd_sector dev s))) <$> Directory.files d ∧
    map_Forall (λ _ s, FileHdr.numSectors (FileHdr.header_of (sd_sector dev s)) =
      divRoundUp (FileHdr.FileLength (FileHdr.header_of (sd_sector dev s))) SectorSize)
      (Directory.files d) ∧
    free v = NumSectors - Z.of_nat (size (BitMap.allocated bm)).

Lemma allocated_count fs mf df dev bm d :
  fs_ok fs mf df dev bm d →
  size (BitMap.allocated bm) = length (owned (hdr mf) (hdr df) dev (Directory.files d)).
Proof using Type.
  intros Hfs. rewrite (fs_used _ _ _ _ _ _ Hfs). apply size_list_to_set, Hfs.
Qed.

Lemma length_extent dev s :
  file_ok (FileHdr.header_of (sd_sector dev s)) →
  length (extent dev s) = Z.to_nat (1 + FileHdr.numSectors (FileHdr.header_of (sd_sector dev s))).
Proof using Type.
  intros Hf. unfold extent. cbn [length]. rewrite (length_used _ Hf).
  pose proof (fo_sectors _ Hf). lia.
Qed.

Definition size_at dev (s : Z) : Z := FileHdr.FileLength (FileHdr.header_of (sd_sector dev s)).
Definition tight dev (s : Z) : Prop :=
  FileHdr.numSectors (FileHdr.header_of (sd_sector dev s)) = divRoundUp (size_at dev s) SectorSize.

(** The sizes only depend on the header sectors. *)
Lemma sizes_agree dev dev' (m : gmap (list Z) Z) :
  (∀ k s, m !! k = Some s → sd_sector dev' s = sd_sector dev s) →
  size_at dev' <$> m = size_at dev <$> m ∧
  (map_Forall (λ _ s, tight dev s) m → map_Forall (λ _ s, tight dev' s) m).
Proof using Type.
  intros Ha. split.
  - apply map_fmap_ext. intros k s Hk. unfold size_at. by rewrite (Ha k s Hk).
  - intros Ht k s Hk. specialize (Ht k s Hk). unfold tight, size_at in *. by rewrite (Ha k s Hk).
Qed.

Lemma shows_same fs mf df dev dev' v :
  shows fs mf df dev v → sd_ok dev' → same_disk dev dev' → shows fs mf df dev' v.
Proof using Type.
  intros (bm & d & Hfs & Hsz & Ht & Hfr) Hok Hs. exists bm, d.
  destruct (sizes_agree dev dev' (Directory.files d)) as [E1 E2].
  { intros k s Hk. apply Hs. eapply fs_owned_sector; [exact Hfs|].
    eapply owned_file; [exact Hk|by left]. }
  split; [by eapply fs_ok_same|]. split; [|split; [by apply E2|done]].
  rewrite Hsz. symmetry. exact E1.
Qed.

Lemma created_shows fs mf df dev v name n dev' bm d :
  fs_ok fs mf df dev bm d → sizes v = size_at dev <$> Directory.files d →
  map_Forall (λ _ s, tight dev s) (Directory.files d) →
  free v = NumSectors - Z.of_nat (size (BitMap.allocated bm)) →
  Directory.files d !! Directory.key name = None → 0 ≤ n →
  created fs mf df dev d name n dev' →
  shows fs mf df dev' (mkView (<[Directory.key name := n]> (sizes v)) (free v - cost n)).
Proof using Type.
  intros Hfs Hsz Ht Hfr Hk Hn (bm' & d' & r & Hfs' & Hf' & Hlen & Hnum & Hsame).
  destruct (sizes_agree dev dev' (Directory.files d)) as [E1 E2].
  { intros k s Hs. apply (Hsame k s s Hs). by left. }
  exists bm', d'. split; [done|]. split; [|split].
  - cbn [sizes]. rewrite Hf', fmap_insert, Hlen. f_equal. rewrite Hsz. symmetry. exact E1.
  - rewrite Hf'. apply map_Forall_insert_2; [by rewrite Hlen|]. by apply E2.
  - cbn [free]. rewrite Hfr, (allocated_count _ _ _ _ _ _ Hfs), (allocated_count _ _ _ _ _ _ Hfs').
    rewrite Hf', owned_insert, length_app by done.
    rewrite (owned_agree _ _ dev dev') by (intros k s Hs; apply (Hsame k s s Hs); by left).
    pose proof (fs_headers _ _ _ _ _ _ Hfs' (Directory.key name) r) as Hh.
    rewrite Hf', lookup_insert_eq in Hh. specialize (Hh eq_refl).
    rewrite (length_extent dev' r Hh), Hnum. unfold cost.
    pose proof (divRoundUp_nonneg n SectorSize Hn ltac:(done)). lia.
Qed.

Lemma removed_shows fs mf df dev v name r dev' bm d :
  fs_ok fs mf df dev bm d → sizes v = size_at dev <$> Directory.files d →
  map_Forall (λ _ s, tight dev s) (Directory.files d) →
  free v = NumSectors - Z.of_nat (size (BitMap.allocated bm)) →
  Directory.files d !! Directory.key name = Some r →
  removed fs mf df dev d name dev' →
  shows fs mf df dev'
    (mkView (delete (Directory.key name) (sizes v)) (free v + cost (size_at dev r))).
Proof using Type.
  intros Hfs Hsz Ht Hfr Hk (bm' & d' & Hfs' & Hf' & Hsame).
  assert (∀ k s, Directory.files d' !! k = Some s → sd_sector dev' s = sd_sector dev s) as Hsame'.
  { intros k s Hs. apply (Hsame k s s Hs). by left. }
  destruct (sizes_agree dev dev' (Directory.files d') Hsame') as [E1 E2].
  exists bm', d'. split; [done|]. split; [|split].
  - cbn [sizes]. rewrite Hsz, <- fmap_delete, <- Hf'. symmetry. exact E1.
  - apply E2. rewrite Hf'. by apply map_Forall_delete.
  - cbn [free]. rewrite Hfr, (allocated_count _ _ _ _ _ _ Hfs), (allocated_count _ _ _ _ _ _ Hfs').
    rewrite (owned_agree _ _ dev dev') by done.
    rewrite (owned_delete _ _ dev _ _ _ Hk), <- Hf', length_app.
    pose proof (fs_headers _ _ _ _ _ _ Hfs _ _ Hk) as Hh. simpl in Hh.
    rewrite (length_extent dev r Hh). pose proof (Ht _ _ Hk) as Htr. unfold tight in Htr.
    rewrite Htr. unfold cost. pose proof (fo_bytes _ Hh).
    pose proof (divRoundUp_nonneg (size_at dev r) SectorSize ltac:(unfold size_at, FileHdr.FileLength; lia)
      ltac:(done)). lia.
Qed.

Lemma serve_shows fs mf df dev v r :
  shows fs mf df dev v → request_ok r →
  match serve_view r v with
  | Some (b, v') => ∃ dev', serve fs r dev = Ok (b, dev') ∧ shows fs mf df dev' v'
  | None => serve fs r dev = Stop Undefined
  end.
Proof using All.
  intros Hv Hr. destruct Hmem as [M1 M2 M3 M4].
  pose proof Hv as (bm & d & Hfs & Hsz & Ht & Hfr).
  assert (Z.of_nat (size (sizes v)) = Z.of_nat (size (Directory.files d))) as Hcount.
  { by rewrite Hsz, map_size_fmap. }
  destruct r as [name n|name]; cbn [serve serve_view].
  - destruct Hr as [Hname Hn].
    assert (sizes v !! Directory.key name = None ↔ Directory.files d !! Directory.key name = None) as Hnone.
    { rewrite Hsz, lookup_fmap. by destruct (Directory.files d !! Directory.key name). }
    assert (Directory.files d !! Directory.key name = None ∧ room bm d n ↔
      sizes v !! Directory.key name = None ∧ Z.of_nat (size (sizes v)) < NumDirEntries ∧
      cost n ≤ free v) as Hmade.
    { unfold room, cost. rewrite Hnone, Hcount, Hfr. done. }
    destruct (Create_any fresh M1 garbage_map garbage_dir garbage_hdr M2 M4 fs mf df dev bm d name n)
      as [(Hbig & Hdo & ->)|(Hfit & ok & dev' & -> & Hres & Hiff)]; [done..| |].
    { rewrite bool_decide_eq_true_2 by (by apply Hmade).
      by rewrite (proj2 (Z.ltb_lt _ _) Hbig). }
    destruct ok.
    + pose proof (proj1 Hiff eq_refl) as Hdo. rewrite bool_decide_eq_true_2 by (by apply Hmade).
      specialize (Hfit Hdo). rewrite (proj2 (Z.ltb_ge _ _)) by lia. exists dev'.
      split; [done|]. eapply created_shows; try done. apply Hdo.
    + rewrite bool_decide_eq_false_2.
      * exists dev'. split; [done|]. destruct Hres as [Hs Hfs']. eapply shows_same; [done|apply Hfs'|done].
      * intros Hdo%Hmade. discriminate (proj2 Hiff Hdo).
  - destruct (remove_file_spec fresh M1 garbage_map garbage_dir garbage_hdr M2 M4 fs mf df dev bm d name Hfs)
      as (ok & dev' & -> & Hres & Hiff).
    assert (sizes v !! Directory.key name
            = size_at dev <$> Directory.files d !! Directory.key name) as ->
      by (rewrite Hsz; apply lookup_fmap).
    destruct (Directory.files d !! Directory.key name) as [r|] eqn:Ek; simpl; exists dev'.
    + destruct ok; [|by discriminate (proj2 Hiff (mk_is_Some _ _ eq_refl))].
      split; [done|]. by eapply removed_shows.
    + destruct ok; [by destruct (proj1 Hiff eq_refl)|]. destruct Hres as [Hs Hfs'].
      split; [done|]. eapply shows_same; [done|apply Hfs'|done].
Qed.

(** C1. The file system refines a map from names to sizes.  Format a disk and
    send it any sequence of Create and Remove requests, with names of bytes and
    sizes that are not negative: every request terminates and answers as the map
    would (Create succeeds exactly when the name is new, the directory has a free
    entry and enough sectors are free; Remove exactly when the name exists), no
    sector is ever leaked or shared between files, and the free map on disk
    counts exactly the free ones.  The exception is a Create that would succeed
    with more than MaxFileSize = 64512 bytes: Allocate does not check for it, and
    the session then ends in undefined behaviour. *)
Theorem filesystem_refines_map t dev rs :
  sd_ok dev → Forall request_ok rs →
  ∃ fs mf df dev1,
    format_disk fresh garbage_map garbage_dir garbage_hdr t dev = Ok (fs, dev1) ∧
    shows fs mf df dev1 (mkView ∅ 1020) ∧
    match session_view rs (mkView ∅ 1020) with
    | Some (answers, v) => ∃ dev2, session fs rs dev1 = Ok (answers, dev2) ∧ shows fs mf df dev2 v
    | None => session fs rs dev1 = Stop Undefined
    end.
Proof using All.
  intros Hok Hrs. destruct Hmem as [M1 M2 M3 M4].
  destruct (format_spec fresh M1 garbage_map garbage_dir garbage_hdr M2 M3 M4 dev t Hok)
    as (fs & mf & df & dev1 & bm & d & E & Hfs & Hfiles & _ & Hcount).
  assert (shows fs mf df dev1 (mkView ∅ 1020)) as Hshow.
  { exists bm, d. rewrite Hfiles, Hcount. split; [done|]. split; [done|].
    split; [apply map_Forall_empty|done]. }
  exists fs, mf, df, dev1. split; [done|]. split; [done|].
  clear -Hmem H0 Hrs Hshow. revert Hshow. generalize (mkView ∅ 1020) as v, dev1 as dev.
  induction Hrs as [|r rs Hr _ IH]; intros v dev Hv; [by exists dev|].
  cbn [session session_view]. pose proof (serve_shows fs mf df dev v r Hv Hr) as Hserve.
  destruct (serve_view r v) as [[b v1]|]; simpl; [|by rewrite Hserve].
  destruct Hserve as (dev1' & -> & Hv1). specialize (IH v1 dev1' Hv1). simpl_res.
  destruct (session_view rs v1) as [[l v2]|]; simpl; [|by rewrite IH].
  destruct IH as (dev2 & -> & Hv2). by exists dev2.
Qed.

(** C11. A Create with a size that is not negative, whether it succeeds or fails,
    leaves every other file alone: the header and data sectors of all files that
    existed before are unchanged, the disk stays consistent, and a failed Create
    changes no sector at all.  Only a Create that has all it needs but more than
    MaxFileSize = 64512 bytes does not come that far: it writes past the header's
    table of sectors. *)
Theorem create_frames_other_files fs mf df dev bm d name n :
  fs_ok fs mf df dev bm d → 0 ≤ n → Forall is_u8 name →
  let r := Create fresh garbage_map garbage_dir garbage_hdr fs name n dev in
  if bool_decide (MaxFileSize < n ∧ Directory.files d !! Directory.key name = None ∧ room bm d n)
  then r = Stop Undefined
  else ∃ ok dev', r = Ok (ok, dev') ∧
    (ok = false → same_disk dev dev') ∧
    (∃ bm' d', fs_ok fs mf df dev' bm' d') ∧
    ∀ k s, Directory.files d !! k = Some s →
      FileHdr.header_of (sd_sector dev' s) = FileHdr.header_of (sd_sector dev s) ∧
      contents dev' (FileHdr.header_of (sd_sector dev' s))
      = contents dev (FileHdr.header_of (sd_sector dev s)).
Proof using All.
  intros Hfs Hn Hname. destruct Hmem as [M1 M2 M3 M4]. cbv zeta.
  destruct (Create_any fresh M1 garbage_map garbage_dir garbage_hdr M2 M4 fs mf df dev bm d name n)
    as [(Hbig & Hdo & E)|(Hfit & ok & dev' & E & Hres & _)]; [done..| |].
  { by rewrite bool_decide_eq_true_2. }
  rewrite bool_decide_eq_false_2 by (intros [Hbig Hdo]; specialize (Hfit Hdo); lia).
  exists ok, dev'. split; [exact E|].
  assert ((∃ bm' d', fs_ok fs mf df dev' bm' d') ∧ ∀ k s x, Directory.files d !! k = Some s →
    x ∈ extent dev s → sd_sector dev' x = sd_sector dev x) as [Hfs' Hsame].
  { destruct ok.
    - destruct Hres as (bm' & d' & r & ? & _ & _ & _ & Hsame). split; [by exists bm', d'|done].
    - destruct Hres as [Hs ?]. split; [by exists bm, d|]. intros k s x Hk Hx. apply Hs.
      eapply fs_owned_sector; [exact Hfs|]. by eapply owned_file. }
  split; [intros ->; apply Hres|]. split; [exact Hfs'|]. intros k s Hk.
  assert (sd_sector dev' s = sd_sector dev s) as Es by (apply (Hsame k s s Hk); by left).
  rewrite Es. split; [done|]. apply contents_agree. intros x Hx. apply (Hsame k s x Hk). by right.
Qed.

(** Rebooting: mounting a consistent disk opens the same free map and the
    same directory, without touching the disk. *)
Theorem mount_recovers fs mf df dev bm d t :
  fs_ok fs mf df dev bm d →
  ∃ fs' mf' df' dev', mount t dev = Ok (fs', dev') ∧ fs_ok fs' mf' df' dev' bm d ∧ same_disk dev dev'.
Proof using All.
  intros Hfs. destruct Hmem as [M1 M2 M3 M4].
  destruct (mount_spec fresh M1 garbage_map garbage_dir garbage_hdr M2 M3 M4 fs mf df dev bm d t Hfs)
    as (fs' & mf' & df' & dev' & E & Hfs' & Hs & _). by exists fs', mf', df', dev'.
Qed.

(** Opening a file by name.  It fails when the name is not in the
    directory or when all slots from 2 on are taken; otherwise it returns a
    slot of the table that was free, now holding the file's header at position
    0 with the requested type, and nothing else changes. *)
Theorem open_fills_free_slot fs mf df dev bm d name ty :
  fs_ok fs mf df dev bm d → length (file_table fs) = Z.to_nat N_FILES_IN_TABLE → ty = 0 ∨ ty = 1 →
  ∃ r fs' dev', Open_type garbage_dir fs name ty dev = Ok (r, fs', dev') ∧ same_disk dev dev' ∧
    match Directory.files d !! Directory.key name with
    | Some s =>
        if bool_decide (r = -1) then fs' = fs ∧ ∀ j, 2 ≤ j < N_FILES_IN_TABLE →
          ∃ f, file_table fs !! Z.to_nat j = Some (Some f)
        else 2 ≤ r < N_FILES_IN_TABLE ∧ file_table fs !! Z.to_nat r = Some None ∧
             file_table fs' =
               <[Z.to_nat r := Some (mkOpenFile (FileHdr.header_of (sd_sector dev s)) 0 ty)]>
                 (file_table fs)
    | None => r = -1 ∧ fs' = fs
    end.
Proof using All.
  intros Hfs Hlen Hty. destruct Hmem as [M1 M2 M3 M4].
  destruct (Open_type_spec fresh M1 garbage_map garbage_dir garbage_hdr M2 M4 fs mf df dev bm d name ty)
    as (r & fs' & dev' & E & [Hs _] & Hres); [done..|].
  exists r, fs', dev'. split; [exact E|]. split; [exact Hs|].
  destruct (Directory.files d !! Directory.key name); [|exact Hres].
  case_bool_decide; [exact Hres|]. destruct Hres as (? & ? & ->). done.
Qed.
End spec.

(** A new disk, with uninitialised memory that holds arbitrary values. *)
Definition garbage_words : list Z := replicate 32 7.
Definition garbage_entries : list Directory.DirectoryEntry :=
  replicate 10 DirectorySpec.blank_entry.

Lemma sample_memory :
  memory_ok OpenFileSpec.junk garbage_words garbage_entries FileHdrSpec.blank.
Proof.
  split; [apply OpenFileSpec.junk_ok|split; [done|]..|].
  - apply Forall_replicate. unfold is_u32, two32. lia.
  - apply Forall_replicate. split; [done| |unfold is_s32, two31; simpl; lia].
    apply Forall_replicate. unfold is_u8. lia.
  - split; [done..|]. apply Forall_replicate. unfold is_s32, two31. lia.
Qed.

Definition empty_table : list (option OpenFile) := replicate (Z.to_nat N_FILES_IN_TABLE) None.

(** A formatted disk without files. *)
Lemma formatted_sample :
  ∃ fs mf df dev bm d,
    fs_ok fs mf df dev bm d ∧ Directory.files d = ∅ ∧ file_table fs = empty_table ∧
    ∃ dev0, format_disk OpenFileSpec.junk garbage_words garbage_entries FileHdrSpec.blank empty_table dev0
            = Ok (fs, dev).
Proof.
  destruct sample_memory as [M1 M2 M3 M4].
  destruct (format_spec _ M1 _ _ _ M2 M3 M4 DiskSpec.sample empty_table DiskSpec.sample_device)
    as (fs & mf & df & dev & bm & d & E & Hfs & Hf & Ht & _).
  exists fs, mf, df, dev, bm, d. split_and!; [exact Hfs|exact Hf|exact Ht|by eexists].
Qed.

Definition sample_requests : list request :=
  [RCreate [97] 700; RCreate [97] 10; RCreate [98] 64000; RRemove [97]; RRemove [99]].

Lemma filesystem_refines_map_witness :
  ∃ fs dev1 dev2,
    format_disk OpenFileSpec.junk garbage_words garbage_entries FileHdrSpec.blank [] DiskSpec.sample
      = Ok (fs, dev1) ∧
    session OpenFileSpec.junk garbage_words garbage_entries FileHdrSpec.blank fs sample_requests dev1
      = Ok ([true; false; true; true; false], dev2).
Proof.
  destruct (filesystem_refines_map _ _ _ _ sample_memory [] DiskSpec.sample sample_requests
    DiskSpec.sample_device) as (fs & mf & df & dev1 & E1 & _ & Hsession).
  - unfold sample_requests. repeat constructor; try lia; vm_compute; discriminate.
  - destruct (session_view sample_requests (mkView ∅ 1020)) as [[l v]|] eqn:Ev; [|by vm_compute in Ev].
    destruct Hsession as (dev2 & E2 & _). exists fs, dev1, dev2. split; [exact E1|]. rewrite E2.
    do 2 f_equal. vm_compute in Ev. by inversion Ev.
Defined.

Lemma create_frames_other_files_witness :
  ∃ fs mf df dev bm d ok dev', fs_ok fs mf df dev bm d ∧
    Create OpenFileSpec.junk garbage_words garbage_entries FileHdrSpec.blank fs [97] 700 dev
      = Ok (ok, dev').
Proof.
  destruct formatted_sample as (fs & mf & df & dev & bm & d & Hfs & _).
  assert (0 ≤ 700) as Hn by lia. assert (Forall is_u8 [97]) as Hname by (repeat constructor; lia).
  pose proof (create_frames_other_files _ _ _ _ sample_memory fs mf df dev bm d [97] 700 Hfs Hn Hname)
    as Hc. cbv zeta in Hc. rewrite bool_decide_eq_false_2 in Hc.
  - destruct Hc as (ok & dev' & E & _).
    exists fs, mf, df, dev, bm, d, ok, dev'. split; [exact Hfs|exact E].
  - intros [Hbig _]. vm_compute in Hbig. discriminate Hbig.
Defined.

Lemma mount_recovers_witness :
  ∃ fs mf df dev bm d fs' mf' df' dev', fs_ok fs mf df dev bm d ∧
    mount empty_table dev = Ok (fs', dev') ∧ fs_ok fs' mf' df' dev' bm d.
Proof.
  destruct formatted_sample as (fs & mf & df & dev & bm & d & Hfs & _).
  destruct (mount_recovers _ _ _ _ sample_memory fs mf df dev bm d empty_table Hfs)
    as (fs' & mf' & df' & dev' & E & Hfs' & _).
  exists fs, mf, df, dev, bm, d, fs', mf', df', dev'.
  split; [exact Hfs|split; [exact E|exact Hfs']].
Defined.

Lemma open_fills_free_slot_witness :
  ∃ fs mf df dev bm d dev', fs_ok fs mf df dev bm d ∧
    Open_type garbage_entries fs [97] 0 dev = Ok (-1, fs, dev').
Proof.
  destruct formatted_sample as (fs & mf & df & dev & bm & d & Hfs & Hf & Ht & _).
  destruct (open_fills_free_slot _ _ _ _ sample_memory fs mf df dev bm d [97] 0 Hfs)
    as (r & fs' & dev' & E & _ & Hres).
  - rewrite Ht. reflexivity.
  - left. reflexivity.
  - rewrite Hf in Hres. destruct Hres as [Hr Hfs']. subst r fs'.
    exists fs, mf, df, dev, bm, d, dev'. split; [exact Hfs|exact E].
Defined.

(** The constructor as a whole.  It creates "stdin" and "stdout" before the
    free map and directory files are opened, so its very first step reads
    through an uninitialised pointer, whatever the disk holds and whether it
    is to be formatted or not. *)
Lemma constructor_uses_unopened_directory {D : Type} `{SectorDevice D} fresh gm gd gh format (dev : D) :
  FileSystem_new fresh gm gd gh format dev = Stop Undefined.
Proof. reflexivity. Qed.
End FileSysSpec.
