(* ===== verification/UnixFS.v ===== *)
(** * The file system of the user-program kernel (filesys.h and openfile.h with
    FILESYS_STUB; the file routines of machine/sysdep.cc)

    In the build that runs user programs, files are UNIX files: [OpenFile] and
    [FileSystem] forward to open, read, write, lseek and unlink.  The host is
    modelled as inodes with byte contents, a name table and the names that open
    refuses (a directory, a name in a directory that does not exist or may not
    be written).  A file of the name table can be opened for reading and writing,
    and there are always free descriptors. *)

From S2P Require Import Prelude NList Bitmap Machine Interrupt Disk FileHdr OpenFile Directory FileSys.

(** ** The host *)

Module Unix.

Record Unix := mkUnix {
  inodes : gmap Z (list Z);
  names : gmap (list Z) Z;
  next_inode : Z;
  refused : gset (list Z);
}.

Definition empty : Unix := mkUnix ∅ ∅ 0 ∅.

(** The bytes of an open file. *)
Definition contents (u : Unix) (fd : Z) : list Z := default [] (inodes u !! fd).
Definition with_contents (u : Unix) (fd : Z) (bs : list Z) : Unix :=
  mkUnix (<[fd := bs]> (inodes u)) (names u) (next_inode u) (refused u).

(** A file name is the C string in front of the first NUL. *)
Definition cname (name : list Z) : list Z := Directory.until_nul name.

(** [open(name, O_RDWR|O_CREAT|O_TRUNC, 0666)]; -1 when the host refuses. *)
Definition open_create (u : Unix) (name : list Z) : Z * Unix :=
  if decide (cname name ∈ refused u) then (-1, u)
  else
    match names u !! cname name with
    | Some ino => (ino, with_contents u ino [])
    | None =>
        let ino := next_inode u in
        (ino, mkUnix (<[ino := []]> (inodes u)) (<[cname name := ino]> (names u)) (ino + 1) (refused u))
    end.

Definition OpenForWrite (u : Unix) (name : list Z) : res (Z * Unix) :=
  let '(fd, u') := open_create u name in ASSERT (fd >=? 0);; Ok (fd, u').

(** [open(name, O_RDWR, 0)]; -1 when there is no such file. *)
Definition OpenForReadWrite (u : Unix) (name : list Z) (crashOnError : bool) : res Z :=
  let fd := default (-1) (names u !! cname name) in
  ASSERT (negb crashOnError || (fd >=? 0));; Ok fd.

(** [lseek(fd, offset, 0)] *)
Definition Lseek (offset : Z) : res Z := ASSERT (offset >=? 0);; Ok offset.

(** [read] at an offset: the result and the bytes; a negative count is
    refused. *)
Definition ReadPartial (u : Unix) (fd offset nBytes : Z) : Z * list Z :=
  if nBytes <? 0 then (-1, [])
  else
    let bs := take (Z.to_nat nBytes) (drop (Z.to_nat offset) (contents u fd)) in
    (Z.of_nat (length bs), bs).

(** A write into the bytes of a file; a gap is filled with zeros. *)
Definition splice (old : list Z) (offset : nat) (bs : list Z) : list Z :=
  take offset (old ++ replicate offset 0) ++ bs ++ drop (offset + length bs) old.

(** [write] at an offset of the first [nBytes] bytes of the buffer. *)
Definition WriteFile (u : Unix) (fd offset : Z) (buffer : list Z) (nBytes : Z) : res Unix :=
  if nBytes <? 0 then ASSERT (-1 =? nBytes);; Ok u
  else
    bs ← slice buffer 0 nBytes;
    Ok (if nBytes =? 0 then u
        else with_contents u fd (splice (contents u fd) (Z.to_nat offset) bs)).

Definition Unlink (u : Unix) (name : list Z) : bool * Unix :=
  match names u !! cname name with
  | Some _ => (false, mkUnix (inodes u) (delete (cname name) (names u)) (next_inode u) (refused u))
  | None => (true, u)
  end.

(** The names lead to inodes that exist, and none of them is refused. *)
Record wf (u : Unix) : Prop := mkWf {
  wf_names : map_Forall (λ _ ino, 0 ≤ ino ∧ is_Some (inodes u !! ino)) (names u);
  wf_next : map_Forall (λ ino _, ino < next_inode u) (inodes u);
  wf_next0 : 0 ≤ next_inode u;
  wf_refused : ∀ name, name ∈ refused u → names u !! name = None;
}.

Lemma empty_wf : wf empty.
Proof. split; [apply map_Forall_empty..|done|done]. Qed.

Lemma with_contents_wf u fd bs : wf u → is_Some (inodes u !! fd) → wf (with_contents u fd bs).
Proof.
  intros [Hn Hx H0 Hr] [old Hfd]. split; simpl; [|apply map_Forall_insert_2; [by eapply Hx|done]|done|done].
  intros name ino Hin. destruct (Hn name ino Hin) as [? ?]. split; [done|].
  apply lookup_insert_is_Some'. by right.
Qed.

Lemma contents_with u fd fd' bs :
  contents (with_contents u fd bs) fd' = if bool_decide (fd' = fd) then bs else contents u fd'.
Proof.
  unfold contents. simpl. case_bool_decide as E.
  - subst. by rewrite lookup_insert_eq.
  - by rewrite lookup_insert_ne.
Qed.

(** Creating a file leaves an empty file under that name. *)
Lemma OpenForWrite_spec u name (ino := default (next_inode u) (names u !! cname name)) :
  wf u → cname name ∉ refused u →
  ∃ u', OpenForWrite u name = Ok (ino, u') ∧ open_create u name = (ino, u') ∧ wf u' ∧ 0 ≤ ino ∧
    names u' !! cname name = Some ino ∧ contents u' ino = [] ∧ refused u' = refused u.
Proof.
  intros Hwf Hcr. pose proof Hwf as [Hn Hx H0 Hr].
  assert (0 ≤ ino) as Hino.
  { unfold ino. destruct (names u !! cname name) as [i|] eqn:E; [by apply (Hn _ _ E)|done]. }
  assert (∀ u', open_create u name = (ino, u') → OpenForWrite u name = Ok (ino, u')) as Hok.
  { intros u' E. unfold OpenForWrite. rewrite E. unfold ASSERT.
    by rewrite Z.geb_leb, (proj2 (Z.leb_le 0 ino) Hino). }
  assert (∃ u', open_create u name = (ino, u') ∧ wf u' ∧ names u' !! cname name = Some ino ∧
    contents u' ino = [] ∧ refused u' = refused u) as (u' & E & ? & ? & ? & ?).
  2:{ exists u'. split; [by apply Hok|]. done. }
  unfold open_create. rewrite decide_False by done. unfold ino. clear Hino Hok ino.
  destruct (names u !! cname name) as [i|] eqn:E; simpl; (eexists; split; [reflexivity|]).
  - split_and!; [apply with_contents_wf; [done|by apply (Hn _ _ E)]|done| |done].
    rewrite contents_with. by rewrite bool_decide_eq_true_2.
  - split_and!; [split; simpl; [| |lia|]|simpl; by rewrite lookup_insert_eq| |done].
    + apply map_Forall_insert_2.
      * split; [done|]. rewrite lookup_insert_eq. by eexists.
      * intros k i Hk. destruct (Hn k i Hk) as [? ?]. split; [done|].
        apply lookup_insert_is_Some'. by right.
    + apply map_Forall_insert_2; [lia|]. intros i bs Hi. specialize (Hx i bs Hi). simpl in Hx. lia.
    + intros k Hk. rewrite lookup_insert_ne by congruence. by apply Hr.
    + unfold contents. simpl. by rewrite lookup_insert_eq.
Qed.

(** A name that the host refuses ends the kernel. *)
Lemma OpenForWrite_refused u name :
  cname name ∈ refused u → OpenForWrite u name = Stop AssertFailed.
Proof. intros Hcr. unfold OpenForWrite, open_create. by rewrite decide_True. Qed.

Lemma length_splice old off bs :
  length (splice old off bs) = Nat.max (length old) (off + length bs)%nat.
Proof. unfold splice. rewrite !length_app, length_take, length_app, length_replicate, length_drop. lia. Qed.

Lemma splice_read old off bs :
  take (length bs) (drop off (splice old off bs)) = bs.
Proof.
  unfold splice. rewrite drop_app_length' by
    (rewrite length_take, length_app, length_replicate; lia).
  by rewrite take_app_length.
Qed.
End Unix.

(** ** OpenFile and FileSystem *)

Module StubFS.

Record OpenFile := mkOpenFile { file : Z; currentOffset : Z; type : Z }.

Definition with_offset (f : OpenFile) (p : Z) : OpenFile := mkOpenFile (file f) p (type f).

(** The one-argument constructor leaves [type] uninitialised. *)
Definition OpenFile_new (garbage_type f : Z) : OpenFile := mkOpenFile f 0 garbage_type.
Definition OpenFile_new_type (f _type : Z) : OpenFile := mkOpenFile f 0 _type.

Definition ReadAt (u : Unix.Unix) (f : OpenFile) (numBytes position : Z) : res (Z * list Z) :=
  p ← Unix.Lseek position; Ok (Unix.ReadPartial u (file f) p numBytes).

Definition WriteAt (u : Unix.Unix) (f : OpenFile) (from : list Z) (numBytes position : Z)
    : res (Z * Unix.Unix) :=
  p ← Unix.Lseek position;
  u' ← Unix.WriteFile u (file f) p from numBytes;
  Ok (numBytes, u').

Definition Read (u : Unix.Unix) (f : OpenFile) (numBytes : Z) : res (Z * list Z * OpenFile) :=
  '(numRead, bs) ← ReadAt u f numBytes (currentOffset f);
  Ok (numRead, bs, with_offset f (currentOffset f + numRead)).

Definition Write (u : Unix.Unix) (f : OpenFile) (from : list Z) (numBytes : Z)
    : res (Z * OpenFile * Unix.Unix) :=
  '(numWritten, u') ← WriteAt u f from numBytes (currentOffset f);
  Ok (numWritten, with_offset f (currentOffset f + numWritten), u').

Definition Length (u : Unix.Unix) (f : OpenFile) : Z := Z.of_nat (length (Unix.contents u (file f))).

Record FileSystem := mkFileSystem {
  file_table : list (option OpenFile);
  unix : Unix.Unix;
}.

Definition Create (fs : FileSystem) (name : list Z) (initialSize : Z) : res (bool * FileSystem) :=
  '(fileDescriptor, u) ← Unix.OpenForWrite (unix fs) name;
  Ok (if fileDescriptor =? -1 then (false, fs) else (true, mkFileSystem (file_table fs) u)).

Definition Open (garbage_type : Z) (fs : FileSystem) (name : list Z) : res (option OpenFile) :=
  fileDescriptor ← Unix.OpenForReadWrite (unix fs) name false;
  if fileDescriptor =? -1 then Ok None else Ok (Some (OpenFile_new garbage_type fileDescriptor)).

Fixpoint free_slot_from (t : list (option OpenFile)) (i : Z) (n : nat) : res Z :=
  match n with
  | O => Ok (-1)
  | S n' =>
      f ← arr_get t i;
      match f with None => Ok i | Some _ => free_slot_from t (i + 1) n' end
  end.
Definition getIdxFreeSlot (fs : FileSystem) : res Z :=
  free_slot_from (file_table fs) 2 (Z.to_nat (N_FILES_IN_TABLE - 2)).

Definition Open_type (fs : FileSystem) (name : list Z) (_type : Z) : res (Z * FileSystem) :=
  freeslot ← (if _type =? 2 then Ok 0
              else if _type =? 3 then Ok 1
              else if (_type =? 0) || (_type =? 1) then getIdxFreeSlot fs
              else Ok (-1));
  if freeslot =? -1 then Ok (-1, fs)
  else
    fileDescriptor ← Unix.OpenForReadWrite (unix fs) name false;
    if fileDescriptor =? -1 then Ok (-1, fs)
    else
      t ← arr_set (file_table fs) freeslot (Some (OpenFile_new_type fileDescriptor _type));
      Ok (freeslot, mkFileSystem t (unix fs)).

Definition Remove (fs : FileSystem) (name : list Z) : bool * FileSystem :=
  let '(failed, u) := Unix.Unlink (unix fs) name in
  (negb failed, mkFileSystem (file_table fs) u).

Definition stdin_name : list Z := [115; 116; 100; 105; 110].
Definition stdout_name : list Z := [115; 116; 100; 111; 117; 116].

Definition FileSystem_new (u : Unix.Unix) : res FileSystem :=
  let fs := mkFileSystem (replicate (Z.to_nat N_FILES_IN_TABLE) None) u in
  '(_, fs) ← Create fs stdin_name 0;
  '(_, fs) ← Create fs stdout_name 0;
  '(_, fs) ← Open_type fs stdin_name 2;
  '(_, fs) ← Open_type fs stdout_name 3;
  Ok fs.

(** The table has its size, and the open files exist on the host. *)
Record wf (fs : FileSystem) : Prop := mkWf {
  wf_unix : Unix.wf (unix fs);
  wf_table : length (file_table fs) = Z.to_nat N_FILES_IN_TABLE;
  wf_open : ∀ i f, file_table fs !! i = Some (Some f) →
    is_Some (Unix.inodes (unix fs) !! file f) ∧ 0 ≤ currentOffset f;
}.

(** Reading: the bytes from the position on, as many as there are. *)
Lemma stub_ReadAt_spec u f n pos :
  0 ≤ n → 0 ≤ pos →
  ReadAt u f n pos =
    (let bs := take (Z.to_nat n) (drop (Z.to_nat pos) (Unix.contents u (file f))) in
     Ok (Z.of_nat (length bs), bs)).
Proof.
  intros Hn Hp. unfold ReadAt, Unix.Lseek, ASSERT, Unix.ReadPartial.
  rewrite Z.geb_leb, (proj2 (Z.leb_le 0 pos) Hp). simpl_res.
  by rewrite (proj2 (Z.ltb_ge n 0) Hn).
Qed.

(** Writing inside or behind the file. *)
Lemma stub_WriteAt_spec u f from n pos :
  0 < n ≤ Z.of_nat (length from) → 0 ≤ pos →
  WriteAt u f from n pos =
    Ok (n, Unix.with_contents u (file f)
             (Unix.splice (Unix.contents u (file f)) (Z.to_nat pos) (take (Z.to_nat n) from))).
Proof.
  intros Hn Hp. unfold WriteAt, Unix.Lseek, ASSERT, Unix.WriteFile.
  rewrite Z.geb_leb, (proj2 (Z.leb_le 0 pos) Hp). simpl_res.
  rewrite (proj2 (Z.ltb_ge n 0)) by lia. rewrite slice_in by lia. simpl_res.
  rewrite (proj2 (Z.eqb_neq n 0)) by lia. by change (Z.to_nat 0) with 0%nat; rewrite drop_0.
Qed.

Lemma stub_free_slot_spec t i n :
  0 ≤ i → i + Z.of_nat n ≤ Z.of_nat (length t) →
  ∃ r, free_slot_from t i n = Ok r ∧
    ((r = -1 ∧ ∀ j, i ≤ j < i + Z.of_nat n → ∃ f, t !! Z.to_nat j = Some (Some f)) ∨
     (i ≤ r < i + Z.of_nat n ∧ t !! Z.to_nat r = Some None)).
Proof.
  revert i. induction n as [|n IH]; intros i Hi Hl; cbn [free_slot_from].
  - exists (-1). split; [done|]. left. split; [done|]. intros; lia.
  - destruct (arr_get_total t i) as (f & -> & Hf); [lia|]. simpl_res.
    destruct f as [f|]; [|exists i; split; [done|]; right; split; [lia|done]].
    destruct (IH (i + 1)) as (r & -> & Hr); [lia..|]. exists r. split; [done|].
    destruct Hr as [[-> Hall]|[Hr Hn]]; [left|right; split; [lia|done]].
    split; [done|]. intros j Hj. destruct (decide (j = i)) as [->|]; [by exists f|].
    apply Hall. lia.
Qed.

Lemma stub_getIdxFreeSlot_spec fs :
  wf fs → ∃ r, getIdxFreeSlot fs = Ok r ∧
    ((r = -1 ∧ ∀ j, 2 ≤ j < N_FILES_IN_TABLE → ∃ f, file_table fs !! Z.to_nat j = Some (Some f)) ∨
     (2 ≤ r < N_FILES_IN_TABLE ∧ file_table fs !! Z.to_nat r = Some None)).
Proof.
  intros Hwf. apply stub_free_slot_spec; [lia|]. rewrite (wf_table fs Hwf). done.
Qed.
End StubFS.
