(* ===== verification/FsTest.v ===== *)
(** * The file system tests (filesys/fstest.cc; Statistics::Print of
    machine/stats.cc)

    [Copy] brings a UNIX file onto the NachOS disk, [Print] shows a file of the
    disk, and [PerformanceTest] writes a file in small chunks.  A routine
    returns the characters it printed and the device.

    [fresh] and the [garbage] parameters are uninitialised memory, as in
    FileSys; [stats_of] finds the statistics of the machine in the state of the
    device. *)

From S2P Require Import Prelude NList Bitmap Machine Interrupt Disk FileHdr OpenFile Directory FileSys UnixFS.

Module FsTest.
Import OpenFile FileSys.

Definition TransferSize : Z := 10.

(** ** Streams of the C library *)

Record FILE := mkFILE { stream : list Z; offset : Z }.

(** [fopen(name, "r")]; [None] is a NULL pointer. *)
Definition fopen (u : Unix.Unix) (name : list Z) : option FILE :=
  (λ ino, mkFILE (Unix.contents u ino) 0) <$> Unix.names u !! Unix.cname name.

(** [fseek(fp, pos, whence)], with [whence] 0 (the start) or 2 (the end). *)
Definition fseek (fp : FILE) (pos whence : Z) : FILE :=
  mkFILE (stream fp) (if whence =? 2 then Z.of_nat (length (stream fp)) + pos else pos).
Definition ftell (fp : FILE) : Z := offset fp.

(** [fread(buffer, sizeof(char), n, fp)]: the bytes that were read. *)
Definition fread (fp : FILE) (n : Z) : list Z * FILE :=
  let bs := take (Z.to_nat n) (drop (Z.to_nat (offset fp)) (stream fp)) in
  (bs, mkFILE (stream fp) (offset fp + Z.of_nat (length bs))).

(** ** Messages *)

(** [%s] of [printf]. *)
Definition text (s : list Z) : list Z := Directory.until_nul s.

(** [Statistics::Print] *)
Definition Statistics_Print (s : Statistics) : list Z :=
  chars "Ticks: total " ++ decimal (totalTicks s) ++ chars ", idle " ++ decimal (idleTicks s) ++
  chars ", system " ++ decimal (systemTicks s) ++ chars ", user " ++ decimal (userTicks s) ++ newline ++
  chars "Disk I/O: reads " ++ decimal (numDiskReads s) ++
  chars ", writes " ++ decimal (numDiskWrites s) ++ newline ++
  chars "Console I/O: reads " ++ decimal (numConsoleCharsRead s) ++
  chars ", writes " ++ decimal (numConsoleCharsWritten s) ++ newline ++
  chars "Paging: faults " ++ decimal (numPageFaults s) ++ newline ++
  chars "Network I/O: packets received " ++ decimal (numPacketsRecvd s) ++
  chars ", sent " ++ decimal (numPacketsSent s) ++ newline.

Definition FileName : list Z := chars "TestFile".
Definition Contents : list Z := chars "1234567890".
Definition ContentSize : Z := Z.of_nat (length Contents).
Definition FileSize : Z := ContentSize * 5000.

Section with_disk.
Context {D : Type} `{SectorDevice D}.
Context (fresh : Z → list Z).
Context (garbage_map : list Z) (garbage_dir : list Directory.DirectoryEntry).
Context (garbage_hdr : FileHdr.FileHeader).
Context (stats_of : D → Statistics).

(** ** Copy *)

(** [while ((amountRead = fread(buffer, sizeof(char), TransferSize, fp)) > 0)
      openFile->Write(buffer, amountRead);] *)
Fixpoint copy_loop (fuel : nat) (fp : FILE) (openFile : OpenFile) (buffer : list Z) (dev : D) : res D :=
  match fuel with
  | O => Stop OutOfFuel
  | S fuel' =>
      let '(bs, fp) := fread fp TransferSize in
      let amountRead := Z.of_nat (length bs) in
      if amountRead >? 0 then
        buffer ← overlay buffer 0 bs;
        '(_, openFile, dev) ← Write fresh openFile buffer amountRead dev;
        copy_loop fuel' fp openFile buffer dev
      else Ok dev
  end.

Definition Copy (u : Unix.Unix) (fs : FileSystem) (from to : list Z) (dev : D) : res (list Z * D) :=
  match fopen u from with
  | None => Ok (chars "Copy: couldn't open input file " ++ text from ++ newline, dev)
  | Some fp =>
      let fp := fseek fp 0 2 in
      let fileLength := s32 (ftell fp) in
      let fp := fseek fp 0 0 in
      '(made, dev) ← Create fresh garbage_map garbage_dir garbage_hdr fs to fileLength dev;
      if negb made then Ok (chars "Copy: couldn't create output file " ++ text to ++ newline, dev)
      else
        '(openFile, dev) ← Open garbage_dir fs to dev;
        match openFile with
        | None => Stop AssertFailed
        | Some openFile =>
            dev ← copy_loop (S (length (stream fp))) fp openFile (fresh TransferSize) dev;
            Ok ([], dev)
        end
  end.

(** ** Print *)

Definition print_char (buffer : list Z) (i : Z) (out : list Z) : res (list Z) :=
  c ← arr_get buffer i; Ok (out ++ [c]).

Fixpoint print_loop (fuel : nat) (openFile : OpenFile) (buffer : list Z) (dev : D) (out : list Z)
    : res (list Z * D) :=
  match fuel with
  | O => Stop OutOfFuel
  | S fuel' =>
      '(bs, openFile, dev) ← Read openFile TransferSize dev;
      let amountRead := Z.of_nat (length bs) in
      if amountRead >? 0 then
        buffer ← overlay buffer 0 bs;
        out ← for_loop (Z.to_nat amountRead) 0 (print_char buffer) out;
        print_loop fuel' openFile buffer dev out
      else Ok (out, dev)
  end.

Definition Print (fs : FileSystem) (name : list Z) (dev : D) : res (list Z * D) :=
  '(openFile, dev) ← Open garbage_dir fs name dev;
  match openFile with
  | None => Ok (chars "Print: unable to open file " ++ text name ++ newline, dev)
  | Some openFile => print_loop (S (Z.to_nat (Length openFile))) openFile (fresh TransferSize) dev []
  end.

(** ** PerformanceTest *)

Definition complaint (what : String.string) : list Z :=
  chars "Perf test: " ++ chars what ++ chars " " ++ FileName ++ newline.
Definition announcement (what : String.string) : list Z :=
  chars "Sequential " ++ chars what ++ chars " of " ++ decimal FileSize ++ chars " byte file, in " ++
  decimal ContentSize ++ chars " byte chunks" ++ newline.

(** [for (i = 0; i < FileSize; i += ContentSize)], 5000 times. *)
Fixpoint write_chunks (n : nat) (openFile : OpenFile) (dev : D) (out : list Z) : res (list Z * D) :=
  match n with
  | O => Ok (out, dev)
  | S n' =>
      '(numBytes, openFile, dev) ← Write fresh openFile Contents ContentSize dev;
      if numBytes <? 10 then Ok (out ++ complaint "unable to write", dev)
      else write_chunks n' openFile dev out
  end.

Definition FileWrite (fs : FileSystem) (dev : D) : res (list Z * D) :=
  let out := announcement "write" in
  '(made, dev) ← Create fresh garbage_map garbage_dir garbage_hdr fs FileName 0 dev;
  if negb made then Ok (out ++ complaint "can't create", dev)
  else
    '(openFile, dev) ← Open garbage_dir fs FileName dev;
    match openFile with
    | None => Ok (out ++ complaint "unable to open", dev)
    | Some openFile => write_chunks (Z.to_nat (FileSize / ContentSize)) openFile dev out
    end.

Fixpoint read_chunks (n : nat) (openFile : OpenFile) (buffer : list Z) (dev : D) (out : list Z)
    : res (list Z * D) :=
  match n with
  | O => Ok (out, dev)
  | S n' =>
      '(bs, openFile, dev) ← Read openFile ContentSize dev;
      buffer ← overlay buffer 0 bs;
      if (Z.of_nat (length bs) <? 10) ||
         negb (Directory.strneq (Z.to_nat ContentSize) buffer Contents)
      then Ok (out ++ complaint "unable to read", dev)
      else read_chunks n' openFile buffer dev out
  end.

Definition FileRead (fs : FileSystem) (dev : D) : res (list Z * D) :=
  let buffer := fresh ContentSize in
  let out := announcement "read" in
  '(openFile, dev) ← Open garbage_dir fs FileName dev;
  match openFile with
  | None => Ok (out ++ complaint "unable to open file", dev)
  | Some openFile => read_chunks (Z.to_nat (FileSize / ContentSize)) openFile buffer dev out
  end.

Definition PerformanceTest (fs : FileSystem) (dev : D) : res (list Z * D) :=
  let out := chars "Starting file system performance test:" ++ newline ++ Statistics_Print (stats_of dev) in
  '(written, dev) ← FileWrite fs dev;
  '(read, dev) ← FileRead fs dev;
  '(removed, dev) ← FileSys.Remove fresh garbage_map garbage_dir fs FileName dev;
  if negb removed then Ok (out ++ written ++ read ++ complaint "unable to remove", dev)
  else Ok (out ++ written ++ read ++ Statistics_Print (stats_of dev), dev).
End with_disk.

(** ** The file system under these routines *)

Section files.
Context {D : Type} `{SectorDeviceLaws D}.
Context (fresh : Z → list Z) (Hfresh : ∀ n, length (fresh n) = Z.to_nat n ∧ Forall is_u8 (fresh n)).
Context (garbage_map : list Z) (garbage_dir : list Directory.DirectoryEntry).
Context (garbage_hdr : FileHdr.FileHeader).
Context (Hgm : length garbage_map = 32%nat ∧ Forall is_u32 garbage_map).
Context (Hgh : FileHdr.wf garbage_hdr).
Context (fs : FileSystem) (mf df : OpenFile).
Implicit Types dev : D.

(** A free slot in the table of open files. *)
Definition has_slot : Prop :=
  length (file_table fs) = Z.to_nat N_FILES_IN_TABLE ∧
  ∃ j, 2 ≤ j < N_FILES_IN_TABLE ∧ file_table fs !! Z.to_nat j = Some None.

Lemma getIdxFreeSlot_some : has_slot → ∃ j, getIdxFreeSlot fs = Ok j ∧ 2 ≤ j.
Proof using All.
  intros [Hlen (j & Hj & Hfree)]. unfold getIdxFreeSlot. change N_FILES_IN_TABLE with 100 in *.
  destruct (free_slot_spec (file_table fs) 2 (Z.to_nat (100 - 2)))
    as [(i & E & Hi & _)|[_ Hfull]]; [lia|lia|exists i; split; [done|lia]|].
  destruct (Hfull j) as [f Hf]; [lia|]. congruence.
Qed.

Lemma Open_spec dev bm d name :
  fs_ok fs mf df dev bm d → has_slot →
  ∃ dev', Open garbage_dir fs name dev
          = Ok ((λ s, mkOpenFile (FileHdr.header_of (sd_sector dev s)) 0 1)
                  <$> Directory.files d !! Directory.key name, dev') ∧
    unchanged fs mf df dev bm d dev'.
Proof using All.
  intros Hfs Hslot. destruct (getIdxFreeSlot_some Hslot) as (j & Ej & Hj).
  unfold Open. rewrite Ej. simpl_res. rewrite (proj2 (Z.eqb_neq j (-1))) by lia.
  destruct (fs_d _ _ _ _ _ _ Hfs) as [Hd Hts].
  destruct (fetch_directory_spec fresh Hfresh garbage_map garbage_dir Hgm fs mf df dev bm d Hfs)
    as (dev1 & -> & Hok1 & Hs1). simpl_res. rewrite Directory.Find_spec by done. simpl_res.
  destruct (Directory.files d !! Directory.key name) as [s|] eqn:Ek; simpl default; simpl fmap.
  - assert (is_sector s) as Hsec.
    { eapply fs_owned_sector; [exact Hfs|]. eapply owned_file; [done|by left]. }
    destruct (Z.geb_spec s 0); [|unfold is_sector in *; lia].
    destruct (sd_read_spec dev1 s Hok1 Hsec) as (dev2 & E2 & Hok2 & Hs2).
    unfold OpenFile_new, FileHdr.FetchFrom. rewrite E2. simpl_res. rewrite Hs1 by done.
    assert (same_disk dev dev2) as Hs12 by (intros k Hk; by rewrite Hs2, Hs1).
    eexists. split; [reflexivity|]. split; [done|]. by eapply fs_ok_same.
  - eexists. split; [reflexivity|]. split; [done|]. by eapply fs_ok_same.
Qed.

(** Writing into the sectors of one file keeps the disk consistent. *)
Lemma fs_ok_write dev dev' bm d k s :
  fs_ok fs mf df dev bm d → Directory.files d !! k = Some s → sd_ok dev' →
  (∀ x, is_sector x → x ∉ FileHdr.used_sectors (FileHdr.header_of (sd_sector dev s)) →
        sd_sector dev' x = sd_sector dev x) →
  fs_ok fs mf df dev' bm d ∧ sd_sector dev' s = sd_sector dev s ∧
  (∀ k' s' x, k' ≠ k → Directory.files d !! k' = Some s' → x ∈ extent dev s' →
              sd_sector dev' x = sd_sector dev x).
Proof using All.
  intros Hfs Hk Hok' Hout. pose proof (fs_nodup _ _ _ _ _ _ Hfs) as Hnd.
  rewrite (owned_delete _ _ _ _ _ _ Hk) in Hnd. apply NoDup_app in Hnd as (Hext & Hdis & _).
  apply NoDup_cons in Hext as [Hself _].
  assert (∀ x, x ∈ owned (hdr mf) (hdr df) dev (Directory.files d) →
    x ∉ FileHdr.used_sectors (FileHdr.header_of (sd_sector dev s)) →
    sd_sector dev' x = sd_sector dev x) as Hown.
  { intros x Hx. apply Hout. by eapply fs_owned_sector. }
  assert (∀ x, x ∈ owned (hdr mf) (hdr df) dev (delete k (Directory.files d)) →
    sd_sector dev' x = sd_sector dev x) as Hrest.
  { intros x Hx. apply Hown.
    - rewrite (owned_delete _ _ _ _ _ _ Hk). apply elem_of_app. by right.
    - intros Hin. apply (Hdis x); [by right|done]. }
  assert (∀ k' s', Directory.files d !! k' = Some s' → sd_sector dev' s' = sd_sector dev s') as Hheads.
  { intros k' s' Hk'. destruct (decide (k' = k)) as [->|Hne].
    - assert (s' = s) as -> by congruence. apply Hown; [|done]. eapply owned_file; [exact Hk|by left].
    - apply Hrest. eapply (owned_file _ _ _ _ k' s'); [by rewrite lookup_delete_ne|by left]. }
  split; [|split; [by apply (Hheads k)|]].
  2:{ intros k' s' x Hne Hk' Hx. apply Hrest. eapply (owned_file _ _ _ _ k' s'); [|done].
      by rewrite lookup_delete_ne. }
  destruct Hfs as [H1 H2 H3 Hh0 Hh1 [H4 H4'] [H5 H5'] H6 H7 H8 H9 H10 H11 H12].
  split; try assumption; try (split; assumption).
  - rewrite Hrest; [done|]. unfold owned. set_solver.
  - rewrite Hrest; [done|]. unfold owned. set_solver.
  - rewrite (contents_agree _ dev dev'); [done|]. intros x Hx. by apply Hrest, owned_map.
  - rewrite (contents_agree _ dev dev'); [done|]. intros x Hx. by apply Hrest, owned_dir.
  - intros k' s' Hk'. rewrite (Hheads k' s') by done. by apply (H10 k').
  - by rewrite (owned_agree _ _ dev dev').
  - by rewrite (owned_agree _ _ dev dev').
Qed.
End files.

(** ** The loops *)

Lemma overlay_start {A} (buf bs buf' : list A) :
  overlay buf 0 bs = Ok buf' → buf' = bs ++ drop (length bs) buf.
Proof. unfold overlay. case_bool_decide; [|done]. by intros [= <-]. Qed.

Section loops.
Context {D : Type} `{SectorDeviceLaws D}.
Context (h : FileHdr.FileHeader) (Hf : file_ok h).
Implicit Types dev : D.

Lemma file_small : 0 ≤ FileHdr.numBytes h ≤ 64512.
Proof using Hf.
  pose proof (fo_bytes h Hf). pose proof (fo_sectors h Hf). pose proof (fo_array h Hf) as Ha.
  change (Z.to_nat NumDirect) with 126%nat in Ha. unfold SectorSize in *. lia.
Qed.

Lemma print_chars buffer out : ∀ n i, (Z.to_nat i + n ≤ length buffer)%nat → 0 ≤ i →
  for_loop n i (print_char buffer) out = Ok (out ++ take n (drop (Z.to_nat i) buffer)).
Proof using All.
  intros n. revert out. induction n as [|n IH]; intros out i Hl Hi; cbn [for_loop].
  - by rewrite take_0, app_nil_r.
  - destruct (arr_get_total buffer i) as (c & Ec & Hc); [lia|].
    assert (print_char buffer i out = Ok (out ++ [c])) as -> by (unfold print_char; by rewrite Ec).
    simpl_res.
    rewrite IH by lia. rewrite (drop_S _ _ _ Hc). simpl. rewrite <- app_assoc. simpl.
    do 4 f_equal. f_equal. lia.
Qed.

(** [Print] shows the rest of the file. *)
Lemma print_loop_spec : ∀ fuel p ty dev buffer out,
  sd_ok dev → 0 ≤ p ≤ FileHdr.numBytes h → length buffer = Z.to_nat TransferSize →
  FileHdr.numBytes h - p < Z.of_nat fuel →
  ∃ dev', print_loop fuel (mkOpenFile h p ty) buffer dev out
          = Ok (out ++ drop (Z.to_nat p) (contents dev h), dev') ∧ sd_ok dev' ∧ same_disk dev dev'.
Proof using All.
  pose proof file_small as Hsmall.
  induction fuel as [|fuel IH]; intros p ty dev buffer out Hok Hp Hb Hfuel; [lia|]. cbn [print_loop].
  unfold Read. cbn [hdr seekPosition].
  destruct (ReadAt_spec h Hf dev TransferSize p) as (dev1 & -> & Hok1 & Hs1);
    [done|lia|unfold is_s32, two31, TransferSize; lia|].
  simpl_res. pose proof (length_contents h Hf dev Hok) as Hlc.
  set (bs := take (Z.to_nat TransferSize) (drop (Z.to_nat p) (contents dev h))).
  assert (length bs = Z.to_nat (Z.min TransferSize (FileHdr.numBytes h - p))) as Hlb.
  { unfold bs, TransferSize. rewrite length_take, length_drop. lia. }
  unfold TransferSize in Hlb.
  destruct (Z.gtb_spec (Z.of_nat (length bs)) 0).
  - destruct (overlay_in buffer 0 bs) as (buffer' & Eb & Hlb' & Hlk);
      [lia|unfold TransferSize in Hb; lia|].
    rewrite Eb. simpl_res. rewrite print_chars by (unfold TransferSize in Hb; lia). simpl_res.
    change (drop (Z.to_nat 0) buffer') with buffer'.
    assert (take (Z.to_nat (Z.of_nat (length bs))) buffer' = bs) as ->.
    { rewrite Nat2Z.id. apply overlay_start in Eb. rewrite Eb. by rewrite take_app_length. }
    unfold Seek. cbn [hdr seekPosition type].
    destruct (IH (p + Z.of_nat (length bs)) ty dev1 buffer' (out ++ bs)) as (dev' & E & Hok' & Hs');
      [done|lia|congruence|lia|].
    exists dev'. rewrite E. split; [|split; [done|intros x Hx; by rewrite Hs', Hs1]].
    do 2 f_equal. rewrite <- app_assoc. f_equal.
    unfold contents. rewrite (same_disk_flat h Hf dev dev1) by done. fold (contents dev h).
    rewrite <- (take_drop (Z.to_nat TransferSize) (drop (Z.to_nat p) (contents dev h))) at 1.
    fold bs. f_equal. rewrite drop_drop.
    destruct (decide (TransferSize ≤ FileHdr.numBytes h - p)).
    + f_equal. unfold TransferSize in *. lia.
    + rewrite !drop_ge by (unfold TransferSize in *; lia). done.
  - exists dev1. split; [|done]. rewrite drop_ge by lia. by rewrite app_nil_r.
Qed.

Context (fresh : Z → list Z).
Context (Hfresh : ∀ n, length (fresh n) = Z.to_nat n ∧ Forall is_u8 (fresh n)).

(** [Copy] makes the rest of the file the rest of the stream. *)
Lemma copy_loop_spec data : ∀ fuel p ty dev buffer,
  sd_ok dev → 0 ≤ p ≤ FileHdr.numBytes h → length buffer = Z.to_nat TransferSize →
  Forall is_u8 buffer → Forall is_u8 data → length data = Z.to_nat (FileHdr.numBytes h) →
  FileHdr.numBytes h - p < Z.of_nat fuel →
  take (Z.to_nat p) (contents dev h) = take (Z.to_nat p) data →
  ∃ dev', copy_loop fresh fuel (mkFILE data p) (mkOpenFile h p ty) buffer dev = Ok dev' ∧ sd_ok dev' ∧
    contents dev' h = data ∧
    ∀ x, is_sector x → x ∉ FileHdr.used_sectors h → sd_sector dev' x = sd_sector dev x.
Proof using All.
  pose proof file_small as Hsmall.
  induction fuel as [|fuel IH]; intros p ty dev buffer Hok Hp Hb Hbu Hdu Hl Hfuel Hpre; [lia|].
  cbn [copy_loop]. unfold fread. cbn [stream offset].
  set (bs := take (Z.to_nat TransferSize) (drop (Z.to_nat p) data)).
  assert (length bs = Z.to_nat (Z.min TransferSize (FileHdr.numBytes h - p))) as Hlb.
  { unfold bs, TransferSize. rewrite length_take, length_drop. lia. }
  unfold TransferSize in Hlb. pose proof (length_contents h Hf dev Hok) as Hlc.
  destruct (Z.gtb_spec (Z.of_nat (length bs)) 0).
  - destruct (overlay_in buffer 0 bs) as (buffer' & Eb & Hlb' & Hlk);
      [lia|unfold TransferSize in Hb; lia|].
    rewrite Eb. simpl_res. unfold Write. cbn [hdr seekPosition].
    assert (Forall is_u8 bs) as Hbs by (by apply Forall_take, Forall_drop).
    assert (Forall is_u8 buffer') as Hb' by (eapply Forall_overlay; [exact Hbu|exact Hbs|exact Eb]).
    remember (Z.of_nat (length bs)) as n eqn:Hn.
    destruct (WriteAt_spec h Hf fresh Hfresh dev buffer' n p) as (dev1 & E & Hok1 & Hc1 & Hout1);
      [done|lia|unfold is_s32, two31; lia|unfold TransferSize in *; lia|done|].
    assert (transferred h n p = n) as Ht by (unfold transferred; lia). rewrite Ht in *.
    rewrite E. simpl_res. unfold Seek. cbn [hdr seekPosition type].
    apply overlay_start in Eb.
    destruct (IH (p + n) ty dev1 buffer') as (dev' & -> & Hok' & Hc' & Hout'); try done; try lia.
    { rewrite Hc1. unfold spliced. rewrite Hpre, Eb.
      rewrite (take_app_length' bs) by lia. rewrite app_assoc.
      rewrite take_app_length' by (rewrite length_app, length_take; lia).
      unfold bs. rewrite take_take_drop. unfold TransferSize in *.
      destruct (decide (10 ≤ FileHdr.numBytes h - p)); [f_equal; lia|by rewrite !take_ge by lia]. }
    exists dev'. split; [done|]. split; [done|]. split; [done|].
    intros x Hx Hout. by rewrite Hout', Hout1.
  - exists dev. split_and!; try done.
    assert (p = FileHdr.numBytes h) as -> by lia.
    rewrite !take_ge in Hpre by lia. done.
Qed.
End loops.
End FsTest.

(** ** The properties *)

Module FsTestSpec.
Import OpenFile FileSys FileSysSpec FsTest.

Section spec.
Context {D : Type} `{SectorDeviceLaws D}.
Context (fresh : Z → list Z) (garbage_map : list Z) (garbage_dir : list Directory.DirectoryEntry).
Context (garbage_hdr : FileHdr.FileHeader).
Context (Hmem : memory_ok fresh garbage_map garbage_dir garbage_hdr).
Context (fs : FileSystem) (mf df : OpenFile) (Hslot : has_slot fs).
Implicit Types dev : D.

(** The other files keep their sectors. *)
Definition others_kept dev d k dev' : Prop :=
  ∀ k' s x, k' ≠ k → Directory.files d !! k' = Some s → x ∈ extent dev s →
    sd_sector dev' x = sd_sector dev x.

(** [Print] of a file of the disk. *)
Lemma Print_spec dev bm d name s :
  fs_ok fs mf df dev bm d → Directory.files d !! Directory.key name = Some s →
  ∃ dev', Print fresh garbage_dir fs name dev
          = Ok (contents dev (FileHdr.header_of (sd_sector dev s)), dev') ∧ same_disk dev dev'.
Proof using All.
  intros Hfs Hk. destruct Hmem as [M1 M2 _ M4].
  destruct (Open_spec fresh M1 garbage_map garbage_dir garbage_hdr M2 M4 fs mf df dev bm d name Hfs Hslot)
    as (dev1 & E & Hs1 & Hfs1).
  unfold Print. rewrite E, Hk. simpl fmap. simpl_res. unfold Length, FileHdr.FileLength. cbn [hdr].
  set (h := FileHdr.header_of (sd_sector dev s)).
  assert (file_ok h) as Hf by exact (fs_headers _ _ _ _ _ _ Hfs _ _ Hk).
  pose proof (file_small h Hf).
  destruct (print_loop_spec h Hf (S (Z.to_nat (FileHdr.numBytes h))) 0 1 dev1 (fresh TransferSize) [])
    as (dev2 & -> & _ & Hs2); [apply Hfs1|lia|apply M1|lia|].
  exists dev2. split; [|intros x Hx; by rewrite Hs2, Hs1].
  do 2 f_equal. change (drop (Z.to_nat 0) (contents dev1 h)) with (contents dev1 h). simpl.
  unfold contents. by rewrite (same_disk_flat h Hf dev dev1).
Qed.

(** The last part of [Copy]: the file that was made takes the bytes. *)
Lemma copy_into dev bm d k r data :
  fs_ok fs mf df dev bm d → Directory.files d !! k = Some r →
  FileHdr.FileLength (FileHdr.header_of (sd_sector dev r)) = Z.of_nat (length data) →
  Forall is_u8 data →
  ∃ dev', copy_loop fresh (S (length data)) (mkFILE data 0)
            (mkOpenFile (FileHdr.header_of (sd_sector dev r)) 0 1) (fresh TransferSize) dev = Ok dev' ∧
    fs_ok fs mf df dev' bm d ∧
    contents dev' (FileHdr.header_of (sd_sector dev' r)) = data ∧ others_kept dev d k dev'.
Proof using All.
  intros Hfs Hk Hlen Hdata. destruct Hmem as [M1 M2 _ M4]. unfold FileHdr.FileLength in Hlen.
  set (h := FileHdr.header_of (sd_sector dev r)) in *.
  assert (file_ok h) as Hf by exact (fs_headers _ _ _ _ _ _ Hfs _ _ Hk).
  destruct (copy_loop_spec h Hf fresh M1 data (S (length data)) 0 1 dev (fresh TransferSize))
    as (dev' & E & Hok' & Hc & Hout); [apply Hfs|lia|apply M1|apply M1|done|lia|lia|done|].
  destruct (fs_ok_write fresh M1 garbage_map garbage_dir garbage_hdr M2 M4 fs mf df dev dev' bm d k r)
    as (Hfs' & Hr & Hothers); [done|done|done|done|].
  exists dev'. rewrite Hr. done.
Qed.

(** A file for which there is room has a size that fits into an int. *)
Lemma room_int (dev : D) bm d n : fs_ok fs mf df dev bm d → 0 ≤ n → room bm d n → is_s32 n.
Proof using Type.
  intros _ Hn [_ Hroom]. pose proof (divRoundUp_spec n SectorSize Hn ltac:(done)) as Hd.
  change SectorSize with 512 in *. change NumSectors with 1024 in *. unfold is_s32, two31. lia.
Qed.

(** C37. Copying a UNIX file onto a consistent disk that has room for it, and
    printing the copy, shows exactly the bytes of the UNIX file: ten at a
    time, whatever the sectors and the buffers held before, and both loops
    end.  The disk stays consistent, and the headers and data of all other
    files stay as they were.  Room means: a free slot in the table of open
    files, a free entry in the directory, and enough free sectors.  The UNIX
    file must not have more than MaxFileSize = 64512 bytes; a larger one, with
    room for it, makes Create write past the header's table of sectors. *)
Theorem copy_then_print u from to ino dev bm d :
  let data := Unix.contents u ino in
  Unix.names u !! Unix.cname from = Some ino → Forall is_u8 data →
  fs_ok fs mf df dev bm d → Forall is_u8 to →
  Directory.files d !! Directory.key to = None → room bm d (Z.of_nat (length data)) →
  if bool_decide (MaxFileSize < Z.of_nat (length data))
  then Copy fresh garbage_map garbage_dir garbage_hdr u fs from to dev = Stop Undefined else
  ∃ dev1 dev2 bm' d', Copy fresh garbage_map garbage_dir garbage_hdr u fs from to dev = Ok ([], dev1) ∧
    fs_ok fs mf df dev1 bm' d' ∧
    Print fresh garbage_dir fs to dev1 = Ok (data, dev2) ∧ same_disk dev1 dev2 ∧
    others_kept dev d (Directory.key to) dev1.
Proof using All.
  intros data Hname Hdata Hfs Hto Hnew Hroom. pose proof Hmem as [M1 M2 _ M4].
  assert (is_s32 (Z.of_nat (length data))) as Hint by (apply (room_int dev bm d); [done|lia|done]).
  pose proof (Create_any fresh M1 garbage_map garbage_dir garbage_hdr M2 M4 fs mf df dev bm d to
    (Z.of_nat (length data)) Hfs ltac:(lia) Hto) as Hcr. cbv zeta in Hcr.
  case_bool_decide as Hbig.
  { destruct Hcr as [(_ & _ & E)|(Hfit & _)]; [|specialize (Hfit (conj Hnew Hroom)); lia].
    unfold Copy, fopen. rewrite Hname. simpl fmap. unfold fseek, ftell. cbn [stream offset Z.eqb Pos.eqb].
    fold data. rewrite Z.add_0_r, s32_small by done. by rewrite E. }
  destruct Hcr as [(? & _)|(_ & ok & dev1 & E1 & Hres & Hiff)]; [lia|].
  assert (ok = true) as -> by (apply Hiff; done).
  destruct Hres as (bm' & d' & r & Hfs1 & Hfiles & Hlen & _ & Hkept).
  assert (Directory.files d' !! Directory.key to = Some r) as Hr by (rewrite Hfiles; apply lookup_insert_eq).
  destruct (Open_spec fresh M1 garbage_map garbage_dir garbage_hdr M2 M4 fs mf df dev1 bm' d' to Hfs1 Hslot)
    as (dev2 & E2 & Hs2 & Hfs2). rewrite Hr in E2. simpl fmap in E2.
  assert (is_sector r) as Hsec.
  { eapply fs_owned_sector; [exact Hfs1|]. eapply owned_file; [done|by left]. }
  rewrite <- (Hs2 r Hsec) in E2, Hlen.
  destruct (copy_into dev2 bm' d' (Directory.key to) r data Hfs2 Hr Hlen Hdata)
    as (dev3 & E3 & Hfs3 & Hc3 & Hothers).
  destruct (Print_spec dev3 bm' d' to r Hfs3 Hr) as (dev4 & E4 & Hs4). rewrite Hc3 in E4.
  exists dev3, dev4, bm', d'. split_and!; [|done|done|done|].
  - unfold Copy, fopen. rewrite Hname. simpl fmap. unfold fseek, ftell. cbn [stream offset Z.eqb Pos.eqb].
    fold data. rewrite Z.add_0_r, s32_small by done.
    rewrite E1. simpl_res. cbn [negb]. rewrite E2. simpl_res. rewrite E3. done.
  - intros k s x Hne Hk Hx. assert (Directory.files d' !! k = Some s) as Hk'
      by (rewrite Hfiles, lookup_insert_ne by done; done).
    assert (extent dev2 s = extent dev s) as Hext.
    { unfold extent. rewrite (Hs2 s), (Hkept k s s Hk); [done|by left|].
      eapply fs_owned_sector; [exact Hfs|]. eapply owned_file; [done|by left]. }
    rewrite (Hothers k s x); [|done|done|by rewrite Hext]. rewrite (Hs2 x); [by apply (Hkept k s)|].
    eapply fs_owned_sector; [exact Hfs|]. by eapply owned_file.
Qed.

(** A file of no bytes takes none and gives none. *)
Lemma empty_file h :
  FileHdr.FileLength h = 0 → ∀ from n dev,
  WriteAt fresh h from n 0 dev = Ok (0, dev) ∧ ReadAt h n 0 dev = Ok ([], dev).
Proof using Type.
  intros Hl from n dev. unfold WriteAt, ReadAt, clamp. rewrite Hl. rewrite Z.geb_leb, orb_true_r. done.
Qed.

Lemma FileWrite_fails dev bm d :
  fs_ok fs mf df dev bm d → Directory.files d !! Directory.key FileName = None → room bm d 0 →
  ∃ dev' bm' d' r,
    FileWrite fresh garbage_map garbage_dir garbage_hdr fs dev
      = Ok (announcement "write" ++ complaint "unable to write", dev') ∧
    fs_ok fs mf df dev' bm' d' ∧ Directory.files d' = <[Directory.key FileName := r]> (Directory.files d) ∧
    FileHdr.FileLength (FileHdr.header_of (sd_sector dev' r)) = 0.
Proof using All.
  intros Hfs Hnew Hroom. pose proof Hmem as [M1 M2 _ M4].
  destruct (Create_spec fresh M1 garbage_map garbage_dir garbage_hdr M2 M4 fs mf df dev bm d FileName 0)
    as (ok & dev1 & E1 & Hres & Hiff); [done|done|apply chars_u8|].
  assert (ok = true) as -> by (apply Hiff; done).
  destruct Hres as (bm' & d' & r & Hfs1 & Hfiles & Hlen & _ & _).
  assert (Directory.files d' !! Directory.key FileName = Some r) as Hr
    by (rewrite Hfiles; apply lookup_insert_eq).
  destruct (Open_spec fresh M1 garbage_map garbage_dir garbage_hdr M2 M4 fs mf df dev1 bm' d' FileName
    Hfs1 Hslot) as (dev2 & E2 & Hs2 & Hfs2). rewrite Hr in E2. simpl fmap in E2.
  assert (is_sector r) as Hsec.
  { eapply fs_owned_sector; [exact Hfs1|]. eapply owned_file; [done|by left]. }
  exists dev2, bm', d', r. split; [|split; [done|split; [done|by rewrite Hs2]]].
  unfold FileWrite. rewrite E1. simpl_res. cbn [negb]. rewrite E2. simpl_res.
  change (Z.to_nat (FileSize / ContentSize)) with (S (Z.to_nat 4999)). cbn [write_chunks].
  unfold Write. cbn [hdr seekPosition].
  by rewrite (proj1 (empty_file _ Hlen Contents ContentSize dev2)).
Qed.

Context (stats_of : D → Statistics).

(** The performance test on a consistent disk with a free slot and room for
    one more (empty) file.  It creates the file with no bytes and the file
    system never extends a file, so the first write and the first read come
    back short: both halves complain, and the test removes the file again. *)
Theorem performance_test_fails dev bm d :
  fs_ok fs mf df dev bm d → Directory.files d !! Directory.key FileName = None → room bm d 0 →
  ∃ dev' bm' d',
    PerformanceTest fresh garbage_map garbage_dir garbage_hdr stats_of fs dev
      = Ok ((chars "Starting file system performance test:" ++ newline ++ Statistics_Print (stats_of dev)) ++
            (announcement "write" ++ complaint "unable to write") ++
            (announcement "read" ++ complaint "unable to read") ++ Statistics_Print (stats_of dev'), dev') ∧
    fs_ok fs mf df dev' bm' d' ∧ Directory.files d' = Directory.files d.
Proof using All.
  intros Hfs Hnew Hroom. pose proof Hmem as [M1 M2 _ M4].
  destruct (FileWrite_fails dev bm d Hfs Hnew Hroom) as (dev1 & bm1 & d1 & r & E1 & Hfs1 & Hfiles & Hlen).
  assert (Directory.files d1 !! Directory.key FileName = Some r) as Hr
    by (rewrite Hfiles; apply lookup_insert_eq).
  destruct (Open_spec fresh M1 garbage_map garbage_dir garbage_hdr M2 M4 fs mf df dev1 bm1 d1 FileName
    Hfs1 Hslot) as (dev2 & E2 & _ & Hfs2). rewrite Hr in E2. simpl fmap in E2.
  destruct (remove_file_spec fresh M1 garbage_map garbage_dir garbage_hdr M2 M4 fs mf df dev2 bm1 d1 FileName
    Hfs2) as (ok & dev3 & E3 & Hres & Hiff).
  assert (ok = true) as -> by (apply Hiff; by eexists).
  destruct Hres as (bm3 & d3 & Hfs3 & Hfiles3 & _).
  exists dev3, bm3, d3. split; [|split; [done|]].
  - unfold PerformanceTest. rewrite E1. simpl_res. unfold FileRead. rewrite E2. simpl_res.
    change (Z.to_nat (FileSize / ContentSize)) with (S (Z.to_nat 4999)). cbn [read_chunks].
    unfold Read. cbn [hdr seekPosition].
    rewrite (proj2 (empty_file _ Hlen Contents ContentSize dev2)). simpl_res.
    assert (overlay (fresh ContentSize) 0 [] = Ok (fresh ContentSize)) as ->
      by (unfold overlay; rewrite bool_decide_eq_true_2 by (simpl; lia); done).
    simpl_res. change (Z.of_nat (length []) <? 10) with true. cbn [orb]. rewrite E3. done.
  - rewrite Hfiles3, Hfiles. by apply delete_insert_id.
Qed.
End spec.

(** A formatted disk, an empty table of open files, and a UNIX file. *)
Definition sample_host : Unix.Unix := Unix.mkUnix {[0 := seqZ 32 25]} {[[97] := 0]} 1 ∅.

Lemma empty_table_slot fs : file_table fs = empty_table → has_slot fs.
Proof. intros E. unfold has_slot. rewrite E. split; [done|]. by exists 2. Qed.

(** There is room for a few sectors on it. *)
Lemma fresh_disk :
  ∃ fs mf df dev bm d, fs_ok fs mf df dev bm d ∧ has_slot fs ∧ Directory.files d = ∅ ∧
    ∀ n, divRoundUp n SectorSize ≤ 900 → room bm d n.
Proof.
  destruct sample_memory as [M1 M2 M3 M4].
  destruct (format_spec _ M1 _ _ _ M2 M3 M4 DiskSpec.sample empty_table DiskSpec.sample_device)
    as (fs & mf & df & dev & bm & d & _ & Hfs & Hf & Ht & Hcount).
  exists fs, mf, df, dev, bm, d. split; [exact Hfs|]. split; [by apply empty_table_slot|].
  split; [exact Hf|]. intros n Hn. unfold room. rewrite Hf, Hcount. split; [done|].
  change NumSectors with 1024. lia.
Qed.

Lemma copy_then_print_witness :
  ∃ fs dev dev1 dev2,
    Copy OpenFileSpec.junk garbage_words garbage_entries FileHdrSpec.blank sample_host fs [97] [98; 99] dev
      = Ok ([], dev1) ∧
    Print OpenFileSpec.junk garbage_entries fs [98; 99] dev1 = Ok (seqZ 32 25, dev2).
Proof.
  destruct fresh_disk as (fs & mf & df & dev & bm & d & Hfs & Hslot & Hf & Hroom).
  pose proof (copy_then_print _ _ _ _ sample_memory fs mf df Hslot sample_host [97] [98; 99] 0 dev bm d) as Hcopy.
  cbv zeta in Hcopy. rewrite bool_decide_eq_false_2 in Hcopy by (vm_compute; discriminate).
  destruct Hcopy as (dev1 & dev2 & bm' & d' & E1 & _ & E2 & _).
  - reflexivity.
  - apply (bool_decide_unpack _). vm_compute. exact I.
  - exact Hfs.
  - repeat constructor; lia.
  - rewrite Hf. reflexivity.
  - apply Hroom. vm_compute. discriminate.
  - exists fs, dev, dev1, dev2. split; [exact E1|exact E2].
Defined.

Lemma performance_test_fails_witness :
  ∃ fs dev out dev',
    PerformanceTest OpenFileSpec.junk garbage_words garbage_entries FileHdrSpec.blank
      (λ _, Statistics_new) fs dev = Ok (out, dev') ∧ length out = 533%nat.
Proof.
  destruct fresh_disk as (fs & mf & df & dev & bm & d & Hfs & Hslot & Hf & Hroom).
  destruct (performance_test_fails _ _ _ _ sample_memory fs mf df Hslot (λ _, Statistics_new) dev bm d)
    as (dev' & bm' & d' & E & _).
  - exact Hfs.
  - rewrite Hf. reflexivity.
  - apply Hroom. vm_compute. discriminate.
  - exists fs, dev. eexists _, dev'. split; [exact E|]. vm_compute. reflexivity.
Defined.
End FsTestSpec.
