(* ===== verification/AddrSpace.v ===== *)
(** * Address spaces (userprog/addrspace.cc, bin/noff.h)

    Loading a program: reading the header of its object file, taking physical
    pages from the bitmap [gPhysPageBitMap] and copying the segments into
    physical memory; giving the pages back; the initial registers and the page
    table the machine uses.

    The allocation map is any [FreeMap].  The semaphore [addrLock] is its value:
    a [P] that has to wait ends with [WouldBlock].  [garbage] stands for what
    uninitialised memory holds. *)

From S2P Require Import Prelude NList Bitmap Machine Interrupt Disk FileHdr OpenFile Directory FileSys UnixFS.

(** ** Object files (noff.h) *)

Definition NOFFMAGIC : Z := 0xbadfad.
Definition UserStackSize : Z := 1024.

Record Segment := mkSegment { virtualAddr : Z; inFileAddr : Z; seg_size : Z }.
Record NoffHeader := mkNoff {
  noffMagic : Z;
  code : Segment;
  initData : Segment;
  uninitData : Segment;
}.

(** The ten ints of a header in memory. *)
Definition noff_size : Z := 40.
Definition noff_words (w : list Z) : NoffHeader :=
  let n i := default 0 (w !! i) in
  mkNoff (n 0%nat) (mkSegment (n 1%nat) (n 2%nat) (n 3%nat))
    (mkSegment (n 4%nat) (n 5%nat) (n 6%nat)) (mkSegment (n 7%nat) (n 8%nat) (n 9%nat)).
Definition noff_of (bs : list Z) : NoffHeader := noff_words (FileHdr.words 10 bs).

(** [WordToHost] on an [int]. *)
Definition to_host (x : Z) : Z := s32 (WordToHost HOST_IS_BIG_ENDIAN (u32 x)).

Definition swap_segment (s : Segment) : Segment :=
  mkSegment (to_host (virtualAddr s)) (to_host (inFileAddr s)) (to_host (seg_size s)).
Definition SwapHeader (h : NoffHeader) : NoffHeader :=
  mkNoff (to_host (noffMagic h)) (swap_segment (code h)) (swap_segment (initData h))
    (swap_segment (uninitData h)).

(** ** Address spaces *)

Record AddrSpace := mkSpace {
  pageTable : list TranslationEntry;
  numPages : Z;
}.

(** What a constructor works on: the allocation map of physical pages, the
    physical memory and the lock. *)
Record Loader (T : Type) := mkLoader {
  gPhysPageBitMap : T;
  memory : gmap Z Z;
  addrLock : Z;
}.
Arguments mkLoader {T}.
Arguments gPhysPageBitMap {T}.
Arguments memory {T}.
Arguments addrLock {T}.

(** Bytes copied to [mainMemory], at an address the code computes. *)
Definition poke (mem : gmap Z Z) (a : Z) (bs : list Z) : res (gmap Z Z) :=
  if bool_decide (bs = [] ∨ (0 ≤ a ∧ a + Z.of_nat (length bs) ≤ MemorySize))
  then Ok (write_bytes mem a bs) else Stop Undefined.

Definition P (lock : Z) : res Z := if lock =? 0 then Stop WouldBlock else Ok (lock - 1).
Definition V (lock : Z) : Z := lock + 1.

Section spaces.
Context {T : Type} `{FreeMap T}.

(** [executable->ReadAt(&noffH, sizeof(noffH), 0)] and the byte order
    check. *)
Definition read_header (garbage_hdr : list Z) (u : Unix.Unix) (f : StubFS.OpenFile) : res NoffHeader :=
  '(_, bs) ← StubFS.ReadAt u f noff_size 0;
  let noffH := noff_of (bs ++ drop (length bs) garbage_hdr) in
  let noffH := if negb (noffMagic noffH =? NOFFMAGIC) && (to_host (noffMagic noffH) =? NOFFMAGIC)
               then SwapHeader noffH else noffH in
  ASSERT (noffMagic noffH =? NOFFMAGIC);;
  Ok noffH.

(** The number of pages: the three segments and the stack, in [unsigned]
    arithmetic. *)
Definition pages_of (h : NoffHeader) : Z :=
  divRoundUp (u32 (seg_size (code h) + seg_size (initData h) + seg_size (uninitData h) + UserStackSize))
    PageSize.

(** One round of the loop that fills the page table. *)
Definition alloc_page (i : Z) (st : list TranslationEntry * T) : res (list TranslationEntry * T) :=
  let '(pt, m) := st in
  '(r, m') ← fm_find m;
  Ok (pt ++ [mkEntry i r true false false false], m').

Definition alloc_pages (n : Z) (m : T) : res (list TranslationEntry * T) :=
  for_loop (Z.to_nat n) 0 alloc_page ([], m).

(** One round of a loop that copies a segment. *)
Definition load_page (u : Unix.Unix) (f : StubFS.OpenFile) (s : Segment) (pt : list TranslationEntry)
    (i : Z) (mem : gmap Z Z) : res (gmap Z Z) :=
  e ← arr_get pt i;
  '(_, bs) ← StubFS.ReadAt u f PageSize (s32 (inFileAddr s + i * PageSize));
  poke mem (virtualAddr s + physicalPage e * PageSize) bs.

Definition load_segment (u : Unix.Unix) (f : StubFS.OpenFile) (s : Segment) (pt : list TranslationEntry)
    (n : Z) (mem : gmap Z Z) : res (gmap Z Z) :=
  if seg_size s >? 0 then for_loop (Z.to_nat n) 0 (load_page u f s pt) mem else Ok mem.

(** [AddrSpace(OpenFile *executable)] *)
Definition AddrSpace_new (garbage : AddrSpace) (garbage_hdr : list Z) (u : Unix.Unix)
    (executable : option StubFS.OpenFile) (st : Loader T) : res (AddrSpace * Loader T) :=
  match executable with
  | None => Ok (garbage, st)
  | Some f =>
      noffH ← read_header garbage_hdr u f;
      lock ← P (addrLock st);
      let n := pages_of noffH in
      ASSERT (n <=? NumPhysPages);;
      clear ← fm_num_clear (gPhysPageBitMap st);
      if n >? clear then
        Ok (mkSpace (pageTable garbage) 0, mkLoader (gPhysPageBitMap st) (memory st) (V lock))
      else
        '(pt, bm) ← alloc_pages n (gPhysPageBitMap st);
        let lock := V lock in
        mem ← load_segment u f (code noffH) pt n (memory st);
        mem ← load_segment u f (initData noffH) pt n mem;
        Ok (mkSpace pt n, mkLoader bm mem lock)
  end.

(** [AddrSpace(char *filename)].  When memory is short it deletes the file,
    releases the lock and goes on with no pages: the lock is released again,
    and the file is deleted again at the end. *)
Definition AddrSpace_new_name (garbage : AddrSpace) (garbage_hdr : list Z) (garbage_type : Z)
    (fs : StubFS.FileSystem) (filename : list Z) (st : Loader T) : res (AddrSpace * Loader T) :=
  executable ← StubFS.Open garbage_type fs filename;
  match executable with
  | None => Ok (garbage, st)
  | Some f =>
      let u := StubFS.unix fs in
      noffH ← read_header garbage_hdr u f;
      lock ← P (addrLock st);
      numclear ← fm_num_clear (gPhysPageBitMap st);
      let deleted := pages_of noffH >? numclear in
      let n := if deleted then 0 else pages_of noffH in
      let lock := if deleted then V lock else lock in
      '(pt, bm) ← alloc_pages n (gPhysPageBitMap st);
      let lock := V lock in
      mem ← load_segment u f (code noffH) pt n (memory st);
      mem ← load_segment u f (initData noffH) pt n mem;
      if deleted then Stop Undefined
      else Ok (mkSpace pt n, mkLoader bm mem lock)
  end.

(** The destructor. *)
Definition free_page (s : AddrSpace) (i : Z) (m : T) : res T :=
  e ← arr_get (pageTable s) i; fm_clear m (physicalPage e).
Definition AddrSpace_delete (s : AddrSpace) (m : T) : res T :=
  for_loop (Z.to_nat (numPages s)) 0 (free_page s) m.
End spaces.

Definition InitRegisters (s : AddrSpace) (m : Machine) : res Machine :=
  m ← for_loop (Z.to_nat NumTotalRegs) 0 (λ i m, WriteRegister m i 0) m;
  m ← WriteRegister m PCReg 0;
  m ← WriteRegister m NextPCReg 4;
  WriteRegister m StackReg (s32 (numPages s * PageSize - 16)).

(** [machine->pageTable] is a pointer to the table of the running space.  The
    model keeps the table in the machine while the space is loaded:
    [RestoreState] moves it there, and [SaveState], whose body is empty, is the
    point where the machine's updates of the use and dirty bits are taken
    back into the space. *)
Definition SaveState (s : AddrSpace) (m : Machine) : AddrSpace :=
  mkSpace (default (pageTable s) (Machine.pageTable m)) (numPages s).
Definition RestoreState (s : AddrSpace) (m : Machine) : Machine :=
  mkMachine (registers m) (mainMemory m) (tlb m) (Some (pageTable s)) (numPages s).

Definition frames (s : AddrSpace) : list Z := physicalPage <$> pageTable s.

(** ** Taking and giving back pages *)

Section pages.
Context {T : Type} `{FreeMapLaws T}.
Implicit Types m : T.

(** A page table whose entry [i] maps page [i] to a frame of its own, which
    was free in [m]. *)
Record table_new m (pt : list TranslationEntry) : Prop := mkTableNew {
  tn_nodup : NoDup (physicalPage <$> pt);
  tn_free : Forall (λ r, 0 ≤ r < fm_size m ∧ r ∉ fm_used m) (physicalPage <$> pt);
  tn_bits : ∀ i e, pt !! i = Some e → valid e = true ∧ readOnly e = false ∧ virtualPage e = Z.of_nat i;
}.

(** The loop after [j] rounds. *)
Record alloc_state m0 (j : Z) (st : list TranslationEntry * T) : Prop := mkAllocState {
  as_len : length st.1 = Z.to_nat j;
  as_wf : fm_wf st.2;
  as_size : fm_size st.2 = fm_size m0;
  as_used : fm_used st.2 = fm_used m0 ∪ list_to_set (physicalPage <$> st.1);
  as_new : table_new m0 st.1;
}.

Lemma alloc_page_spec m0 n j st :
  0 ≤ j < n → n ≤ fm_size m0 - Z.of_nat (size (fm_used m0)) →
  alloc_state m0 j st →
  ∃ r m', alloc_page j st = Ok (st.1 ++ [mkEntry j r true false false false], m') ∧
    (∀ k, 0 ≤ k < r → k ∈ fm_used st.2) ∧
    alloc_state m0 (j + 1) (st.1 ++ [mkEntry j r true false false false], m').
Proof using Type*.
  intros Hj Hn [Hl Hwf Hs Hu [Hnd Hfree Hbits]]. destruct st as [pt m]. simpl in *.
  pose proof (FileHdr.used_size m0 m _ Hu Hnd Hfree) as Hsz. rewrite length_fmap in Hsz.
  destruct (fm_find_spec m Hwf) as [(r & m' & E & Hwf' & Hs' & Hr & Hout & Hleast & Hu')|[_ Hfull]].
  2:{ apply FileHdr.full_size in Hfull; lia. }
  unfold alloc_page. rewrite E. simpl_res. eexists _, _. split; [reflexivity|]. split; [exact Hleast|].
  rewrite Hu in Hout. apply not_elem_of_union in Hout as [Hout1 Hout2].
  rewrite elem_of_list_to_set in Hout2.
  split; simpl.
  - rewrite length_app. simpl. lia.
  - done.
  - congruence.
  - rewrite Hu', Hu, fmap_app, list_to_set_app_L. simpl. set_solver.
  - split.
    + rewrite fmap_app. by apply NoDup_snoc.
    + rewrite fmap_app, Forall_app. split; [done|]. apply Forall_singleton.
      simpl. split; [lia|done].
    + intros i e Hi. apply lookup_app_Some in Hi as [Hi|[Hi Hi']]; [by apply Hbits|].
      apply list_lookup_singleton_Some in Hi' as [Hi' <-]. simpl. split_and!; [done..|lia].
Qed.

Lemma alloc_pages_spec m n :
  fm_wf m → 0 ≤ n ≤ fm_size m - Z.of_nat (size (fm_used m)) →
  ∃ pt m', alloc_pages n m = Ok (pt, m') ∧ length pt = Z.to_nat n ∧ table_new m pt ∧
    fm_wf m' ∧ fm_size m' = fm_size m ∧
    fm_used m' = fm_used m ∪ list_to_set (physicalPage <$> pt).
Proof using Type*.
  intros Hwf Hn. unfold alloc_pages.
  destruct (for_loop_inv alloc_page (alloc_state m) (Z.to_nat n) 0 ([], m))
    as ([pt m'] & E & [Hl Hwf' Hs Hu Hnew]).
  - split; simpl; try done; [set_solver|]. split; [constructor|constructor|done].
  - intros j st Hj Hst. destruct (alloc_page_spec m n j st) as (r & m' & E & _ & Hst'); [lia..|done|].
    eexists. split; [exact E|exact Hst'].
  - simpl in *. exists pt, m'. split; [exact E|]. split; [lia|]. done.
Qed.

(** The frames that exist and are in use.  The map may have more bits than the
    memory has pages. *)
Definition used_memory m : gset Z := filter (λ r, r < NumPhysPages) (fm_used m).
Definition memory_limit m : Z := Z.min (fm_size m) NumPhysPages.

(** As many pages as are free in memory are free in the map. *)
Lemma memory_room m n :
  fm_wf m → 0 ≤ n ≤ memory_limit m - Z.of_nat (size (used_memory m)) →
  n ≤ fm_size m - Z.of_nat (size (fm_used m)).
Proof using Type*.
  intros Hwf Hn. set (lim := memory_limit m) in *.
  assert (lim ≤ fm_size m) as Hlim by (unfold lim, memory_limit; lia).
  assert (fm_used m ⊆ used_memory m ∪ list_to_set (seqZ lim (fm_size m - lim))) as Hsub.
  { intros x Hx. pose proof (fm_used_range m x Hx). unfold used_memory.
    rewrite elem_of_union, elem_of_filter, elem_of_list_to_set, elem_of_seqZ.
    unfold lim, memory_limit in *. destruct (decide (x < NumPhysPages)); [by left|right; lia]. }
  apply subseteq_size in Hsub.
  pose proof (size_union_alt (used_memory m) (list_to_set (seqZ lim (fm_size m - lim)))) as Hsz.
  assert (size (list_to_set (seqZ lim (fm_size m - lim)) ∖ used_memory m) ≤ Z.to_nat (fm_size m - lim))%nat as Hrest.
  { transitivity (size (list_to_set (C:=gset Z) (seqZ lim (fm_size m - lim)))).
    - apply subseteq_size. set_solver.
    - rewrite size_list_to_set by apply NoDup_seqZ. by rewrite length_seqZ. }
  lia.
Qed.

(** The frames are taken from below, so they are among those that exist. *)
Lemma alloc_pages_low m n :
  fm_wf m → 0 ≤ n ≤ memory_limit m - Z.of_nat (size (used_memory m)) →
  ∃ pt m', alloc_pages n m = Ok (pt, m') ∧ length pt = Z.to_nat n ∧ table_new m pt ∧
    fm_wf m' ∧ fm_size m' = fm_size m ∧
    fm_used m' = fm_used m ∪ list_to_set (physicalPage <$> pt) ∧
    Forall (λ r, 0 ≤ r < NumPhysPages) (physicalPage <$> pt).
Proof using Type*.
  intros Hwf Hn. unfold alloc_pages. pose proof (memory_room m n Hwf Hn) as Hroom.
  destruct (for_loop_inv alloc_page
    (λ j st, alloc_state m j st ∧ Forall (λ r, 0 ≤ r < NumPhysPages) (physicalPage <$> st.1))
    (Z.to_nat n) 0 ([], m)) as ([pt m'] & E & [Hl Hwf' Hs Hu Hnew] & Hlow).
  - split; [|constructor]. split; simpl; try done; [set_solver|]. split; [constructor|constructor|done].
  - intros j st Hj [Hst Hlow].
    destruct (alloc_page_spec m n j st) as (r & m' & E & Hleast & Hst'); [lia..|done|].
    eexists. split; [exact E|]. split; [exact Hst'|]. simpl. rewrite fmap_app, Forall_app.
    split; [done|]. apply Forall_singleton. simpl.
    pose proof (tn_free _ _ (as_new _ _ _ Hst')) as Hfree. simpl in Hfree.
    rewrite fmap_app, Forall_app in Hfree. destruct Hfree as [_ Hr%Forall_inv]. simpl in Hr.
    split; [lia|]. destruct (Z.lt_ge_cases r NumPhysPages) as [|Hge]; [done|exfalso].
    assert (memory_limit m ≤ Z.of_nat (size (used_memory m ∪ list_to_set (physicalPage <$> st.1)))) as Hfull.
    { apply FileHdr.full_size; [lia|]. intros k Hk. unfold memory_limit in Hk.
      specialize (Hleast k ltac:(lia)). rewrite (as_used _ _ _ Hst), elem_of_union in Hleast.
      apply elem_of_union. destruct Hleast as [Hin|Hin]; [left|by right].
      unfold used_memory. apply elem_of_filter. split; [lia|done]. }
    rewrite size_union_alt in Hfull.
    assert (size (list_to_set (physicalPage <$> st.1) ∖ used_memory m) ≤ Z.to_nat j)%nat as Hnew.
    { transitivity (size (list_to_set (C:=gset Z) (physicalPage <$> st.1))).
      - apply subseteq_size. set_solver.
      - rewrite size_list_to_set by apply (tn_nodup _ _ (as_new _ _ _ Hst)).
        rewrite length_fmap. pose proof (as_len _ _ _ Hst). lia. }
    lia.
  - simpl in *. exists pt, m'. split; [exact E|]. split; [lia|]. done.
Qed.

(** The destructor takes the frames out of the map again. *)
Lemma delete_spec m s :
  fm_wf m → numPages s = Z.of_nat (length (pageTable s)) →
  Forall (λ r, 0 ≤ r < fm_size m) (frames s) →
  ∃ m', AddrSpace_delete s m = Ok m' ∧ fm_wf m' ∧ fm_size m' = fm_size m ∧
        fm_used m' = fm_used m ∖ list_to_set (frames s).
Proof using Type*.
  intros Hwf Hn Hr. unfold AddrSpace_delete.
  destruct (for_loop_inv (free_page s) (λ j m', fm_wf m' ∧ fm_size m' = fm_size m ∧
    fm_used m' = fm_used m ∖ list_to_set (take (Z.to_nat j) (frames s)))
    (Z.to_nat (numPages s)) 0 m) as (m' & E & Hwf' & Hs' & Hu').
  - split; [done|]. split; [done|]. set_solver.
  - intros j m' Hj (Hwf' & Hs' & Hu').
    destruct (arr_get_total (pageTable s) j) as (e & Ee & He); [lia|].
    assert (frames s !! Z.to_nat j = Some (physicalPage e)) as Hlk
      by (unfold frames; by rewrite list_lookup_fmap, He).
    pose proof (Forall_lookup_1 _ _ _ _ Hr Hlk) as Hrange. simpl in Hrange.
    unfold free_page. rewrite Ee. simpl_res.
    destruct (fm_clear_spec m' (physicalPage e) Hwf') as (m'' & E & Hwf'' & Hs'' & Hu''); [lia|].
    exists m''. split; [exact E|]. split; [done|]. split; [congruence|].
    rewrite Hu'', Hu'. replace (Z.to_nat (j + 1)) with (S (Z.to_nat j)) by lia.
    rewrite (take_S_r _ _ _ Hlk), list_to_set_app_L. set_solver.
  - exists m'. split; [exact E|]. split; [done|]. split; [done|]. rewrite Hu'. rewrite take_ge; [done|].
    unfold frames. rewrite length_fmap. lia.
Qed.
End pages.

(** ** Copying a segment *)

Section loading.
Context (u : Unix.Unix) (f : StubFS.OpenFile) (s : Segment) (pt : list TranslationEntry).
Let file : list Z := Unix.contents u (StubFS.file f).

(** The bytes of the file that belong to page [i]. *)
Definition page_bytes (i : Z) : list Z :=
  take (Z.to_nat PageSize) (drop (Z.to_nat (inFileAddr s + i * PageSize)) file).

(** Memory after [j] rounds: page [i] of the file is in frame [i]. *)
Record loaded (mem0 : gmap Z Z) (j : Z) (mem : gmap Z Z) : Prop := mkLoaded {
  ld_page : ∀ i e o b, pt !! i = Some e → Z.of_nat i < j → 0 ≤ o < PageSize →
    page_bytes (Z.of_nat i) !! Z.to_nat o = Some b →
    mem !! (physicalPage e * PageSize + o) = Some b;
  ld_frame : ∀ a, (∀ i e, pt !! i = Some e → Z.of_nat i < j → a / PageSize ≠ physicalPage e) →
    mem !! a = mem0 !! a;
}.

Lemma length_page_bytes i : (length (page_bytes i) <= Z.to_nat PageSize)%nat.
Proof using Type. unfold page_bytes. rewrite length_take. lia. Qed.

Lemma frame_address r o : 0 ≤ o < PageSize → (r * PageSize + o) / PageSize = r.
Proof using Type.
  intros Ho. rewrite Z.div_add_l by done. rewrite Z.div_small by done. lia.
Qed.

Lemma load_page_spec mem0 j mem :
  virtualAddr s = 0 → 0 ≤ inFileAddr s → 0 ≤ j < Z.of_nat (length pt) →
  is_s32 (inFileAddr s + j * PageSize) →
  NoDup (physicalPage <$> pt) → Forall (λ r, 0 ≤ r < NumPhysPages) (physicalPage <$> pt) →
  loaded mem0 j mem → ∃ mem', load_page u f s pt j mem = Ok mem' ∧ loaded mem0 (j + 1) mem'.
Proof using Type.
  intros Hva Hin Hj Hs Hnd Hr [Hpage Hframe].
  destruct (arr_get_total pt j) as (e & Ee & He); [lia|].
  assert ((physicalPage <$> pt) !! Z.to_nat j = Some (physicalPage e)) as Hlk
    by (by rewrite list_lookup_fmap, He).
  pose proof (Forall_lookup_1 _ _ _ _ Hr Hlk) as Hfr. simpl in Hfr.
  pose proof (length_page_bytes j) as Hlen. change PageSize with 512 in *.
  unfold load_page. rewrite Ee. simpl_res. rewrite s32_small by done.
  rewrite StubFS.stub_ReadAt_spec by (change PageSize with 512; lia). simpl_res.
  change (take (Z.to_nat PageSize) (drop (Z.to_nat (inFileAddr s + j * PageSize))
    (Unix.contents u (StubFS.file f)))) with (page_bytes j). change PageSize with 512.
  unfold poke. rewrite Hva, Z.add_0_l, bool_decide_eq_true_2 by
    (right; unfold MemorySize, NumPhysPages in *; change PageSize with 512; lia).
  eexists. split; [reflexivity|].
  assert (∀ a, a / 512 = physicalPage e ↔ physicalPage e * 512 ≤ a < physicalPage e * 512 + 512) as Hin512.
  { intros a. Z.div_mod_to_equations. lia. }
  split.
  - intros i e' o b He' Hij Ho Hb. change PageSize with 512 in *. rewrite write_bytes_lookup.
    destruct (decide (Z.of_nat i = j)) as [<-|Hne].
    + rewrite Nat2Z.id in He. simplify_eq. pose proof (lookup_lt_Some _ _ _ Hb) as Hlt.
      rewrite bool_decide_eq_true_2 by lia.
      replace (physicalPage e * 512 + o - physicalPage e * 512) with o by lia. done.
    + assert (physicalPage e' ≠ physicalPage e) as Hd.
      { intros Heq. assert ((physicalPage <$> pt) !! i = Some (physicalPage e)) as Hlk'
          by (rewrite list_lookup_fmap, He'; simpl; by f_equal).
        pose proof (NoDup_lookup _ _ _ _ Hnd Hlk Hlk'). lia. }
      rewrite bool_decide_eq_false_2 by lia. apply (Hpage i e'); [done|lia|done|done].
  - intros a Ha. change PageSize with 512 in *. rewrite write_bytes_lookup, bool_decide_eq_false_2.
    + apply Hframe. intros i e' He' Hij. apply (Ha i e' He'). lia.
    + intros Hb. apply (Ha (Z.to_nat j) e He ltac:(lia)). apply Hin512. lia.
Qed.

Lemma load_segment_spec mem :
  virtualAddr s = 0 → 0 ≤ inFileAddr s → is_s32 (inFileAddr s + Z.of_nat (length pt) * PageSize) →
  NoDup (physicalPage <$> pt) → Forall (λ r, 0 ≤ r < NumPhysPages) (physicalPage <$> pt) →
  0 < seg_size s →
  ∃ mem', load_segment u f s pt (Z.of_nat (length pt)) mem = Ok mem' ∧
          loaded mem (Z.of_nat (length pt)) mem'.
Proof using Type.
  intros Hva Hin Hs Hnd Hr Hsz. unfold load_segment.
  assert (seg_size s >? 0 = true) as -> by lia.
  destruct (for_loop_inv (load_page u f s pt) (loaded mem) (Z.to_nat (Z.of_nat (length pt))) 0 mem)
    as (mem' & E & Hl).
  - split; [intros; lia|done].
  - intros j mem' Hj Hl. apply load_page_spec; try done; [lia|].
    unfold is_s32 in *. change PageSize with 512 in *. lia.
  - exists mem'. split; [exact E|].
    by replace (Z.of_nat (length pt)) with (0 + Z.of_nat (Z.to_nat (Z.of_nat (length pt)))) by lia.
Qed.
End loading.

(** ** Reading the header *)

Lemma words_app n bs rest :
  length bs = (4 * n)%nat → FileHdr.words n (bs ++ rest) = FileHdr.words n bs.
Proof.
  revert bs. induction n as [|n IH]; intros bs Hl; [done|]. cbn [FileHdr.words].
  rewrite take_app_le, drop_app_le by lia. f_equal. apply IH. rewrite length_drop. lia.
Qed.

(** The file starts with this header. *)
Definition is_program (file : list Z) (h : NoffHeader) : Prop :=
  noff_size ≤ Z.of_nat (length file) ∧ noff_of file = h ∧ noffMagic h = NOFFMAGIC.

Lemma read_header_spec garbage u f h :
  is_program (Unix.contents u (StubFS.file f)) h → read_header garbage u f = Ok h.
Proof.
  intros (Hl & Hh & Hm). unfold read_header, noff_size in *.
  rewrite StubFS.stub_ReadAt_spec by lia. simpl_res.
  change (Z.to_nat 0) with 0%nat. rewrite drop_0. change (Z.to_nat 40) with (4 * 10)%nat.
  set (file := Unix.contents u (StubFS.file f)) in *.
  assert (length (take (4 * 10) file) = (4 * 10)%nat) as Ht by (rewrite length_take; lia).
  assert (∀ rest, noff_of (take (4 * 10) file ++ rest) = h) as Heq.
  { intros rest. rewrite <- Hh. unfold noff_of. f_equal. rewrite (words_app 10 _ _ Ht).
    rewrite <- (words_app 10 _ (drop (4 * 10) file) Ht). by rewrite take_drop. }
  rewrite Heq, Hm, Z.eqb_refl. cbn [negb andb]. by rewrite Hm.
Qed.

Lemma pages_of_nonneg h : 0 ≤ pages_of h.
Proof. apply divRoundUp_nonneg; [apply u32_range|done]. Qed.

(** ** The machine with the space loaded *)

Section mapped.
Context (s : AddrSpace) (m : Machine).
Context (Htlb : tlb m = None) (Hn : numPages s = Z.of_nat (length (pageTable s))).
Context (Hr : Forall (λ r, 0 ≤ r < NumPhysPages) (frames s)).
Context (Hbits : ∀ i e, pageTable s !! i = Some e → valid e = true ∧ readOnly e = false ∧ virtualPage e = Z.of_nat i).

Lemma mapped_frame va e w :
  pageTable s !! Z.to_nat (vpn_of va) = Some e →
  frame (RestoreState s m) va w = Some (physicalPage e * PageSize + offset_of va).
Proof using Htlb Hr Hbits.
  intros He. unfold frame, RestoreState. simpl. rewrite Htlb, He.
  destruct (Hbits _ _ He) as (-> & -> & _).
  assert (frames s !! Z.to_nat (vpn_of va) = Some (physicalPage e)) as Hlk
    by (unfold frames; by rewrite list_lookup_fmap, He).
  pose proof (Forall_lookup_1 _ _ _ _ Hr Hlk) as Hfr. simpl in Hfr. simpl.
  by rewrite bool_decide_eq_true_2.
Qed.

Lemma mapped_frame_inv va pa w :
  frame (RestoreState s m) va w = Some pa →
  ∃ e, pageTable s !! Z.to_nat (vpn_of va) = Some e ∧ pa = physicalPage e * PageSize + offset_of va.
Proof using Htlb.
  unfold frame, RestoreState. simpl. rewrite Htlb.
  destruct (pageTable s !! Z.to_nat (vpn_of va)) as [e|]; [|done].
  destruct (_ && _ && _); [|done]. intros [= <-]. by exists e.
Qed.

(** Distinct frames: no physical byte has two virtual addresses. *)
Lemma mapped_inj : NoDup (frames s) → frames_inj (RestoreState s m).
Proof using Htlb.
  intros Hnd a b pa Ha Hb.
  apply mapped_frame_inv in Ha as (ea & Hea & ->). apply mapped_frame_inv in Hb as (eb & Heb & Hpa).
  pose proof (Z.mod_pos_bound (u32 a) PageSize ltac:(done)) as Hma.
  pose proof (Z.mod_pos_bound (u32 b) PageSize ltac:(done)) as Hmb.
  fold (offset_of a) in Hma. fold (offset_of b) in Hmb. change PageSize with 512 in *.
  assert (physicalPage ea = physicalPage eb) as Hp by lia.
  assert (frames s !! Z.to_nat (vpn_of a) = Some (physicalPage ea)) as Hla
    by (unfold frames; by rewrite list_lookup_fmap, Hea).
  assert (frames s !! Z.to_nat (vpn_of b) = Some (physicalPage ea)) as Hlb
    by (unfold frames; by rewrite list_lookup_fmap, Heb, Hp).
  pose proof (NoDup_lookup _ _ _ _ Hnd Hla Hlb) as Hv.
  pose proof (u32_range a) as Hua. pose proof (u32_range b) as Hub. unfold is_u32 in *.
  unfold vpn_of, offset_of in *. change PageSize with 512 in *.
  rewrite (Z.div_mod (u32 a) 512), (Z.div_mod (u32 b) 512) by done.
  pose proof (Z.div_pos (u32 a) 512). pose proof (Z.div_pos (u32 b) 512). lia.
Qed.
End mapped.

Lemma write_all_zero m :
  length (registers m) = Z.to_nat NumTotalRegs →
  for_loop (Z.to_nat NumTotalRegs) 0 (λ i m, WriteRegister m i 0) m
  = Ok (with_registers m (replicate (Z.to_nat NumTotalRegs) 0)).
Proof.
  intros Hl. set (zeros := replicate (Z.to_nat NumTotalRegs) 0).
  destruct (for_loop_inv (λ i m, WriteRegister m i 0)
    (λ j m', m' = with_registers m (take (Z.to_nat j) zeros ++ drop (Z.to_nat j) (registers m)))
    (Z.to_nat NumTotalRegs) 0 m) as (m' & -> & ->).
  - change (Z.to_nat 0) with 0%nat. rewrite drop_0. by destruct m.
  - intros j m1 Hj ->. change (Z.of_nat (Z.to_nat NumTotalRegs)) with 40 in Hj.
    change (Z.to_nat NumTotalRegs) with 40%nat in *. unfold WriteRegister, NumTotalRegs.
    assert ((j >=? 0) && (j <? 40) = true) as -> by (rewrite andb_true_iff; lia). simpl_res. simpl.
    rewrite arr_set_in by (rewrite length_app, length_take, length_drop; unfold zeros; simpl; lia).
    eexists. split; [reflexivity|]. unfold with_registers. simpl. f_equal.
    replace (Z.to_nat (j + 1)) with (S (Z.to_nat j)) by lia.
    apply copy_step; [|lia]. apply lookup_replicate_2. lia.
  - do 2 f_equal. change (Z.to_nat (0 + Z.of_nat (Z.to_nat NumTotalRegs))) with 40%nat.
    change (Z.to_nat NumTotalRegs) with 40%nat in *.
    by rewrite take_ge, drop_ge, app_nil_r by (unfold zeros; simpl; lia).
Qed.

(** The program starts at address 0 with all registers 0 but the stack
    pointer. *)
Lemma InitRegisters_spec s m :
  length (registers m) = Z.to_nat NumTotalRegs →
  InitRegisters s m =
    Ok (with_registers m (<[29%nat := s32 (numPages s * PageSize - 16)]>
                           (<[35%nat := 4]> (replicate (Z.to_nat NumTotalRegs) 0)))).
Proof.
  intros Hl. unfold InitRegisters. by rewrite (write_all_zero m Hl).
Qed.

(** ** The properties *)

Module AddrSpaceSpec.

Section spec.
Context {T : Type} `{FreeMapLaws T}.
Implicit Types st : Loader T.

(** The program fits into the free frames of the memory and has a code segment
    at virtual address 0 and no initialised data.  The allocation map may have
    more bits than the memory has frames: the kernel's has 256 (system.cc, line
    163) for 128 frames. *)
Record loadable (h : NoffHeader) st : Prop := mkLoadable {
  la_wf : fm_wf (gPhysPageBitMap st);
  la_lock : 0 < addrLock st;
  la_room : pages_of h ≤ memory_limit (gPhysPageBitMap st) -
    Z.of_nat (size (used_memory (gPhysPageBitMap st)));
  la_code : virtualAddr (code h) = 0 ∧ 0 ≤ inFileAddr (code h) ∧ 0 < seg_size (code h);
  la_addr : is_s32 (inFileAddr (code h) + MemorySize);
  la_data : seg_size (initData h) ≤ 0;
}.

(** A byte of the code segment, seen through the page table. *)
Lemma code_byte u f sg s st' m mem mem0 va b :
  tlb m = None → Forall (λ r, 0 ≤ r < NumPhysPages) (frames s) →
  (∀ i e, pageTable s !! i = Some e → valid e = true ∧ readOnly e = false ∧ virtualPage e = Z.of_nat i) →
  loaded u f sg (pageTable s) mem0 (Z.of_nat (length (pageTable s))) mem → memory st' = mem →
  Z.of_nat (length (pageTable s)) * PageSize ≤ MemorySize → 0 ≤ inFileAddr sg →
  0 ≤ va < Z.of_nat (length (pageTable s)) * PageSize →
  Unix.contents u (StubFS.file f) !! Z.to_nat (inFileAddr sg + va) = Some b →
  ubyte (RestoreState s (with_memory m (memory (T:=T) st'))) va = Some b.
Proof using Type.
  intros Htlb Hr Hbits [Hpage _] <- Hmem Hin Hva' Hb. change PageSize with 512 in *.
  assert (u32 va = va) as Hu by (apply u32_small; unfold is_u32, two32, MemorySize, NumPhysPages, PageSize, SectorSize in *; lia).
  assert (0 ≤ va / 512 < Z.of_nat (length (pageTable s))) as Hvpn.
  { split; [apply Z.div_pos; lia|]. apply Z.div_lt_upper_bound; lia. }
  destruct (arr_get_total (pageTable s) (va / 512) Hvpn) as (e & _ & He).
  assert (vpn_of va = va / 512) as Evpn by (unfold vpn_of; by rewrite Hu).
  unfold ubyte. rewrite (mapped_frame s (with_memory m (memory st')) Htlb Hr Hbits va e) by (by rewrite Evpn). simpl.
  unfold offset_of. rewrite Hu. change PageSize with 512.
  rewrite (Hpage (Z.to_nat (va / 512)) e (va mod 512) b); [done|done|lia| |].
  - apply Z.mod_pos_bound. done.
  - unfold page_bytes. change PageSize with 512.
    pose proof (Z.mod_pos_bound va 512 ltac:(done)).
    rewrite lookup_take_lt, lookup_drop by lia. rewrite <- Hb. f_equal.
    pose proof (Z.div_mod va 512 ltac:(done)). lia.
Qed.

Lemma AddrSpace_new_spec garbage garbage_hdr u f h st m :
  is_program (Unix.contents u (StubFS.file f)) h → loadable h st → tlb m = None →
  ∃ s st', AddrSpace_new garbage garbage_hdr u (Some f) st = Ok (s, st') ∧
    (∀ type fs name, StubFS.unix fs = u → StubFS.Open type fs name = Ok (Some f) →
       AddrSpace_new_name garbage garbage_hdr type fs name st = Ok (s, st')) ∧
    numPages s = pages_of h ∧ addrLock st' = addrLock st ∧ NoDup (frames s) ∧
    (∀ r, r ∈ frames s → 0 ≤ r < NumPhysPages) ∧
    (∀ r, r ∈ frames s → r ∉ fm_used (gPhysPageBitMap st)) ∧
    fm_used (gPhysPageBitMap st') = fm_used (gPhysPageBitMap st) ∪ list_to_set (frames s) ∧
    frames_inj (RestoreState s (with_memory m (memory st'))) ∧
    (∀ va b, 0 ≤ va < numPages s * PageSize →
       Unix.contents u (StubFS.file f) !! Z.to_nat (inFileAddr (code h) + va) = Some b →
       ubyte (RestoreState s (with_memory m (memory st'))) va = Some b) ∧
    (∀ a, a / PageSize ∉ frames s → memory st' !! a = memory st !! a).
Proof using Type*.
  intros Hprog [Hwf Hlock Hroom (Hva & Hin & Hcs) Haddr Hdata] Htlb.
  pose proof (pages_of_nonneg h) as Hp0.
  destruct (alloc_pages_low (gPhysPageBitMap st) (pages_of h) Hwf) as
    (pt & bm & E & Hlen & [Hnd Hfree Hbits] & Hwf' & Hsize & Hused & Hr); [lia|].
  assert (pages_of h = Z.of_nat (length pt)) as Hn by lia.
  assert (pages_of h ≤ NumPhysPages) as Hsmall by (unfold memory_limit in Hroom; lia).
  apply (λ Hr, memory_room _ _ Hwf (conj Hp0 Hr)) in Hroom.
  assert (Z.of_nat (length pt) * PageSize ≤ MemorySize) as Hmem.
  { unfold MemorySize. change PageSize with 512. lia. }
  destruct (load_segment_spec u f (code h) pt (memory st)) as (mem & El & [Hpage Hframe]); try done.
  { unfold is_s32 in *. change PageSize with 512 in *. lia. }
  set (s := mkSpace pt (pages_of h)). set (st' := mkLoader bm mem (addrLock st)).
  assert (load_segment u f (initData h) pt (Z.of_nat (length pt)) mem = Ok mem) as Ed.
  { unfold load_segment. by rewrite Z.gtb_ltb, (proj2 (Z.ltb_ge _ _) Hdata). }
  assert (mkLoader bm mem (addrLock st - 1 + 1) = st') as Est by (unfold st'; f_equal; lia).
  exists s, st'. split_and!.
  - unfold AddrSpace_new. rewrite (read_header_spec _ _ _ h Hprog). simpl_res.
    unfold P, V. rewrite (proj2 (Z.eqb_neq (addrLock st) 0)) by lia. simpl_res.
    rewrite (proj2 (Z.leb_le _ _) Hsmall). simpl_res. rewrite fm_num_clear_spec by done. simpl_res.
    rewrite Z.gtb_ltb, (proj2 (Z.ltb_ge _ _) Hroom), E. simpl_res. rewrite Hn, El. simpl_res.
    rewrite Ed. simpl_res. by rewrite <- Hn, Est.
  - intros type fs name Hfs Hopen. unfold AddrSpace_new_name. rewrite Hopen. simpl_res. rewrite Hfs.
    rewrite (read_header_spec _ _ _ h Hprog). simpl_res.
    unfold P, V. rewrite (proj2 (Z.eqb_neq (addrLock st) 0)) by lia. simpl_res.
    rewrite fm_num_clear_spec by done. simpl_res.
    rewrite Z.gtb_ltb, (proj2 (Z.ltb_ge _ _) Hroom), E. simpl_res. rewrite Hn, El. simpl_res.
    rewrite Ed. simpl_res. by rewrite <- Hn, Est.
  - done.
  - done.
  - done.
  - intros r Hin'. unfold frames, s in Hin'. simpl in Hin'. rewrite Forall_forall in Hr. by apply Hr.
  - intros r Hin'. rewrite Forall_forall in Hfree. by apply Hfree.
  - done.
  - by apply mapped_inj.
  - intros va b Hva' Hb. simpl in Hva'.
    apply (code_byte u f (code h) s st' m mem (memory st)); try done.
    simpl. by rewrite <- Hn.
  - intros a Ha. apply Hframe. intros i e He _ Heq. apply Ha. rewrite Heq.
    apply (list_elem_of_lookup_2 _ i). unfold s, frames. simpl. by rewrite list_lookup_fmap, He.
Qed.

(** C19. Loading a program that has its code at address 0 and no initialised
    data.  When enough of the 128 frames of the memory are free, however many
    bits the map has, both constructors succeed and release the lock; the page
    table maps the pages to distinct frames of the memory that were free, which
    are then marked as used; a program that runs in this space sees at each of
    its addresses the byte of its object file, no physical byte is visible at two
    addresses, and no frame of another program is touched.  (For initialised
    data see [data_segment_overruns_frames]; for short memory
    [frames_beyond_memory] and [no_memory_double_delete].) *)
Theorem load_program garbage garbage_hdr u f h st m :
  is_program (Unix.contents u (StubFS.file f)) h → loadable h st → tlb m = None →
  ∃ s st', AddrSpace_new garbage garbage_hdr u (Some f) st = Ok (s, st') ∧
    (∀ type fs name, StubFS.unix fs = u → StubFS.Open type fs name = Ok (Some f) →
       AddrSpace_new_name garbage garbage_hdr type fs name st = Ok (s, st')) ∧
    numPages s = pages_of h ∧ addrLock st' = addrLock st ∧ NoDup (frames s) ∧
    (∀ r, r ∈ frames s → 0 ≤ r < NumPhysPages) ∧
    (∀ r, r ∈ frames s → r ∉ fm_used (gPhysPageBitMap st)) ∧
    fm_used (gPhysPageBitMap st') = fm_used (gPhysPageBitMap st) ∪ list_to_set (frames s) ∧
    frames_inj (RestoreState s (with_memory m (memory st'))) ∧
    (∀ va b, 0 ≤ va < numPages s * PageSize →
       Unix.contents u (StubFS.file f) !! Z.to_nat (inFileAddr (code h) + va) = Some b →
       ubyte (RestoreState s (with_memory m (memory st'))) va = Some b) ∧
    (∀ a, a / PageSize ∉ frames s → memory st' !! a = memory st !! a).
Proof using Type*. apply AddrSpace_new_spec. Qed.

End spec.

(** A host with one object file: [words] are the header, [body] the rest. *)
Definition host (words body : list Z) : Unix.Unix :=
  Unix.mkUnix {[ 0 := concat (le_bytes 4 <$> words) ++ body ]} ∅ 1 ∅.
Definition exe : StubFS.OpenFile := StubFS.mkOpenFile 0 0 0.
Definition no_space : AddrSpace := mkSpace [] 0.

(** A program with code at address 0 only. *)
Definition sample_host : Unix.Unix :=
  host [NOFFMAGIC; 0; 40; 600; 0; 0; 0; 0; 0; 0] (replicate 600 144).
Definition sample_loader : Loader BitMap.BitMap :=
  mkLoader (BitMap.mkBitMap 256 8 [5; 0; 0; 0; 0; 0; 0; 0]) ∅ 1.

Lemma sample_map_wf : fm_wf (gPhysPageBitMap sample_loader).
Proof. split; try done. simpl. repeat constructor; unfold two32; lia. Qed.

(** It is loaded with the map of 256 bits that the kernel makes. *)
Lemma sample_loadable : loadable (noff_of (Unix.contents sample_host 0)) sample_loader.
Proof.
  split; [exact sample_map_wf|vm_compute; reflexivity|vm_compute; discriminate
         |split; [reflexivity|split; vm_compute; [discriminate|reflexivity]]
         |split; vm_compute; [discriminate|reflexivity]|vm_compute; discriminate].
Qed.

Lemma load_program_witness :
  ∃ s st', AddrSpace_new no_space [] sample_host (Some exe) sample_loader = Ok (s, st') ∧
    AddrSpace_new_name no_space [] 0
      (StubFS.mkFileSystem [] (Unix.mkUnix (Unix.inodes sample_host) {[ [97] := 0 ]} 1 ∅)) [97] sample_loader
      = Ok (s, st') ∧
    numPages s = 4 ∧ ubyte (RestoreState s (with_memory Machine_new (memory st'))) 599 = Some 144.
Proof.
  set (named := Unix.mkUnix (Unix.inodes sample_host) {[ [97] := 0 ]} 1 ∅).
  destruct (load_program no_space [] named exe (noff_of (Unix.contents sample_host 0))
    sample_loader Machine_new) as (s & st' & E & Ename & Hn & _ & _ & _ & _ & _ & _ & Hb & _).
  - split; [vm_compute; discriminate|split; reflexivity].
  - exact sample_loadable.
  - reflexivity.
  - exists s, st'. split; [exact E|]. split; [apply Ename; reflexivity|].
    rewrite Hn. split; [vm_compute; reflexivity|].
    apply Hb; [rewrite Hn; split; vm_compute; [discriminate|reflexivity]|vm_compute; reflexivity].
Defined.


(** Initialised data does not land where the program expects it: each page
    of the data segment is copied to its virtual address relative to the frame
    of page [i] instead of into the frame of its own page.  Here a program with
    data at address 512 is loaded into frames 0, 1 and 2; byte 1536, the first
    one of the frame behind them, is overwritten although it belongs to
    somebody else. *)
Definition data_host : Unix.Unix :=
  host [NOFFMAGIC; 0; 40; 4; 512; 44; 4; 0; 0; 0] (replicate 1600 7).
Definition data_loader : Loader BitMap.BitMap :=
  mkLoader (BitMap.mkBitMap 128 4 [8; 0; 0; 0]) ∅ 1.

Lemma data_segment_overruns_frames :
  ∃ s st', AddrSpace_new no_space [] data_host (Some exe) data_loader = Ok (s, st') ∧
           frames s = [0; 1; 2] ∧ memory st' !! 1536 = Some 7.
Proof.
  assert (match AddrSpace_new no_space [] data_host (Some exe) data_loader with
          | Ok (s, st') => frames s = [0; 1; 2] ∧ memory st' !! 1536 = Some 7
          | Stop _ => False end) as Hrun by (vm_compute; split; reflexivity).
  destruct (AddrSpace_new no_space [] data_host (Some exe) data_loader) as [[s st']|]; [|done].
  by exists s, st'.
Qed.

(** The kernel makes [gPhysPageBitMap] with 256 bits for 128 physical pages
    (threads/system.cc, line 163): once the first 128 are used, programs are
    copied behind the end of the physical memory. *)
Lemma frames_beyond_memory :
  AddrSpace_new no_space [] sample_host (Some exe)
    (mkLoader (BitMap.mkBitMap 256 8 (replicate 4 4294967295 ++ replicate 4 0)) ∅ 1) = Stop Undefined.
Proof. vm_compute. reflexivity. Qed.

(** The other constructor, short of memory, deletes the file twice. *)
Lemma no_memory_double_delete :
  AddrSpace_new_name no_space [] 0
    (StubFS.mkFileSystem [] (Unix.mkUnix (Unix.inodes sample_host) {[ [97] := 0 ]} 1 ∅)) [97]
    (mkLoader (BitMap.mkBitMap 32 1 [4294967295]) ∅ 1) = Stop Undefined.
Proof. vm_compute. reflexivity. Qed.
End AddrSpaceSpec.
