(* ===== verification/Coff2noff.v ===== *)
(** * The object file converter (bin/coff2noff.c, coff.h, noff.h)

    The tool that turns the COFF file of the linker into the NOFF file that the
    kernel loads: it copies the text and data sections behind each other and
    describes them in a header.

    The input is a list of bytes and a position; the output, too.  [exit(1)],
    which removes the output file, is [Stop Halted].  Only the fields that the
    tool looks at are kept of the COFF headers. *)

From S2P Require Import Prelude NList Bitmap Machine Interrupt Disk FileHdr OpenFile Directory FileSys UnixFS AddrSpace.
#[global] Open Scope Z_scope.

Module Coff.

(** ** COFF headers (coff.h), as the i386 host lays them out *)

Definition MIPSELMAGIC : Z := 0x0162.
Definition OMAGIC : Z := 263.       (* 0407 *)

Record filehdr := mkFilehdr { f_magic : Z; f_nscns : Z }.
Record aouthdr := mkAouthdr { magic : Z }.
Record scnhdr := mkScnhdr { s_name : list Z; s_paddr : Z; s_size : Z; s_scnptr : Z }.

Definition sizeof_filehdr : Z := 20.
Definition sizeof_aouthdr : Z := 56.
Definition sizeof_scnhdr : Z := 40.

Definition ushort_at (bs : list Z) (off : nat) : Z := le_value (take 2 (drop off bs)).
Definition short_at (bs : list Z) (off : nat) : Z :=
  let v := ushort_at bs off in if v <? 32768 then v else v - 65536.
Definition long_at (bs : list Z) (off : nat) : Z := s32 (le_value (take 4 (drop off bs))).

Definition filehdr_of (bs : list Z) : filehdr := mkFilehdr (ushort_at bs 0) (ushort_at bs 2).
Definition aouthdr_of (bs : list Z) : aouthdr := mkAouthdr (short_at bs 0).
Definition scnhdr_of (bs : list Z) : scnhdr :=
  mkScnhdr (take 8 bs) (long_at bs 8) (long_at bs 16) (long_at bs 20).

(** ** Files *)

(** [Read]: the bytes and the position behind them. *)
Definition Read (file : list Z) (pos nBytes : Z) : res (list Z * Z) :=
  if nBytes <? 0 then Stop Undefined
  else
    let bs := take (Z.to_nat nBytes) (drop (Z.to_nat pos) file) in
    if negb (Z.of_nat (length bs) =? nBytes) then Stop Halted else Ok (bs, pos + nBytes).

(** [Write], which finds room on the disk. *)
Definition Write (file : list Z) (pos : Z) (bs : list Z) : list Z * Z :=
  (Unix.splice file (Z.to_nat pos) bs, pos + Z.of_nat (length bs)).

(** [lseek(fd, offset, 0)]; it refuses a negative offset. *)
Definition lseek (pos offset : Z) : Z := if offset <? 0 then pos else offset.

(** ** Conversion *)

(** The header to be written, the local variable [inNoffFile] and the two open
    files. *)
Record Conv := mkConv {
  noffH : NoffHeader;
  inNoffFile : Z;
  posIn : Z;
  out : list Z;
  posOut : Z;
}.

Definition set_code (h : NoffHeader) (s : Segment) : NoffHeader := mkNoff (noffMagic h) s (initData h) (uninitData h).
Definition set_initData (h : NoffHeader) (s : Segment) : NoffHeader := mkNoff (noffMagic h) (AddrSpace.code h) s (uninitData h).
Definition set_uninitData (h : NoffHeader) (s : Segment) : NoffHeader := mkNoff (noffMagic h) (AddrSpace.code h) (initData h) s.
Definition set_noffH (c : Conv) (h : NoffHeader) : Conv := mkConv h (inNoffFile c) (posIn c) (out c) (posOut c).

(** [!strcmp(s_name, name)], for names shorter than the array. *)
Definition named (s : scnhdr) (name : String.string) : bool :=
  bool_decide (Directory.until_nul (s_name s) = chars name).
Definition is_text (s : scnhdr) : bool := named s ".text".
Definition is_data (s : scnhdr) : bool := named s ".data" || named s ".rdata".
Definition is_bss (s : scnhdr) : bool := named s ".bss" || named s ".sbss".

(** The six statements that copy a section. *)
Definition copy_section (coff : list Z) (s : scnhdr) (c : Conv) : res Conv :=
  let p := lseek (posIn c) (s_scnptr s) in
  '(buffer, p) ← Read coff p (s_size s);
  let '(o, q) := Write (out c) (posOut c) buffer in
  Ok (mkConv (noffH c) (s32 (inNoffFile c + s_size s)) p o q).

(** The body of the loop over the sections. *)
Definition convert_section (coff : list Z) (s : scnhdr) (c : Conv) : res Conv :=
  let h := noffH c in
  let segment := mkSegment (s_paddr s) (inNoffFile c) (s_size s) in
  if s_size s =? 0 then Ok c
  else if is_text s then copy_section coff s (set_noffH c (set_code h segment))
  else if is_data s then
    if negb (seg_size (initData h) =? 0) then Stop Halted
    else copy_section coff s (set_noffH c (set_initData h segment))
  else if is_bss s then
    let d := uninitData h in
    if negb (seg_size d =? 0) then
      if s_paddr s =? s32 (virtualAddr d + seg_size d) then Stop Halted
      else Ok (set_noffH c (set_uninitData h (mkSegment (virtualAddr d) (inFileAddr d) (s32 (seg_size d + s_size s)))))
    else Ok (set_noffH c (set_uninitData h (mkSegment (s_paddr s) (inFileAddr d) (s_size s))))
  else Stop Halted.

Fixpoint convert_sections (coff : list Z) (l : list scnhdr) (c : Conv) : res Conv :=
  match l with
  | [] => Ok c
  | s :: l => c ← convert_section coff s c; convert_sections coff l c
  end.

(** The section headers, brought into the order of the host. *)
Definition swap_section (s : scnhdr) : scnhdr :=
  mkScnhdr (s_name s) (to_host (s_paddr s)) (to_host (s_size s)) (to_host (s_scnptr s)).
Definition section_table (n : nat) (bs : list Z) : list scnhdr :=
  (λ i, scnhdr_of (take (Z.to_nat sizeof_scnhdr) (drop (i * Z.to_nat sizeof_scnhdr) bs))) <$> seq 0 n.

(** The ten words of a NOFF header. *)
Definition segment_words (s : Segment) : list Z := [virtualAddr s; inFileAddr s; seg_size s].
Definition noff_bytes (h : NoffHeader) : list Z :=
  concat (le_bytes 4 <$>
    noffMagic h :: segment_words (AddrSpace.code h) ++ segment_words (initData h) ++ segment_words (uninitData h)).

(** The headers of the input: the sections and the position behind them. *)
Definition read_headers (coff : list Z) : res (list scnhdr * Z) :=
  '(bs, p) ← Read coff 0 sizeof_filehdr;
  let fileh := filehdr_of bs in
  let f_magic := ShortToHost HOST_IS_BIG_ENDIAN (f_magic fileh) in
  let numsections := ShortToHost HOST_IS_BIG_ENDIAN (f_nscns fileh) in
  if negb (f_magic =? MIPSELMAGIC) then Stop Halted
  else
    '(bs, p) ← Read coff p sizeof_aouthdr;
    if negb (ShortToHost HOST_IS_BIG_ENDIAN (magic (aouthdr_of bs)) =? OMAGIC) then Stop Halted
    else
      '(bs, p) ← Read coff p (numsections * sizeof_scnhdr);
      Ok (swap_section <$> section_table (Z.to_nat numsections) bs, p).

(** [main], from the opened files on: the contents of the output file.
    [garbage] is what the uninitialised header holds. *)
Definition main (garbage : NoffHeader) (coff : list Z) : res (list Z) :=
  '(sections, p) ← read_headers coff;
  let clear s := mkSegment (virtualAddr s) (inFileAddr s) 0 in
  let noffH := mkNoff NOFFMAGIC (clear (AddrSpace.code garbage)) (clear (initData garbage)) (clear (uninitData garbage)) in
  let inNoffFile := noff_size in
  c ← convert_sections coff sections (mkConv noffH inNoffFile p [] (lseek 0 inNoffFile));
  Ok (fst (Write (out c) 0 (noff_bytes (Coff.noffH c)))).
End Coff.

(** ** What the conversion keeps *)

Section conversion.
Import Coff.
Context (coff : list Z).

(** The bytes of section [s] stand in [o] where the segment says. *)
Record placed (o : list Z) (sg : Segment) (s : scnhdr) : Prop := mkPlaced {
  pl_addr : virtualAddr sg = s_paddr s;
  pl_size : seg_size sg = s_size s;
  pl_pos : 0 < s_size s;
  pl_in : noff_size ≤ inFileAddr sg ∧ inFileAddr sg + s_size s ≤ Z.of_nat (length o);
  pl_bytes : 0 ≤ s_scnptr s → ∀ i, 0 ≤ i < s_size s →
    is_Some (coff !! Z.to_nat (s_scnptr s + i)) ∧
    o !! Z.to_nat (inFileAddr sg + i) = coff !! Z.to_nat (s_scnptr s + i);
}.

(** A segment is empty, or holds one of the sections of its kind. *)
Definition segment_ok (kind : scnhdr → bool) (l : list scnhdr) (o : list Z) (sg : Segment) : Prop :=
  (seg_size sg = 0 ∧ ∀ s, s ∈ l → kind s = true → s_size s = 0) ∨
  (∃ s, s ∈ l ∧ kind s = true ∧ placed o sg s).

Definition bss_size (l : list scnhdr) : Z := foldr (λ s n, n + (if is_bss s then s_size s else 0)) 0 l.

(** The two positions, and the output in front of them. *)
Record files_ok (c : Conv) : Prop := mkFilesOk {
  fo_pos : noff_size ≤ posOut c;
  fo_in : inNoffFile c = s32 (posOut c);
  fo_out : out c = [] ∧ posOut c = noff_size ∨ Z.of_nat (length (out c)) = posOut c;
  fo_magic : noffMagic (noffH c) = NOFFMAGIC;
}.

(** After the sections [l]; the positions in the header are [int]s, so they are
    right while the output is below 2 GB. *)
Record converted (l : list scnhdr) (c : Conv) : Prop := mkConverted {
  cv_files : files_ok c;
  cv_code : posOut c < two31 → segment_ok is_text l (out c) (AddrSpace.code (noffH c));
  cv_data : posOut c < two31 → segment_ok is_data l (out c) (initData (noffH c));
  cv_kinds : Forall (λ s, s_size s = 0 ∨ is_text s || is_data s || is_bss s = true) l;
}.

Lemma segment_ok_more kind l o sg s :
  s_size s = 0 ∨ kind s = false → segment_ok kind l o sg → segment_ok kind (l ++ [s]) o sg.
Proof using Type.
  intros Hs [[Hz Hall]|(s' & Hin & Hk & Hp)].
  - left. split; [done|]. intros s' Hin Hk. apply elem_of_app in Hin as [Hin|Hin]; [by apply Hall|].
    apply list_elem_of_singleton in Hin as ->. destruct Hs as [|Hs]; congruence.
  - right. exists s'. split; [|done]. set_solver.
Qed.

(** Appending to the output moves nothing. *)
Lemma splice_end (o bs : list Z) (p : nat) :
  (length o ≤ p)%nat → Unix.splice o p bs = o ++ replicate (p - length o) 0 ++ bs.
Proof using Type.
  intros Hp. unfold Unix.splice. rewrite (drop_ge o) by lia. rewrite app_nil_r, app_assoc. f_equal.
  rewrite take_app_ge by done. f_equal. rewrite take_replicate. f_equal. lia.
Qed.

Lemma segment_ok_app kind l o o' sg : segment_ok kind l o sg → segment_ok kind l (o ++ o') sg.
Proof using Type.
  intros [|(s & Hin & Hk & [Ha Hs Hp [Hi1 Hi2] Hb])]; [by left|]. right. exists s. split; [done|]. split; [done|].
  split; try done.
  - rewrite length_app. lia.
  - intros H0 i Hi. destruct (Hb H0 i Hi) as [Hx Heq]. split; [done|]. rewrite lookup_app_l; [done|].
    unfold noff_size in *. lia.
Qed.

(** The output after a section is copied. *)
Lemma copy_section_spec s c c' :
  s_size s ≠ 0 → copy_section coff s c = Ok c' → files_ok c →
  noffH c' = noffH c ∧ posOut c ≤ posOut c' ∧ files_ok c' ∧ (∃ rest, out c' = out c ++ rest) ∧
  (posOut c' < two31 → placed (out c') (mkSegment (s_paddr s) (inNoffFile c) (s_size s)) s).
Proof using Type.
  intros Hnz E [Hpos Hin Hout Hmg]. unfold copy_section, Read, Write in E. unfold noff_size in *.
  destruct (Z.ltb_spec (s_size s) 0) as [|Hge]; [discriminate E|].
  set (p := lseek (posIn c) (s_scnptr s)) in *. set (bs := take _ _) in *.
  destruct (Z.eqb_spec (Z.of_nat (length bs)) (s_size s)) as [Hl|]; [|discriminate E]. injection E as <-. simpl.
  assert (length (out c) ≤ Z.to_nat (posOut c))%nat as Hle by (destruct Hout as [[-> _]|]; simpl; lia).
  rewrite splice_end by done.
  assert (Z.of_nat (length (out c ++ replicate (Z.to_nat (posOut c) - length (out c)) 0)) = posOut c) as Hpre.
  { rewrite length_app, length_replicate. lia. }
  rewrite Hl. split; [done|]. split; [lia|]. split.
  { split; simpl; unfold noff_size; [lia| |right|done].
    - rewrite Hin. unfold s32, two31, two32. Z.div_mod_to_equations. lia.
    - rewrite !length_app, length_replicate in *. lia. }
  split; [by eexists|].
  intros Hsmall. rewrite (app_assoc (out c)). set (pre := out c ++ _) in *.
  assert (inNoffFile c = posOut c) as Hinp by (rewrite Hin; apply s32_small; unfold is_s32, two31 in *; lia).
  split; simpl; rewrite ?Hinp; try lia.
  - unfold noff_size. rewrite length_app. lia.
  - intros H0 i Hi. unfold bs, p, lseek in *. rewrite (proj2 (Z.ltb_ge _ 0) H0) in *.
    rewrite lookup_app_r by lia. replace (Z.to_nat (posOut c + i) - length pre)%nat with (Z.to_nat i) by lia.
    rewrite lookup_take_lt, lookup_drop by lia. rewrite length_take, length_drop in Hl.
    replace (Z.to_nat (s_scnptr s) + Z.to_nat i)%nat with (Z.to_nat (s_scnptr s + i)) by lia.
    split; [|done]. apply lookup_lt_is_Some. lia.
Qed.

(** The header is rewritten between two sections. *)
Lemma files_ok_noffH c h : files_ok c → noffMagic h = NOFFMAGIC → files_ok (set_noffH c h).
Proof using Type. by intros []. Qed.

Lemma convert_section_spec l s c c' :
  convert_section coff s c = Ok c' → converted l c → posOut c ≤ posOut c' ∧ converted (l ++ [s]) c'.
Proof using Type.
  intros E [Hf Hc Hd Hk]. unfold convert_section in E.
  destruct (Z.eqb_spec (s_size s) 0) as [Hz|Hnz].
  { injection E as <-. split; [done|]. split; [done|..].
    - intros Hp. apply segment_ok_more; auto.
    - intros Hp. apply segment_ok_more; auto.
    - apply Forall_app. split; [done|]. constructor; auto. }
  assert (∀ h c', copy_section coff s (set_noffH c h) = Ok c' → noffMagic h = NOFFMAGIC →
    noffH c' = h ∧ posOut c ≤ posOut c' ∧ files_ok c' ∧ (∃ rest, out c' = out c ++ rest) ∧
    (posOut c' < two31 → placed (out c') (mkSegment (s_paddr s) (inNoffFile c) (s_size s)) s)) as Hcopy.
  { intros h c1 E1 Hm. apply (copy_section_spec s _ c1 Hnz E1). by apply files_ok_noffH. }
  assert (∀ b : bool, b = true → is_text s || is_data s || is_bss s = b → 
    Forall (λ s, s_size s = 0 ∨ is_text s || is_data s || is_bss s = true) (l ++ [s])) as Hkinds.
  { intros b -> Hb. apply Forall_app. split; [done|]. constructor; auto. }
  destruct (is_text s) eqn:Et.
  { destruct (Hcopy _ _ E (fo_magic c Hf)) as (Hh & Hle & Hf' & [rest Hr] & Hpl).
    split; [done|]. split; [done|..|by eapply Hkinds].
    - intros Hp. right. exists s. split; [set_solver|]. split; [done|]. rewrite Hh. by apply Hpl.
    - intros Hp. rewrite Hh, Hr. apply segment_ok_app, segment_ok_more; [|by apply Hd; lia]. right.
      revert Et. unfold is_text, is_data, named. intros Et%bool_decide_eq_true. rewrite Et. done. }
  destruct (is_data s) eqn:Ed.
  { destruct (negb (seg_size (initData (noffH c)) =? 0)) eqn:Ez; [done|].
    destruct (Hcopy _ _ E (fo_magic c Hf)) as (Hh & Hle & Hf' & [rest Hr] & Hpl).
    split; [done|]. split; [done|..|by eapply Hkinds].
    - intros Hp. rewrite Hh, Hr. apply segment_ok_app, segment_ok_more; [by right|]. apply Hc. lia.
    - intros Hp. right. exists s. split; [set_solver|]. split; [done|]. rewrite Hh. by apply Hpl. }
  destruct (is_bss s) eqn:Eb; [|done].
  assert (∃ d, c' = set_noffH c (set_uninitData (noffH c) d)) as [d ->].
  { destruct (negb _); [destruct (_ =? _); [done|]|]; injection E as <-; by eexists. }
  split; [done|]. split; [by apply files_ok_noffH, Hf|..|by eapply Hkinds]; intros Hp;
    (apply segment_ok_more; [by right|]); [by apply Hc|by apply Hd].
Qed.

Lemma convert_sections_spec l0 l c c' :
  convert_sections coff l c = Ok c' → converted l0 c → posOut c ≤ posOut c' ∧ converted (l0 ++ l) c'.
Proof using Type.
  revert l0 c. induction l as [|s l IH]; intros l0 c E Hc.
  - injection E as <-. by rewrite app_nil_r.
  - cbn [convert_sections] in E. apply bind_ok in E as (c1 & E1 & E).
    destruct (convert_section_spec l0 s c c1 E1 Hc) as [Hle Hc1].
    destruct (IH _ _ E Hc1) as [Hle' Hc']. rewrite <- app_assoc in Hc'. split; [lia|exact Hc'].
Qed.

(** *** The header *)

Definition header_words (h : NoffHeader) : list Z :=
  noffMagic h :: segment_words (AddrSpace.code h) ++ segment_words (initData h) ++ segment_words (uninitData h).
Definition header_ints (h : NoffHeader) : Prop := Forall is_s32 (header_words h).
Definition section_ints (s : scnhdr) : Prop := is_s32 (s_paddr s) ∧ is_s32 (s_size s).

Lemma header_ints_iff h :
  header_ints h ↔ is_s32 (noffMagic h) ∧ Forall is_s32 (segment_words (AddrSpace.code h)) ∧
                  Forall is_s32 (segment_words (initData h)) ∧ Forall is_s32 (segment_words (uninitData h)).
Proof using Type. unfold header_ints, header_words. by rewrite Forall_cons, !Forall_app. Qed.

Lemma segment_ints a f n : Forall is_s32 (segment_words (mkSegment a f n)) ↔ is_s32 a ∧ is_s32 f ∧ is_s32 n.
Proof using Type. unfold segment_words. simpl. rewrite !Forall_cons. rewrite Forall_nil. tauto. Qed.

Lemma convert_section_ints s c c' :
  convert_section coff s c = Ok c' → section_ints s → is_s32 (inNoffFile c) → header_ints (noffH c) →
  is_s32 (inNoffFile c') ∧ header_ints (noffH c').
Proof using Type.
  intros E [Ha Hz] Hin Hh. unfold convert_section in E.
  destruct (s_size s =? 0); [by injection E as <-|].
  assert (∀ h c', copy_section coff s (set_noffH c h) = Ok c' → header_ints h → is_s32 (inNoffFile c') ∧ header_ints (noffH c')) as Hcopy.
  { intros h c1 E1 Hh1. unfold copy_section in E1. apply bind_ok in E1 as ([bs p] & _ & E1).
    injection E1 as <-. split; [apply s32_range|done]. }
  pose proof (proj1 (header_ints_iff _) Hh) as (H1 & H2 & H3 & H4).
  assert (Forall is_s32 (segment_words (mkSegment (s_paddr s) (inNoffFile c) (s_size s)))) as Hsg by by apply segment_ints.
  destruct (is_text s); [apply (Hcopy _ _ E); by apply header_ints_iff|].
  destruct (is_data s).
  { destruct (negb _); [done|]. apply (Hcopy _ _ E). by apply header_ints_iff. }
  destruct (is_bss s); [|done].
  destruct (uninitData (noffH c)) as [va fa sz] eqn:Eu. apply segment_ints in H4 as (H4a & H4f & H4s). simpl in E.
  destruct (negb _); [destruct (_ =? _); [done|]|]; injection E as <-; (split; [done|]);
    apply header_ints_iff; simpl; (do 3 (split; [done|])); apply segment_ints; auto using s32_range.
Qed.

Lemma convert_sections_ints l c c' :
  convert_sections coff l c = Ok c' → Forall section_ints l → is_s32 (inNoffFile c) → header_ints (noffH c) →
  header_ints (noffH c').
Proof using Type.
  intros E Hl. revert c E. induction Hl as [|s l Hs _ IH]; intros c E Hin Hh; [by injection E as <-|].
  cbn [convert_sections] in E. apply bind_ok in E as (c1 & E1 & E).
  destruct (convert_section_ints s c c1 E1 Hs Hin Hh). by apply (IH c1).
Qed.

Lemma length_noff_bytes h : length (noff_bytes h) = 40%nat.
Proof using Type. done. Qed.

(** Reading the header back, as the loader does. *)
Lemma noff_of_bytes h rest : header_ints h → noff_of (noff_bytes h ++ rest) = h.
Proof using Type.
  intros Hh. unfold noff_of. change (noff_bytes h) with (concat (le_bytes 4 <$> header_words h)).
  change 10%nat with (length (header_words h)). rewrite FileHdr.words_bytes by exact Hh.
  by destruct h as [mg [] [] []].
Qed.

Lemma read_headers_ints l p : read_headers coff = Ok (l, p) → Forall section_ints l.
Proof using Type.
  unfold read_headers. intros E. apply bind_ok in E as ([bs p1] & _ & E). destruct (negb _); [done|].
  apply bind_ok in E as ([bs2 p2] & _ & E). destruct (negb _); [done|].
  apply bind_ok in E as ([bs3 p3] & _ & E). injection E as <- _.
  apply Forall_fmap, Forall_true. intros s. split; apply s32_range.
Qed.

(** *** The whole program *)

Lemma splice_front (o bs : list Z) : Unix.splice o (Z.to_nat 0) bs = bs ++ drop (length bs) o.
Proof using Type. done. Qed.

(** A segment does not notice the header being written. *)
Lemma segment_ok_header kind l o sg h :
  segment_ok kind l o sg → segment_ok kind l (fst (Write o 0 (noff_bytes h))) sg.
Proof using Type.
  intros [|(s & Hin & Hk & [Ha Hs Hp [Hi1 Hi2] Hb])]; [by left|]. right. exists s. split; [done|]. split; [done|].
  unfold Write. cbn [fst]. rewrite splice_front, length_noff_bytes. unfold noff_size in *. split; try done.
  - rewrite length_app, length_noff_bytes, length_drop. unfold noff_size. lia.
  - intros H0 i Hi. destruct (Hb H0 i Hi) as [Hx Heq]. split; [done|]. rewrite <- Heq.
    rewrite lookup_app_r by (rewrite length_noff_bytes; lia). rewrite lookup_drop, length_noff_bytes. f_equal. lia.
Qed.

Lemma main_spec garbage noff :
  main garbage coff = Ok noff → header_ints garbage → Z.of_nat (length noff) < two31 →
  ∃ l p, read_headers coff = Ok (l, p) ∧ is_program noff (noff_of noff) ∧
    segment_ok is_text l noff (AddrSpace.code (noff_of noff)) ∧
    segment_ok is_data l noff (initData (noff_of noff)) ∧
    Forall (λ s, s_size s = 0 ∨ is_text s || is_data s || is_bss s = true) l.
Proof using Type.
  intros E Hg Hsmall. unfold main in E. apply bind_ok in E as ([l p] & El & E). exists l, p. split; [done|].
  apply bind_ok in E as (c & Ec & E). set (clear := λ s, mkSegment (virtualAddr s) (inFileAddr s) 0) in *.
  set (h0 := mkNoff NOFFMAGIC (clear (AddrSpace.code garbage)) (clear (initData garbage)) (clear (uninitData garbage))) in *.
  set (c0 := mkConv h0 noff_size p [] (lseek 0 noff_size)) in *.
  assert (converted [] c0) as Hc0.
  { split; [split; try done; by left|..|constructor]; intros _; left; (split; [done|]); intros s Hs; by apply elem_of_nil in Hs. }
  destruct (convert_sections_spec [] l c0 c Ec Hc0) as [Hle [Hf Hcode Hdata Hk]].
  assert (header_ints h0) as Hh0.
  { apply header_ints_iff in Hg as (H1 & H2 & H3 & H4). apply header_ints_iff. split; [done|].
    destruct garbage as [mg [a1 f1 s1] [a2 f2 s2] [a3 f3 s3]]. apply segment_ints in H2, H3, H4.
    split_and!; apply segment_ints; simpl; split_and!; try done; tauto. }
  pose proof (convert_sections_ints l c0 c Ec (read_headers_ints l p El) ltac:(done) Hh0) as Hh.
  injection E as <-. unfold Write in Hsmall |- *. cbn [fst] in *.
  assert (noff_of (Unix.splice (out c) (Z.to_nat 0) (noff_bytes (noffH c))) = noffH c) as Ehdr.
  { rewrite splice_front. by apply noff_of_bytes. }
  rewrite Unix.length_splice, length_noff_bytes in Hsmall.
  assert (posOut c < two31) as Hp.
  { destruct (fo_out c Hf) as [[_ ->]|Hp]; [done|]. unfold two31 in *. lia. }
  rewrite Ehdr. split; [split; [|by rewrite Ehdr; split; [|apply Hf]]|].
  { rewrite Unix.length_splice, length_noff_bytes. unfold noff_size. lia. }
  split; [|split; [|exact Hk]].
  - exact (segment_ok_header _ _ _ _ _ (Hcode Hp)).
  - exact (segment_ok_header _ _ _ _ _ (Hdata Hp)).
Qed.
End conversion.

(** ** The properties *)

Module CoffSpec.
Import Coff.

(** Converting keeps the program.  When the tool succeeds, its output (if
    below 2 GB) is an object file for the kernel whose code and data segments
    hold, at the recorded positions and for the recorded addresses, the bytes of
    a text and of a data section of the input, or are empty because the input
    has none; and every section with contents was text, data or bss. *)
Theorem conversion_keeps_sections garbage coff noff :
  main garbage coff = Ok noff → header_ints garbage → Z.of_nat (length noff) < two31 →
  ∃ l p, read_headers coff = Ok (l, p) ∧ is_program noff (noff_of noff) ∧
    segment_ok coff is_text l noff (AddrSpace.code (noff_of noff)) ∧
    segment_ok coff is_data l noff (initData (noff_of noff)) ∧
    Forall (λ s, s_size s = 0 ∨ is_text s || is_data s || is_bss s = true) l.
Proof. apply main_spec. Qed.

Section loading.
Context {T : Type} `{FreeMapLaws T}.

(** C36. From the linker to memory.  A program converted by the tool that has its
    text at address 0 and no initialised data, loaded by the kernel when enough
    frames of the memory are free (whatever the size of the map), sees its text:
    at each virtual address below the size of the text section (and in the
    address space) it finds the byte of the COFF file.  The output of the tool
    must be below 2 GB. *)
Theorem converted_program_loads garbage coff noff garbage_space garbage_hdr u f (st : Loader T) m :
  main garbage coff = Ok noff → header_ints garbage → Z.of_nat (length noff) < two31 →
  Unix.contents u (StubFS.file f) = noff → AddrSpaceSpec.loadable (noff_of noff) st → tlb m = None →
  ∃ l p text s st', read_headers coff = Ok (l, p) ∧ text ∈ l ∧ is_text text = true ∧ s_paddr text = 0 ∧
    AddrSpace_new garbage_space garbage_hdr u (Some f) st = Ok (s, st') ∧
    (0 ≤ s_scnptr text → ∀ va, 0 ≤ va < s_size text → va < numPages s * PageSize →
       ubyte (RestoreState s (with_memory m (memory st'))) va = coff !! Z.to_nat (s_scnptr text + va)).
Proof using Type*.
  intros E Hg Hs Hu Hload Htlb.
  destruct (main_spec coff garbage noff E Hg Hs) as (l & p & El & Hprog & Hcode & _).
  destruct (AddrSpaceSpec.la_code _ _ Hload) as (Hva & _ & Hsz).
  destruct Hcode as [[Hz _]|(text & Hin & Hk & [Ha Hsize _ [Hi1 _] Hb])]; [lia|].
  rewrite <- Hu in Hprog.
  destruct (AddrSpaceSpec.AddrSpace_new_spec garbage_space garbage_hdr u f _ st m Hprog) as
    (s & st' & En & _ & _ & _ & _ & _ & _ & _ & _ & Hbytes & _); [by rewrite Hu|done|].
  exists l, p, text, s, st'. do 5 (split; [by try congruence|]). intros Hptr va Hva1 Hva2.
  destruct (Hb Hptr va Hva1) as [[b Eb] Heq]. rewrite Eb. apply Hbytes; [lia|].
  by rewrite Hu, Heq.
Qed.
End loading.

(** A COFF file with a text section of 5 bytes and a bss section. *)
Definition section (name : String.string) (paddr size scnptr : Z) : list Z :=
  take 8 (chars name ++ replicate 8 0) ++ concat (le_bytes 4 <$> [paddr; paddr; size; scnptr; 0; 0; 0; 0]).
Definition sample_coff : list Z :=
  le_bytes 2 MIPSELMAGIC ++ le_bytes 2 2 ++ replicate 16 0 ++ le_bytes 2 OMAGIC ++ replicate 54 0 ++
  section ".text" 0 5 156 ++ section ".bss" 8 100 0 ++ [1; 2; 3; 4; 5].
Definition sample_garbage : NoffHeader := mkNoff 7 (mkSegment 7 7 7) (mkSegment 7 7 7) (mkSegment 7 7 7).
Definition sample_noff : list Z := match main sample_garbage sample_coff with Ok bs => bs | Stop _ => [] end.

Lemma garbage_ints : header_ints sample_garbage.
Proof. apply (bool_decide_unpack _). vm_compute. reflexivity. Qed.

Lemma conversion_keeps_sections_witness :
  ∃ l p, read_headers sample_coff = Ok (l, p) ∧ is_program sample_noff (noff_of sample_noff) ∧
    segment_ok sample_coff is_text l sample_noff (mkSegment 0 40 5).
Proof.
  destruct (conversion_keeps_sections sample_garbage sample_coff sample_noff) as (l & p & E & Hp & Hc & _).
  - vm_compute. reflexivity.
  - exact garbage_ints.
  - vm_compute. reflexivity.
  - exists l, p. split; [exact E|]. split; [exact Hp|exact Hc].
Defined.

Definition sample_unix : Unix.Unix := Unix.mkUnix {[ 0 := sample_noff ]} ∅ 1 ∅.

Lemma converted_program_loads_witness :
  ∃ s st', AddrSpace_new AddrSpaceSpec.no_space [] sample_unix (Some AddrSpaceSpec.exe) AddrSpaceSpec.sample_loader = Ok (s, st').
Proof.
  destruct (converted_program_loads sample_garbage sample_coff sample_noff AddrSpaceSpec.no_space [] sample_unix
    AddrSpaceSpec.exe AddrSpaceSpec.sample_loader Machine_new) as (l & p & text & s & st' & _ & _ & _ & _ & E & _).
  - vm_compute. reflexivity.
  - exact garbage_ints.
  - vm_compute. reflexivity.
  - reflexivity.
  - split; [exact AddrSpaceSpec.sample_map_wf|vm_compute; reflexivity
           |vm_compute; discriminate|split; [reflexivity|split; vm_compute; [discriminate|reflexivity]]
           |split; vm_compute; [discriminate|reflexivity]|vm_compute; discriminate].
  - reflexivity.
  - exists s, st'. exact E.
Defined.

(** The test of the two uninitialised sections is the wrong way round: adjacent
    sections are refused, and sections with a gap between them are merged as if
    there was none. *)
Definition two_bss (second : Z) : list Z :=
  le_bytes 2 MIPSELMAGIC ++ le_bytes 2 2 ++ replicate 16 0 ++ le_bytes 2 OMAGIC ++ replicate 54 0 ++
  section ".sbss" 0 16 0 ++ section ".bss" second 16 0.

Lemma adjacent_bss_refused :
  main sample_garbage (two_bss 16) = Stop Halted ∧
  (λ bs, uninitData (noff_of bs)) <$> (match main sample_garbage (two_bss 4096) with Ok bs => Some bs | Stop _ => None end)
  = Some (mkSegment 0 7 32).
Proof. split; vm_compute; reflexivity. Qed.
End CoffSpec.
