(* ===== verification/Coff2flat.v ===== *)
(** * The flat file converter (bin/coff2flat.c)

    The tool that turns a COFF file into an image of memory, with a stack
    behind it.  [Read], [Write] and the headers are those of coff2noff.c, word
    for word, but nothing is brought into the byte order of the host.  The
    messages it prints are left out. *)

From S2P Require Import Prelude NList Bitmap Machine Interrupt Disk FileHdr OpenFile Directory FileSys UnixFS AddrSpace Coff2noff.

Module Flat.
Import Coff.

Definition StackSize : Z := 1024.

(** The input position, the output file and its position, and [top]. *)
Record Copy := mkCopy { posIn : Z; out : list Z; posOut : Z; top : Z }.

(** The body of the loop over the sections. *)
Definition copy_section (coff : list Z) (s : scnhdr) (c : Copy) : res Copy :=
  let section_end := s32 (s_paddr s + s_size s) in
  let top' := if section_end >? top c then section_end else top c in
  if is_bss s then Ok (mkCopy (posIn c) (out c) (posOut c) top')
  else
    let p := lseek (posIn c) (s_scnptr s) in
    '(buffer, p) ← Read coff p (s_size s);
    let '(o, q) := Write (out c) (posOut c) buffer in
    Ok (mkCopy p o q top').

Fixpoint copy_sections (coff : list Z) (l : list scnhdr) (c : Copy) : res Copy :=
  match l with
  | [] => Ok c
  | s :: l => c ← copy_section coff s c; copy_sections coff l c
  end.

Definition read_headers (coff : list Z) : res (list scnhdr * Z) :=
  '(bs, p) ← Read coff 0 sizeof_filehdr;
  let fileh := filehdr_of bs in
  if negb (f_magic fileh =? MIPSELMAGIC) then Stop Halted
  else
    '(bs, p) ← Read coff p sizeof_aouthdr;
    if negb (magic (aouthdr_of bs) =? OMAGIC) then Stop Halted
    else
      '(bs, p) ← Read coff p (f_nscns fileh * sizeof_scnhdr);
      Ok (section_table (Z.to_nat (f_nscns fileh)) bs, p).

(** [main], from the opened files on: the contents of the flat file. *)
Definition main (coff : list Z) : res (list Z) :=
  '(sections, p) ← read_headers coff;
  c ← copy_sections coff sections (mkCopy p [] 0 0);
  let q := lseek (posOut c) (s32 (top c + StackSize - 4)) in
  Ok (fst (Write (out c) q (le_bytes 4 0))).
End Flat.

(** ** The image *)

Section image.
Import Coff Flat.
Context (coff : list Z).

(** The sections follow each other from address [a] on, as the linker lays
    them out with -N -T 0; uninitialised sections come last. *)
Fixpoint packed (a : Z) (l : list scnhdr) : Prop :=
  match l with
  | [] => True
  | s :: l =>
      0 ≤ s_size s ∧ 0 ≤ s_paddr s ∧ s_paddr s + s_size s + StackSize < two31 ∧
      (if is_bss s then packed a l else 0 ≤ s_scnptr s ∧ s_paddr s = a ∧ packed (a + s_size s) l)
  end.

(** The end of the last section. *)
Definition last_address (l : list scnhdr) : Z := foldr (λ s a, Z.max (s_paddr s + s_size s) a) 0 l.

(** The sections of [l] stand at their addresses in [o]. *)
Definition at_addresses (l : list scnhdr) (o : list Z) : Prop :=
  ∀ s i, s ∈ l → is_bss s = false → 0 ≤ i < s_size s →
    is_Some (coff !! Z.to_nat (s_scnptr s + i)) ∧
    o !! Z.to_nat (s_paddr s + i) = coff !! Z.to_nat (s_scnptr s + i).

Lemma at_addresses_app l o o' : at_addresses l o → at_addresses l (o ++ o').
Proof using Type.
  intros Ha s i Hs Hb Hi. destruct (Ha s i Hs Hb Hi) as [[b Hx] Heq]. split; [by eexists|].
  rewrite lookup_app_l; [done|]. rewrite Hx in Heq. by eapply lookup_lt_Some.
Qed.

Lemma copy_sections_spec l : ∀ done c c',
  copy_sections coff l c = Ok c' → packed (posOut c) l → posOut c = Z.of_nat (length (out c)) →
  0 ≤ top c → posOut c ≤ top c → top c + StackSize < two31 → at_addresses done (out c) →
  posOut c' = Z.of_nat (length (out c')) ∧ posOut c' ≤ top c' ∧
  top c' = Z.max (top c) (last_address l) ∧ top c' + StackSize < two31 ∧ at_addresses (done ++ l) (out c').
Proof using Type.
  induction l as [|s l IH]; intros done c c' E Hp Hlen H0 Hle Hmax Hdone.
  - injection E as <-. rewrite app_nil_r. split_and!; try done. unfold last_address. simpl. lia.
  - cbn [copy_sections] in E. apply bind_ok in E as (c1 & E1 & E). destruct Hp as (Hs & Ha & Hend & Hp).
    unfold copy_section in E1. rewrite s32_small in E1 by (unfold is_s32, two31, StackSize in *; lia).
    rewrite Z.gtb_ltb in E1.
    assert ((if top c <? s_paddr s + s_size s then s_paddr s + s_size s else top c)
      = Z.max (top c) (s_paddr s + s_size s)) as Emax by (destruct (Z.ltb_spec (top c) (s_paddr s + s_size s)); lia).
    rewrite Emax in E1. destruct (is_bss s) eqn:Eb.
    + injection E1 as <-. destruct (IH (done ++ [s]) _ _ E) as (G1 & G2 & G3 & G4 & G5); simpl; try done; try lia.
      { intros s' i Hs' Hb' Hi. apply elem_of_app in Hs' as [Hs'|Hs']; [by apply Hdone|].
        apply list_elem_of_singleton in Hs' as ->. congruence. }
      rewrite <- app_assoc in G5. split_and!; try done. rewrite G3. simpl. lia.
    + destruct Hp as (Hptr & Haddr & Hp). unfold lseek, Read in E1.
      rewrite (proj2 (Z.ltb_ge _ 0) Hptr), (proj2 (Z.ltb_ge _ 0) Hs) in E1.
      set (bs := take _ _) in *. destruct (Z.eqb_spec (Z.of_nat (length bs)) (s_size s)) as [Hl|]; [|done].
      cbn [negb] in E1. simpl_res. unfold Write in E1. injection E1 as <-.
      assert (Unix.splice (out c) (Z.to_nat (posOut c)) bs = out c ++ bs) as Eout.
      { rewrite splice_end by lia. by replace (Z.to_nat (posOut c) - length (out c))%nat with 0%nat by lia. }
      rewrite Eout in E.
      destruct (IH (done ++ [s]) _ _ E) as (G1 & G2 & G3 & G4 & G5); simpl; try lia.
      { by rewrite Hl. }
      { rewrite length_app. lia. }
      { intros s' i Hs' Hb' Hi. apply elem_of_app in Hs' as [Hs'|Hs']; [by apply (at_addresses_app done)|].
        apply list_elem_of_singleton in Hs' as ->.
        replace (Z.to_nat (s_scnptr s + i)) with (Z.to_nat (s_scnptr s) + Z.to_nat i)%nat by lia.
        rewrite lookup_app_r by lia.
        replace (Z.to_nat (s_paddr s + i) - length (out c))%nat with (Z.to_nat i) by lia.
        unfold bs in *. rewrite lookup_take_lt, lookup_drop by lia. split; [|done].
        apply lookup_lt_is_Some. rewrite length_take, length_drop in Hl. lia. }
      rewrite <- app_assoc in G5. split_and!; try done. rewrite G3. simpl. lia.
Qed.
End image.

(** ** The properties *)

Module FlatSpec.
Import Coff Flat.

(** The flat file is the image of memory.  When the sections of the object
    file are packed from address 0 on and the conversion succeeds, the byte of
    the file at each address of a text or data section is the byte of that
    section, the file ends one stack behind the last section, and everything
    behind the contents (uninitialised data and the stack) is zero. *)
Theorem flat_file_is_image coff l p flat :
  read_headers coff = Ok (l, p) → packed 0 l → main coff = Ok flat →
  at_addresses coff l flat ∧ Z.of_nat (length flat) = last_address l + StackSize ∧
  ∃ contents, contents `prefix_of` flat ∧
    Z.of_nat (length contents) ≤ last_address l ∧
    Forall (λ b, b = 0) (drop (length contents) flat).
Proof.
  intros El Hp E. unfold main in E. rewrite El in E. simpl_res. apply bind_ok in E as (c & Ec & E).
  destruct (copy_sections_spec coff l [] _ _ Ec Hp) as (G1 & G2 & G3 & G4 & G5); try done.
  { intros s i Hs. by apply elem_of_nil in Hs. }
  injection E as <-. simpl in G3, G5. unfold StackSize in *.
  assert (top c = last_address l) as Htop.
  { assert (0 ≤ last_address l) by (clear; induction l; simpl; lia). lia. }
  rewrite s32_small by (unfold is_s32, two31 in *; lia). unfold lseek.
  rewrite (proj2 (Z.ltb_ge (top c + 1024 - 4) 0)) by lia. unfold Write. cbn [fst].
  rewrite splice_end by lia. split; [by apply at_addresses_app|]. split.
  - rewrite !length_app, length_replicate. simpl. lia.
  - exists (out c). split; [by eexists|]. split; [lia|]. rewrite drop_app_length.
    apply Forall_app. split; [by apply Forall_replicate|by repeat constructor].
Qed.

(** A text section of 4 bytes at 0, a data section of 2 bytes behind it, and 6
    bytes of uninitialised data. *)
Definition sample_coff (data_at : Z) : list Z :=
  le_bytes 2 MIPSELMAGIC ++ le_bytes 2 3 ++ replicate 16 0 ++ le_bytes 2 OMAGIC ++ replicate 54 0 ++
  CoffSpec.section ".text" 0 4 196 ++ CoffSpec.section ".data" data_at 2 200 ++
  CoffSpec.section ".bss" 6 6 0 ++ [1; 2; 3; 4; 5; 6].

Lemma flat_file_is_image_witness :
  ∃ l p flat, read_headers (sample_coff 4) = Ok (l, p) ∧ packed 0 l ∧ main (sample_coff 4) = Ok flat ∧
    take 8 flat = [1; 2; 3; 4; 5; 6; 0; 0] ∧ Z.of_nat (length flat) = last_address l + StackSize.
Proof.
  destruct (read_headers (sample_coff 4)) as [[l p]|] eqn:El; [|vm_compute in El; discriminate].
  destruct (main (sample_coff 4)) as [flat|] eqn:Em; [|vm_compute in Em; discriminate].
  exists l, p, flat. split; [reflexivity|].
  assert (packed 0 l) as Hp.
  { vm_compute in El. injection El as <- _. repeat split; vm_compute; (reflexivity || discriminate). }
  split; [exact Hp|]. split; [reflexivity|].
  destruct (flat_file_is_image (sample_coff 4) l p flat El Hp Em) as (_ & Hl & _).
  split; [vm_compute in Em; injection Em as <-; reflexivity|exact Hl].
Defined.

(** Sections with a gap between them are not put at their addresses: the data
    section that belongs at 4096 stands directly behind the text. *)
Lemma gap_is_dropped :
  (take 8 <$> match main (sample_coff 4096) with Ok bs => Some bs | Stop _ => None end)
  = Some [1; 2; 3; 4; 5; 6; 0; 0].
Proof. vm_compute. reflexivity. Qed.
End FlatSpec.
