(* ===== verification/Switch.v ===== *)
(** * The context switch of the host (threads/switch.c)

    The routines [SWITCH] and [ThreadRoot] as the configuration for the Intel
    386 has them, over the part of the instruction set that they use, and
    [Thread::StackAllocate], which makes a thread that [SWITCH] can start.  What
    is shown of them is what Thread.v takes the context switch to be. *)

From S2P Require Import Prelude.

Module Switch.

(** ** Offsets in a Thread object (threads/switch.h) *)

Definition _ESP : Z := 0.
Definition _EAX : Z := 4.
Definition _EBX : Z := 8.
Definition _ECX : Z := 12.
Definition _EDX : Z := 16.
Definition _EBP : Z := 20.
Definition _ESI : Z := 24.
Definition _EDI : Z := 28.
Definition _PC : Z := 32.

Definition PCState : Z := _PC / 4 - 1.
Definition FPState : Z := _EBP / 4 - 1.
Definition InitialPCState : Z := _ESI / 4 - 1.
Definition InitialArgState : Z := _EDX / 4 - 1.
Definition WhenDonePCState : Z := _EDI / 4 - 1.
Definition StartupPCState : Z := _ECX / 4 - 1.

(** ** The processor *)

Inductive reg := EAX | EBX | ECX | EDX | ESI | EDI | EBP | ESP.

(** Memory is made of words at addresses that are multiples of 4; an address
    that is not in the map is not mapped. *)
Record Cpu := mkCpu {
  eax : Z; ebx : Z; ecx : Z; edx : Z; esi : Z; edi : Z; ebp : Z; esp : Z;
  eip : Z;
  mem : gmap Z Z;
}.

Definition get (c : Cpu) (r : reg) : Z :=
  match r with
  | EAX => eax c | EBX => ebx c | ECX => ecx c | EDX => edx c
  | ESI => esi c | EDI => edi c | EBP => ebp c | ESP => esp c
  end.

Definition set (c : Cpu) (r : reg) (v : Z) : Cpu :=
  let '(mkCpu a b cx d si di bp sp pc m) := c in
  match r with
  | EAX => mkCpu v b cx d si di bp sp pc m
  | EBX => mkCpu a v cx d si di bp sp pc m
  | ECX => mkCpu a b v d si di bp sp pc m
  | EDX => mkCpu a b cx v si di bp sp pc m
  | ESI => mkCpu a b cx d v di bp sp pc m
  | EDI => mkCpu a b cx d si v bp sp pc m
  | EBP => mkCpu a b cx d si di v sp pc m
  | ESP => mkCpu a b cx d si di bp v pc m
  end.

Definition with_eip (c : Cpu) (pc : Z) : Cpu :=
  let '(mkCpu a b cx d si di bp sp _ m) := c in mkCpu a b cx d si di bp sp pc m.
Definition with_mem (c : Cpu) (m : gmap Z Z) : Cpu :=
  let '(mkCpu a b cx d si di bp sp pc _) := c in mkCpu a b cx d si di bp sp pc m.

(** [Abs a] is a variable at address [a], [Mem d r] is [d(r)]. *)
Inductive operand := Reg (r : reg) | Mem (disp : Z) (base : reg) | Abs (a : Z).

Inductive instr :=
  | movl (src dst : operand)
  | pushl (src : reg)
  | popl (dst : reg)
  | call (target : reg)
  | ret.

Definition load (c : Cpu) (a : Z) : res Z :=
  if a mod 4 =? 0 then match mem c !! a with Some v => Ok v | None => Stop Undefined end
  else Stop Undefined.
Definition store (c : Cpu) (a v : Z) : res Cpu :=
  _ ← load c a; Ok (with_mem c (<[a := v]> (mem c))).

Definition read_operand (c : Cpu) (o : operand) : res Z :=
  match o with
  | Reg r => Ok (get c r)
  | Mem d r => load c (u32 (get c r + d))
  | Abs a => load c a
  end.
Definition write_operand (c : Cpu) (o : operand) (v : Z) : res Cpu :=
  match o with
  | Reg r => Ok (set c r v)
  | Mem d r => store c (u32 (get c r + d)) v
  | Abs a => store c a v
  end.

Definition push (c : Cpu) (v : Z) : res Cpu :=
  let sp := u32 (esp c - 4) in
  c ← store c sp v; Ok (set c ESP sp).
Definition pop (c : Cpu) : res (Z * Cpu) :=
  v ← load c (esp c); Ok (v, set c ESP (u32 (esp c + 4))).

(** One instruction; the program counter is behind it already. *)
Definition exec (i : instr) (c : Cpu) : res Cpu :=
  match i with
  | movl src dst => v ← read_operand c src; write_operand c dst v
  | pushl r => push c (get c r)
  | popl r => '(v, c) ← pop c; Ok (set c r v)
  | call r => let target := get c r in c ← push c (eip c); Ok (with_eip c target)
  | ret => '(v, c) ← pop c; Ok (with_eip c v)
  end.

(** ** The routines *)

Section routines.
(** Where the linker put the word [_eax_save]. *)
Context (eax_save : Z).

Definition ThreadRoot_call : list instr :=
  [ pushl EBP;
    movl (Reg ESP) (Reg EBP);
    pushl EDX;                            (* InitialArg *)
    call ECX ].                           (* StartupPC *)
Definition ThreadRoot : list instr :=
  ThreadRoot_call ++
  [ call ESI;                             (* InitialPC *)
    call EDI;                             (* WhenDonePC *)
    movl (Reg EBP) (Reg ESP);
    popl EBP;
    ret ].

Definition SWITCH : list instr :=
  [ movl (Reg EAX) (Abs eax_save);        (* save the value of eax *)
    movl (Mem 4 ESP) (Reg EAX);           (* move pointer to t1 into eax *)
    movl (Reg EBX) (Mem _EBX EAX);        (* save registers *)
    movl (Reg ECX) (Mem _ECX EAX);
    movl (Reg EDX) (Mem _EDX EAX);
    movl (Reg ESI) (Mem _ESI EAX);
    movl (Reg EDI) (Mem _EDI EAX);
    movl (Reg EBP) (Mem _EBP EAX);
    movl (Reg ESP) (Mem _ESP EAX);        (* save stack pointer *)
    movl (Abs eax_save) (Reg EBX);        (* get the saved value of eax *)
    movl (Reg EBX) (Mem _EAX EAX);        (* store it *)
    movl (Mem 0 ESP) (Reg EBX);           (* get return address from stack into ebx *)
    movl (Reg EBX) (Mem _PC EAX);         (* save it into the pc storage *)
    movl (Mem 8 ESP) (Reg EAX);           (* move pointer to t2 into eax *)
    movl (Mem _EAX EAX) (Reg EBX);        (* get new value for eax into ebx *)
    movl (Reg EBX) (Abs eax_save);        (* save it *)
    movl (Mem _EBX EAX) (Reg EBX);        (* restore old registers *)
    movl (Mem _ECX EAX) (Reg ECX);
    movl (Mem _EDX EAX) (Reg EDX);
    movl (Mem _ESI EAX) (Reg ESI);
    movl (Mem _EDI EAX) (Reg EDI);
    movl (Mem _EBP EAX) (Reg EBP);
    movl (Mem _ESP EAX) (Reg ESP);        (* restore stack pointer *)
    movl (Mem _PC EAX) (Reg EAX);         (* restore return address into eax *)
    movl (Reg EAX) (Mem 4 ESP);           (* copy over the ret address on the stack *)
    movl (Abs eax_save) (Reg EAX);
    ret ].
End routines.

(** ** Thread::StackAllocate *)

Definition StackSize : Z := 4 * 16384.
Definition STACK_FENCEPOST : Z := 0xdeadbeef.

(** [machineState[i]] of the Thread object [t]; [stackTop] is at [t] itself. *)
Definition machineState (t i : Z) : Z := t + 4 + 4 * i.

(** [stack] is what AllocBoundedArray returned; the last three are addresses
    of routines. *)
Definition StackAllocate (t stack func arg ThreadRoot InterruptEnable ThreadFinish : Z) (c : Cpu) : res Cpu :=
  let stackTop := stack + 4 * (StackSize - 4) in
  c ← store c t stackTop;
  let stackTop := stackTop - 4 in
  c ← store c t stackTop;
  c ← store c stackTop ThreadRoot;
  c ← store c stack STACK_FENCEPOST;
  c ← store c (machineState t PCState) ThreadRoot;
  c ← store c (machineState t StartupPCState) InterruptEnable;
  c ← store c (machineState t InitialPCState) func;
  c ← store c (machineState t InitialArgState) arg;
  store c (machineState t WhenDonePCState) ThreadFinish.

(** ** Running the text of the kernel *)

Section text.
(** The instructions of the kernel by address, and the bytes each one takes. *)
Context (text : gmap Z instr) (bytes : instr → Z).

Definition step (c : Cpu) : res Cpu :=
  match text !! eip c with
  | Some i => exec i (with_eip c (eip c + bytes i))
  | None => Stop Undefined
  end.

Fixpoint run (n : nat) (c : Cpu) : res Cpu :=
  match n with
  | O => Ok c
  | S n' => c ← step c; run n' c
  end.

Lemma run_app_steps n n' c : run (n + n') c = c1 ← run n c; run n' c1.
Proof using Type.
  revert c. induction n as [|n IH]; intros c; [done|]. simpl. destruct (step c); [apply IH|done].
Qed.

(** A routine in the text at address [a]. *)
Fixpoint loaded (a : Z) (l : list instr) : Prop :=
  match l with
  | [] => True
  | i :: l' => text !! a = Some i ∧ loaded (a + bytes i) l'
  end.

(** Instructions that only the last one leaves. *)
Fixpoint block (l : list instr) (c : Cpu) : res Cpu :=
  match l with
  | [] => Ok c
  | i :: l' => c ← exec i (with_eip c (eip c + bytes i)); block l' c
  end.
Definition falls_through (i : instr) : bool := match i with call _ | ret => false | _ => true end.
Fixpoint straight (l : list instr) : bool :=
  match l with
  | [] | [_] => true
  | i :: l' => falls_through i && straight l'
  end.

Lemma eip_set c r v : eip (set c r v) = eip c.
Proof using Type. by destruct c, r. Qed.
Lemma eip_with_mem c m : eip (with_mem c m) = eip c.
Proof using Type. by destruct c. Qed.

Lemma eip_store c a v c' : store c a v = Ok c' → eip c' = eip c.
Proof using Type. intros (x & _ & [= <-])%bind_ok. apply eip_with_mem. Qed.

Lemma eip_exec i c c' : falls_through i = true → exec i c = Ok c' → eip c' = eip c.
Proof using Type.
  intros Hi E. destruct i as [src dst|r|r|r|]; simpl in *; try done.
  - apply bind_ok in E as (v & _ & E). destruct dst; simpl in E; [|by eapply eip_store..].
    injection E as <-. apply eip_set.
  - unfold push in E. apply bind_ok in E as (c1 & E1 & [= <-]). rewrite eip_set. by eapply eip_store.
  - unfold pop in E. apply bind_ok in E as ([v c1] & E1 & [= <-]). rewrite eip_set.
    apply bind_ok in E1 as (v1 & _ & [= _ <-]). apply eip_set.
Qed.

Lemma run_block l : ∀ c, loaded (eip c) l → straight l = true → run (length l) c = block l c.
Proof using Type.
  induction l as [|i l IH]; intros c Hl Hs; [done|]. destruct Hl as [Hi Hl]. simpl. unfold step. rewrite Hi.
  destruct (exec i (with_eip c (eip c + bytes i))) as [c1|e] eqn:E; [|done]. simpl.
  destruct l as [|i' l]; [done|]. simpl in Hs. apply andb_prop in Hs as [Hf Hs].
  apply IH; [|done]. rewrite (eip_exec _ _ _ Hf E). by destruct c.
Qed.
End text.

(** ** Words and regions of memory *)

Definition word (m : gmap Z Z) (a : Z) : Z := default 0 (m !! a).

(** [n] mapped words from [a] on. *)
Record region (m : gmap Z Z) (a n : Z) : Prop := mkRegion {
  rg_bounds : 0 ≤ a ∧ a + 4 * n ≤ two32;
  rg_aligned : a mod 4 = 0;
  rg_mapped : ∀ i, 0 ≤ i < n → is_Some (m !! (a + 4 * i));
}.

Definition apart (a n b k : Z) : Prop := a + 4 * n ≤ b ∨ b + 4 * k ≤ a.

Lemma word_insert m a b v : word (<[b := v]> m) a = if bool_decide (a = b) then v else word m a.
Proof.
  unfold word. case_bool_decide as E; [subst; by rewrite lookup_insert_eq|by rewrite lookup_insert_ne].
Qed.

Lemma region_insert m a n b v : region m a n → region (<[b := v]> m) a n.
Proof.
  intros [Hb Ha Hm]. split; [done..|]. intros i Hi. rewrite lookup_insert_is_Some.
  destruct (decide (b = a + 4 * i)); [by left|by right; auto].
Qed.

Lemma region_same m m' a n : (∀ i, 0 ≤ i < n → m' !! (a + 4 * i) = m !! (a + 4 * i)) → region m a n → region m' a n.
Proof. intros Hs [Hb Ha Hm]. split; [done..|]. intros i Hi. rewrite Hs by done. by apply Hm. Qed.

Lemma region_suffix m a n i k : region m a n → 0 ≤ i → i + k = n → region m (a + 4 * i) k.
Proof.
  intros [Hb Ha Hm] Hi Hk. split; [lia|Z.div_mod_to_equations; lia|].
  intros j Hj. replace (a + 4 * i + 4 * j) with (a + 4 * (i + j)) by lia. apply Hm. lia.
Qed.

Lemma region_address m a n d : region m a n → 0 ≤ d < 4 * n → u32 (a + d) = a + d.
Proof. intros [Hb _ _] Hd. apply u32_small. unfold is_u32. lia. Qed.

Lemma load_region c a n d :
  region (mem c) a n → 0 ≤ d < 4 * n → d mod 4 = 0 → load c (a + d) = Ok (word (mem c) (a + d)).
Proof.
  intros [Hb Ha Hm] Hd H4. unfold load.
  rewrite (proj2 (Z.eqb_eq _ 0)) by (Z.div_mod_to_equations; lia).
  destruct (Hm (d / 4)) as [v Hv]; [Z.div_mod_to_equations; lia|].
  replace (a + 4 * (d / 4)) with (a + d) in Hv by (Z.div_mod_to_equations; lia).
  unfold word. by rewrite Hv.
Qed.

Lemma store_region c a n d v :
  region (mem c) a n → 0 ≤ d < 4 * n → d mod 4 = 0 →
  store c (a + d) v = Ok (with_mem c (<[a + d := v]> (mem c))).
Proof. intros Hr Hd H4. unfold store. by rewrite (load_region c a n d). Qed.

(** ** One instruction *)

Section instructions.
Context (c : Cpu).

Lemma exec_reg r r' : exec (movl (Reg r) (Reg r')) c = Ok (set c r' (get c r)).
Proof using Type. done. Qed.

Lemma exec_load d b r a n :
  get c b = a → region (mem c) a n → 0 ≤ d < 4 * n → d mod 4 = 0 →
  exec (movl (Mem d b) (Reg r)) c = Ok (set c r (word (mem c) (a + d))).
Proof using Type.
  intros Ea Hr Hd H4. simpl. rewrite Ea, (region_address (mem c) a n d), (load_region c a n d) by done. done.
Qed.

Lemma exec_store d b r a n :
  get c b = a → region (mem c) a n → 0 ≤ d < 4 * n → d mod 4 = 0 →
  exec (movl (Reg r) (Mem d b)) c = Ok (with_mem c (<[a + d := get c r]> (mem c))).
Proof using Type.
  intros Ea Hr Hd H4. simpl. by rewrite Ea, (region_address (mem c) a n d), (store_region c a n d) by done.
Qed.

Lemma exec_load_abs e r :
  region (mem c) e 1 → exec (movl (Abs e) (Reg r)) c = Ok (set c r (word (mem c) e)).
Proof using Type.
  intros Hr. simpl. rewrite <- (Z.add_0_r e). by rewrite (load_region c e 1 0).
Qed.

Lemma exec_store_abs e r :
  region (mem c) e 1 → exec (movl (Reg r) (Abs e)) c = Ok (with_mem c (<[e := get c r]> (mem c))).
Proof using Type.
  intros Hr. simpl. rewrite <- (Z.add_0_r e). by rewrite (store_region c e 1 0).
Qed.

Lemma exec_ret a n :
  esp c = a → region (mem c) a n → 0 < n →
  exec ret c = Ok (with_eip (set c ESP (u32 (a + 4))) (word (mem c) a)).
Proof using Type.
  intros Ea Hr Hn. simpl. unfold pop. rewrite Ea, <- (Z.add_0_r a) at 1. rewrite (load_region c a n 0) by (done || lia).
  rewrite Z.add_0_r. by rewrite Ea.
Qed.
End instructions.

(** ** The two halves of SWITCH *)

Lemma block_app bytes l l' c : block bytes (l ++ l') c = c1 ← block bytes l c; block bytes l' c1.
Proof.
  revert c. induction l as [|i l IH]; intros c; [done|]. simpl. destruct (exec i _); [apply IH|done].
Qed.

(** The Thread object [t] holds the registers of [c], which has called SWITCH:
    its return address is at the top of the stack. *)
Record saved (m : gmap Z Z) (t : Z) (c : Cpu) : Prop := mkSaved {
  sd_esp : word m (t + _ESP) = esp c;
  sd_eax : word m (t + _EAX) = eax c;
  sd_ebx : word m (t + _EBX) = ebx c;
  sd_ecx : word m (t + _ECX) = ecx c;
  sd_edx : word m (t + _EDX) = edx c;
  sd_ebp : word m (t + _EBP) = ebp c;
  sd_esi : word m (t + _ESI) = esi c;
  sd_edi : word m (t + _EDI) = edi c;
  sd_pc : word m (t + _PC) = word (mem c) (esp c);
}.

(** A step of a block on an explicit state. *)
Ltac reduce := cbn [block with_eip set get with_mem eip mem esp eax ebx ecx edx esi edi ebp].
Ltac offsets := unfold _ESP, _EAX, _EBX, _ECX, _EDX, _EBP, _ESI, _EDI, _PC in *.
Ltac regions := repeat apply region_insert; eassumption.
Ltac store_step := erewrite exec_store; [|cbn [get eax]; reflexivity|cbn [mem]; regions|offsets; lia|reflexivity]; simpl_res; reduce.
Ltac load_step := erewrite exec_load; [|cbn [get eax]; reflexivity|cbn [mem]; regions|offsets; lia|reflexivity]; simpl_res; reduce.
(** Words under stores to other addresses. *)
Ltac words := offsets; repeat (rewrite word_insert; case_bool_decide; try lia).

Section halves.
Context (e : Z) (bytes : instr → Z).

Definition save_half : list instr := take 13 (SWITCH e).
Definition restore_half : list instr := drop 13 (SWITCH e).

Lemma save_half_runs c t1 n :
  region (mem c) (esp c) n → 2 ≤ n → word (mem c) (esp c + 4) = t1 →
  region (mem c) t1 9 → region (mem c) e 1 → apart t1 9 e 1 → apart t1 9 (esp c) n → apart e 1 (esp c) n →
  ∃ c1, block bytes save_half c = Ok c1 ∧ esp c1 = esp c ∧ saved (mem c1) t1 c ∧
    (∀ a, ¬ (t1 ≤ a < t1 + 36) → a ≠ e → mem c1 !! a = mem c !! a) ∧
    (∀ a k, region (mem c) a k → region (mem c1) a k).
Proof using Type.
  intros Hsp Hn H1 Ht He A1 A2 A3. destruct c as [a b cx d si di bp sp pc m]. cbn [mem esp] in *.
  unfold apart in *. unfold save_half. cbn [take SWITCH].
  reduce. rewrite exec_store_abs by done. simpl_res. reduce.
  rewrite (exec_load _ 4 ESP EAX sp n) by (done || (cbn [mem]; by apply region_insert) || lia). simpl_res. reduce.
  rewrite word_insert, bool_decide_eq_false_2, H1 by lia.
  do 7 store_step.
  rewrite exec_load_abs by (cbn [mem]; regions). simpl_res. reduce.
  store_step.
  rewrite (exec_load _ 0 ESP EBX sp n) by (done || (cbn [mem]; regions) || lia). simpl_res. reduce.
  store_step.
  eexists. split; [reflexivity|]. cbn [mem esp]. split; [done|]. split; [|split].
  - split; cbn [esp eax ebx ecx edx ebp esi edi mem]; rewrite ?Z.add_0_r; words; done.
  - intros x Hx Hxe. offsets. by rewrite !lookup_insert_ne by lia.
  - intros x k Hk. repeat apply region_insert. exact Hk.
Qed.

Lemma restore_half_runs c t2 s2 n k :
  region (mem c) (esp c) n → 3 ≤ n → word (mem c) (esp c + 8) = t2 →
  region (mem c) t2 9 → region (mem c) e 1 → word (mem c) (t2 + _ESP) = s2 → region (mem c) s2 k → 2 ≤ k →
  apart t2 9 e 1 → apart e 1 s2 k →
  ∃ c2, block bytes restore_half c = Ok c2 ∧
    eax c2 = word (mem c) (t2 + _EAX) ∧ ebx c2 = word (mem c) (t2 + _EBX) ∧ ecx c2 = word (mem c) (t2 + _ECX) ∧
    edx c2 = word (mem c) (t2 + _EDX) ∧ ebp c2 = word (mem c) (t2 + _EBP) ∧ esi c2 = word (mem c) (t2 + _ESI) ∧
    edi c2 = word (mem c) (t2 + _EDI) ∧ esp c2 = s2 + 4 ∧ eip c2 = word (mem c) s2 ∧
    (∀ a, a ≠ e → a ≠ s2 + 4 → mem c2 !! a = mem c !! a) ∧
    (∀ a k, region (mem c) a k → region (mem c2) a k).
Proof using Type.
  intros Hsp Hn H2 Ht He Hs2 Hs Hk A1 A2. destruct c as [a b cx d si di bp sp pc m]. cbn [mem esp] in *.
  unfold apart in *. unfold restore_half. cbn [drop SWITCH]. pose proof (rg_bounds _ _ _ Hs) as Hb.
  reduce. rewrite (exec_load _ 8 ESP EAX sp n) by (done || lia). simpl_res. reduce. rewrite H2.
  load_step. rewrite exec_store_abs by done. simpl_res. reduce.
  do 6 load_step.
  erewrite (exec_load _ _ EAX ESP); [|cbn [get eax]; reflexivity|cbn [mem]; regions|offsets; lia|reflexivity]. simpl_res. reduce.
  assert (word (<[e:=word m (t2 + _EAX)]> m) (t2 + _ESP) = s2) as -> by (rewrite <- Hs2; words; done).
  load_step.
  rewrite (exec_store _ 4 ESP EAX s2 k) by (done || (cbn [mem]; regions) || lia). simpl_res. reduce.
  rewrite exec_load_abs by (cbn [mem]; regions). simpl_res. reduce.
  rewrite (exec_ret _ s2 k) by (done || (cbn [mem]; regions) || lia). simpl_res. reduce.
  rewrite u32_small by (unfold is_u32; lia).
  eexists. split; [reflexivity|]. cbn [eax ebx ecx edx esi edi ebp esp eip mem].
  split_and!; try (words; done).
  - intros x Hx Hxe. by rewrite !lookup_insert_ne by lia.
  - intros x y Hy. repeat apply region_insert. exact Hy.
Qed.

(** ** The whole of SWITCH *)

(** The processor is at the entry of SWITCH(t1, t2).  The calling thread has [n]
    words on its stack from the stack pointer on and the other thread [k] from
    its saved one on; the objects, the two stacks and [_eax_save] do not overlap. *)
Record switch_call (c : Cpu) (t1 t2 n k : Z) : Prop := mkCall {
  sc_stack : region (mem c) (esp c) n ∧ 3 ≤ n;
  sc_args : word (mem c) (esp c + 4) = t1 ∧ word (mem c) (esp c + 8) = t2;
  sc_regions : region (mem c) t1 9 ∧ region (mem c) t2 9 ∧ region (mem c) e 1;
  sc_stack2 : region (mem c) (word (mem c) (t2 + _ESP)) k ∧ 2 ≤ k;
  sc_eax : apart t1 9 e 1 ∧ apart t2 9 e 1 ∧ apart e 1 (esp c) n ∧ apart e 1 (word (mem c) (t2 + _ESP)) k;
  sc_threads : apart t1 9 t2 9;
  sc_stacks : apart t1 9 (esp c) n ∧ apart t1 9 (word (mem c) (t2 + _ESP)) k;
}.

(** The processor goes on with the registers that [m] holds for thread [t],
    whose saved stack pointer is [s]. *)
Record resumed (m : gmap Z Z) (t s : Z) (c : Cpu) : Prop := mkResumed {
  rs_eax : eax c = word m (t + _EAX);
  rs_ebx : ebx c = word m (t + _EBX);
  rs_ecx : ecx c = word m (t + _ECX);
  rs_edx : edx c = word m (t + _EDX);
  rs_ebp : ebp c = word m (t + _EBP);
  rs_esi : esi c = word m (t + _ESI);
  rs_edi : edi c = word m (t + _EDI);
  rs_esp : esp c = s + 4;
  rs_eip : eip c = word m s;
}.

Lemma word_same m m' a : m' !! a = m !! a → word m' a = word m a.
Proof using Type. unfold word. by intros ->. Qed.

Lemma SWITCH_runs c t1 t2 n k s2 :
  switch_call c t1 t2 n k → s2 = word (mem c) (t2 + _ESP) →
  ∃ c', block bytes (SWITCH e) c = Ok c' ∧ resumed (mem c) t2 s2 c' ∧ saved (mem c') t1 c ∧
    (∀ a, ¬ (t1 ≤ a < t1 + 36) → a ≠ e → a ≠ s2 + 4 → mem c' !! a = mem c !! a) ∧
    (∀ a k, region (mem c) a k → region (mem c') a k).
Proof using Type.
  intros [[Hsp Hn] [H1 H2] (Ht1 & Ht2 & He) [Hs2 Hk] (A1 & A2 & A3 & A4) A5 [A6 A7]] ->.
  set (s2 := word (mem c) (t2 + _ESP)) in *.
  destruct (save_half_runs c t1 n) as (c1 & E1 & Hesp & Hsaved & Hsame & Hreg); [done|lia|done..|].
  assert (∀ a, t2 ≤ a < t2 + 36 → word (mem c1) a = word (mem c) a) as Hw2.
  { intros a Ha. apply word_same, Hsame; unfold apart in *; lia. }
  assert (word (mem c1) s2 = word (mem c) s2) as Hws.
  { apply word_same, Hsame; unfold apart in *; lia. }
  destruct (restore_half_runs c1 t2 s2 n k) as (c2 & E2 & R1 & R2 & R3 & R4 & R5 & R6 & R7 & R8 & R9 & Hsame2 & Hreg2);
    rewrite ?Hesp; auto.
  { rewrite <- H2. apply word_same, Hsame; unfold apart in *; lia. }
  { apply Hw2. offsets. lia. }
  rewrite !Hw2 in * by (offsets; lia). rewrite Hws in R9. exists c2. split_and!.
  - rewrite <- (take_drop 13 (SWITCH e)), block_app. unfold save_half in E1. rewrite E1. exact E2.
  - by split.
  - destruct Hsaved as [S1 S2 S3 S4 S5 S6 S7 S8 S9].
    assert (∀ d, 0 ≤ d < 36 → word (mem c2) (t1 + d) = word (mem c1) (t1 + d)) as Hw.
    { intros d Hd. apply word_same, Hsame2; unfold apart in *; lia. }
    split; rewrite Hw by (offsets; lia); done.
  - intros a Ha Hae Has. rewrite Hsame2 by done. by apply Hsame.
  - auto.
Qed.
End halves.

(** ** A new thread *)

Section new_thread.
Context (ThreadRoot_address InterruptEnable ThreadFinish : Z).

(** What StackAllocate leaves: the last of the five words at the top of the
    stack is the address of ThreadRoot. *)
Lemma StackAllocate_spec c t stack func arg :
  region (mem c) t 9 → region (mem c) stack StackSize → apart t 9 stack StackSize →
  ∃ c', StackAllocate t stack func arg ThreadRoot_address InterruptEnable ThreadFinish c = Ok c' ∧
    word (mem c') (t + _ESP) = stack + 4 * (StackSize - 5) ∧
    word (mem c') (stack + 4 * (StackSize - 5)) = ThreadRoot_address ∧
    word (mem c') (t + _ECX) = InterruptEnable ∧ word (mem c') (t + _ESI) = func ∧
    word (mem c') (t + _EDX) = arg ∧ word (mem c') (t + _EDI) = ThreadFinish ∧
    word (mem c') stack = STACK_FENCEPOST ∧
    (∀ a, ¬ (t ≤ a < t + 36) → ¬ (stack ≤ a < stack + 4 * StackSize) → mem c' !! a = mem c !! a) ∧
    (∀ a k, region (mem c) a k → region (mem c') a k).
Proof using Type.
  unfold StackAllocate, machineState, StackSize, apart. intros Ht Hs A. destruct c as [a b cx d si di bp sp pc m]. cbn [mem] in *.
  change (4 * (4 * 16384 - 4)) with 262128. change (4 * (4 * 16384 - 5)) with 262124.
  replace (stack + 262128 - 4) with (stack + 262124) by lia. change (4 * (4 * 16384)) with 262144 in *.
  change PCState with 7. replace (t + 4 + 4 * 7) with (t + _PC) by (offsets; lia).
  change StartupPCState with 2. replace (t + 4 + 4 * 2) with (t + _ECX) by (offsets; lia).
  change InitialPCState with 5. replace (t + 4 + 4 * 5) with (t + _ESI) by (offsets; lia).
  change InitialArgState with 3. replace (t + 4 + 4 * 3) with (t + _EDX) by (offsets; lia).
  change WhenDonePCState with 6. replace (t + 4 + 4 * 6) with (t + _EDI) by (offsets; lia).
  assert (∀ c' v, region (mem c') t 9 → store c' t v = Ok (with_mem c' (<[t := v]> (mem c')))) as Et.
  { intros c' v Hr. rewrite <- (Z.add_0_r t). by apply (store_region _ _ 9). }
  assert (∀ c' v, region (mem c') stack 65536 → store c' stack v = Ok (with_mem c' (<[stack := v]> (mem c')))) as Es.
  { intros c' v Hr. rewrite <- (Z.add_0_r stack). by apply (store_region _ _ 65536). }
  rewrite Et by (cbn [mem]; regions). simpl_res. cbn [mem with_mem].
  rewrite Et by (cbn [mem]; regions). simpl_res. cbn [mem with_mem].
  erewrite (store_region _ stack _ 262124); [|cbn [mem]; regions|lia|done]. simpl_res. cbn [mem with_mem].
  rewrite Es by (cbn [mem]; regions). simpl_res. cbn [mem with_mem].
  do 5 (erewrite (store_region _ t 9); [|cbn [mem]; regions|offsets; lia|done]; simpl_res; cbn [mem with_mem]).
  eexists. split; [reflexivity|]. cbn [mem]. rewrite ?Z.add_0_r. split_and!; try (words; done).
  - intros x Hx1 Hx2. offsets. by rewrite !lookup_insert_ne by lia.
  - intros x k Hk. by repeat apply region_insert.
Qed.
End new_thread.

(** A C function that the processor has entered at [c] has returned at [c']:
    to the return address, with the registers that a function must not change
    and the stack of its caller, but for the [k] argument words, which are its
    own.  [top] is the end of the stack, [low] its beginning. *)
Record returned (low top k : Z) (c c' : Cpu) : Prop := mkReturned {
  rt_eip : eip c' = word (mem c) (esp c);
  rt_esp : esp c' = esp c + 4;
  rt_regs : ebx c' = ebx c ∧ esi c' = esi c ∧ edi c' = edi c ∧ ebp c' = ebp c;
  rt_stack : ∀ a, esp c + 4 + 4 * k ≤ a < top → mem c' !! a = mem c !! a;
  rt_mapped : ∀ a, low ≤ a < top → is_Some (mem c !! a) → is_Some (mem c' !! a);
}.

Lemma region_kept m m' low n :
  region m low n → (∀ a, low ≤ a < low + 4 * n → is_Some (m !! a) → is_Some (m' !! a)) → region m' low n.
Proof. intros [Hb Ha Hm] Hk. split; [done..|]. intros i Hi. apply Hk; [lia|]. by apply Hm. Qed.

Lemma push_region c low n v :
  region (mem c) low n → low + 4 ≤ esp c ≤ low + 4 * n → esp c mod 4 = 0 →
  push c v = Ok (set (with_mem c (<[esp c - 4 := v]> (mem c))) ESP (esp c - 4)).
Proof.
  intros Hr He H4. pose proof (rg_bounds _ _ _ Hr) as Hb. pose proof (rg_aligned _ _ _ Hr) as Ha.
  unfold push. rewrite u32_small by (unfold is_u32; lia).
  replace (esp c - 4) with (low + (esp c - 4 - low)) by lia.
  rewrite (store_region c low n) by (try lia; try done; Z.div_mod_to_equations; lia). done.
Qed.

Section entry.
Context (text : gmap Z instr) (bytes : instr → Z).

(** A call through a register, with room on the stack. *)
Lemma call_runs c r low n :
  text !! eip c = Some (call r) → r ≠ ESP → region (mem c) low n → low + 4 ≤ esp c ≤ low + 4 * n → esp c mod 4 = 0 →
  ∃ c', step text bytes c = Ok c' ∧ eip c' = get c r ∧ esp c' = esp c - 4 ∧
    mem c' = <[esp c - 4 := eip c + bytes (call r)]> (mem c) ∧
    (∀ r', r' ≠ ESP → get c' r' = get c r').
Proof using Type.
  intros Ht Hr Hreg He H4. unfold step. rewrite Ht. destruct c as [a b cx d si di bp sp pc m]. simpl exec.
  cbn [esp mem eip with_eip] in *. rewrite (push_region _ low n) by done. simpl_res. cbn [with_eip with_mem set mem esp].
  eexists. split; [reflexivity|]. split_and!; [by destruct r|done..|]. by intros [].
Qed.

(** ThreadRoot up to its first call, on a stack with room for three words. *)
Lemma ThreadRoot_call_runs c low n :
  loaded text bytes (eip c) ThreadRoot → region (mem c) low n → low + 12 ≤ esp c ≤ low + 4 * n → esp c mod 4 = 0 →
  ∃ c', run text bytes 4 c = Ok c' ∧ eip c' = ecx c ∧ esp c' = esp c - 12 ∧
    word (mem c') (esp c - 8) = edx c ∧ esi c' = esi c ∧ edi c' = edi c ∧
    loaded text bytes (word (mem c') (esp c - 12)) (drop 4 ThreadRoot) ∧
    (∀ a k, region (mem c) a k → region (mem c') a k).
Proof using Type.
  intros Hl Hr He H4. pose proof (rg_bounds _ _ _ Hr) as Hb.
  change 4%nat with (length ThreadRoot_call). rewrite run_block by (done || (cbn in Hl; cbn; tauto)).
  destruct c as [a b cx d si di bp sp pc m]. cbn [esp mem ecx edx esi edi eip] in *. unfold ThreadRoot_call.
  cbn [block exec with_eip get].
  rewrite (push_region _ low n) by (cbn [mem esp]; done || lia). simpl_res. cbn [with_mem set mem esp ebp with_eip eip get read_operand write_operand].
  simpl_res. cbn [with_mem set mem esp ebp with_eip eip get].
  rewrite (push_region _ low n) by (cbn [mem esp]; (by repeat apply region_insert) || lia || (Z.div_mod_to_equations; lia)).
  simpl_res. cbn [with_mem set mem esp ebp with_eip eip get].
  rewrite (push_region _ low n) by (cbn [mem esp]; (by repeat apply region_insert) || lia || (Z.div_mod_to_equations; lia)).
  simpl_res. cbn [with_mem set mem esp ebp with_eip eip get ecx].
  eexists. split; [reflexivity|]. cbn [esp mem ecx edx esi edi eip].
  replace (sp - 4 - 4 - 4) with (sp - 12) by lia. replace (sp - 4 - 4) with (sp - 8) by lia.
  split_and!; try done.
  - by rewrite word_insert, bool_decide_eq_false_2, word_insert, bool_decide_eq_true_2 by lia.
  - rewrite word_insert, bool_decide_eq_true_2 by lia. cbn in Hl. cbn. tauto.
  - intros x y Hy. by repeat apply region_insert.
Qed.
End entry.

(** ** The properties *)

Module SwitchSpec.

Section spec.
Context (eax_save : Z) (text : gmap Z instr) (bytes : instr → Z).
Notation run := (run text bytes).
Notation step := (step text bytes).
Notation switch_call := (switch_call eax_save).
Notation loaded := (loaded text bytes).
Notation SWITCH := (SWITCH eax_save).

(** C16. A thread that is switched away resumes as if SWITCH had returned.  The
    call SWITCH(t1, t2) ends, in the other thread.  Whatever that thread and
    others do, as long as they leave the Thread object t1 and the stack of its
    thread alone: when one of them calls SWITCH(t3, t1), the thread of t1 goes
    on at the return address of its call with every register as it was, the
    stack pointer behind the return address, and its stack as it was but for the
    argument word t1, which SWITCH overwrites. *)
Theorem switch_resumes c0 t1 t2 n k :
  loaded (eip c0) SWITCH → switch_call c0 t1 t2 n k →
  apart (esp c0) n (word (mem c0) (t2 + _ESP)) k →
  ∃ c1, run 27 c0 = Ok c1 ∧
    eip c1 = word (mem c0) (word (mem c0) (t2 + _ESP)) ∧
    ∀ c2 t3 n3, eip c2 = eip c0 →
      (∀ a, t1 ≤ a < t1 + 36 ∨ esp c0 ≤ a < esp c0 + 4 * n → mem c2 !! a = mem c1 !! a) →
      switch_call c2 t3 t1 n3 n →
      ∃ c3, run 27 c2 = Ok c3 ∧
        eip c3 = word (mem c0) (esp c0) ∧ esp c3 = esp c0 + 4 ∧
        (∀ r, r ≠ ESP → get c3 r = get c0 r) ∧
        (∀ a, esp c0 ≤ a < esp c0 + 4 * n → a ≠ esp c0 + 4 → mem c3 !! a = mem c0 !! a).
Proof.
  intros Hl Hc Hst. change 27%nat with (length SWITCH).
  destruct (SWITCH_runs eax_save bytes c0 t1 t2 n k _ Hc eq_refl) as (c1 & E1 & Hr1 & Hs1 & Hsame1 & _).
  exists c1. split; [by rewrite run_block|]. split; [apply Hr1|]. intros c2 t3 n3 Hpc Hkeep Hc2.
  assert (∀ a, t1 ≤ a < t1 + 36 → word (mem c2) a = word (mem c1) a) as Hw by (intros a Ha; apply word_same, Hkeep; by left).
  assert (esp c0 = word (mem c2) (t1 + _ESP)) as Esp by (rewrite Hw by (offsets; lia); symmetry; apply Hs1).
  destruct (SWITCH_runs eax_save bytes c2 t3 t1 n3 n _ Hc2 Esp) as (c3 & E3 & Hr3 & _ & Hsame3 & _).
  exists c3. split; [rewrite run_block; [done|by rewrite Hpc|done]|].
  destruct Hc as [[Hsp Hn] _ _ [_ Hk] (_ & _ & A3 & _) _ [A6 _]].
  destruct Hc2 as [_ _ _ _ _ _ [_ A7]]. rewrite <- Esp in A7.
  assert (∀ a, esp c0 ≤ a < esp c0 + 4 * n → mem c2 !! a = mem c0 !! a) as Hstack.
  { intros a Ha. rewrite Hkeep by (by right). apply Hsame1; unfold apart in *; lia. }
  destruct Hr3 as [R1 R2 R3 R4 R5 R6 R7 R8 R9]. destruct Hs1 as [S1 S2 S3 S4 S5 S6 S7 S8 S9].
  split_and!; [|done| |].
  - rewrite R9. apply word_same, Hstack. lia.
  - rewrite !Hw in * by (offsets; lia). intros r Hr. destruct r; simpl; congruence.
  - intros a Ha Hne. rewrite Hsame3 by (unfold apart in *; lia). by apply Hstack.
Qed.

(** C17. A forked thread runs.  When another thread calls SWITCH for a thread
    that StackAllocate made, the processor enters the routine that enables
    interrupts; when that returns, the function of the thread, with its argument
    on the stack; and when the function returns, the routine that ends the
    thread. *)
Theorem new_thread_runs c t stack func arg ThreadRoot_address InterruptEnable ThreadFinish ca c0 t1 n :
  region (mem c) t 9 → region (mem c) stack StackSize → apart t 9 stack StackSize →
  StackAllocate t stack func arg ThreadRoot_address InterruptEnable ThreadFinish c = Ok ca →
  (∀ a, t ≤ a < t + 36 ∨ stack ≤ a < stack + 4 * StackSize → mem c0 !! a = mem ca !! a) →
  loaded (eip c0) SWITCH → loaded ThreadRoot_address ThreadRoot → switch_call c0 t1 t n 5 →
  region (mem c0) stack StackSize →
  let top := stack + 4 * StackSize in
  ∃ c1, run 31 c0 = Ok c1 ∧ eip c1 = InterruptEnable ∧
    ∀ c2, returned stack top 0 c1 c2 →
      ∃ c3, step c2 = Ok c3 ∧ eip c3 = func ∧ word (mem c3) (esp c3 + 4) = arg ∧
        ∀ c4, returned stack top 1 c3 c4 → ∃ c5, step c4 = Ok c5 ∧ eip c5 = ThreadFinish.
Proof.
  intros Ht Hst A E Hkeep Hl Hroot Hc Hst0 top. unfold StackSize in *.
  destruct (StackAllocate_spec ThreadRoot_address InterruptEnable ThreadFinish c t stack func arg Ht Hst A)
    as (ca' & E' & W1 & W2 & W3 & W4 & W5 & W6 & _). rewrite E in E'. injection E' as <-. clear E.
  unfold StackSize in W1, W2.
  assert (∀ a, t ≤ a < t + 36 ∨ stack ≤ a < stack + 4 * (4 * 16384) → word (mem c0) a = word (mem ca) a) as Hw
    by (intros a Ha; by apply word_same, Hkeep).
  assert (stack + 4 * (4 * 16384 - 5) = word (mem c0) (t + _ESP)) as Es by (rewrite Hw by (offsets; lia); done).
  destruct (SWITCH_runs eax_save bytes c0 t1 t n 5 _ Hc Es) as (c' & E & [R1 R2 R3 R4 R5 R6 R7 R8 R9] & _ & _ & Hreg).
  rewrite !Hw in * by (offsets; lia). rewrite W2 in R9. rewrite W3 in R3. rewrite W4 in R6. rewrite W5 in R4. rewrite W6 in R7.
  pose proof (rg_aligned _ _ _ Hst) as H4.
  destruct (ThreadRoot_call_runs text bytes c' stack (4 * 16384)) as (c1 & E1 & P1 & P2 & P3 & P4 & P5 & P6 & P7);
    [by rewrite R9|by apply Hreg|lia|rewrite R8; Z.div_mod_to_equations; lia|].
  exists c1. split_and!; [|congruence|].
  { change 31%nat with (length SWITCH + 4)%nat. rewrite run_app_steps, run_block, E by done. exact E1. }
  replace (esp c' - 12) with (esp c1) in P6 by lia. destruct P6 as (F1 & F2 & _).
  assert (region (mem c1) stack (4 * 16384)) as Hst1 by auto.
  intros c2 [Q1 Q2 (_ & Q4 & Q5 & _) Q7 Q8].
  assert (region (mem c2) stack (4 * 16384)) as Hst2 by (eapply region_kept; [exact Hst1|exact Q8]).
  destruct (call_runs text bytes c2 ESI stack (4 * 16384)) as (c3 & E3 & U1 & U2 & U3 & U4);
    [by rewrite Q1|done|done|lia|Z.div_mod_to_equations; lia|].
  exists c3. split_and!; [done|simpl in U1; congruence| |].
  { rewrite U3, word_insert, bool_decide_eq_false_2 by lia.
    replace (esp c3 + 4) with (esp c' - 8) by lia. rewrite <- R4, <- P3. apply word_same, Q7. lia. }
  intros c4 [V1 V2 (_ & _ & V5 & _) _ V8].
  assert (word (mem c3) (esp c3) = word (mem c1) (esp c1) + bytes (call ESI)) as Er.
  { rewrite U3, word_insert, bool_decide_eq_true_2 by lia. by rewrite Q1. }
  destruct (call_runs text bytes c4 EDI stack (4 * 16384)) as (c5 & E5 & X1 & _);
    [by rewrite V1, Er|done|eapply region_kept; [|exact V8]; rewrite U3; by apply region_insert|lia|Z.div_mod_to_equations; lia|].
  exists c5. split; [done|]. rewrite X1. simpl. rewrite V5.
  pose proof (U4 EDI ltac:(done)) as Ud. simpl in Ud. congruence.
Qed.
End spec.

(** Two threads: their objects at 1000 and 2000, [_eax_save] at 3000, their
    stacks at 4000 and 5000, every register saved as 7; thread 1 calls SWITCH. *)
Definition words_at (a : Z) (l : list Z) : gmap Z Z := list_to_map (imap (λ i v, (a + 4 * Z.of_nat i, v)) l).
Definition place (a : Z) (l : list instr) : gmap Z instr := list_to_map (imap (λ i v, (a + 4 * Z.of_nat i, v)) l).
Definition sample_text : gmap Z instr := place 400 (Switch.SWITCH 3000) ∪ place 800 ThreadRoot.
Definition four : instr → Z := λ _, 4.
Definition sample_cpu : Cpu :=
  mkCpu 11 12 13 14 15 16 17 4000 400
    (words_at 1000 (replicate 9 0) ∪ words_at 2000 [5000; 7; 7; 7; 7; 7; 7; 7; 600] ∪ words_at 3000 [0]
     ∪ words_at 4000 [500; 1000; 2000; 99] ∪ words_at 5000 [600; 0; 0; 0]).
Definition switched : Cpu :=
  match Switch.run sample_text four 27 sample_cpu with Ok c => c | Stop _ => sample_cpu end.
(** Thread 2 calls SWITCH(t2, t1) with its stack at 5000 again. *)
Definition calling_back : Cpu :=
  mkCpu 1 2 3 4 5 6 7 5000 400 (<[5000 := 700]> (<[5004 := 2000]> (<[5008 := 1000]> (mem switched)))).

Definition regionb (m : gmap Z Z) (a n : Z) : bool :=
  (0 <=? a) && (a + 4 * n <=? two32) && (a mod 4 =? 0) &&
  forallb (λ i, bool_decide (is_Some (m !! (a + 4 * Z.of_nat i)))) (seq 0 (Z.to_nat n)).

Lemma regionb_sound m a n : regionb m a n = true → region m a n.
Proof.
  unfold regionb. intros (((H1 & H2)%andb_prop & H3)%andb_prop & H4)%andb_prop.
  split; [lia|lia|]. intros i Hi. rewrite forallb_forall in H4.
  specialize (H4 (Z.to_nat i)). rewrite Z2Nat.id, bool_decide_eq_true in H4 by lia. apply H4.
  apply in_seq. lia.
Qed.

Ltac sample_call_ok :=
  split; [split; [apply regionb_sound; vm_compute; reflexivity|vm_compute; discriminate]|split; vm_compute; reflexivity
         |split_and!; apply regionb_sound; vm_compute; reflexivity|split; [apply regionb_sound; vm_compute; reflexivity|vm_compute; discriminate]|..];
  split_and?; unfold apart; first [left; vm_compute; discriminate|right; vm_compute; discriminate].

Lemma switch_resumes_witness :
  ∃ c3, Switch.run sample_text four 27 calling_back = Ok c3 ∧ eip c3 = 500 ∧ esp c3 = 4004 ∧ eax c3 = 11 ∧ edi c3 = 16 ∧
    mem c3 !! 4012 = Some 99.
Proof.
  destruct (switch_resumes 3000 sample_text four sample_cpu 1000 2000 4 4) as (c1 & E1 & _ & Hback).
  - repeat split.
  - sample_call_ok.
  - vm_compute. left. discriminate.
  - assert (c1 = switched) as -> by (unfold switched; by rewrite E1).
    destruct (Hback calling_back 2000 4) as (c3 & E3 & H1 & H2 & H3 & H4).
    + reflexivity.
    + intros a Ha. unfold calling_back. cbn [mem]. change (esp sample_cpu) with 4000 in Ha. by rewrite !lookup_insert_ne by lia.
    + clear. sample_call_ok.
    + exists c3. split_and!; [exact E3|exact H1|exact H2|exact (H3 EAX ltac:(done))|exact (H3 EDI ltac:(done))|].
      apply H4; [split; vm_compute; [discriminate|reflexivity]|vm_compute; discriminate].
Defined.

(** A new thread: its object at 2000 and its stack at 8000; its function at 900
    gets 42. *)
Fixpoint fill (n : nat) (a : Z) (m : gmap Z Z) : gmap Z Z :=
  match n with
  | O => m
  | S n' => <[a + 4 * Z.of_nat n' := 0]> (fill n' a m)
  end.

Lemma fill_outside n a m x : ¬ (a ≤ x < a + 4 * Z.of_nat n) → fill n a m !! x = m !! x.
Proof. induction n as [|n IH]; intros Hx; [done|]. simpl. rewrite lookup_insert_ne by lia. apply IH. lia. Qed.

Lemma fill_region n a m b k : region m b k → region (fill n a m) b k.
Proof. intros Hr. induction n as [|n IH]; [done|]. simpl. by apply region_insert. Qed.

Lemma filled_region n a m : 0 ≤ a → a + 4 * Z.of_nat n ≤ two32 → a mod 4 = 0 → region (fill n a m) a (Z.of_nat n).
Proof.
  intros Ha Hn H4. split; [done|done|]. intros i Hi. induction n as [|n IH]; [lia|]. simpl.
  rewrite lookup_insert_is_Some. destruct (decide (i = Z.of_nat n)) as [->|]; [by left|].
  right. split; [lia|]. apply IH; lia.
Qed.

Definition small_mem : gmap Z Z :=
  words_at 1000 (replicate 9 0) ∪ words_at 2000 (replicate 9 0) ∪ words_at 3000 [0] ∪ words_at 4000 [500; 1000; 2000; 99].
Definition forker (m : gmap Z Z) : Cpu := mkCpu 0 0 0 0 0 0 0 4000 400 m.
Definition before_fork : Cpu := forker (fill (Z.to_nat StackSize) 8000 small_mem).

Lemma small_region b k : regionb small_mem b k = true → region (mem before_fork) b k.
Proof. intros Hb. by apply fill_region, regionb_sound. Qed.

Lemma new_thread_runs_witness :
  ∃ ca c1, StackAllocate 2000 8000 900 42 800 901 902 before_fork = Ok ca ∧
    Switch.run sample_text four 31 (forker (mem ca)) = Ok c1 ∧ eip c1 = 901.
Proof.
  assert (region (mem before_fork) 8000 StackSize) as Hs.
  { replace StackSize with (Z.of_nat (Z.to_nat StackSize)) by (unfold StackSize; lia).
    apply filled_region; unfold StackSize, two32; lia || done. }
  assert (region (mem before_fork) 2000 9) as Ht by (by apply small_region).
  destruct (StackAllocate_spec 800 901 902 before_fork 2000 8000 900 42) as (ca & E & W1 & _ & _ & _ & _ & _ & _ & Hf & Hr);
    [done|done|left; done|].
  assert (∀ a, 4000 ≤ a < 4016 → word (mem ca) a = word small_mem a) as Hw.
  { intros a Ha. unfold StackSize in Hf. unfold word. rewrite Hf by lia. unfold before_fork. cbn [mem forker].
    by rewrite fill_outside by lia. }
  destruct (new_thread_runs 3000 sample_text four before_fork 2000 8000 900 42 800 901 902 ca (forker (mem ca)) 1000 4)
    as (c1 & E1 & H1 & _); [done|done|by left|done|done|by repeat split|by repeat split| |by apply Hr|].
  - unfold StackSize in *. split; cbn [mem forker esp].
    + split; [by apply Hr, small_region|done].
    + rewrite !Hw by lia. vm_compute. by split.
    + split_and!; by apply Hr, small_region.
    + split; [|done]. rewrite W1. apply (region_suffix _ 8000 (4 * 16384) (4 * 16384 - 5)); [by apply Hr|lia|lia].
    + rewrite W1. unfold apart. lia.
    + by left.
    + rewrite W1. unfold apart. lia.
  - exists ca, c1. split; [exact E|]. split; [exact E1|exact H1].
Defined.
End SwitchSpec.
End Switch.
