(* ===== verification/Thread.v ===== *)
(** * Threads, the scheduler and semaphores (threads/thread.cc, scheduler.cc,
    synch.cc)

    The ready list and the semaphore queues are [KeyedList]s of threads.  The
    routine SWITCH (assembly) is modelled by what it does to the callers of
    [Scheduler::Run]: each thread remembers the point at which it gave up the
    processor ([resume]), and the thread that is switched to goes on from its
    own point, with the part of [Run] behind SWITCH first.  A forked thread
    starts in ThreadRoot instead and does not run that part.

    The routines run with interrupts off from their first to their last line,
    so each of them is one step.  What can happen when the interrupt level is
    restored (a device interrupt, whose handler calls [V], or a time slice,
    which calls [Yield]) is a step of its own. *)

From S2P Require Import Prelude NList Bitmap Machine Interrupt AddrSpace.

Inductive ThreadStatus := JUST_CREATED | RUNNING | READY | BLOCKED.
#[export] Instance ThreadStatus_eq_dec : EqDecision ThreadStatus.
Proof. solve_decision. Defined.

(** Where a thread continues when it is switched to. *)
Inductive resume :=
  | AtStart                                  (* ThreadRoot *)
  | InYield (oldLevel : IntStatus)           (* behind scheduler->Run in Thread::Yield *)
  | InP (s : Z) (oldLevel : IntStatus)       (* behind currentThread->Sleep in Semaphore::P *)
  | AtEnd.                                   (* behind Sleep in Thread::Finish *)

Definition STACK_FENCEPOST : Z := 0xdeadbeef.

(** [stack] is the lowest word of the stack, [None] for the main thread, whose
    stack NachOS did not allocate. *)
Record Thread := mkThread {
  status : ThreadStatus;
  stack : option Z;
  userRegisters : list Z;
  space : option AddrSpace;
  resumes : resume;
}.

Definition with_status (t : Thread) (st : ThreadStatus) : Thread :=
  mkThread st (stack t) (userRegisters t) (space t) (resumes t).
Definition with_resume (t : Thread) (r : resume) : Thread :=
  mkThread (status t) (stack t) (userRegisters t) (space t) r.
Definition with_user (t : Thread) (r : list Z) (s : option AddrSpace) : Thread :=
  mkThread (status t) (stack t) r s (resumes t).

Record Semaphore (L : Type) := mkSemaphore { value : Z; queue : L }.
Arguments mkSemaphore {L}.
Arguments value {L}.
Arguments queue {L}.

(** The kernel: thread and semaphore objects by address, and the globals of
    system.cc.  [idle] tells that [Thread::Sleep] of the current thread found no
    thread to run and is in [interrupt->Idle()]. *)
Record Kern (L : Type) := mkKern {
  threads : gmap Z Thread;
  currentThread : Z;
  readyList : L;
  threadToBeDestroyed : option Z;
  semaphores : gmap Z (Semaphore L);
  machine : Machine;
  level : IntStatus;
  idle : bool;
}.
Arguments mkKern {L}.
Arguments threads {L}.
Arguments currentThread {L}.
Arguments readyList {L}.
Arguments threadToBeDestroyed {L}.
Arguments semaphores {L}.
Arguments machine {L}.
Arguments level {L}.
Arguments idle {L}.

Section kernel.
Context {L : Type} `{KeyedList Z L}.
Implicit Types k : Kern L.

Definition with_threads k (x : gmap Z Thread) : Kern L :=
  mkKern x (currentThread k) (readyList k) (threadToBeDestroyed k) (semaphores k) (machine k) (level k) (idle k).
Definition with_current k (x : Z) : Kern L :=
  mkKern (threads k) x (readyList k) (threadToBeDestroyed k) (semaphores k) (machine k) (level k) (idle k).
Definition with_ready k (x : L) : Kern L :=
  mkKern (threads k) (currentThread k) x (threadToBeDestroyed k) (semaphores k) (machine k) (level k) (idle k).
Definition with_destroyed k (x : option Z) : Kern L :=
  mkKern (threads k) (currentThread k) (readyList k) x (semaphores k) (machine k) (level k) (idle k).
Definition with_semaphores k (x : gmap Z (Semaphore L)) : Kern L :=
  mkKern (threads k) (currentThread k) (readyList k) (threadToBeDestroyed k) x (machine k) (level k) (idle k).
Definition with_machine k (x : Machine) : Kern L :=
  mkKern (threads k) (currentThread k) (readyList k) (threadToBeDestroyed k) (semaphores k) x (level k) (idle k).
Definition with_level k (x : IntStatus) : Kern L :=
  mkKern (threads k) (currentThread k) (readyList k) (threadToBeDestroyed k) (semaphores k) (machine k) x (idle k).
Definition with_idle k (x : bool) : Kern L :=
  mkKern (threads k) (currentThread k) (readyList k) (threadToBeDestroyed k) (semaphores k) (machine k) (level k) x.

(** Objects behind pointers. *)
Definition get_thread k (t : Z) : res Thread :=
  match threads k !! t with Some th => Ok th | None => Stop Undefined end.
Definition put_thread k (t : Z) (th : Thread) : Kern L := with_threads k (<[t := th]> (threads k)).
Definition get_semaphore k (s : Z) : res (Semaphore L) :=
  match semaphores k !! s with Some x => Ok x | None => Stop Undefined end.
Definition put_semaphore k (s : Z) (x : Semaphore L) : Kern L :=
  with_semaphores k (<[s := x]> (semaphores k)).

(** ** Thread *)

Definition Thread_new (garbage : list Z) : Thread := mkThread JUST_CREATED None garbage None AtStart.

Definition CheckOverflow (t : Thread) : res unit :=
  match stack t with None => Ok tt | Some w => ASSERT (w =? STACK_FENCEPOST) end.

Definition SaveUserState (t : Thread) (m : Machine) : res Thread :=
  regs ← for_loop (Z.to_nat NumTotalRegs) 0
           (λ i l, v ← ReadRegister m i; arr_set l i v) (userRegisters t);
  Ok (with_user t regs (space t)).

Definition RestoreUserState (t : Thread) (m : Machine) : res Machine :=
  for_loop (Z.to_nat NumTotalRegs) 0
    (λ i m, v ← arr_get (userRegisters t) i; WriteRegister m i v) m.

(** [delete thread] *)
Definition Thread_delete k (t : Z) : res (Kern L) :=
  ASSERT (negb (t =? currentThread k));;
  _ ← get_thread k t;
  Ok (with_threads k (delete t (threads k))).

(** ** Scheduler *)

Definition ReadyToRun k (t : Z) : res (Kern L) :=
  th ← get_thread k t;
  l ← kl_append (readyList k) t;
  Ok (with_ready (put_thread k t (with_status th READY)) l).

Definition FindNextToRun k : res (option Z * Kern L) :=
  '(t, l) ← kl_remove (readyList k); Ok (t, with_ready k l).

(** [if (currentThread->space != NULL)]: the user state is saved. *)
Definition save_user (t : Thread) (m : Machine) : res Thread :=
  match space t with
  | None => Ok t
  | Some sp =>
      t ← SaveUserState t m; Ok (with_user t (userRegisters t) (Some (SaveState sp m)))
  end.

(** [Scheduler::Run] up to the call of SWITCH. *)
Definition Run_switch k (nextThread : Z) : res (Kern L) :=
  let oldThread := currentThread k in
  old ← get_thread k oldThread;
  old' ← save_user old (machine k);
  CheckOverflow old';;
  let k := put_thread k oldThread old' in
  next ← get_thread k nextThread;
  Ok (put_thread (with_current k nextThread) nextThread (with_status next RUNNING)).

(** [if (threadToBeDestroyed != NULL)]: the carcass is deleted. *)
Definition destroy_carcass k : res (Kern L) :=
  match threadToBeDestroyed k with
  | None => Ok k
  | Some d => k ← Thread_delete k d; Ok (with_destroyed k None)
  end.

(** The rest of [Run], in the thread that was switched to. *)
Definition Run_return k : res (Kern L) :=
  k ← destroy_carcass k;
  th ← get_thread k (currentThread k);
  match space th with
  | None => Ok k
  | Some sp =>
      m ← RestoreUserState th (machine k);
      Ok (with_machine k (RestoreState sp m))
  end.

(** The loop of [Thread::Sleep]; [go] is what the next thread does. *)
Definition run_next (go : Kern L → res (Kern L)) k : res (Kern L) :=
  '(nextThread, k) ← FindNextToRun k;
  match nextThread with
  | None => Ok (with_idle k true)
  | Some t => k ← Run_switch (with_idle k false) t; go k
  end.

(** [status = BLOCKED], and where the thread will continue. *)
Definition block k (r : resume) : res (Kern L) :=
  ASSERT (bool_decide (level k = IntOff));;
  th ← get_thread k (currentThread k);
  Ok (put_thread k (currentThread k) (with_resume (with_status th BLOCKED) r)).

(** The loop body of [Semaphore::P]: the thread queues up and goes to sleep. *)
Definition wait_on (go : Kern L → res (Kern L)) k (s : Z) (oldLevel : IntStatus) : res (Kern L) :=
  sem ← get_semaphore k s;
  if value sem =? 0 then
    q ← kl_append (queue sem) (currentThread k);
    k ← block (put_semaphore k s (mkSemaphore (value sem) q)) (InP s oldLevel);
    run_next go k
  else Ok (with_level (put_semaphore k s (mkSemaphore (value sem - 1) (queue sem))) oldLevel).

(** What the current thread does when it has just been switched to.  One round
    of fuel per thread that is switched to. *)
Fixpoint arrive (fuel : nat) k : res (Kern L) :=
  match fuel with
  | O => Stop OutOfFuel
  | S fuel' =>
      th ← get_thread k (currentThread k);
      match resumes th with
      | AtStart => Ok (with_level k IntOn)
      | InYield oldLevel => k ← Run_return k; Ok (with_level k oldLevel)
      | InP s oldLevel => k ← Run_return k; wait_on (arrive fuel') k s oldLevel
      | AtEnd => Stop Undefined
      end
  end.

Definition ready_fuel k : nat := S (length (kl_elems (readyList k))).

(** [Thread::Sleep], with the point in its caller. *)
Definition Sleep k (r : resume) : res (Kern L) :=
  k ← block k r; run_next (arrive (ready_fuel k)) k.

Definition Finish k : res (Kern L) :=
  Sleep (with_destroyed (with_level k IntOff) (Some (currentThread k))) AtEnd.

Definition Yield k : res (Kern L) :=
  let oldLevel := level k in
  '(nextThread, k) ← FindNextToRun (with_level k IntOff);
  match nextThread with
  | None => Ok (with_level k oldLevel)
  | Some t =>
      th ← get_thread k (currentThread k);
      k ← ReadyToRun (put_thread k (currentThread k) (with_resume th (InYield oldLevel)))
            (currentThread k);
      k ← Run_switch k t;
      arrive (ready_fuel k) k
  end.

Definition StackAllocate (t : Thread) : Thread :=
  mkThread (status t) (Some STACK_FENCEPOST) (userRegisters t) (space t) AtStart.

Definition Fork k (t : Z) : res (Kern L) :=
  th ← get_thread k t;
  let k := put_thread k t (StackAllocate th) in
  let oldLevel := level k in
  k ← ReadyToRun (with_level k IntOff) t;
  Ok (with_level k oldLevel).

(** ** Semaphore *)

Definition Semaphore_new (initialValue : Z) : Semaphore L := mkSemaphore initialValue kl_new.

Definition P k (s : Z) : res (Kern L) :=
  wait_on (arrive (ready_fuel k)) (with_level k IntOff) s (level k).

Definition V k (s : Z) : res (Kern L) :=
  let oldLevel := level k in
  let k := with_level k IntOff in
  sem ← get_semaphore k s;
  '(thread, q) ← kl_remove (queue sem);
  let k := put_semaphore k s (mkSemaphore (value sem) q) in
  k ← match thread with Some t => ReadyToRun k t | None => Ok k end;
  sem ← get_semaphore k s;
  Ok (with_level (put_semaphore k s (mkSemaphore (value sem + 1) (queue sem))) oldLevel).
End kernel.

(** ** What may happen

    The requests of the running thread, the interrupts, and the user program
    itself, which changes the machine. *)

Inductive request :=
  | RNew (t : Z) (garbage : list Z)        (* new Thread *)
  | RFork (t : Z)
  | RYield                                 (* a call, or the end of a time slice *)
  | RFinish
  | RSemaphore (s : Z) (initialValue : Z)  (* new Semaphore *)
  | RP (s : Z)
  | RV (s : Z)
  | RInterrupt (s : Z)                     (* a device handler calls V *)
  | RWake                                  (* interrupt->Idle() returns *)
  | RSpace (sp : AddrSpace)                (* the thread starts a user program *)
  | RUser (m : Machine).                   (* user instructions *)

Section requests.
Context {L : Type} `{KeyedList Z L}.
Implicit Types k : Kern L.

Definition serve (r : request) k : res (Kern L) :=
  match r with
  | RNew t g => Ok (put_thread k t (Thread_new g))
  | RFork t => Fork k t
  | RYield => Yield k
  | RFinish => Finish k
  | RSemaphore s v => Ok (put_semaphore k s (Semaphore_new v))
  | RP s => P k s
  | RV s | RInterrupt s => V k s
  | RWake => run_next (arrive (ready_fuel k)) k
  | RSpace sp =>
      th ← get_thread k (currentThread k);
      Ok (with_machine (put_thread k (currentThread k) (with_user th (userRegisters th) (Some sp)))
            (RestoreState sp (machine k)))
  | RUser m => Ok (with_machine k m)
  end.

(** Only the running thread calls; objects are used after they are made, and
    new ones have new addresses. *)
Definition enabled (r : request) k : Prop :=
  match r with
  | RNew t g => idle k = false ∧ threads k !! t = None ∧ length g = Z.to_nat NumTotalRegs
  | RFork t => idle k = false ∧ status <$> threads k !! t = Some JUST_CREATED
  | RYield | RFinish | RSpace _ => idle k = false
  | RSemaphore s v => idle k = false ∧ semaphores k !! s = None ∧ 0 ≤ v
  | RP s | RV s => idle k = false ∧ is_Some (semaphores k !! s)
  | RInterrupt s => is_Some (semaphores k !! s)
  | RWake => idle k = true ∧ level k = IntOff
  | RUser m => idle k = false ∧ length (registers m) = Z.to_nat NumTotalRegs
  end.

Definition step k k' : Prop := ∃ r, enabled r k ∧ serve r k = Ok k'.

(** ** The invariant *)

Definition ids (l : L) : list Z := (kl_elems l).*2.

(** Thread [t] was woken up from [P] on [s] and has not looked at the value
    yet. *)
Definition wakes (ths : gmap Z Thread) (s t : Z) : bool :=
  match resumes <$> ths !! t with Some (InP s' _) => bool_decide (s' = s) | _ => false end.
Definition woken (ths : gmap Z Thread) (s : Z) (rl : list Z) : nat :=
  length (filter (λ t, Is_true (wakes ths s t)) rl).

(** A thread in the ready list can go on. *)
Definition resumable k (th : Thread) : Prop :=
  match resumes th with
  | AtStart => space th = None
  | InYield _ => True
  | InP s _ => is_Some (semaphores k !! s)
  | AtEnd => False
  end.

(** The ready threads: those of the list, and one that was just taken off. *)
Definition ready k (hand : option Z) : list Z := option_list hand ++ ids (readyList k).

(** Every thread is where its status says. *)
Definition thread_ok (run hand : option Z) k (t : Z) (th : Thread) : Prop :=
  length (userRegisters th) = Z.to_nat NumTotalRegs ∧
  (stack th = None ∨ stack th = Some STACK_FENCEPOST) ∧
  match status th with
  | JUST_CREATED => space th = None
  | RUNNING => run = Some t
  | READY => t ∈ ready k hand
  | BLOCKED => resumes th = AtEnd ∨
      ∃ s l sem, resumes th = InP s l ∧ semaphores k !! s = Some sem ∧ t ∈ ids (queue sem)
  end.

(** A semaphore: its value is never negative, its queue holds threads that
    are blocked in [P] on it, and as long as someone waits, every unit of the
    value is matched by a thread that was woken up for it ([w]: the current
    thread is such a one). *)
Record sem_ok (hand w : option Z) k (s : Z) (sem : Semaphore L) : Prop := mkSemOk {
  so_wf : kl_wf (queue sem);
  so_nodup : NoDup (ids (queue sem));
  so_value : 0 ≤ value sem;
  so_blocked : ∀ t, t ∈ ids (queue sem) →
    ∃ th l, threads k !! t = Some th ∧ status th = BLOCKED ∧ resumes th = InP s l;
  so_wakeup : ids (queue sem) ≠ [] →
    value sem ≤ Z.of_nat (woken (threads k) s (ready k hand)) + (if bool_decide (w = Some s) then 1 else 0);
}.

(** [run] is the thread that runs, if any. *)
Record inv (run hand w : option Z) k : Prop := mkInv {
  inv_current : is_Some (threads k !! currentThread k);
  inv_run : ∀ t, run = Some t → t = currentThread k ∧ status <$> threads k !! t = Some RUNNING;
  inv_threads : ∀ t th, threads k !! t = Some th → thread_ok run hand k t th;
  inv_ready_wf : kl_wf (readyList k);
  inv_nodup : NoDup (ready k hand);
  inv_ready : ∀ t, t ∈ ready k hand →
    ∃ th, threads k !! t = Some th ∧ status th = READY ∧ resumable k th;
  inv_sems : ∀ s sem, semaphores k !! s = Some sem → sem_ok hand w k s sem;
  inv_dead : ∀ d, threadToBeDestroyed k = Some d →
    ∃ th, threads k !! d = Some th ∧ status th = BLOCKED ∧ resumes th = AtEnd;
  inv_regs : length (registers (machine k)) = Z.to_nat NumTotalRegs;
}.

(** Between two steps. *)
Definition runs k : option Z := if idle k then None else Some (currentThread k).
Definition ok k : Prop := inv (runs k) None None k ∧ (idle k = true → level k = IntOff).
End requests.

(** ** Woken threads *)

Section woken.
Implicit Types (ths : gmap Z Thread) (rl : list Z).

Lemma woken_agree ths ths' s rl :
  (∀ t, t ∈ rl → wakes ths' s t = wakes ths s t) → woken ths' s rl = woken ths s rl.
Proof.
  intros Ha. unfold woken. induction rl as [|t rl IH]; [done|].
  rewrite !filter_cons, (Ha t) by by left. rewrite !decide_bool_decide.
  destruct (bool_decide _); simpl; [f_equal|]; apply IH; intros t' Ht'; apply Ha; by right.
Qed.

Lemma woken_app ths s rl rl' : woken ths s (rl ++ rl') = (woken ths s rl + woken ths s rl')%nat.
Proof. unfold woken. by rewrite filter_app, length_app. Qed.

Lemma woken_cons ths s t rl :
  woken ths s (t :: rl) = ((if wakes ths s t then 1 else 0) + woken ths s rl)%nat.
Proof. unfold woken. rewrite filter_cons. by destruct (wakes ths s t). Qed.

Lemma woken_perm ths s rl rl' : rl ≡ₚ rl' → woken ths s rl = woken ths s rl'.
Proof. intros Hp. unfold woken. by rewrite Hp. Qed.

Lemma wakes_insert_ne ths s t t' th : t' ≠ t → wakes (<[t := th]> ths) s t' = wakes ths s t'.
Proof. intros. unfold wakes. by rewrite lookup_insert_ne. Qed.

Lemma wakes_same ths s t th th' t' :
  ths !! t = Some th → resumes th' = resumes th → wakes (<[t := th']> ths) s t' = wakes ths s t'.
Proof.
  intros Ht Hr. destruct (decide (t' = t)) as [->|]; [|by apply wakes_insert_ne].
  unfold wakes. rewrite lookup_insert_eq, Ht. simpl. by rewrite Hr.
Qed.

Lemma woken_insert_out ths s t th rl : t ∉ rl → woken (<[t := th]> ths) s rl = woken ths s rl.
Proof. intros Ht. apply woken_agree. intros t' Ht'. apply wakes_insert_ne. set_solver. Qed.
End woken.

Section steps.
Context {L : Type} `{KeyedListLaws Z L}.
Implicit Types k : Kern L.

Lemma ids_append (l : L) t :
  kl_wf l → ∃ l', kl_append l t = Ok l' ∧ kl_wf l' ∧ ids l' = ids l ++ [t].
Proof using Type*.
  intros Hwf. destruct (kl_append_spec l t Hwf) as (l' & E & Hwf' & He).
  exists l'. split_and!; [done..|]. unfold ids. by rewrite He, fmap_app.
Qed.

Lemma ids_remove (l : L) :
  kl_wf l → ∃ l', kl_remove l = Ok (head (ids l), l') ∧ kl_wf l' ∧ ids l' = tail (ids l).
Proof using Type*.
  intros Hwf. destruct (kl_remove_spec l Hwf) as (l' & E & Hwf' & He).
  exists l'. unfold ids. rewrite He, E. split_and!; [|done|].
  - by destruct (kl_elems l).
  - by destruct (kl_elems l).
Qed.

(** A thread that is ready, blocked or new does not run. *)
Lemma not_running run hand w k t th :
  inv run hand w k → threads k !! t = Some th → status th ≠ RUNNING → run ≠ Some t.
Proof using Type.
  intros Hi Ht Hs Hr. destruct (inv_run _ _ _ _ Hi t Hr) as [_ Hst].
  rewrite Ht in Hst. simpl in Hst. by injection Hst as Hst.
Qed.

Lemma not_ready run hand w k t th :
  inv run hand w k → threads k !! t = Some th → status th ≠ READY → t ∉ ready k hand.
Proof using Type.
  intros Hi Ht Hs Hin. destruct (inv_ready _ _ _ _ Hi t Hin) as (th' & Ht' & ? & _). simplify_eq.
Qed.

Lemma not_queued run hand w k t th s sem :
  inv run hand w k → threads k !! t = Some th → status th ≠ BLOCKED →
  semaphores k !! s = Some sem → t ∉ ids (queue sem).
Proof using Type.
  intros Hi Ht Hs Hsem Hin. destruct (so_blocked _ _ _ _ _ (inv_sems _ _ _ _ Hi s sem Hsem) t Hin)
    as (th' & l & Ht' & ? & _). simplify_eq.
Qed.

(** Taking a thread off the ready list. *)
Lemma FindNextToRun_spec run k w :
  inv run None w k →
  ∃ k', FindNextToRun k = Ok (head (ids (readyList k)), k') ∧
    inv run (head (ids (readyList k))) w k' ∧
    currentThread k' = currentThread k ∧ threads k' = threads k ∧ level k' = level k ∧
    idle k' = idle k ∧ machine k' = machine k ∧ semaphores k' = semaphores k ∧
    ids (readyList k') = tail (ids (readyList k)).
Proof using Type*.
  intros [H1 H2 H3 H4 H5 H6 H7 H8 H9]. unfold FindNextToRun.
  destruct (ids_remove (readyList k) H4) as (l' & -> & Hwf & Hl). simpl_res.
  eexists. split; [reflexivity|].
  assert (ready (with_ready k l') (head (ids (readyList k))) = ready k None) as Hready.
  { unfold ready. simpl. rewrite Hl. by destruct (ids (readyList k)). }
  split; [|done]. split; try done.
  - intros t th Ht. destruct (H3 t th Ht) as (? & ? & Hs). split_and!; [done..|].
    destruct (status th); try done. by rewrite Hready.
  - by rewrite Hready.
  - by rewrite Hready.
  - intros s sem Hsem. destruct (H7 s sem Hsem) as [? ? ? ? Hw]. split; try done. by rewrite Hready.
Qed.

(** A change of the user part of a thread. *)
Definition same_thread (th th' : Thread) : Prop :=
  status th' = status th ∧ resumes th' = resumes th ∧ stack th' = stack th ∧
  (space th' = None ↔ space th = None) ∧ length (userRegisters th') = length (userRegisters th).

Lemma inv_update run hand w k t th th' :
  inv run hand w k → threads k !! t = Some th → same_thread th th' →
  inv run hand w (put_thread k t th').
Proof using Type.
  intros [H1 H2 H3 H4 H5 H6 H7 H8 H9] Ht (Es & Er & Ek & Ep & El).
  assert (∀ s t', wakes (<[t := th']> (threads k)) s t' = wakes (threads k) s t') as Hw
    by (intros; by eapply wakes_same).
  split; try done; simpl.
  - apply lookup_insert_is_Some'. by right.
  - intros t' Hr. destruct (H2 t' Hr) as [-> Hst]. split; [done|].
    destruct (decide (currentThread k = t)) as [E|]; [|by rewrite lookup_insert_ne].
    rewrite E in *. rewrite lookup_insert_eq. rewrite Ht in Hst. simpl in *. by rewrite Es.
  - intros t' th0 Ht'. apply lookup_insert_Some in Ht' as [[<- <-]|[Hne Ht']]; [|by apply H3].
    destruct (H3 t th Ht) as (? & ? & Hs). unfold thread_ok. rewrite El, Ek, Es, Er.
    split_and!; [done..|]. destruct (status th); try done. by apply Ep.
  - intros t' Hin. destruct (H6 t' Hin) as (th0 & Ht' & Hst & Hres).
    destruct (decide (t' = t)) as [->|]; [|rewrite lookup_insert_ne by done; by exists th0].
    assert (th0 = th) as -> by congruence. exists th'. rewrite lookup_insert_eq, Es. split_and!; [done..|].
    unfold resumable in *. rewrite Er. destruct (resumes th); try done. by apply Ep.
  - intros s sem Hsem. destruct (H7 s sem Hsem) as [? ? ? Hb Hwk]. split; try done; simpl.
    + intros t' Hin. destruct (Hb t' Hin) as (th0 & l & Ht' & Hst & Hres).
      destruct (decide (t' = t)) as [->|]; [|rewrite lookup_insert_ne by done; by exists th0, l].
      assert (th0 = th) as -> by congruence. exists th', l. by rewrite lookup_insert_eq, Es, Er.
    + intros Hq. rewrite (woken_agree (threads k)) by done. by apply Hwk.
  - intros d Hd. destruct (H8 d Hd) as (th0 & Ht' & Hst & Hres).
    destruct (decide (d = t)) as [->|]; [|rewrite lookup_insert_ne by done; by exists th0].
    assert (th0 = th) as -> by congruence. exists th'. by rewrite lookup_insert_eq, Es, Er.
Qed.

(** Copying the user registers. *)
Lemma SaveUserState_spec t m :
  length (userRegisters t) = Z.to_nat NumTotalRegs → length (registers m) = Z.to_nat NumTotalRegs →
  SaveUserState t m = Ok (with_user t (registers m) (space t)).
Proof using Type.
  change (Z.to_nat NumTotalRegs) with 40%nat. intros Hl Hm. unfold SaveUserState.
  destruct (for_loop_inv (λ i l, v ← ReadRegister m i; arr_set l i v)
    (λ j l, l = take (Z.to_nat j) (registers m) ++ drop (Z.to_nat j) (userRegisters t))
    (Z.to_nat NumTotalRegs) 0 (userRegisters t)) as (regs & E & Hr).
  - change (Z.to_nat 0) with 0%nat. by rewrite take_0, drop_0.
  - intros j l Hj ->. change (Z.of_nat (Z.to_nat NumTotalRegs)) with 40 in Hj.
    destruct (arr_get_total (registers m) j) as (v & Ev & Hv); [lia|].
    unfold ReadRegister. change NumTotalRegs with 40.
    assert ((j >=? 0) && (j <? 40) = true) as -> by (rewrite andb_true_iff; lia). cbn [ASSERT]. simpl_res.
    rewrite Ev. simpl_res.
    rewrite arr_set_in by (rewrite length_app, length_take, length_drop; lia).
    eexists. split; [reflexivity|]. replace (Z.to_nat (j + 1)) with (S (Z.to_nat j)) by lia.
    apply copy_step; [done|lia].
  - rewrite E. simpl_res. subst regs. change (Z.to_nat (0 + Z.of_nat (Z.to_nat NumTotalRegs))) with 40%nat.
    by rewrite take_ge, drop_ge, app_nil_r by lia.
Qed.

Lemma RestoreUserState_spec t m :
  length (userRegisters t) = Z.to_nat NumTotalRegs → length (registers m) = Z.to_nat NumTotalRegs →
  RestoreUserState t m = Ok (with_registers m (userRegisters t)).
Proof using Type.
  change (Z.to_nat NumTotalRegs) with 40%nat. intros Hl Hm. unfold RestoreUserState.
  destruct (for_loop_inv (λ i m, v ← arr_get (userRegisters t) i; WriteRegister m i v)
    (λ j m', m' = with_registers m (take (Z.to_nat j) (userRegisters t) ++ drop (Z.to_nat j) (registers m)))
    (Z.to_nat NumTotalRegs) 0 m) as (m' & E & Hr).
  - change (Z.to_nat 0) with 0%nat. rewrite take_0, drop_0. by destruct m.
  - intros j m' Hj ->. change (Z.of_nat (Z.to_nat NumTotalRegs)) with 40 in Hj.
    destruct (arr_get_total (userRegisters t) j) as (v & Ev & Hv); [lia|].
    rewrite Ev. simpl_res. unfold WriteRegister. change NumTotalRegs with 40.
    assert ((j >=? 0) && (j <? 40) = true) as -> by (rewrite andb_true_iff; lia). simpl_res. simpl.
    rewrite arr_set_in by (rewrite length_app, length_take, length_drop; lia). simpl_res.
    eexists. split; [reflexivity|]. unfold with_registers. simpl. f_equal.
    replace (Z.to_nat (j + 1)) with (S (Z.to_nat j)) by lia. apply copy_step; [done|lia].
  - rewrite E. subst m'. change (Z.to_nat (0 + Z.of_nat (Z.to_nat NumTotalRegs))) with 40%nat.
    by rewrite take_ge, drop_ge, app_nil_r by lia.
Qed.

(** ** The user context of a thread

    The registers and the address space of the user program of thread [t].
    They are in the machine if [t] owns it, otherwise in the thread. *)

Definition context (own : option Z) k (t : Z) : option (list Z * AddrSpace) :=
  th ← threads k !! t; sp ← space th;
  Some (if bool_decide (own = Some t) then (registers (machine k), SaveState sp (machine k))
        else (userRegisters th, sp)).

Definition keeps (own : option Z) k (own' : option Z) k' : Prop :=
  ∀ t, is_Some (threads k' !! t) → is_Some (threads k !! t) ∧ context own' k' t = context own k t.

Lemma keeps_refl own k : keeps own k own k.
Proof using Type. by intros t Ht. Qed.

Lemma keeps_trans own1 k1 own2 k2 own3 k3 :
  keeps own1 k1 own2 k2 → keeps own2 k2 own3 k3 → keeps own1 k1 own3 k3.
Proof using Type.
  intros H12 H23 t Ht. destruct (H23 t Ht) as [Ht2 ->]. by apply H12.
Qed.

(** A change of status or resumption point only. *)
Lemma keeps_put own k t th th' :
  threads k !! t = Some th → userRegisters th' = userRegisters th → space th' = space th →
  keeps own k own (put_thread k t th').
Proof using Type.
  intros Ht Er Es t' [x Hx]. simpl in Hx. unfold context. simpl.
  destruct (decide (t' = t)) as [->|Hne].
  - rewrite lookup_insert_eq, Ht. simpl. rewrite Er, Es. split; [by eexists|done].
  - rewrite lookup_insert_ne in * by done. split; [by eexists|done].
Qed.

Lemma keeps_eq own k k' :
  threads k' = threads k → machine k' = machine k → keeps own k own k'.
Proof using Type. intros E1 E2 t. unfold context. rewrite E1, E2. by split. Qed.

(** ** Switching *)

Definition waiting (th : Thread) : option Z :=
  match resumes th with InP s _ => Some s | _ => None end.

Lemma wakes_waiting (ths : gmap Z Thread) t th s :
  ths !! t = Some th → wakes ths s t = bool_decide (waiting th = Some s).
Proof using Type.
  intros Ht. unfold wakes, waiting. rewrite Ht. simpl.
  destruct (resumes th); try (by rewrite bool_decide_eq_false_2).
  apply bool_decide_ext. naive_solver.
Qed.

(** The thread in hand becomes the running one. *)
Lemma inv_dispatch k t th :
  inv None (Some t) None k → threads k !! t = Some th →
  inv (Some t) None (waiting th) (put_thread (with_current k t) t (with_status th RUNNING)).
Proof using Type.
  intros [H1 H2 H3 H4 H5 H6 H7 H8 H9] Ht. unfold ready in *. simpl in *.
  apply NoDup_cons in H5 as [Hout Hnd].
  assert (∀ s t', wakes (<[t := with_status th RUNNING]> (threads k)) s t' = wakes (threads k) s t') as Hw
    by (intros; by eapply wakes_same).
  destruct (H6 t) as (th0 & Ht0 & Hst & Hres); [by left|].
  assert (th0 = th) as -> by congruence.
  split; simpl; unfold ready; simpl; try done.
  - rewrite lookup_insert_eq. by eexists.
  - intros t' [= <-]. by rewrite lookup_insert_eq.
  - intros t' x Hx. apply lookup_insert_Some in Hx as [[<- <-]|[Hne Hx]].
    + destruct (H3 t th Ht) as (? & ? & _). by split_and!.
    + destruct (H3 t' x Hx) as (? & ? & Hs). split_and!; [done..|]. destruct (status x); try done.
      unfold ready in *. simpl in *. apply elem_of_cons in Hs as [->|]; done.
  - intros t' Hin. destruct (H6 t') as (x & Hx & ? & ?); [by right|].
    exists x. rewrite lookup_insert_ne by (intros ->; done). done.
  - intros s sem Hsem. destruct (H7 s sem Hsem) as [? ? ? Hb Hwk]. split; try done; simpl.
    + intros t' Hin. destruct (Hb t' Hin) as (x & l & Hx & ? & ?).
      exists x, l. rewrite lookup_insert_ne; [done|]. intros ->. congruence.
    + intros Hq. specialize (Hwk Hq). unfold ready in *. simpl in *.
      rewrite (woken_agree (threads k)) by done.
      rewrite woken_cons, (wakes_waiting _ _ th s Ht) in Hwk. case_bool_decide; lia.
  - intros d Hd. destruct (H8 d Hd) as (x & Hx & ? & ?). exists x.
    rewrite lookup_insert_ne; [done|]. intros ->. congruence.
Qed.

(** Saving the user state of the current thread. *)
Definition saved_thread k (th : Thread) : Thread :=
  match space th with
  | None => th
  | Some sp => with_user th (registers (machine k)) (Some (SaveState sp (machine k)))
  end.

Lemma saved_same k th :
  length (userRegisters th) = Z.to_nat NumTotalRegs →
  length (registers (machine k)) = Z.to_nat NumTotalRegs → same_thread th (saved_thread k th).
Proof using Type.
  intros Hl Hm. unfold saved_thread. destruct (space th) eqn:E; unfold same_thread; simpl;
    rewrite ?E; split_and!; try done. lia.
Qed.

Lemma keeps_save k th :
  threads k !! currentThread k = Some th →
  keeps (Some (currentThread k)) k None (put_thread k (currentThread k) (saved_thread k th)).
Proof using Type.
  intros Ht t [x Hx]. simpl in Hx. unfold context. simpl.
  destruct (decide (t = currentThread k)) as [->|Hne].
  - rewrite lookup_insert_eq, Ht. simpl. split; [by eexists|]. unfold saved_thread.
    destruct (space th) as [sp|] eqn:E; simpl; rewrite ?E; [|done]. simpl.
    by rewrite (bool_decide_eq_true_2 (Some _ = Some _)).
  - rewrite lookup_insert_ne in * by done. split; [by eexists|]. rewrite Hx. simpl.
    destruct (space x); [|done]. simpl. rewrite (bool_decide_eq_false_2 (Some _ = Some _)); [done|].
    congruence.
Qed.

Lemma Run_switch_spec k t th :
  inv None (Some t) None k → threads k !! t = Some th →
  ∃ k', Run_switch k t = Ok k' ∧ inv (Some t) None (waiting th) k' ∧
    keeps (Some (currentThread k)) k None k' ∧
    (∃ th', threads k' !! t = Some th' ∧ resumes th' = resumes th ∧ resumable k' th') ∧
    currentThread k' = t ∧ level k' = level k ∧ idle k' = idle k ∧ readyList k' = readyList k ∧
    semaphores k' = semaphores k.
Proof using Type.
  intros Hi Ht. destruct (inv_current _ _ _ _ Hi) as [old Hold].
  destruct (inv_threads _ _ _ _ Hi _ _ Hold) as (Hlen & Hstk & _).
  pose proof (inv_regs _ _ _ _ Hi) as Hregs.
  pose proof (saved_same k old Hlen Hregs) as Hsame.
  set (k1 := put_thread k (currentThread k) (saved_thread k old)).
  assert (inv None (Some t) None k1) as Hi1 by (by eapply inv_update).
  assert (∃ th1, threads k1 !! t = Some th1 ∧ resumes th1 = resumes th) as (th1 & Ht1 & Hr1).
  { simpl. destruct (decide (t = currentThread k)) as [E|].
    - rewrite E, lookup_insert_eq. eexists. split; [done|]. rewrite E in Ht.
      assert (th = old) as -> by congruence. apply Hsame.
    - rewrite lookup_insert_ne by done. by exists th. }
  assert (waiting th1 = waiting th) as Hw by (unfold waiting; by rewrite Hr1).
  exists (put_thread (with_current k1 t) t (with_status th1 RUNNING)). split_and!; try done.
  - unfold Run_switch, get_thread. rewrite Hold. simpl_res.
    assert (save_user old (machine k) = Ok (saved_thread k old)) as ->.
    { unfold save_user, saved_thread. destruct (space old) as [sp|]; [|done].
      by rewrite SaveUserState_spec. }
    simpl_res. unfold CheckOverflow. destruct Hsame as (_ & _ & -> & _). fold k1.
    destruct Hstk as [-> | ->]; simpl_res; rewrite Ht1; done.
  - rewrite <- Hw. by apply inv_dispatch.
  - eapply keeps_trans; [by apply keeps_save|].
    apply (keeps_trans _ _ None (with_current k1 t)); [by apply keeps_eq|].
    by eapply keeps_put.
  - exists (with_status th1 RUNNING). simpl. rewrite lookup_insert_eq. split_and!; [done..|].
    destruct (inv_ready _ _ _ _ Hi1 t) as (x & Hx & _ & Hres); [by left|].
    assert (x = th1) as -> by congruence. exact Hres.
Qed.

(** The tail of [Run]: the carcass is deleted, and the user state of the new
    thread is put into the machine. *)
Lemma inv_delete c w k d :
  inv (Some c) None w k → threadToBeDestroyed k = Some d →
  inv (Some c) None w (with_destroyed (with_threads k (delete d (threads k))) None).
Proof using Type.
  intros [H1 H2 H3 H4 H5 H6 H7 H8 H9] Hd. destruct (H8 d Hd) as (dead & Hdead & Hst & Hres).
  destruct (H2 c eq_refl) as [Hc Hrun].
  assert (c ≠ d) as Hcd.
  { intros ->. rewrite Hdead in Hrun. simpl in Hrun. rewrite Hst in Hrun. done. }
  assert (∀ t, t ∈ ready k None → t ≠ d) as Hrd.
  { intros t Hin ->. destruct (H6 d Hin) as (th & Hth & ? & _). congruence. }
  split; simpl; try done.
  - rewrite lookup_delete_ne by congruence. done.
  - intros t [= <-]. rewrite lookup_delete_ne by done. done.
  - intros t th Hth. apply lookup_delete_Some in Hth as [_ Hth]. by apply H3.
  - intros t Hin. rewrite lookup_delete_ne by (apply not_eq_sym, Hrd; done). by apply H6.
  - intros s sem Hsem. destruct (H7 s sem Hsem) as [? ? ? Hb Hwk]. split; try done; simpl.
    + intros t Hin. destruct (Hb t Hin) as (th & l & Hth & ? & ?). exists th, l.
      rewrite lookup_delete_ne; [done|]. intros ->. congruence.
    + intros Hq. rewrite (woken_agree (threads k)); [by apply Hwk|].
      intros t Hin. unfold wakes. rewrite lookup_delete_ne; [done|]. apply not_eq_sym, Hrd, Hin.
Qed.

Lemma inv_machine run hand w k m :
  inv run hand w k → length (registers m) = Z.to_nat NumTotalRegs → inv run hand w (with_machine k m).
Proof using Type.
  intros [H1 H2 H3 H4 H5 H6 H7 H8 H9] Hm. split; try done.
  intros s sem Hsem. destruct (H7 s sem Hsem). by split.
Qed.

Lemma inv_level run hand w k l : inv run hand w k → inv run hand w (with_level k l).
Proof using Type.
  intros [H1 H2 H3 H4 H5 H6 H7 H8 H9]. split; try done.
  intros s sem Hsem. destruct (H7 s sem Hsem). by split.
Qed.

Lemma inv_idle run hand w k b : inv run hand w k → inv run hand w (with_idle k b).
Proof using Type.
  intros [H1 H2 H3 H4 H5 H6 H7 H8 H9]. split; try done.
  intros s sem Hsem. destruct (H7 s sem Hsem). by split.
Qed.

Lemma Run_return_spec c w k :
  inv (Some c) None w k →
  ∃ k', Run_return k = Ok k' ∧ inv (Some c) None w k' ∧ keeps None k (Some c) k' ∧
    threads k' !! c = threads k !! c ∧
    currentThread k' = c ∧ level k' = level k ∧ idle k' = idle k ∧ readyList k' = readyList k ∧
    semaphores k' = semaphores k.
Proof using Type.
  intros Hi. destruct (inv_run _ _ _ _ Hi c eq_refl) as [Hc Hrun].
  set (k1 := match threadToBeDestroyed k with
             | None => k
             | Some d => with_destroyed (with_threads k (delete d (threads k))) None end).
  assert (inv (Some c) None w k1) as Hi1.
  { unfold k1. destruct (threadToBeDestroyed k) eqn:E; [by apply inv_delete|done]. }
  assert (threads k1 !! c = threads k !! c ∧ currentThread k1 = c ∧ level k1 = level k ∧
    idle k1 = idle k ∧ readyList k1 = readyList k ∧ semaphores k1 = semaphores k ∧
    machine k1 = machine k) as (E1 & E2 & E3 & E4 & E5 & E6 & E7).
  { unfold k1. destruct (threadToBeDestroyed k) as [d|] eqn:Ed; [|by split_and!]. simpl.
    split_and!; try done. apply lookup_delete_ne. intros ->.
    destruct (inv_dead _ _ _ _ Hi c Ed) as (x & Hx & Hst & _). rewrite Hx in Hrun. simpl in Hrun. congruence. }
  assert (keeps None k None k1) as Hk1.
  { unfold k1. destruct (threadToBeDestroyed k) as [d|]; [|apply keeps_refl].
    intros t [x Hx]. simpl in Hx. apply lookup_delete_Some in Hx as [Hne Hx].
    split; [by eexists|]. unfold context. simpl. by rewrite lookup_delete_ne. }
  destruct (inv_current _ _ _ _ Hi1) as [th Hth]. rewrite E2 in Hth.
  destruct (inv_threads _ _ _ _ Hi1 _ _ Hth) as (Hlen & _ & _).
  pose proof (inv_regs _ _ _ _ Hi1) as Hregs.
  set (m := match space th with
            | None => machine k1
            | Some sp => RestoreState sp (with_registers (machine k1) (userRegisters th)) end).
  exists (with_machine k1 m). split_and!; try done.
  - unfold Run_return.
    assert (destroy_carcass k = Ok k1) as ->.
    { unfold destroy_carcass, k1. destruct (threadToBeDestroyed k) as [d|] eqn:Ed; [|done].
      destruct (inv_dead _ _ _ _ Hi d Ed) as (x & Hx & Hst & _). unfold Thread_delete, get_thread.
      rewrite (proj2 (Z.eqb_neq d (currentThread k))).
      - simpl_res. by rewrite Hx.
      - intros ->. rewrite Hc, Hx in Hrun. simpl in Hrun. congruence. }
    simpl_res. unfold get_thread. rewrite E2, Hth. simpl_res. unfold m.
    destruct (space th) as [sp|]; [|by destruct k1]. by rewrite RestoreUserState_spec.
  - apply inv_machine; [done|]. unfold m. by destruct (space th).
  - eapply keeps_trans; [exact Hk1|]. intros t Ht. split; [done|]. unfold context. simpl.
    destruct (threads k1 !! t) as [x|] eqn:Ex; [|done]. simpl.
    destruct (space x) as [sp|] eqn:Esp; [|done]. simpl.
    case_bool_decide as Hct; [|done]. injection Hct as <-.
    assert (x = th) as -> by congruence. unfold m. rewrite Esp. simpl. by destruct sp.
Qed.

(** ** Semaphores *)

Lemma put_semaphore_twice k s a b :
  put_semaphore (put_semaphore k s a) s b = put_semaphore k s b.
Proof using Type. unfold put_semaphore, with_semaphores. simpl. by rewrite insert_insert_eq. Qed.

Lemma put_semaphore_ready k s a t th l b :
  put_semaphore (with_ready (put_thread (put_semaphore k s a) t th) l) s b
  = put_semaphore (with_ready (put_thread k t th) l) s b.
Proof using Type. unfold put_semaphore, with_semaphores. simpl. by rewrite insert_insert_eq. Qed.

Lemma put_thread_twice k t a b : put_thread (put_thread k t a) t b = put_thread k t b.
Proof using Type. unfold put_thread, with_threads. simpl. by rewrite insert_insert_eq. Qed.

(** The value of one semaphore changes. *)
Lemma inv_value run hand w w' k s sem v q :
  inv run hand w k → semaphores k !! s = Some sem → kl_wf q → ids q = ids (queue sem) → 0 ≤ v →
  (ids (queue sem) ≠ [] →
     v ≤ Z.of_nat (woken (threads k) s (ready k hand)) + (if bool_decide (w' = Some s) then 1 else 0)) →
  (∀ s', s' ≠ s → w = Some s' → w' = Some s') →
  inv run hand w' (put_semaphore k s (mkSemaphore v q)).
Proof using Type.
  intros [H1 H2 H3 H4 H5 H6 H7 H8 H9] Hsem Qwf Qids Hv Hwake Hw. split; try done; simpl.
  - intros t th Ht. destruct (H3 t th Ht) as (? & ? & Hs). split_and!; [done..|].
    destruct (status th); try done. destruct Hs as [?|(s' & l & x & ? & Hx & ?)]; [by left|right].
    destruct (decide (s' = s)) as [->|Hne].
    + exists s, l. eexists. simpl. rewrite lookup_insert_eq. split_and!; [done..|]. simpl. rewrite Qids. congruence.
    + exists s', l, x. simpl. by rewrite lookup_insert_ne.
  - intros t Hin. destruct (H6 t Hin) as (th & ? & ? & Hres). exists th. split_and!; [done..|].
    unfold resumable in *. destruct (resumes th); try done. simpl. apply lookup_insert_is_Some'. by right.
  - intros s' x Hx. apply lookup_insert_Some in Hx as [[<- <-]|[Hne Hx]].
    + destruct (H7 s sem Hsem) as [? ? ? ? ?]. by split; simpl; rewrite ?Qids.
    + destruct (H7 s' x Hx) as [? ? ? ? Hk]. split; try done. intros Hq. specialize (Hk Hq).
      change (threads (put_semaphore k s (mkSemaphore v q))) with (threads k).
      change (ready (put_semaphore k s (mkSemaphore v q)) hand) with (ready k hand).
      destruct (decide (w = Some s')) as [E|E].
      * rewrite bool_decide_eq_true_2 in Hk by done. by rewrite bool_decide_eq_true_2 by auto.
      * rewrite bool_decide_eq_false_2 in Hk by done. cbn iota in *. destruct (bool_decide (w' = Some s')); lia.
Qed.

(** The running thread takes a unit of the value. *)
Lemma grant_spec c w k s sem :
  inv (Some c) None w k → semaphores k !! s = Some sem → value sem ≠ 0 →
  (w = None ∨ w = Some s) →
  inv (Some c) None None (put_semaphore k s (mkSemaphore (value sem - 1) (queue sem))).
Proof using Type.
  intros Hi Hsem Hv Hw. destruct (inv_sems _ _ _ _ Hi s sem Hsem) as [Swf _ Hv0 _ Hk].
  apply (inv_value _ _ w _ _ _ sem); try done; [lia| |].
  - intros Hq. specialize (Hk Hq). rewrite (bool_decide_eq_false_2 (None = Some s)) by done.
    destruct Hw as [-> | ->]; case_bool_decide; lia.
  - intros s' Hne ->. destruct Hw as [|[= ->]]; done.
Qed.

(** The running thread queues up and blocks. *)
Lemma queue_up_spec c w k s l sem :
  inv (Some c) None w k → semaphores k !! s = Some sem → value sem = 0 →
  (w = None ∨ w = Some s) → level k = IntOff →
  ∃ q k', kl_append (queue sem) c = Ok q ∧
    block (put_semaphore k s (mkSemaphore (value sem) q)) (InP s l) = Ok k' ∧
    inv None None None k' ∧ keeps (Some c) k (Some c) k' ∧ currentThread k' = c ∧
    level k' = IntOff ∧ idle k' = idle k ∧ readyList k' = readyList k.
Proof using Type*.
  intros Hi Hsem Hv Hw Hl. pose proof Hi as [H1 H2 H3 H4 H5 H6 H7 H8 H9].
  destruct (H2 c eq_refl) as [Hc Hrun]. destruct (threads k !! c) as [th|] eqn:Ht; [|done].
  injection Hrun as Hst. destruct (H7 s sem Hsem) as [Swf Snd Sv Sb Sk].
  assert (c ∉ ids (queue sem)) as Hout by (eapply not_queued; [exact Hi|exact Ht|congruence|exact Hsem]).
  assert (c ∉ ready k None) as Hnr by (eapply not_ready; [exact Hi|exact Ht|congruence]).
  destruct (ids_append (queue sem) c Swf) as (q & Eq & Qwf & Qids).
  set (th' := with_resume (with_status th BLOCKED) (InP s l)).
  exists q, (put_thread (put_semaphore k s (mkSemaphore (value sem) q)) c th').
  split; [done|]. split.
  { unfold block, get_thread. simpl. rewrite Hl. rewrite bool_decide_eq_true_2 by done. simpl_res.
    by rewrite <- Hc, Ht. }
  split; [|split; [|done]].
  - split; simpl; try done.
    + apply lookup_insert_is_Some'. by right.
    + intros t x Hx. apply lookup_insert_Some in Hx as [[<- <-]|[Hne Hx]].
      * destruct (H3 c th Ht) as (? & ? & _). split_and!; [done..|]. right.
        exists s, l. eexists. simpl. rewrite lookup_insert_eq. split_and!; [done..|]. simpl.
        rewrite Qids. set_solver.
      * destruct (H3 t x Hx) as (? & ? & Hs). split_and!; [done..|].
        destruct (status x); try done; [congruence|].
        destruct Hs as [?|(s' & l' & y & ? & Hy & ?)]; [by left|right].
        destruct (decide (s' = s)) as [->|Hns].
        -- exists s, l'. eexists. simpl. rewrite lookup_insert_eq. split_and!; [done..|]. simpl.
           rewrite Qids. assert (y = sem) as -> by congruence. set_solver.
        -- exists s', l', y. simpl. by rewrite lookup_insert_ne.
    + intros t Hin. destruct (H6 t Hin) as (x & Hx & ? & Hres). exists x.
      rewrite lookup_insert_ne by (intros ->; done). split_and!; [done..|].
      unfold resumable in *. destruct (resumes x); try done. simpl. apply lookup_insert_is_Some'. by right.
    + intros s' x Hx. apply lookup_insert_Some in Hx as [[<- <-]|[Hns Hx]].
      * split; simpl; try done.
        -- rewrite Qids. by apply NoDup_snoc.
        -- rewrite Qids. intros t Hin. apply elem_of_app in Hin as [Hin|Hin].
           ++ destruct (Sb t Hin) as (y & l' & Hy & ? & ?). exists y, l'.
              rewrite lookup_insert_ne by (intros ->; done). done.
           ++ apply list_elem_of_singleton in Hin as ->. exists th', l. by rewrite lookup_insert_eq.
        -- lia.
      * destruct (H7 s' x Hx) as [? ? ? Hb Hk]. split; simpl; try done.
        -- intros t Hin. destruct (Hb t Hin) as (y & l' & Hy & ? & ?). exists y, l'.
           rewrite lookup_insert_ne; [done|]. intros ->. congruence.
        -- intros Hq. specialize (Hk Hq). rewrite woken_insert_out by done.
           destruct Hw as [-> | ->]; [done|]. rewrite bool_decide_eq_false_2 in Hk by congruence. done.
    + intros d Hd. destruct (H8 d Hd) as (x & Hx & ? & ?). exists x.
      rewrite lookup_insert_ne; [done|]. intros ->. congruence.
  - apply (keeps_trans _ _ (Some c) (put_semaphore k s (mkSemaphore (value sem) q)));
      [by apply keeps_eq|]. by apply (keeps_put _ _ _ th).
Qed.

(** ** Whoever runs next *)

(** What [arrive] does with enough fuel. *)
Definition arrives (fuel : nat) : Prop := ∀ k th,
  inv (Some (currentThread k)) None (waiting th) k → threads k !! currentThread k = Some th →
  resumable k th → idle k = false → level k = IntOff →
  (length (ids (readyList k)) < fuel)%nat →
  ∃ k', arrive fuel k = Ok k' ∧ ok k' ∧ keeps None k (Some (currentThread k')) k'.

Lemma run_next_spec fuel k :
  arrives fuel → inv None None None k → level k = IntOff →
  (length (ids (readyList k)) <= fuel)%nat →
  ∃ k', run_next (arrive fuel) k = Ok k' ∧ ok k' ∧
        keeps (Some (currentThread k)) k (Some (currentThread k')) k'.
Proof using Type*.
  intros Harr Hi Hl Hf. unfold run_next.
  destruct (FindNextToRun_spec None k None Hi) as (k1 & -> & Hi1 & Ec & Et & El & Eidle & Em & Es & Er).
  simpl_res. destruct (ids (readyList k)) as [|t rest] eqn:Eids; simpl in *.
  - exists (with_idle k1 true). split; [done|]. split; [|by rewrite <- Ec; apply keeps_eq].
    split; [by apply inv_idle|]. simpl. congruence.
  - destruct (inv_ready _ _ _ _ Hi1 t) as (th & Ht & _ & _); [by left|].
    destruct (Run_switch_spec (with_idle k1 false) t th) as
      (k2 & -> & Hi2 & Hk2 & (th2 & Ht2 & Hr2 & Hres2) & Ec2 & El2 & Eidle2 & Er2 & Es2);
      [by apply inv_idle|done|].
    simpl_res. subst t. destruct (Harr k2 th2) as (k3 & -> & Hok & Hk3); try done.
    + by replace (waiting th2) with (waiting th) by (unfold waiting; by rewrite Hr2).
    + rewrite El2. simpl. congruence.
    + rewrite Er2. simpl. rewrite Er. lia.
    + exists k3. split; [done|]. split; [done|]. eapply keeps_trans; [|exact Hk3].
      eapply keeps_trans; [|exact Hk2]. simpl. rewrite Ec. by apply keeps_eq.
Qed.

Lemma wait_on_spec fuel w k s l :
  arrives fuel → inv (Some (currentThread k)) None w k → (w = None ∨ w = Some s) →
  is_Some (semaphores k !! s) → level k = IntOff → idle k = false →
  (length (ids (readyList k)) <= fuel)%nat →
  ∃ k', wait_on (arrive fuel) k s l = Ok k' ∧ ok k' ∧
        keeps (Some (currentThread k)) k (Some (currentThread k')) k'.
Proof using Type*.
  intros Harr Hi Hw [sem Hsem] Hl Hidle Hf. unfold wait_on, get_semaphore. rewrite Hsem. simpl_res.
  destruct (Z.eqb_spec (value sem) 0) as [Hv|Hv].
  - destruct (queue_up_spec _ w k s l sem Hi Hsem Hv Hw Hl)
      as (q & k1 & -> & E1 & Hi1 & Hk1 & Ec & El & Eidle & Er). simpl_res.
    rewrite E1. simpl_res. rewrite <- Ec in Hk1.
    destruct (run_next_spec fuel k1 Harr Hi1 El) as (k2 & -> & Hok & Hk2); [by rewrite Er|].
    exists k2. split; [done|]. split; [done|]. eapply keeps_trans; [|exact Hk2]. rewrite <- Ec at 1. done.
  - eexists. split; [reflexivity|]. split.
    + split; [|simpl; congruence]. unfold runs. simpl. rewrite Hidle. apply inv_level.
      by eapply grant_spec.
    + simpl. by apply keeps_eq.
Qed.

Lemma arrive_spec fuel : arrives fuel.
Proof using Type*.
  induction fuel as [|fuel IH]; intros k th Hi Ht Hres Hidle Hl Hf; [lia|].
  cbn [arrive]. unfold get_thread. rewrite Ht. simpl_res. unfold resumable in Hres.
  unfold waiting in Hi. destruct (resumes th) as [|l|s l|] eqn:Er; [| | |done].
  - exists (with_level k IntOn). split; [done|]. split.
    + split; [|simpl; congruence]. unfold runs. simpl. rewrite Hidle. by apply inv_level.
    + intros t Hx. split; [done|]. unfold context. simpl.
      destruct (threads k !! t) as [x|] eqn:Ex; [|done]. simpl.
      destruct (space x) as [sp|] eqn:Esp; [|done]. simpl.
      rewrite (bool_decide_eq_false_2 (Some _ = Some t)); [done|]. intros [= E]. congruence.
  - destruct (Run_return_spec _ _ k Hi) as (k1 & -> & Hi1 & Hk1 & _ & Ec & El & Eidle & Erl & Es).
    simpl_res. exists (with_level k1 l). split; [done|]. split.
    + split; [|simpl; congruence]. unfold runs. simpl. rewrite Eidle, Hidle, Ec. by apply inv_level.
    + eapply keeps_trans; [exact Hk1|]. simpl. rewrite Ec. by apply keeps_eq.
  - destruct (Run_return_spec _ _ k Hi) as (k1 & -> & Hi1 & Hk1 & _ & Ec & El & Eidle & Erl & Es).
    simpl_res. rewrite <- Ec in Hi1, Hk1.
    destruct (wait_on_spec fuel (Some s) k1 s l IH Hi1) as (k2 & -> & Hok & Hk2).
    + by right.
    + by rewrite Es.
    + congruence.
    + congruence.
    + rewrite Erl. lia.
    + exists k2. split; [done|]. split; [done|]. by eapply keeps_trans.
Qed.

(** ** Making a thread ready *)

(** A thread that ran or was just created goes to the end of the ready list. *)
Lemma make_ready_spec run hand k t th th' :
  inv run hand None k → threads k !! t = Some th → status th = RUNNING ∨ status th = JUST_CREATED →
  status th' = READY → resumable k th' → waiting th' = None →
  length (userRegisters th') = Z.to_nat NumTotalRegs →
  stack th' = None ∨ stack th' = Some STACK_FENCEPOST →
  ∃ l, kl_append (readyList k) t = Ok l ∧ ids l = ids (readyList k) ++ [t] ∧
    inv (if bool_decide (run = Some t) then None else run) hand None (with_ready (put_thread k t th') l).
Proof using Type*.
  intros Hi Ht Hst Hst' Hres Hwait Hlen Hstk. pose proof Hi as [H1 H2 H3 H4 H5 H6 H7 H8 H9].
  assert (status th ≠ READY) as Hs1 by (destruct Hst; congruence).
  assert (status th ≠ BLOCKED) as Hs2 by (destruct Hst; congruence).
  assert (t ∉ ready k hand) as Hout by (by eapply not_ready).
  destruct (ids_append (readyList k) t H4) as (l & E & Lwf & Lids).
  assert (ready (with_ready (put_thread k t th') l) hand = ready k hand ++ [t]) as Hready.
  { unfold ready. simpl. by rewrite Lids, app_assoc. }
  exists l. split; [done|]. split; [done|]. split; simpl; try done.
  - apply lookup_insert_is_Some'. by right.
  - intros t' Hr. case_bool_decide as Hrt; [done|]. destruct (H2 t' Hr) as [-> Hx]. split; [done|].
    rewrite lookup_insert_ne; [done|]. congruence.
  - intros t' x Hx. apply lookup_insert_Some in Hx as [[<- <-]|[Hne Hx]].
    + split_and!; [done..|]. rewrite Hst', Hready. set_solver.
    + destruct (H3 t' x Hx) as (? & ? & Hs). split_and!; [done..|]. destruct (status x); try done.
      * rewrite bool_decide_eq_false_2; [done|]. congruence.
      * rewrite Hready. set_solver.
  - rewrite Hready. by apply NoDup_snoc.
  - rewrite Hready. intros t' Hin. apply elem_of_app in Hin as [Hin|Hin].
    + destruct (H6 t' Hin) as (x & Hx & ? & ?). exists x. by rewrite lookup_insert_ne by (intros ->; done).
    + apply list_elem_of_singleton in Hin as ->. exists th'. by rewrite lookup_insert_eq.
  - intros s sem Hsem. destruct (H7 s sem Hsem) as [? ? ? Hb Hk]. split; simpl; try done.
    + intros t' Hin. destruct (Hb t' Hin) as (x & l' & Hx & ? & ?). exists x, l'.
      rewrite lookup_insert_ne; [done|]. intros ->. congruence.
    + intros Hq. specialize (Hk Hq). rewrite Hready, woken_app, woken_insert_out by done. 
      rewrite bool_decide_eq_false_2 in Hk by done. lia.
  - intros d Hd. destruct (H8 d Hd) as (x & Hx & ? & ?). exists x.
    rewrite lookup_insert_ne; [done|]. intros ->. congruence.
Qed.

(** [V] with a waiter: it moves to the ready list, and the value grows. *)
Lemma wake_spec run k s sem t rest q :
  inv run None None k → semaphores k !! s = Some sem → ids (queue sem) = t :: rest →
  kl_wf q → ids q = rest →
  ∃ th l, threads k !! t = Some th ∧ kl_append (readyList k) t = Ok l ∧
    ids l = ids (readyList k) ++ [t] ∧ (∃ l0, resumes th = InP s l0) ∧
    inv run None None
      (put_semaphore (with_ready (put_thread k t (with_status th READY)) l) s
         (mkSemaphore (value sem + 1) q)).
Proof using Type*.
  intros Hi Hsem Hids Qwf Qids. pose proof Hi as [H1 H2 H3 H4 H5 H6 H7 H8 H9].
  destruct (H7 s sem Hsem) as [Swf Snd Sv Sb Sk]. rewrite Hids in *.
  apply NoDup_cons in Snd as [Hout Snd]. destruct (Sb t) as (th & l0 & Ht & Hst & Hres); [by left|].
  assert (t ∉ ready k None) as Hnr by (eapply not_ready; [exact Hi|exact Ht|congruence]).
  destruct (ids_append (readyList k) t H4) as (l & E & Lwf & Lids).
  exists th, l. split; [done|]. split; [done|]. split; [done|]. split; [by exists l0|].
  set (k' := put_semaphore _ _ _).
  assert (ready k' None = ready k None ++ [t]) as Hready by (unfold ready; simpl; done).
  assert (∀ s' t', wakes (threads k') s' t' = wakes (threads k) s' t') as Hw
    by (intros; simpl; by eapply wakes_same).
  assert (∀ s', is_Some (semaphores k !! s') → is_Some (semaphores k' !! s')) as Hsems.
  { intros s' Hx. simpl. apply lookup_insert_is_Some'. by right. }
  split; try done.
  - simpl. apply lookup_insert_is_Some'. by right.
  - intros t' Hr. destruct (H2 t' Hr) as [-> Hx]. split; [done|]. simpl.
    rewrite lookup_insert_ne; [done|]. intros E'. rewrite <- E', Ht in Hx. simpl in Hx. congruence.
  - intros t' x Hx. simpl in Hx. apply lookup_insert_Some in Hx as [[<- <-]|[Hne Hx]].
    + destruct (H3 t th Ht) as (? & ? & _). split_and!; [done..|]. simpl. rewrite Hready. set_solver.
    + destruct (H3 t' x Hx) as (? & ? & Hs). split_and!; [done..|]. destruct (status x); try done.
      * rewrite Hready. set_solver.
      * destruct Hs as [?|(s' & l' & y & ? & Hy & Hin)]; [by left|right].
        destruct (decide (s' = s)) as [->|Hns].
        -- exists s, l'. eexists. simpl. rewrite lookup_insert_eq. split_and!; [done..|]. simpl.
           assert (y = sem) as -> by congruence. rewrite Hids in Hin. rewrite Qids. set_solver.
        -- exists s', l', y. simpl. by rewrite lookup_insert_ne.
  - rewrite Hready. by apply NoDup_snoc.
  - rewrite Hready. intros t' Hin. apply elem_of_app in Hin as [Hin|Hin].
    + destruct (H6 t' Hin) as (x & Hx & ? & Hr). exists x. simpl.
      rewrite lookup_insert_ne by (intros ->; done). split_and!; [done..|].
      unfold resumable in *. destruct (resumes x); auto.
    + apply list_elem_of_singleton in Hin as ->. exists (with_status th READY). simpl.
      rewrite lookup_insert_eq. split_and!; [done..|]. unfold resumable. simpl. rewrite Hres. by apply Hsems.
  - intros s' x Hx. simpl in Hx. apply lookup_insert_Some in Hx as [[<- <-]|[Hns Hx]].
    + split; simpl; [done|by rewrite Qids|lia| |].
      * rewrite Qids. intros t' Hin. destruct (Sb t') as (y & l' & Hy & ? & ?); [by right|].
        exists y, l'. rewrite lookup_insert_ne; [done|]. intros ->. done.
      * intros _. specialize (Sk ltac:(done)). rewrite Hready. rewrite (woken_agree (threads k)) by done.
        rewrite woken_app, woken_cons, (wakes_waiting _ _ th s Ht).
        unfold waiting. rewrite Hres, (bool_decide_eq_true_2 (Some s = Some s)) by done.
        rewrite bool_decide_eq_false_2 in Sk by done. simpl. lia.
    + destruct (H7 s' x Hx) as [? ? ? Hb Hk]. split; simpl; try done.
      * intros t' Hin. destruct (Hb t' Hin) as (y & l' & Hy & ? & Hry). exists y, l'.
        rewrite lookup_insert_ne; [done|]. intros ->. assert (y = th) as -> by congruence.
        rewrite Hres in Hry. congruence.
      * intros Hq. specialize (Hk Hq). rewrite Hready, (woken_agree (threads k)) by done.
        rewrite woken_app. rewrite bool_decide_eq_false_2 in Hk by done. simpl. lia.
  - intros d Hd. destruct (H8 d Hd) as (x & Hx & ? & ?). exists x. simpl.
    rewrite lookup_insert_ne; [done|]. intros ->. congruence.
Qed.

(** ** Every request *)

(** The requests that do not touch the user part of a thread. *)
Definition kernel_op (r : request) : bool :=
  match r with RNew _ _ | RSpace _ | RUser _ => false | _ => true end.

Definition served (r : request) k : Prop :=
  ∃ k', serve r k = Ok k' ∧ ok k' ∧
    (kernel_op r = true → keeps (Some (currentThread k)) k (Some (currentThread k')) k').

Lemma length_ids (l : L) : length (ids l) = length (kl_elems l).
Proof using Type. unfold ids. by rewrite length_fmap. Qed.

Lemma ok_running k : ok k → idle k = false → inv (Some (currentThread k)) None None k.
Proof using Type. intros [Hi _] Hidle. unfold runs in Hi. by rewrite Hidle in Hi. Qed.

Lemma running_ok k : inv (Some (currentThread k)) None None k → idle k = false → ok k.
Proof using Type. intros Hi Hidle. split; [unfold runs; by rewrite Hidle|congruence]. Qed.

Lemma serve_P s k : ok k → idle k = false → is_Some (semaphores k !! s) → served (RP s) k.
Proof using Type*.
  intros Hok Hidle Hs. pose proof (ok_running k Hok Hidle) as Hi.
  destruct (wait_on_spec (ready_fuel k) None (with_level k IntOff) s (level k)) as (k' & E & Hok' & Hk).
  - apply arrive_spec.
  - by apply inv_level.
  - by left.
  - done.
  - done.
  - done.
  - simpl. unfold ready_fuel. rewrite length_ids. lia.
  - exists k'. split; [exact E|]. split; [done|]. intros _. exact Hk.
Qed.

Lemma V_wakes k s sem t rest q th l :
  semaphores k !! s = Some sem → ids (queue sem) = t :: rest →
  kl_remove (queue sem) = Ok (Some t, q) → threads k !! t = Some th →
  kl_append (readyList k) t = Ok l →
  V k s = Ok (with_level (put_semaphore
                (with_ready (put_thread (with_level k IntOff) t (with_status th READY)) l) s
                (mkSemaphore (value sem + 1) q)) (level k)).
Proof using Type.
  intros Hsem Eids Eq Ht El. unfold V, get_semaphore. simpl. rewrite Hsem. simpl_res. rewrite Eq. simpl_res.
  unfold ReadyToRun, get_thread. simpl. rewrite Ht. simpl_res. rewrite El. simpl_res. simpl.
  rewrite lookup_insert_eq. simpl_res. by rewrite put_semaphore_ready.
Qed.

Lemma serve_V s k : ok k → is_Some (semaphores k !! s) → served (RV s) k.
Proof using Type*.
  intros [Hi Hl] [sem Hsem]. unfold served. cbn [serve].
  destruct (inv_sems _ _ _ _ Hi s sem Hsem) as [Swf Snd Sv Sb Sk].
  destruct (ids_remove (queue sem) Swf) as (q & Eq & Qwf & Qids).
  destruct (ids (queue sem)) as [|t rest] eqn:Eids; simpl in Eq, Qids.
  - unfold V, get_semaphore. simpl. rewrite Hsem. simpl_res. rewrite Eq. simpl_res. simpl.
    rewrite lookup_insert_eq. simpl_res. eexists. split; [reflexivity|]. simpl.
    split; [|intros _; by apply keeps_eq]. split; [|done].
    apply (inv_level _ _ _ (put_semaphore _ _ _)).
    rewrite put_semaphore_twice. apply (inv_value _ _ None _ _ _ sem); try done;
      [by apply inv_level|by rewrite Eids|lia].
  - destruct (wake_spec (runs k) k s sem t rest q Hi Hsem Eids Qwf Qids) as (th & l & Ht & El & _ & _ & Hi').
    rewrite (V_wakes k s sem t rest q th l Hsem Eids Eq Ht El). eexists. split; [reflexivity|]. split.
    + split; [|done]. exact (inv_level _ _ _ _ (level k) Hi').
    + intros _. apply (keeps_trans _ _ (Some (currentThread k)) (put_thread k t (with_status th READY)));
        [by apply (keeps_put _ _ _ th)|by apply keeps_eq].
Qed.

(** Where the threads continue is left alone by a switch. *)
Lemma Run_switch_resumes k t k' :
  Run_switch k t = Ok k' → ∀ x, resumes <$> threads k' !! x = resumes <$> threads k !! x.
Proof using Type.
  unfold Run_switch, get_thread. destruct (threads k !! currentThread k) as [old|] eqn:Eo; [|done]. simpl_res.
  destruct (save_user old (machine k)) as [old'|] eqn:Es; [|done]. simpl_res.
  assert (resumes old' = resumes old) as Er.
  { revert Es. unfold save_user, SaveUserState. destruct (space old); [|by intros [= ->]].
    simpl_res. destruct (for_loop _ _ _ _); [|done]. by intros [= <-]. }
  destruct (CheckOverflow old'); [|done]. simpl_res. simpl.
  destruct (<[currentThread k := old']> (threads k) !! t) as [next|] eqn:En; [|done].
  intros [= <-] x. simpl. destruct (decide (x = t)) as [->|].
  - rewrite lookup_insert_eq. apply lookup_insert_Some in En as [[<- <-]|[_ En]]; [rewrite Eo; simpl; by rewrite Er|].
    by rewrite En.
  - rewrite lookup_insert_ne by done. destruct (decide (x = currentThread k)) as [->|].
    + rewrite lookup_insert_eq, Eo. simpl. by rewrite Er.
    + by rewrite lookup_insert_ne.
Qed.

(** [Yield] with a ready thread: it goes behind the others, and the first of
    them continues. *)
Lemma Yield_switches k t rest :
  ok k → idle k = false → ids (readyList k) = t :: rest →
  ∃ k3 th3, Yield k = arrive (ready_fuel k3) k3 ∧
    inv (Some (currentThread k3)) None (waiting th3) k3 ∧ threads k3 !! currentThread k3 = Some th3 ∧
    resumable k3 th3 ∧ currentThread k3 = t ∧ idle k3 = false ∧ level k3 = IntOff ∧
    ids (readyList k3) = rest ++ [currentThread k] ∧ keeps (Some (currentThread k)) k None k3 ∧
    (∀ x, resumes <$> threads k3 !! x =
       if bool_decide (x = currentThread k) then Some (InYield (level k)) else resumes <$> threads k !! x).
Proof using Type*.
  intros Hok Hidle Eids. pose proof (ok_running k Hok Hidle) as Hi. unfold Yield.
  destruct (FindNextToRun_spec _ (with_level k IntOff) None (inv_level _ _ _ _ IntOff Hi))
    as (k1 & -> & Hi1 & Ec & Et & El & Eidle & Em & Es & Er). simpl_res.
  change (readyList (with_level k IntOff)) with (readyList k) in *. simpl in Ec, Et, El, Eidle, Em, Es.
  rewrite Eids in *. cbn [head tail] in *.
  set (c := currentThread k) in *. destruct (inv_run _ _ _ _ Hi c eq_refl) as [_ Hrun].
  destruct (threads k !! c) as [th|] eqn:Hth; [|done]. injection Hrun as Hst.
  destruct (inv_threads _ _ _ _ Hi c th Hth) as (Hlen & Hstk & _).
  unfold get_thread. rewrite Ec, Et, Hth. simpl_res.
  set (th1 := with_resume th (InYield (level k))).
  destruct (make_ready_spec (Some c) (Some t) k1 c th (with_status th1 READY))
    as (l & Eapp & Lids & Hi2); try done; [congruence|by left|].
  rewrite bool_decide_eq_true_2 in Hi2 by done.
  set (k2 := with_ready (put_thread k1 c (with_status th1 READY)) l) in *.
  assert (ReadyToRun (put_thread k1 c th1) c = Ok k2) as Eready.
  { unfold ReadyToRun, get_thread. simpl. rewrite lookup_insert_eq. simpl_res. rewrite Eapp. simpl_res.
    by rewrite put_thread_twice. }
  rewrite Eready. simpl_res. destruct (inv_ready _ _ _ _ Hi2 t) as (tht & Htt & _ & _); [by left|].
  destruct (Run_switch_spec k2 t tht Hi2 Htt) as
    (k3 & E3 & Hi3 & Hk3 & (th3 & Ht3 & Hr3 & Hres3) & Ec3 & El3 & Eidle3 & Er3 & Es3).
  rewrite E3. simpl_res. exists k3, th3. rewrite Ec3. split; [done|].
  split; [by replace (waiting th3) with (waiting tht) by (unfold waiting; by rewrite Hr3)|].
  split; [done|]. split; [done|]. split; [done|]. split; [rewrite Eidle3; simpl; congruence|].
  split; [rewrite El3; simpl; congruence|]. split; [rewrite Er3; simpl; by rewrite Lids, Er|]. split.
  - assert (currentThread k2 = c) as Ec2 by done. rewrite Ec2 in Hk3.
    eapply keeps_trans; [|exact Hk3].
    apply (keeps_trans _ _ (Some c) k1); [by apply keeps_eq|].
    apply (keeps_trans _ _ (Some c) (put_thread k1 c (with_status th1 READY)));
      [apply (keeps_put _ _ _ th); [congruence|done|done]|by apply keeps_eq].
  - intros x. rewrite (Run_switch_resumes _ _ _ E3). simpl. rewrite Et. case_bool_decide as Hx.
    + by rewrite Hx, lookup_insert_eq.
    + by rewrite lookup_insert_ne.
Qed.

(** [Yield] without one: it returns. *)
Lemma Yield_alone k :
  ok k → idle k = false → ids (readyList k) = [] →
  ∃ l, Yield k = Ok (with_ready k l) ∧ kl_wf l ∧ ids l = [].
Proof using Type*.
  intros Hok Hidle Eids. pose proof (inv_ready_wf _ _ _ _ (proj1 Hok)) as Hwf.
  destruct (ids_remove (readyList k) Hwf) as (l & E & Lwf & Lids). rewrite Eids in *.
  exists l. split; [|done]. unfold Yield, FindNextToRun. simpl. rewrite E. simpl_res. by destruct k.
Qed.

Lemma inv_empty_ready run hand w k l :
  inv run hand w k → kl_wf l → ids l = [] → ids (readyList k) = [] → inv run hand w (with_ready k l).
Proof using Type.
  intros [H1 H2 H3 H4 H5 H6 H7 H8 H9] Hwf Hl Hr.
  assert (ready (with_ready k l) hand = ready k hand) as Hready by (unfold ready; simpl; by rewrite Hl, Hr).
  split; try done; rewrite ?Hready; try done.
  - intros t th Ht. unfold thread_ok. rewrite Hready. by apply H3.
  - intros s sem Hsem. destruct (H7 s sem Hsem). split; try done. by rewrite Hready.
Qed.

Lemma serve_Yield k : ok k → idle k = false → served RYield k.
Proof using Type*.
  intros Hok Hidle. unfold served. cbn [serve].
  destruct (ids (readyList k)) as [|t rest] eqn:Eids.
  - destruct (Yield_alone k Hok Hidle Eids) as (l & -> & Hwf & Hl). eexists. split; [reflexivity|].
    split; [|intros _; by apply keeps_eq]. destruct Hok as [Hi Hlev]. split; [|done].
    by apply inv_empty_ready.
  - destruct (Yield_switches k t rest Hok Hidle Eids)
      as (k3 & th3 & -> & Hi3 & Ht3 & Hres3 & Ec3 & Eidle3 & El3 & Er3 & Hk3 & _).
    destruct (arrive_spec (ready_fuel k3) k3 th3) as (k4 & -> & Hok4 & Hk4); try done.
    { unfold ready_fuel. rewrite length_ids. lia. }
    exists k4. split; [done|]. split; [done|]. intros _. eapply keeps_trans; [exact Hk3|exact Hk4].
Qed.

(** The current thread becomes a carcass. *)
Lemma inv_finish c k th :
  inv (Some c) None None k → threads k !! c = Some th →
  inv None None None (put_thread (with_destroyed k (Some c)) c (with_resume (with_status th BLOCKED) AtEnd)).
Proof using Type.
  intros Hi Ht. pose proof Hi as [H1 H2 H3 H4 H5 H6 H7 H8 H9]. destruct (H2 c eq_refl) as [Hc Hrun].
  rewrite Ht in Hrun. injection Hrun as Hst.
  assert (c ∉ ready k None) as Hnr by (eapply not_ready; [exact Hi|exact Ht|congruence]).
  split; simpl; try done.
  - apply lookup_insert_is_Some'. by right.
  - intros t x Hx. apply lookup_insert_Some in Hx as [[<- <-]|[Hne Hx]].
    + destruct (H3 c th Ht) as (? & ? & _). split_and!; [done..|]. by left.
    + destruct (H3 t x Hx) as (? & ? & Hs). split_and!; [done..|]. destruct (status x); try done. congruence.
  - intros t Hin. destruct (H6 t Hin) as (x & Hx & ? & ?). exists x.
    by rewrite lookup_insert_ne by (intros ->; done).
  - intros s sem Hsem. destruct (H7 s sem Hsem) as [? ? ? Hb Hk]. split; simpl; try done.
    + intros t Hin. destruct (Hb t Hin) as (x & l & Hx & ? & ?). exists x, l.
      rewrite lookup_insert_ne; [done|]. intros ->. congruence.
    + intros Hq. rewrite woken_insert_out by done. by apply Hk.
  - intros d [= <-]. eexists. by rewrite lookup_insert_eq.
Qed.

Lemma serve_Finish k : ok k → idle k = false → served RFinish k.
Proof using Type*.
  intros Hok Hidle. pose proof (ok_running k Hok Hidle) as Hi.
  destruct (inv_current _ _ _ _ Hi) as [th Hth].
  pose proof (inv_finish _ _ th (inv_level _ _ _ _ IntOff Hi) Hth) as Hi1. simpl in Hi1.
  unfold served. cbn [serve]. unfold Finish, Sleep.
  set (k0 := with_destroyed (with_level k IntOff) (Some (currentThread k))).
  set (k1 := put_thread k0 (currentThread k) (with_resume (with_status th BLOCKED) AtEnd)).
  assert (block k0 AtEnd = Ok k1) as -> by (unfold block, get_thread; simpl; by rewrite Hth).
  simpl_res.
  destruct (run_next_spec (ready_fuel k1) k1 (arrive_spec _) Hi1) as (k2 & -> & Hok2 & Hk2); [done| |].
  { unfold ready_fuel. rewrite length_ids. lia. }
  exists k2. split; [done|]. split; [done|]. intros _. eapply keeps_trans; [|exact Hk2].
  apply (keeps_trans _ _ (Some (currentThread k)) k0); [by apply keeps_eq|].
  by apply (keeps_put _ _ _ th).
Qed.

Lemma serve_Wake k : ok k → idle k = true → served RWake k.
Proof using Type*.
  intros [Hi Hl] Hidle. unfold runs in Hi. rewrite Hidle in Hi.
  destruct (run_next_spec (ready_fuel k) k (arrive_spec _) Hi) as (k2 & E & Hok2 & Hk2); [auto| |].
  { unfold ready_fuel. rewrite length_ids. lia. }
  by exists k2.
Qed.

Lemma serve_Fork t k :
  ok k → idle k = false → status <$> threads k !! t = Some JUST_CREATED → served (RFork t) k.
Proof using Type*.
  intros Hok Hidle Hst. pose proof (ok_running k Hok Hidle) as Hi.
  destruct (threads k !! t) as [th|] eqn:Hth; [|done]. injection Hst as Hst.
  destruct (inv_threads _ _ _ _ Hi t th Hth) as (Hlen & _ & Hsp). rewrite Hst in Hsp.
  destruct (make_ready_spec (Some (currentThread k)) None k t th
    (with_status (StackAllocate th) READY)) as (l & El & _ & Hi1); try done; [by right|by right|].
  rewrite bool_decide_eq_false_2 in Hi1.
  2: { intros E. eapply not_running; [exact Hi|exact Hth|congruence|exact E]. }
  unfold served. cbn [serve]. unfold Fork, ReadyToRun, get_thread. rewrite Hth. simpl_res. simpl.
  rewrite lookup_insert_eq. simpl_res. rewrite El. simpl_res. eexists. split; [reflexivity|].
  assert (∀ a b, put_thread (with_level (put_thread k t a) IntOff) t b = with_level (put_thread k t b) IntOff)
    as -> by (intros; unfold put_thread, with_threads; simpl; by rewrite insert_insert_eq). split.
  - apply running_ok; [|done]. exact (inv_level _ _ _ _ (level k) Hi1).
  - intros _. apply (keeps_trans _ _ (Some (currentThread k)) (put_thread k t (with_status (StackAllocate th) READY)));
      [by apply (keeps_put _ _ _ th)|by apply keeps_eq].
Qed.

Lemma serve_New t g k :
  ok k → idle k = false → threads k !! t = None → length g = Z.to_nat NumTotalRegs → served (RNew t g) k.
Proof using Type.
  intros Hok Hidle Ht Hg. destruct (ok_running k Hok Hidle) as [H1 H2 H3 H4 H5 H6 H7 H8 H9].
  eexists. split; [reflexivity|]. split; [|done]. apply running_ok; [|done].
  assert (∀ t' th, threads k !! t' = Some th → t' ≠ t) as Hne by (intros t' th Hx ->; congruence).
  split; simpl; try done.
  - apply lookup_insert_is_Some'. by right.
  - intros t' [= <-]. destruct (H2 _ eq_refl) as [_ Hx]. split; [done|].
    destruct (threads k !! currentThread k) eqn:E; [|done].
    rewrite lookup_insert_ne by (by apply not_eq_sym, (Hne _ _ E)). by rewrite E.
  - intros t' x Hx. apply lookup_insert_Some in Hx as [[<- <-]|[_ Hx]]; [|by apply H3].
    split_and!; [done|by left|done].
  - intros t' Hin. destruct (H6 t' Hin) as (x & Hx & ? & ?). exists x.
    by rewrite lookup_insert_ne by (by apply not_eq_sym, (Hne _ _ Hx)).
  - intros s sem Hsem. destruct (H7 s sem Hsem) as [? ? ? Hb Hk]. split; simpl; try done.
    + intros t' Hin. destruct (Hb t' Hin) as (x & l & Hx & ? & ?). exists x, l.
      by rewrite lookup_insert_ne by (by apply not_eq_sym, (Hne _ _ Hx)).
    + intros Hq. rewrite woken_insert_out; [by apply Hk|].
      intros Hin. destruct (H6 t Hin) as (x & Hx & _). congruence.
  - intros d Hd. destruct (H8 d Hd) as (x & Hx & ? & ?). exists x.
    by rewrite lookup_insert_ne by (by apply not_eq_sym, (Hne _ _ Hx)).
Qed.

Lemma serve_Semaphore s v k :
  ok k → idle k = false → semaphores k !! s = None → 0 ≤ v → served (RSemaphore s v) k.
Proof using Type*.
  intros Hok Hidle Hs Hv. destruct (ok_running k Hok Hidle) as [H1 H2 H3 H4 H5 H6 H7 H8 H9].
  destruct kl_new_spec as [Nwf Nids].
  eexists. split; [reflexivity|]. split; [|intros _; by apply keeps_eq]. apply running_ok; [|done].
  split; simpl; try done.
  - intros t th Ht. destruct (H3 t th Ht) as (? & ? & Hst). split_and!; [done..|].
    destruct (status th); try done. destruct Hst as [?|(s' & l & x & ? & Hx & ?)]; [by left|right].
    exists s', l, x. simpl. rewrite lookup_insert_ne; [done|]. intros ->. congruence.
  - intros t Hin. destruct (H6 t Hin) as (th & ? & ? & Hres). exists th. split_and!; [done..|].
    unfold resumable in *. destruct (resumes th); try done. simpl. apply lookup_insert_is_Some'. by right.
  - intros s' x Hx. apply lookup_insert_Some in Hx as [[<- <-]|[Hne Hx]].
    + assert (ids (queue (Semaphore_new v)) = []) as E by (unfold ids; simpl; by rewrite Nids).
      split; rewrite ?E; simpl; try done; [constructor|]. intros t Hin. by apply not_elem_of_nil in Hin.
    + destruct (H7 s' x Hx). by split.
Qed.

Lemma serve_Space sp k : ok k → idle k = false → served (RSpace sp) k.
Proof using Type.
  intros Hok Hidle. pose proof (ok_running k Hok Hidle) as Hi.
  destruct (inv_run _ _ _ _ Hi _ eq_refl) as [_ Hrun].
  destruct (threads k !! currentThread k) as [th|] eqn:Ht; [|done]. injection Hrun as Hst.
  unfold served. cbn [serve]. unfold get_thread. rewrite Ht. simpl_res. eexists. split; [reflexivity|].
  split; [|done]. apply running_ok; [|done]. simpl. apply inv_machine; [|apply Hi].
  destruct Hi as [H1 H2 H3 H4 H5 H6 H7 H8 H9]. set (th' := with_user th (userRegisters th) (Some sp)).
  assert (∀ s t', wakes (<[currentThread k := th']> (threads k)) s t' = wakes (threads k) s t') as Hw
    by (intros; by eapply wakes_same).
  split; simpl; try done.
  - apply lookup_insert_is_Some'. by right.
  - intros t [= <-]. by rewrite lookup_insert_eq, <- Hst.
  - intros t x Hx. apply lookup_insert_Some in Hx as [[<- <-]|[Hne Hx]]; [|by apply H3].
    destruct (H3 _ th Ht) as (? & ? & Hs). rewrite Hst in Hs. split_and!; [done..|].
    unfold th'. simpl. by rewrite Hst.
  - intros t Hin. destruct (H6 t Hin) as (x & Hx & ? & ?). exists x.
    rewrite lookup_insert_ne; [done|]. congruence.
  - intros s sem Hsem. destruct (H7 s sem Hsem) as [? ? ? Hb Hk]. split; simpl; try done.
    + intros t Hin. destruct (Hb t Hin) as (x & l & Hx & ? & ?). exists x, l.
      rewrite lookup_insert_ne; [done|]. congruence.
    + intros Hq. rewrite (woken_agree (threads k)) by done. by apply Hk.
  - intros d Hd. destruct (H8 d Hd) as (x & Hx & ? & ?). exists x.
    rewrite lookup_insert_ne; [done|]. congruence.
Qed.

Lemma serve_spec r k : ok k → enabled r k → served r k.
Proof using Type*.
  intros Hok. destruct r; simpl; intros Hen; destruct_and?.
  - by apply serve_New.
  - by apply serve_Fork.
  - by apply serve_Yield.
  - by apply serve_Finish.
  - by apply serve_Semaphore.
  - by apply serve_P.
  - by apply serve_V.
  - exact (serve_V s k Hok Hen).
  - by apply serve_Wake.
  - by apply serve_Space.
  - eexists. split; [reflexivity|]. split; [|done].
    apply running_ok; [|done]. apply inv_machine; [|done]. by apply (ok_running k).
Qed.
End steps.

(** ** The properties *)

Module ThreadSpec.

Section spec.
Context {L : Type} `{KeyedListLaws Z L}.
Implicit Types k : Kern L.

Lemma reachable_ok k0 k : ok k0 → rtc step k0 k → ok k.
Proof using Type*.
  intros Hok0 Hsteps. induction Hsteps as [|k0 k1 k (r & Hen & E) _ IH]; [done|]. apply IH.
  destruct (serve_spec r k0 Hok0 Hen) as (k' & E' & Hok' & _). congruence.
Qed.

(** The first ready thread, woken up from [P], takes its unit. *)
Lemma wake_runs k s sem t rest th l0 :
  inv None None None k → level k = IntOff → ids (readyList k) = t :: rest → threads k !! t = Some th →
  resumes th = InP s l0 → semaphores k !! s = Some sem → value sem ≠ 0 →
  ∃ k', serve RWake k = Ok k' ∧ ok k' ∧ idle k' = false ∧ currentThread k' = t ∧
    semaphores k' !! s = Some (mkSemaphore (value sem - 1) (queue sem)).
Proof using Type*.
  intros Hi Hl Hr Ht Hres Hsem Hv. cbn [serve]. unfold run_next.
  destruct (FindNextToRun_spec None k None Hi) as (k1 & -> & Hi1 & Ec & Et & El & Eidle & Em & Es & Er).
  rewrite Hr in *. cbn [head tail] in *. simpl_res.
  destruct (Run_switch_spec (with_idle k1 false) t th) as
    (k2 & -> & Hi2 & _ & (th2 & Ht2 & Hr2 & _) & Ec2 & El2 & Eidle2 & Er2 & Es2);
    [by apply inv_idle|simpl; congruence|].
  simpl_res. unfold ready_fuel. cbn [arrive]. unfold get_thread. rewrite Ec2, Ht2. simpl_res.
  rewrite Hr2, Hres. destruct (Run_return_spec _ _ k2 Hi2) as
    (k3 & -> & Hi3 & _ & _ & Ec3 & El3 & Eidle3 & Er3 & Es3). simpl_res.
  assert (semaphores k3 !! s = Some sem) as Hsem3 by (rewrite Es3, Es2; simpl; congruence).
  unfold wait_on, get_semaphore. rewrite Hsem3. simpl_res. rewrite (proj2 (Z.eqb_neq _ _) Hv).
  eexists. split; [reflexivity|]. simpl. rewrite lookup_insert_eq. split_and!; try done.
  - split; [|simpl; by rewrite Eidle3, Eidle2]. unfold runs. simpl. rewrite Eidle3, Eidle2, Ec3. simpl.
    apply inv_level. eapply grant_spec; [exact Hi3|done|done|]. right. unfold waiting. by rewrite Hres.
  - by rewrite Eidle3, Eidle2.
Qed.

(** C14. The thread system never gets stuck.  In every state that can be
    reached, each request that may be made (creating, forking, yielding,
    finishing threads, P and V, interrupts, waking from the idle loop)
    returns: no ASSERT fails, no dangling pointer is followed, no loop runs out
    of fuel.  And the invariant holds again: exactly one thread runs unless
    the machine is idle, the ready list holds exactly the READY threads, each
    blocked thread waits in the queue of one semaphore, and no semaphore value
    is negative. *)
Theorem kernel_never_stuck k0 k r :
  ok k0 → rtc step k0 k → enabled r k → ∃ k', serve r k = Ok k' ∧ ok k'.
Proof using All.
  intros Hok0 Hsteps Hen. destruct (serve_spec r k) as (k' & E & Hok' & _); [|done|by exists k'].
  by eapply reachable_ok.
Qed.

(** C15. No wakeup is lost.  In every reachable state in which no thread is
    ready to run, a semaphore that somebody waits for has the value 0: nobody
    sleeps on a semaphore that could be taken. *)
Theorem no_lost_wakeup k0 k s sem :
  ok k0 → rtc step k0 k → ids (readyList k) = [] →
  semaphores k !! s = Some sem → ids (queue sem) ≠ [] → value sem = 0.
Proof using All.
  intros Hok0 Hsteps Hr Hsem Hq. destruct (reachable_ok k0 k Hok0 Hsteps) as [Hi _].
  destruct (inv_sems _ _ _ _ Hi s sem Hsem) as [_ _ Hv _ Hk]. specialize (Hk Hq).
  unfold ready in Hk. rewrite Hr, bool_decide_eq_false_2 in Hk by done. unfold woken in Hk. simpl in Hk. lia.
Qed.

(** C27. A wakeup takes effect.  When the machine is idle and an interrupt
    handler calls V on a semaphore with waiters, the first waiter is the
    thread that runs next, it returns from P, and the value is 0 again. *)
Theorem wakeup_resumes_first_waiter k s sem t rest :
  ok k → idle k = true → ids (readyList k) = [] → semaphores k !! s = Some sem →
  ids (queue sem) = t :: rest →
  ∃ k1 k2 sem', serve (RInterrupt s) k = Ok k1 ∧ serve RWake k1 = Ok k2 ∧ ok k2 ∧
    idle k2 = false ∧ currentThread k2 = t ∧
    semaphores k2 !! s = Some sem' ∧ value sem' = 0 ∧ ids (queue sem') = rest.
Proof using All.
  intros Hok Hidle Hr Hsem Hq. pose proof Hok as [Hi Hl].
  destruct (inv_sems _ _ _ _ Hi s sem Hsem) as [Swf _ Hv _ Hk].
  assert (value sem = 0) as Hv0.
  { rewrite Hq in Hk. specialize (Hk ltac:(done)). unfold ready in Hk.
    rewrite Hr, bool_decide_eq_false_2 in Hk by done. unfold woken in Hk. simpl in Hk. lia. }
  destruct (ids_remove (queue sem) Swf) as (q & Eq & Qwf & Qids). rewrite Hq in Eq, Qids. simpl in Eq, Qids.
  destruct (wake_spec (runs k) k s sem t rest q Hi Hsem Hq Qwf Qids)
    as (th & l & Ht & El & Lids & (l0 & Hres) & Hi1). rewrite Hr in Lids.
  set (k1 := with_level (put_semaphore (with_ready (put_thread (with_level k IntOff) t (with_status th READY)) l) s
    (mkSemaphore (value sem + 1) q)) (level k)).
  assert (inv None None None k1) as Hi1'.
  { unfold runs in Hi1. rewrite Hidle in Hi1. exact (inv_level _ _ _ _ (level k) Hi1). }
  destruct (wake_runs k1 s (mkSemaphore (value sem + 1) q) t [] (with_status th READY) l0 Hi1')
    as (k2 & E2 & Hok2 & ? & ? & ?).
  - simpl. auto.
  - exact Lids.
  - simpl. by rewrite lookup_insert_eq.
  - exact Hres.
  - simpl. by rewrite lookup_insert_eq.
  - simpl. lia.
  - exists k1, k2. eexists. split; [by apply (V_wakes k s sem t rest q th l)|]. split; [exact E2|].
    split; [done|]. split; [done|]. split; [done|]. split; [done|]. simpl. split; [lia|done].
Qed.

(** C18. Context switches are invisible to user programs: whatever the kernel
    does (P, V, Yield, Finish, Fork, interrupts, idling), every thread that
    still exists has the same user registers and the same address space
    before and after, in the machine or in its thread object. *)
Theorem user_context_preserved k r k' t :
  ok k → enabled r k → kernel_op r = true → serve r k = Ok k' → is_Some (threads k' !! t) →
  context (Some (currentThread k')) k' t = context (Some (currentThread k)) k t.
Proof using All.
  intros Hok Hen Hop E Ht. destruct (serve_spec r k Hok Hen) as (k1 & E1 & _ & Hk).
  assert (k1 = k') as -> by congruence. by apply Hk.
Qed.
End spec.

(** ** Runs of the kernel with linked lists *)

#[export] Instance enabled_dec {L} (r : request) (k : Kern L) : Decision (enabled r k).
Proof. destruct r; simpl; apply _. Defined.

(** A sequence of requests, each of which may be made. *)
Fixpoint play {L} `{KeyedList Z L} (rs : list request) (k : Kern L) : option (Kern L) :=
  match rs with
  | [] => Some k
  | r :: rs' =>
      if bool_decide (enabled r k) then
        match serve r k with Ok k' => play rs' k' | Stop _ => None end
      else None
  end.

Lemma play_steps {L} `{KeyedList Z L} rs (k k' : Kern L) : play rs k = Some k' → rtc step k k'.
Proof.
  revert k. induction rs as [|r rs IH]; intros k; simpl; [by intros [= ->]|].
  case_bool_decide as Hen; [|done]. destruct (serve r k) as [k1|] eqn:E; [|done]. intros Hp.
  eapply rtc_l; [by exists r|by apply IH].
Qed.

(** The kernel after start-up: one running thread, "main". *)
Definition boot : Kern (NList.List Z) :=
  mkKern {[ 0 := mkThread RUNNING None (replicate (Z.to_nat NumTotalRegs) 0) None AtStart ]}
    0 kl_new None ∅ Machine_new IntOn false.

Lemma boot_ok : ok boot.
Proof.
  destruct (kl_new_spec (A:=Z) (L:=NList.List Z)) as [Nwf Nids].
  assert (ready boot None = []) as Hready by (unfold ready, ids; simpl; done).
  split; [|done]. split; try done.
  - by intros t [= <-].
  - intros t th Ht. simpl in Ht. apply lookup_singleton_Some in Ht as [<- <-]. split_and!; [done|by left|done].
  - rewrite Hready. constructor.
  - rewrite Hready. intros t Hin. by apply not_elem_of_nil in Hin.
Qed.

Definition zeros : list Z := replicate (Z.to_nat NumTotalRegs) 0.
(** Two threads wait for semaphore 7; the machine is idle. *)
Definition waiting_requests : list request := [RSemaphore 7 0; RNew 1 zeros; RFork 1; RP 7; RP 7].
Definition waiting_kernel : Kern (NList.List Z) :=
  match play waiting_requests boot with Some k => k | None => boot end.

Lemma waiting_steps : rtc step boot waiting_kernel.
Proof. apply (play_steps waiting_requests). vm_compute. reflexivity. Qed.

Lemma kernel_never_stuck_witness :
  ∃ k', serve (RInterrupt 7) waiting_kernel = Ok k' ∧ ok k'.
Proof.
  apply (kernel_never_stuck boot waiting_kernel (RInterrupt 7) boot_ok waiting_steps).
  vm_compute. eexists. reflexivity.
Defined.

Lemma no_lost_wakeup_witness :
  ∃ sem, semaphores waiting_kernel !! 7 = Some sem ∧ ids (queue sem) = [0; 1] ∧ value sem = 0.
Proof.
  destruct (semaphores waiting_kernel !! 7) as [sem|] eqn:E; [|vm_compute in E; discriminate].
  assert (ids (queue sem) = [0; 1]) as Hq.
  { vm_compute in E. injection E as <-. vm_compute. reflexivity. }
  exists sem. split; [reflexivity|]. split; [exact Hq|].
  apply (no_lost_wakeup boot waiting_kernel 7 sem boot_ok waiting_steps);
    [vm_compute; reflexivity|exact E|rewrite Hq; discriminate].
Defined.

Lemma wakeup_resumes_first_waiter_witness :
  ∃ k1 k2 sem', serve (RInterrupt 7) waiting_kernel = Ok k1 ∧ serve RWake k1 = Ok k2 ∧
    currentThread k2 = 0 ∧ semaphores k2 !! 7 = Some sem' ∧ ids (queue sem') = [1].
Proof.
  destruct (semaphores waiting_kernel !! 7) as [sem|] eqn:E; [|vm_compute in E; discriminate].
  assert (ids (queue sem) = [0; 1]) as Hq.
  { vm_compute in E. injection E as <-. vm_compute. reflexivity. }
  destruct (wakeup_resumes_first_waiter waiting_kernel 7 sem 0 [1])
    as (k1 & k2 & sem' & E1 & E2 & _ & _ & Hc & Hs & _ & Hq').
  - exact (reachable_ok _ _ boot_ok waiting_steps).
  - vm_compute. reflexivity.
  - vm_compute. reflexivity.
  - exact E.
  - exact Hq.
  - exists k1, k2, sem'. split; [exact E1|]. split; [exact E2|]. split; [exact Hc|].
    split; [exact Hs|exact Hq'].
Defined.

(** The main thread runs a user program; another thread is ready. *)
Definition user_space : AddrSpace := mkSpace [mkEntry 0 5 true false false false] 1.
Definition user_requests : list request :=
  [RNew 1 zeros; RFork 1; RSpace user_space; RUser (with_registers (RestoreState user_space Machine_new) (replicate 40 9))].
Definition user_kernel : Kern (NList.List Z) :=
  match play user_requests boot with Some k => k | None => boot end.

Lemma user_steps : rtc step boot user_kernel.
Proof. apply (play_steps user_requests). vm_compute. reflexivity. Qed.

Lemma user_context_preserved_witness :
  ∃ k', serve RYield user_kernel = Ok k' ∧ currentThread k' = 1 ∧
    context (Some (currentThread k')) k' 0 = Some (replicate 40 9, user_space).
Proof.
  assert (enabled RYield user_kernel) as Hen by (vm_compute; reflexivity).
  pose proof (reachable_ok _ _ boot_ok user_steps) as Hok.
  destruct (serve_spec RYield user_kernel Hok Hen) as (k' & E & _).
  assert (is_Some (threads k' !! 0) ∧ currentThread k' = 1) as [H0 Hc].
  { vm_compute in E. injection E as <-. vm_compute. split; [eexists; reflexivity|reflexivity]. }
  exists k'. split; [exact E|]. split; [exact Hc|].
  rewrite (user_context_preserved user_kernel RYield k' 0 Hok Hen eq_refl E H0).
  vm_compute. reflexivity.
Defined.

(** A thread that has finished is deleted when the next one returns from
    [Run].  A forked thread starts without that part of [Run]: if it finishes
    before any other thread resumes, the first carcass is forgotten and never
    deleted. *)
Definition leak_requests : list request :=
  [RNew 1 zeros; RFork 1; RNew 2 zeros; RFork 2; RNew 3 zeros; RFork 3; RYield; RFinish; RFinish; RFinish].

Lemma carcass_leaks :
  (λ k, (currentThread k, idle k, dom (threads k))) <$> play leak_requests boot
  = Some (0, false, {[ 0; 1; 2 ]} : gset Z).
Proof. vm_compute. reflexivity. Qed.
End ThreadSpec.
