(* ===== verification/ThreadTest.v ===== *)
(** * Taking turns (threads/threadtest.cc; the loop of Thread::Yield)

    The ready list is first come first served, so threads that only call
    [Yield] take turns.  [ThreadTest1] is two of them, each of which prints
    five lines. *)

From S2P Require Import Prelude NList Bitmap Machine Interrupt AddrSpace Thread.

(** ** A round of threads *)

Section rounds.
Context {L : Type} `{KeyedListLaws Z L}.
Implicit Types k : Kern L.

(** A thread that starts or returns from [Yield] when it is switched to. *)
Definition runner k (t : Z) : Prop :=
  ∃ th, threads k !! t = Some th ∧
        match resumes th with AtStart | InYield _ => True | _ => False end.

(** The threads that will run, in this order: the current one first. *)
Record in_turn k (q : list Z) : Prop := mkInTurn {
  it_ok : ok k;
  it_running : idle k = false;
  it_queue : currentThread k :: ids (readyList k) = q;
  it_runners : Forall (runner k) (ids (readyList k));
}.

(** A ready thread is not the carcass that [Run] deletes. *)
Lemma ready_alive run w k t :
  inv run None w k → t ∈ ids (readyList k) → threadToBeDestroyed k ≠ Some t.
Proof using Type.
  intros Hi Hin Hd. destruct (inv_dead _ _ _ _ Hi t Hd) as (th & Ht & Hst & _).
  destruct (inv_ready _ _ _ _ Hi t Hin) as (th' & Ht' & Hst' & _). congruence.
Qed.

Lemma Run_return_threads k k' x :
  Run_return k = Ok k' → threadToBeDestroyed k ≠ Some x → threads k' !! x = threads k !! x.
Proof using Type.
  unfold Run_return, destroy_carcass, Thread_delete, get_thread. intros E Hx.
  destruct (threadToBeDestroyed k) as [d|].
  - destruct (negb (d =? currentThread k)); [|done]. simpl_res. simpl in E.
    destruct (threads k !! d); [|done]. simpl_res. simpl in E.
    destruct (delete d (threads k) !! currentThread k); [|done]. simpl_res.
    destruct (space t0); [destruct (RestoreUserState _ _); [|done]|]; injection E as <-; simpl;
      rewrite lookup_delete_ne; congruence.
  - simpl_res. destruct (threads k !! currentThread k); [|done]. simpl_res.
    destruct (space t); [destruct (RestoreUserState _ _); [|done]|]; by injection E as <-.
Qed.

(** A runner that is switched to goes on. *)
Lemma arrive_runner fuel k th :
  (length (ids (readyList k)) < fuel)%nat →
  inv (Some (currentThread k)) None (waiting th) k → threads k !! currentThread k = Some th →
  resumable k th → runner k (currentThread k) → Forall (runner k) (ids (readyList k)) →
  idle k = false → level k = IntOff →
  ∃ k', arrive fuel k = Ok k' ∧ in_turn k' (currentThread k :: ids (readyList k)).
Proof using Type*.
  intros Hf Hi Ht Hres (th' & Ht' & Hrun) Hrs Hidle Hl. assert (th' = th) as -> by congruence.
  destruct (arrive_spec fuel k th) as (k' & E & Hok & _); try done.
  exists k'. split; [done|]. revert E. destruct fuel as [|fuel]; [lia|]. cbn [arrive]. unfold get_thread. rewrite Ht. simpl_res.
  destruct (resumes th) as [|l|s l|] eqn:Er; [|..|done|done].
  - intros [= <-]. by split.
  - destruct (Run_return_spec _ _ k Hi) as (k1 & E1 & Hi1 & _ & _ & Ec1 & El1 & Eidle1 & Er1 & Es1).
    rewrite E1. simpl_res. intros [= <-]. split; simpl; [done|congruence|by rewrite Ec1, Er1|].
    rewrite Er1. rewrite Forall_forall in Hrs |- *. intros x Hx. destruct (Hrs x Hx) as (y & Hy & ?).
    exists y. split; [|done]. simpl. rewrite (Run_return_threads _ _ _ E1); [done|]. by eapply ready_alive.
Qed.

(** A thread that comes back from [Yield]: it deletes the carcass that it finds. *)
Definition returning k (t : Z) : Prop := ∃ l, resumes <$> threads k !! t = Some (InYield l).

(** No deleted thread comes back, and a ready thread will still return from its
    [Yield]. *)
Record onward k k' : Prop := mkOnward {
  ow_gone x : threads k !! x = None → threads k' !! x = None;
  ow_returning x : x ∈ ids (readyList k') → returning k x → returning k' x;
}.

Lemma arrive_threads fuel k k' :
  runner k (currentThread k) → arrive fuel k = Ok k' →
  (∀ x, threadToBeDestroyed k ≠ Some x → threads k' !! x = threads k !! x) ∧
  (∀ x, threads k !! x = None → threads k' !! x = None) ∧
  (returning k (currentThread k) → ∀ d, threadToBeDestroyed k = Some d → threads k' !! d = None).
Proof using Type.
  intros (th & Hth & Hrun) E. destruct fuel as [|fuel]; [done|]. cbn [arrive] in E.
  unfold get_thread in E. rewrite Hth in E. simpl_res.
  assert (∀ x, threadToBeDestroyed k = Some x → ∀ k1, Run_return k = Ok k1 → threads k1 !! x = None) as Hdel.
  { intros x Hx k1. unfold Run_return, destroy_carcass, Thread_delete, get_thread. rewrite Hx.
    destruct (negb (x =? currentThread k)); [|done]. simpl_res. simpl.
    destruct (threads k !! x); [|done]. simpl_res. simpl.
    destruct (delete x (threads k) !! currentThread k); [|done]. simpl_res.
    destruct (space t0); [destruct (RestoreUserState _ _); [|done]|]; intros [= <-]; simpl; by rewrite lookup_delete_eq. }
  destruct (resumes th) as [|l|s l|] eqn:Er; [|..|done|done].
  - injection E as <-. split_and!; [done|done|]. intros [l Hl]. rewrite Hth in Hl. simpl in Hl. congruence.
  - destruct (Run_return k) as [k1|] eqn:E1; [|done]. injection E as <-. simpl. split_and!.
    + intros x Hx. by eapply Run_return_threads.
    + intros x Hx. destruct (decide (threadToBeDestroyed k = Some x)) as [Hd|Hd]; [by eapply Hdel|].
      by rewrite (Run_return_threads _ _ _ E1).
    + intros _ d Hd. by eapply Hdel.
Qed.

Lemma Run_switch_destroyed k t k' : Run_switch k t = Ok k' → threadToBeDestroyed k' = threadToBeDestroyed k.
Proof using Type.
  unfold Run_switch. intros (old & _ & E)%bind_ok. apply bind_ok in E as (old' & _ & E).
  apply bind_ok in E as (u & _ & E). apply bind_ok in E as (next & _ & E). by injection E as <-.
Qed.

Lemma FindNextToRun_destroyed k t k' :
  FindNextToRun k = Ok (t, k') → threadToBeDestroyed k' = threadToBeDestroyed k.
Proof using Type. unfold FindNextToRun. intros ([x l] & _ & [= _ <-])%bind_ok. done. Qed.

(** From a switch to the point where the next thread runs on. *)
Lemma onward_arrive fuel k k3 k' :
  (∀ x, threads k !! x = None → threads k3 !! x = None) →
  (∀ x, x ∈ ids (readyList k') → returning k x → returning k3 x ∧ threadToBeDestroyed k3 ≠ Some x) →
  runner k3 (currentThread k3) → arrive fuel k3 = Ok k' → onward k k'.
Proof using Type.
  intros Hgone Hret Hrun E. destruct (arrive_threads fuel k3 k' Hrun E) as (Hsame & Hnone & _).
  split; [naive_solver|]. intros x Hx Hr. destruct (Hret x Hx Hr) as [[l Hl] Hd]. exists l. by rewrite Hsame.
Qed.

(** [Yield] moves the current thread behind the others. *)
Lemma Yield_rotates k c rest :
  in_turn k (c :: rest) → ∃ k', Yield k = Ok k' ∧ in_turn k' (rest ++ [c]) ∧ onward k k' ∧
    (rest ≠ [] → returning k' c).
Proof using Type*.
  intros [Hok Hidle Hq Hrs]. injection Hq as Hc Hids. rewrite Hids in Hrs. destruct rest as [|t rest].
  - destruct (Yield_alone k Hok Hidle Hids) as (l & -> & Hwf & Hl). eexists. split; [reflexivity|].
    split_and!; [|by split|done].
    split; simpl; [|done|by rewrite Hl, Hc|by rewrite Hl]. destruct Hok as [Hi Hlev]. split; [|done].
    by apply inv_empty_ready.
  - pose proof (ok_running k Hok Hidle) as Hi.
    assert (c ∉ t :: rest) as Hout.
    { destruct (inv_run _ _ _ _ Hi _ eq_refl) as [_ Hst].
      destruct (threads k !! currentThread k) as [th|] eqn:Hth; [|done]. injection Hst as Hst.
      rewrite <- Hc, <- Hids. intros Hin. apply (not_ready _ _ _ _ _ _ Hi Hth); [congruence|done]. }
    destruct (Yield_switches k t rest Hok Hidle Hids)
      as (k3 & th3 & -> & Hi3 & Ht3 & Hres3 & Ec3 & Eidle3 & El3 & Er3 & _ & Hresumes).
    assert (∀ x, x ∈ t :: rest → runner k3 x) as Hold.
    { intros x Hx. rewrite Forall_forall in Hrs. destruct (Hrs x Hx) as (y & Hy & Hry).
      specialize (Hresumes x). rewrite bool_decide_eq_false_2, Hy in Hresumes by congruence.
      destruct (threads k3 !! x) as [z|] eqn:Hz; [|done]. injection Hresumes as Hz'.
      exists z. by rewrite Hz'. }
    destruct (arrive_runner (ready_fuel k3) k3 th3) as (k' & E & Hit); try done.
    + unfold ready_fuel. rewrite length_ids. lia.
    + rewrite Ec3. apply Hold. by left.
    + rewrite Er3. apply Forall_app. split; [apply Forall_forall; intros x Hx; apply Hold; by right|].
      apply Forall_singleton. specialize (Hresumes (currentThread k)). rewrite bool_decide_eq_true_2 in Hresumes by done.
      destruct (threads k3 !! currentThread k) as [z|] eqn:Hz; [|done]. injection Hresumes as Hz'.
      exists z. by rewrite Hz'.
    + exists k'. assert (ids (readyList k') = rest ++ [c]) as Eq.
      { pose proof (it_queue _ _ Hit) as Hq. rewrite Er3, Hc in Hq. by injection Hq. }
      assert (∀ x, x ∈ rest ++ [c] → threadToBeDestroyed k3 ≠ Some x) as Halive.
      { intros x Hx. eapply ready_alive; [exact Hi3|]. by rewrite Er3, Hc. }
      assert (runner k3 (currentThread k3)) as Hrun3 by (rewrite Ec3; apply Hold; by left).
      destruct (arrive_threads _ k3 k' Hrun3 E) as (Hsame & _).
      rewrite Ec3, Er3, Hc in Hit. split_and!; [exact E|exact Hit| |].
      * eapply (onward_arrive _ k k3 k'); [| |exact Hrun3|exact E].
        -- intros x Hx. specialize (Hresumes x). rewrite Hx in Hresumes.
           destruct (threads k3 !! x) eqn:Hx3; [|done]. case_bool_decide as Exc; [|done]. subst x.
           destruct (inv_current _ _ _ _ Hi) as [y Hy]. congruence.
        -- intros x Hx [l Hl]. rewrite Eq in Hx. split; [|by apply Halive].
           specialize (Hresumes x). case_bool_decide; [by eexists|]. exists l. by rewrite Hresumes.
      * intros _. exists (level k). rewrite Hsame by (apply Halive; apply elem_of_app; right; by left).
        specialize (Hresumes c). by rewrite bool_decide_eq_true_2 in Hresumes by done.
Qed.

(** [Finish] leaves the round; the last thread leaves an idle machine. *)
Lemma Finish_leaves k c rest :
  in_turn k (c :: rest) →
  ∃ k', Finish k = Ok k' ∧ ok k' ∧ onward k k' ∧
    match rest with
    | [] => idle k' = true ∧ threadToBeDestroyed k' = Some c
    | t :: _ => in_turn k' rest ∧ (returning k t → threads k' !! c = None)
    end.
Proof using Type*.
  intros [Hok Hidle Hq Hrs]. injection Hq as Hc Hids. rewrite Hids in Hrs.
  destruct (serve_Finish k Hok Hidle) as (k' & E & Hok' & _). cbn [serve] in E.
  exists k'. split; [done|]. split; [done|]. rename Hok' into Hfinal.
  pose proof (ok_running k Hok Hidle) as Hi. destruct (inv_current _ _ _ _ Hi) as [th Hth].
  pose proof (inv_finish _ _ th (inv_level _ _ _ _ IntOff Hi) Hth) as Hi1. simpl in Hi1.
  revert E. unfold Finish, Sleep.
  set (k0 := with_destroyed (with_level k IntOff) (Some (currentThread k))).
  set (k1 := put_thread k0 (currentThread k) (with_resume (with_status th BLOCKED) AtEnd)).
  assert (block k0 AtEnd = Ok k1) as -> by (unfold block, get_thread; simpl; by rewrite Hth).
  simpl_res. unfold run_next.
  destruct (FindNextToRun_spec None k1 None Hi1) as (k2 & E2 & Hi2 & Ec2 & Et2 & El2 & Eidle2 & Em2 & Es2 & Er2).
  assert (threadToBeDestroyed k2 = Some (currentThread k)) as Ed2 by exact (FindNextToRun_destroyed _ _ _ E2).
  rewrite E2.
  change (readyList k1) with (readyList k) in *. rewrite Hids in *. simpl_res.
  assert (∀ x, threads k1 !! x = None ↔ threads k !! x = None) as Hgone1.
  { intros x. unfold k1. simpl. destruct (decide (x = currentThread k)) as [->|Hx].
    - rewrite lookup_insert_eq, Hth. done.
    - by rewrite lookup_insert_ne by done. }
  destruct rest as [|t rest]; cbn [head tail] in *.
  { intros [= <-]. split; [|by rewrite <- Hc, <- Ed2]. split; simpl.
    - intros x Hx. rewrite Et2. by apply Hgone1.
    - intros x Hx. rewrite Er2 in Hx. by apply not_elem_of_nil in Hx. }
  destruct (inv_ready _ _ _ _ Hi2 t) as (tht & Htt & _ & _); [by left|].
  destruct (Run_switch_spec (with_idle k2 false) t tht) as
    (k3 & E3 & Hi3 & _ & (th3 & Ht3 & Hr3 & Hres3) & Ec3 & El3 & Eidle3 & Er3 & Es3);
    [by apply inv_idle|done|].
  rewrite E3. simpl_res.
  assert (∀ x, x ∈ t :: rest → runner k3 x) as Hold.
  { intros x Hx. rewrite Forall_forall in Hrs. destruct (Hrs x Hx) as (y & Hy & Hry).
    pose proof (Run_switch_resumes _ _ _ E3 x) as Hrx. simpl in Hrx. rewrite Et2 in Hrx. simpl in Hrx.
    destruct (inv_run _ _ _ _ Hi _ eq_refl) as [_ Hst]. rewrite Hth in Hst. injection Hst as Hst.
    rewrite lookup_insert_ne, Hy in Hrx.
    - destruct (threads k3 !! x) as [z|] eqn:Hz; [|done]. injection Hrx as Hz'. exists z. by rewrite Hz'.
    - intros <-. apply (not_ready _ _ _ _ _ _ Hi Hth); [congruence|]. unfold ready. simpl. by rewrite Hids. }
  destruct (arrive_runner (ready_fuel k1) k3 th3) as (k4 & E4 & Hit).
  - unfold ready_fuel. rewrite <- length_ids, Er3. change (readyList k1) with (readyList k). simpl.
    rewrite Hids, Er2. simpl. lia.
  - rewrite Ec3. by replace (waiting th3) with (waiting tht) by (unfold waiting; by rewrite Hr3).
  - by rewrite Ec3.
  - done.
  - rewrite Ec3. apply Hold. by left.
  - rewrite Er3. simpl. rewrite Er2. apply Forall_forall. intros x Hx. apply Hold. by right.
  - by rewrite Eidle3.
  - rewrite El3. simpl. by rewrite El2.
  - rewrite E4. intros [= <-].
    assert (ids (readyList k4) = rest) as Eq.
    { pose proof (it_queue _ _ Hit) as Hq. rewrite Er3 in Hq. simpl in Hq. rewrite Er2 in Hq. by injection Hq. }
    assert (runner k3 (currentThread k3)) as Hrun3 by (rewrite Ec3; apply Hold; by left).
    assert (threadToBeDestroyed k3 = Some c) as Ed3.
    { rewrite (Run_switch_destroyed _ _ _ E3). simpl. by rewrite Ed2, <- Hc. }
    assert (∀ x, resumes <$> threads k3 !! x = resumes <$> threads k1 !! x) as Hres13.
    { intros x. rewrite (Run_switch_resumes _ _ _ E3 x). simpl. by rewrite Et2. }
    assert (∀ x, x ∈ t :: rest → x ≠ c) as Hother.
    { destruct (inv_run _ _ _ _ Hi _ eq_refl) as [_ Hst]. rewrite Hth in Hst. injection Hst as Hst.
      intros x Hx ->. apply (not_ready _ _ _ _ _ _ Hi Hth); [congruence|]. unfold ready. simpl. by rewrite Hids, Hc. }
    assert (∀ x, x ∈ t :: rest → returning k x → returning k3 x) as Hret.
    { intros x Hx [l Hl]. exists l. rewrite Hres13. unfold k1. simpl.
      rewrite lookup_insert_ne; [exact Hl|]. intros <-. by apply (Hother (currentThread k)). }
    split; [|split].
    + eapply (onward_arrive _ k k3 k4); [| |exact Hrun3|exact E4].
      * intros x Hx%Hgone1. specialize (Hres13 x). rewrite Hx in Hres13. by destruct (threads k3 !! x).
      * intros x Hx Hr. rewrite Eq in Hx. split; [apply Hret; [by right|done]|].
        rewrite Ed3. intros [= <-]. by apply (Hother c); [right|].
    + rewrite Ec3, Er3 in Hit. simpl in Hit. by rewrite Er2 in Hit.
    + intros Hr. destruct (arrive_threads _ k3 k4 Hrun3 E4) as (_ & _ & Hdel). apply Hdel; [|done].
      rewrite Ec3. apply Hret; [by left|done].
Qed.
End rounds.

(** ** SimpleThread *)

Module ThreadTest.

(** The argument and the local variable of [SimpleThread]. *)
Record Frame := mkFrame { which : Z; num : Z }.

(** The kernel, the threads that are in [SimpleThread], and what was printed. *)
Record State (L : Type) := mkState {
  kern : Kern L;
  frames : gmap Z Frame;
  output : list Z;
}.
Arguments mkState {L}.
Arguments kern {L}.
Arguments frames {L}.
Arguments output {L}.

Definition looped (which num : Z) : list Z :=
  chars "*** thread " ++ decimal which ++ chars " looped " ++ decimal num ++ chars " times" ++ newline.

Section test.
Context {L : Type} `{KeyedList Z L}.

(** The current thread up to the point where it gives up the processor: one
    turn of the loop of [SimpleThread] ([num++], which it does when it is
    back, is seen by nobody else), or the return from it, behind which
    ThreadRoot, or [main], calls [Finish]. *)
Definition turn (s : State L) : res (State L) :=
  let c := currentThread (kern s) in
  match frames s !! c with
  | Some f =>
      if num f <? 5 then
        k ← Yield (kern s);
        Ok (mkState k (<[c := mkFrame (which f) (num f + 1)]> (frames s)) (output s ++ looped (which f) (num f)))
      else k ← Finish (kern s); Ok (mkState k (delete c (frames s)) (output s))
  | None => k ← Finish (kern s); Ok (mkState k (frames s) (output s))
  end.

(** Until no thread can run. *)
Fixpoint run (fuel : nat) (s : State L) : res (State L) :=
  match fuel with
  | O => Stop OutOfFuel
  | S fuel' => if idle (kern s) then Ok s else s ← turn s; run fuel' s
  end.

(** [t] is where [new Thread("forked thread")] puts the object. *)
Definition ThreadTest1 (t : Z) (garbage : list Z) (k : Kern L) : res (State L) :=
  let k := put_thread k t (Thread_new garbage) in
  k ← Fork k t;
  Ok (mkState k (<[currentThread k := mkFrame 0 0]> {[t := mkFrame 1 0]}) []).

Definition ThreadTest (testnum t : Z) (garbage : list Z) (k : Kern L) : res (State L) :=
  if testnum =? 1 then ThreadTest1 t garbage k
  else Ok (mkState k ∅ (chars "No test specified." ++ newline)).
End test.

(** What the threads [q], whose arguments are [w], print in round [n]. *)
Definition round (w : Z → Z) (q : list Z) (n : Z) : list Z := concat ((λ t, looped (w t) n) <$> q).

Section rounds.
Context {L : Type} `{KeyedListLaws Z L}.
Context (w : Z → Z).
Implicit Types (k : Kern L) (s : State L).

(** Everybody who waits for his turn has been in [Yield]. *)
Definition all_returning k : Prop := ∀ x, x ∈ ids (readyList k) → returning k x.

Lemma run_round n q1 : ∀ q2 s fuel,
  n < 5 → in_turn (kern s) (q1 ++ q2) → NoDup q1 →
  (∀ t, t ∈ q1 → frames s !! t = Some (mkFrame (w t) n)) →
  ∃ s', run (length q1 + fuel) s = run fuel s' ∧ in_turn (kern s') (q2 ++ q1) ∧
    output s' = output s ++ round w q1 n ∧
    (∀ t, frames s' !! t = if bool_decide (t ∈ q1) then Some (mkFrame (w t) (n + 1)) else frames s !! t) ∧
    (∀ x, threads (kern s) !! x = None → threads (kern s') !! x = None) ∧
    ((1 < length (q1 ++ q2))%nat →
     ∀ x, x ∈ ids (readyList (kern s')) → x ∈ q1 ∨ returning (kern s) x → returning (kern s') x) ∧
    (q1 = [] → s' = s).
Proof using Type*.
  induction q1 as [|t q1 IH]; intros q2 s fuel Hn Hit Hnd Hfr.
  - exists s. rewrite app_nil_r. split_and!; [done|done|by rewrite app_nil_r| |done| |done].
    + intros t. by rewrite bool_decide_eq_false_2 by apply not_elem_of_nil.
    + intros _ x _ [Hx%not_elem_of_nil|Hx]; done.
  - apply NoDup_cons in Hnd as [Hout Hnd]. pose proof Hit as [_ Hidle Hq _]. injection Hq as Hc _.
    destruct (Yield_rotates _ t (q1 ++ q2) Hit) as (k & E & Hit' & Hon & Hret). rewrite <- app_assoc in Hit'.
    set (s1 := mkState k (<[t := mkFrame (w t) (n + 1)]> (frames s)) (output s ++ looped (w t) n)).
    destruct (IH (q2 ++ [t]) s1 fuel Hn Hit' Hnd) as (s' & E' & Hit'' & Hout' & Hfr' & Hgone & Hret' & Hnil).
    { intros x Hx. simpl. rewrite lookup_insert_ne by (intros ->; done). apply Hfr. by right. }
    exists s'. split_and!.
    + cbn [length Nat.add run]. rewrite Hidle. unfold turn. rewrite Hc, (Hfr t) by by left. cbn [num which].
      rewrite (proj2 (Z.ltb_lt _ _)) by done. rewrite E. simpl_res. exact E'.
    + by rewrite <- app_assoc in Hit''.
    + rewrite Hout'. simpl. by rewrite <- app_assoc.
    + intros x. rewrite Hfr'. simpl. destruct (decide (x = t)) as [->|Hne].
      * rewrite lookup_insert_eq. rewrite (bool_decide_eq_true_2 (t ∈ t :: q1)) by by left.
        by rewrite bool_decide_eq_false_2.
      * rewrite lookup_insert_ne by done.
        by rewrite (bool_decide_ext (x ∈ t :: q1) (x ∈ q1)) by (rewrite elem_of_cons; naive_solver).
    + intros x Hx. apply Hgone. simpl. by apply (ow_gone _ _ Hon).
    + rewrite length_app in *. simpl in *. rewrite length_app in Hret'. simpl in Hret'. intros Hlen x Hx Hor.
      apply Hret'; [lia|done|]. simpl.
      destruct (decide (x ∈ q1)) as [Hq1|Hq1]; [by left|right].
      destruct (decide (x = t)) as [->|Hxt].
      { apply Hret. intros En. apply app_nil in En as [-> ->]. simpl in Hlen. lia. }
      assert (returning (kern s) x) as Hx1 by (destruct Hor as [Hor|Hor]; [by apply elem_of_cons in Hor as [?|?]|done]).
      apply (ow_returning _ _ Hon); [|done]. destruct q1 as [|t' q1].
      * assert (kern s' = k) as <-; [|done].
        by rewrite Hnil.
      * pose proof (it_queue _ _ Hit') as Hq'. pose proof (it_queue _ _ Hit'') as Hq''.
        simpl in Hq'. injection Hq' as _ Hq'. rewrite Hq'.
        assert (x ∈ (q2 ++ [t]) ++ t' :: q1) as Hin by (rewrite <- Hq''; by right).
        rewrite !elem_of_app in Hin. rewrite !elem_of_app. set_solver.
    + done.
Qed.

Lemma run_rounds m : ∀ n q s fuel,
  n + Z.of_nat m ≤ 5 → in_turn (kern s) q → NoDup q →
  (∀ t, t ∈ q → frames s !! t = Some (mkFrame (w t) n)) →
  ∃ s', run (m * length q + fuel) s = run fuel s' ∧ in_turn (kern s') q ∧
    output s' = output s ++ concat (round w q <$> seqZ n (Z.of_nat m)) ∧
    (∀ t, t ∈ q → frames s' !! t = Some (mkFrame (w t) (n + Z.of_nat m))) ∧
    (∀ x, threads (kern s) !! x = None → threads (kern s') !! x = None) ∧
    ((1 < length q)%nat → (0 < m)%nat ∨ all_returning (kern s) → all_returning (kern s')).
Proof using Type*.
  induction m as [|m IH]; intros n q s fuel Hn Hit Hnd Hfr.
  - exists s. rewrite seqZ_nil by lia. simpl. rewrite app_nil_r. split_and!; try done.
    + intros t Ht. change (Z.of_nat 0) with 0. rewrite Z.add_0_r. by apply Hfr.
    + intros _ [Hm|Hr]; [lia|done].
  - destruct (run_round n q [] s (m * length q + fuel)) as (s1 & E1 & Hit1 & Hout1 & Hfr1 & Hgone1 & Hret1 & _);
      [lia|by rewrite app_nil_r|done|done|].
    destruct (IH (n + 1) q s1 fuel) as (s2 & E2 & Hit2 & Hout2 & Hfr2 & Hgone2 & Hret2); [lia|done|done| |].
    { intros t Ht. by rewrite Hfr1, bool_decide_eq_true_2. }
    exists s2. split_and!; [|done| | |auto|].
    + cbn [Nat.mul]. by rewrite <- Nat.add_assoc, E1.
    + rewrite Hout2, Hout1, <- app_assoc. rewrite (seqZ_cons n) by lia. rewrite fmap_cons. cbn [concat].
      by replace (Z.succ n) with (n + 1) by lia; replace (Z.pred (Z.of_nat (S m))) with (Z.of_nat m) by lia.
    + intros t Ht. rewrite Hfr2 by done. do 2 f_equal. lia.
    + intros Hlen _. apply Hret2; [done|]. right. intros x Hx. apply Hret1; [by rewrite (app_nil_r q)|done|].
      left. pose proof (it_queue _ _ Hit1) as Hq. rewrite app_nil_l in Hq. rewrite <- Hq. by right.
Qed.

Lemma run_finish q : ∀ s fuel,
  q ≠ [] → in_turn (kern s) q → NoDup q →
  (∀ t f, t ∈ q → frames s !! t = Some f → 5 ≤ num f) → all_returning (kern s) →
  ∃ s', run (length q + S fuel) s = Ok s' ∧ ok (kern s') ∧ idle (kern s') = true ∧ output s' = output s ∧
    (∀ x, threads (kern s) !! x = None → threads (kern s') !! x = None) ∧
    ∃ q0 c, q = q0 ++ [c] ∧ threadToBeDestroyed (kern s') = Some c ∧
            ∀ t, t ∈ q0 → threads (kern s') !! t = None.
Proof using Type*.
  induction q as [|t q IH]; intros s fuel Hne Hit Hnd Hfr Hret; [done|].
  apply NoDup_cons in Hnd as [Hout Hnd]. pose proof Hit as [_ Hidle Hq _]. injection Hq as Hc Hq.
  destruct (Finish_leaves _ t q Hit) as (k & E & Hok & Hon & Hk).
  assert (∃ fr, turn s = Ok (mkState k fr (output s)) ∧ ∀ x, x ≠ t → fr !! x = frames s !! x) as (fr & Et & Hfr').
  { unfold turn. rewrite Hc. destruct (frames s !! t) as [f|] eqn:Ef.
    - rewrite (proj2 (Z.ltb_ge _ _)) by (eapply Hfr; [by left|done]). rewrite E. simpl_res.
      eexists. split; [reflexivity|]. intros x Hx. by rewrite lookup_delete_ne.
    - rewrite E. simpl_res. by eexists. }
  cbn [length Nat.add run]. rewrite Hidle, Et. simpl_res. destruct q as [|t' q].
  - exists (mkState k fr (output s)). cbn [length Nat.add run kern]. destruct Hk as [Hk Hd]. rewrite Hk.
    split_and!; [done..|apply Hon|]. exists [], t. split_and!; [done|done|]. by intros x Hx%not_elem_of_nil.
  - destruct Hk as [Hk Hdel]. pose proof (it_queue _ _ Hk) as Hq'. injection Hq' as _ Hq'.
    destruct (IH (mkState k fr (output s)) fuel) as (s' & E' & Hok' & Hidle' & Hout' & Hgone & q0 & c & Eq & Hd & Hq0);
      [done|done|done| | |].
    { intros x f Hx. simpl. rewrite Hfr' by (intros ->; done). apply Hfr. by right. }
    { intros x Hx. simpl in *. apply (ow_returning _ _ Hon); [done|]. apply Hret. rewrite Hq.
      rewrite Hq' in Hx. by right. }
    exists s'. split_and!; [exact E'|exact Hok'|exact Hidle'|exact Hout'| |].
    + intros x Hx. apply Hgone. simpl. by apply (ow_gone _ _ Hon).
    + exists (t :: q0), c. split_and!; [by rewrite Eq|done|]. intros x [->|Hx]%elem_of_cons; [|by apply Hq0].
      apply Hgone. simpl. apply Hdel. apply Hret. rewrite Hq. by left.
Qed.

Lemma take_turns q s fuel :
  in_turn (kern s) q → NoDup q → (∀ t, t ∈ q → frames s !! t = Some (mkFrame (w t) 0)) →
  (6 * length q < fuel)%nat →
  ∃ s', run fuel s = Ok s' ∧ ok (kern s') ∧ idle (kern s') = true ∧
    output s' = output s ++ concat (round w q <$> seqZ 0 5) ∧
    ∃ q0 c, q = q0 ++ [c] ∧ threadToBeDestroyed (kern s') = Some c ∧
            ∀ t, t ∈ q0 → threads (kern s') !! t = None.
Proof using Type*.
  intros Hit Hnd Hfr Hfuel.
  assert (q ≠ []) as Hne by (destruct Hit as [_ _ <- _]; done).
  destruct (run_rounds 5 0 q s (length q + S (fuel - 6 * length q - 1))) as (s1 & E1 & Hit1 & Hout1 & Hfr1 & _ & Hret1);
    [done..|].
  destruct (run_finish q s1 (fuel - 6 * length q - 1) Hne Hit1 Hnd) as (s2 & E2 & Hok & Hidle & Hout2 & _ & Hdead).
  { intros t f Ht. rewrite Hfr1 by done. by intros [= <-]. }
  { destruct (decide (1 < length q)%nat) as [Hlen|Hlen]; [apply Hret1; [done|left; lia]|].
    intros x Hx. exfalso. pose proof (it_queue _ _ Hit1) as Hq. destruct (ids (readyList (kern s1))) as [|y l];
      [by apply not_elem_of_nil in Hx|]. rewrite <- Hq in Hlen. simpl in Hlen. lia. }
  exists s2. split_and!; [|done|done|by rewrite Hout2, Hout1|done].
  rewrite <- E2, <- E1. f_equal. lia.
Qed.
End rounds.
End ThreadTest.

(** ** The properties *)

Module ThreadTestSpec.
Import ThreadTest.

Section spec.
Context {L : Type} `{KeyedListLaws Z L}.
Implicit Types k : Kern L.

(** C38. Threads take turns.  Any number of threads that run SimpleThread, the
    current one and those of the ready list (which start or come back from
    Yield), print their lines round by round, in the order of the ready list,
    five times each; then every one of them finishes, and the machine is idle.
    No thread is passed over or runs twice in a round.  The next thread deletes
    each thread that has finished; the last one has nobody behind it and is left
    in threadToBeDestroyed. *)
Theorem threads_take_turns (w : Z → Z) q (s : State L) fuel :
  in_turn (kern s) q → NoDup q → (∀ t, t ∈ q → frames s !! t = Some (mkFrame (w t) 0)) →
  (6 * length q < fuel)%nat →
  ∃ s', run fuel s = Ok s' ∧ ok (kern s') ∧ idle (kern s') = true ∧
    output s' = output s ++ concat (round w q <$> seqZ 0 5) ∧
    ∃ q0 c, q = q0 ++ [c] ∧ threadToBeDestroyed (kern s') = Some c ∧
            ∀ t, t ∈ q0 → threads (kern s') !! t = None.
Proof using Type*. apply take_turns. Qed.

(** [ThreadTest1] makes a second thread ready. *)
Lemma ThreadTest1_spec k t garbage :
  ok k → idle k = false → ids (readyList k) = [] → threads k !! t = None →
  length garbage = Z.to_nat NumTotalRegs →
  ∃ s, ThreadTest1 t garbage k = Ok s ∧ in_turn (kern s) [currentThread k; t] ∧ t ≠ currentThread k ∧
    frames s = <[currentThread k := mkFrame 0 0]> {[t := mkFrame 1 0]} ∧ output s = [].
Proof using Type*.
  intros Hok Hidle Hids Ht Hg. unfold ThreadTest1.
  destruct (serve_New t garbage k Hok Hidle Ht Hg) as (k1 & E1 & Hok1 & _). injection E1 as E1.
  assert (threads k1 !! t = Some (Thread_new garbage)) as Ht1 by (rewrite <- E1; apply lookup_insert_eq).
  assert (idle k1 = false ∧ readyList k1 = readyList k ∧ currentThread k1 = currentThread k)
    as (Hidle1 & Hr1 & Hc1) by (by rewrite <- E1).
  assert (t ≠ currentThread k) as Hne.
  { destruct (inv_current _ _ _ _ (proj1 Hok)) as [x Hx]. intros ->. congruence. }
  rewrite E1. simpl_res.
  destruct (serve_Fork t k1 Hok1 Hidle1) as (k2 & E2 & Hok2 & _); [by rewrite Ht1|]. cbn [serve] in E2.
  rewrite E2. simpl_res. eexists. split; [reflexivity|].
  destruct (ids_append (readyList k1) t (inv_ready_wf _ _ _ _ (proj1 Hok1))) as (l & El & _ & Hl).
  rewrite Hr1, Hids in Hl. simpl in Hl.
  revert E2. unfold Fork, ReadyToRun, get_thread. rewrite Ht1. simpl_res. simpl.
  rewrite lookup_insert_eq. simpl_res. rewrite El. simpl_res. intros [= E2].
  assert (idle k2 = false ∧ currentThread k2 = currentThread k ∧ ids (readyList k2) = [t] ∧
    runner k2 t) as (Hidle2 & Hc2 & Hq2 & Hrun2).
  { rewrite <- E2. simpl. split_and!; [done|done|done|]. eexists. simpl. by rewrite lookup_insert_eq. }
  split_and!; [|done| |done].
  - split; simpl; [done|done|by rewrite Hc2, Hq2|]. rewrite Hq2. by apply Forall_singleton.
  - simpl. by rewrite Hc2.
Qed.

(** The lines of the two threads of [ThreadTest1] alternate, on any kernel in
    which no other thread is ready. *)
Lemma threadtest_alternates k t garbage fuel :
  ok k → idle k = false → ids (readyList k) = [] → threads k !! t = None →
  length garbage = Z.to_nat NumTotalRegs → (12 < fuel)%nat →
  ∃ s', (s ← ThreadTest 1 t garbage k; run fuel s) = Ok s' ∧ ok (kern s') ∧ idle (kern s') = true ∧
    output s' = concat ((λ n, looped 0 n ++ looped 1 n) <$> seqZ 0 5).
Proof using Type*.
  intros Hok Hidle Hids Ht Hg Hf.
  destruct (ThreadTest1_spec k t garbage Hok Hidle Hids Ht Hg) as (s & E & Hit & Hne & Hfr & Hout).
  destruct (take_turns (λ x, if bool_decide (x = t) then 1 else 0) [currentThread k; t] s fuel)
    as (s' & E' & Hok' & Hidle' & Hout' & _).
  - done.
  - apply NoDup_cons. split; [|apply NoDup_singleton]. intros Hin.
    by apply list_elem_of_singleton in Hin as <-.
  - intros x Hx. rewrite Hfr. case_bool_decide as Hxt.
    + subst x. by rewrite lookup_insert_ne, lookup_singleton_eq.
    + assert (x = currentThread k) as -> by set_solver. by rewrite lookup_insert_eq.
  - simpl. lia.
  - exists s'. unfold ThreadTest. simpl. rewrite E. simpl_res. split_and!; [done|done|done|].
    rewrite Hout', Hout. rewrite app_nil_l. unfold round. simpl fmap.
    rewrite (bool_decide_eq_true_2 (t = t)), (bool_decide_eq_false_2 (currentThread k = t)) by done.
    reflexivity.
Qed.
End spec.

(** Thread 1 beside the main thread, right after start-up. *)
Lemma threads_take_turns_witness :
  ∃ s s' : State (NList.List Z),
    ThreadTest1 1 ThreadSpec.zeros ThreadSpec.boot = Ok s ∧ run 20 s = Ok s' ∧ idle (kern s') = true ∧
    take 56 (output s') = looped 0 0 ++ looped 1 0.
Proof.
  destruct (ThreadTest1_spec ThreadSpec.boot 1 ThreadSpec.zeros ThreadSpec.boot_ok)
    as (s & E & Hit & _ & Hfr & Hout); [reflexivity..|].
  destruct (threads_take_turns (λ t, t) [0; 1] s 20) as (s' & E' & _ & Hidle & Hout' & _).
  - exact Hit.
  - apply (bool_decide_unpack _). vm_compute. exact I.
  - intros t Ht. rewrite Hfr. apply elem_of_cons in Ht as [->|Ht]; [reflexivity|].
    apply list_elem_of_singleton in Ht as ->. reflexivity.
  - simpl. lia.
  - exists s, s'. split; [exact E|]. split; [exact E'|]. split; [exact Hidle|].
    rewrite Hout', Hout. vm_compute. reflexivity.
Defined.
End ThreadTestSpec.
