(* ===== verification/Console.v ===== *)
(** * The console (machine/console.cc, threads/synchcons.cc)

    The simulated terminal polls its keyboard every [ConsoleTime] ticks and
    takes as long to display a character; [SynchConsole] turns it into a
    blocking interface with four semaphores.  The keyboard is the list of what
    the successive polls of the UNIX file will find.  The calling thread is
    alone, as in Disk: when it waits, the machine idles until an interrupt.
    The interface [SynchCons] is what the system calls see. *)

From S2P Require Import Prelude NList Machine Interrupt.

Definition EOF : Z := -1.
Definition newline : Z := 10.
Definition ctrl_A : Z := 1.

(** ** What the system calls rely on

    A stream of characters to come from the keyboard and the characters
    displayed so far. *)

Class SynchCons (C : Type) := {
  con_ok : C → Prop;
  con_input : C → list Z;
  con_output : C → list Z;
  con_write : list Z → Z → C → res (Z * C);
  con_read : list Z → Z → C → res (Z * list Z * C);
}.

(** What one [Read] of at most [n] characters takes from the input: the
    characters of the line, what ended it ([None]: the buffer was full), and
    the rest of the input.  [None] when the input ends before the line. *)
Fixpoint take_line (n : nat) (input : list Z) : option (list Z * option Z * list Z) :=
  match n with
  | O => Some ([], None, input)
  | S n' =>
      match input with
      | [] => None
      | ch :: input' =>
          if (ch =? newline) || (ch =? ctrl_A) then Some ([], Some ch, input')
          else match take_line n' input' with
               | Some (line, e, rest) => Some (ch :: line, e, rest)
               | None => None
               end
      end
  end.

Lemma take_line_length n input line e rest :
  take_line n input = Some (line, e, rest) → (length line ≤ n)%nat.
Proof.
  revert input line. induction n as [|n IH]; intros input line; simpl.
  - by intros [= <- _ _].
  - destruct input as [|c input]; [done|]. destruct (_ || _); [intros [= <- _ _]; simpl; lia|].
    destruct (take_line n input) as [[[line' e'] r']|] eqn:E; [|done].
    intros [= <- <- <-]. simpl. apply IH in E. lia.
Qed.

Class SynchConsLaws (C : Type) `{SynchCons C} := {
  con_write_spec c from numBytes :
    con_ok c → 0 ≤ numBytes ≤ Z.of_nat (length from) →
    ∃ c', con_write from numBytes c = Ok (numBytes, c') ∧ con_ok c' ∧
      con_output c' = con_output c ++ take (Z.to_nat numBytes) from ∧ con_input c' = con_input c;
  con_read_spec c into numBytes line e rest :
    con_ok c → 0 < numBytes ≤ Z.of_nat (length into) →
    take_line (Z.to_nat numBytes) (con_input c) = Some (line, e, rest) →
    ∃ c', con_read into numBytes c =
        Ok (if bool_decide (e = Some ctrl_A) then EOF else Z.of_nat (length line),
            line ++ replicate (Z.to_nat numBytes - length line) 0 ++ drop (Z.to_nat numBytes) into, c') ∧
      con_ok c' ∧ con_input c' = rest ∧ con_output c' = con_output c;
}.

(** ** The hardware console *)

Module Console.

(** What a poll of the keyboard file finds: nothing, a character, or the end
    of the file, where [select] says that it is readable and [read] returns no
    byte. *)
Inductive poll := Quiet | Typed (c : Z) | HangUp.

Inductive Handler := ConsoleReadPoll | ConsoleWriteDone.

Record Console := mkConsole {
  keyboard : list poll;        (* the file readFileNo *)
  display : list Z;            (* the file writeFileNo *)
  putBusy : bool;
  incoming : Z;
}.

Inductive semaphore := synchReadAvail | synchWriteAvail | RLineBlock | WLineBlock.
#[export] Instance semaphore_eq_dec : EqDecision semaphore.
Proof. solve_decision. Defined.

(** The console and the values of the semaphores of synchcons.cc. *)
Record SynchConsole := mkSynchConsole {
  cons : Console;
  value : semaphore → Z;
}.

Section console.
Context {L : Type} `{KeyedList (PendingInterrupt Handler) L}.
Notation Sim := (Sim L SynchConsole).

Definition with_cons (s : Sim) (c : Console) : Sim :=
  with_rest s (mkSynchConsole c (value (rest s))).
Definition with_value (s : Sim) (x : semaphore) (v : Z) : Sim :=
  with_rest s (mkSynchConsole (cons (rest s))
                 (λ y, if decide (y = x) then v else value (rest s) y)).

Definition count_read (st : Statistics) : Statistics :=
  mkStatistics (totalTicks st) (idleTicks st) (systemTicks st) (userTicks st)
    (numDiskReads st) (numDiskWrites st) (numConsoleCharsRead st + 1) (numConsoleCharsWritten st)
    (numPageFaults st) (numPacketsSent st) (numPacketsRecvd st).
Definition count_written (st : Statistics) : Statistics :=
  mkStatistics (totalTicks st) (idleTicks st) (systemTicks st) (userTicks st)
    (numDiskReads st) (numDiskWrites st) (numConsoleCharsRead st) (numConsoleCharsWritten st + 1)
    (numPageFaults st) (numPacketsSent st) (numPacketsRecvd st).

(** [Semaphore::V] in an interrupt handler: interrupts are off and stay off. *)
Definition signal (s : Sim) (x : semaphore) : Sim := with_value s x (value (rest s) x + 1).

Definition CheckCharAvail (s : Sim) : res Sim :=
  s ← Schedule s ConsoleReadPoll 0 ConsoleTime ConsoleReadInt;
  let c := cons (rest s) in
  if negb (incoming c =? EOF) then Ok s
  else
    match keyboard c with
    | [] => Ok s
    | Quiet :: k => Ok (with_cons s (mkConsole k (display c) (putBusy c) (incoming c)))
    | HangUp :: _ => Stop AssertFailed
    | Typed ch :: k =>
        let s := with_cons s (mkConsole k (display c) (putBusy c) ch) in
        Ok (signal (with_stats s (count_read (stats s))) synchReadAvail)
    end.

Definition WriteDone (s : Sim) : res Sim :=
  let c := cons (rest s) in
  let s := with_cons s (mkConsole (keyboard c) (display c) false (incoming c)) in
  Ok (signal (with_stats s (count_written (stats s))) synchWriteAvail).

#[export] Instance console_devices : Devices Handler L SynchConsole := {|
  fire := λ h _ s, match h with ConsoleReadPoll => CheckCharAvail s | ConsoleWriteDone => WriteDone s end;
  yield_thread := λ s, Ok s;
  delayed_load := λ d, Ok d;
|}.

Definition GetChar (s : Sim) : Z * Sim :=
  let c := cons (rest s) in
  (incoming c, with_cons s (mkConsole (keyboard c) (display c) (putBusy c) EOF)).

Definition PutChar (s : Sim) (ch : Z) : res Sim :=
  let c := cons (rest s) in
  ASSERT (negb (putBusy c));;
  Schedule (with_cons s (mkConsole (keyboard c) (display c ++ [ch]) true (incoming c)))
    ConsoleWriteDone 0 ConsoleTime ConsoleWriteInt.

(** The files are opened; the first poll is scheduled. *)
Definition Console_new (s : Sim) (readFile : list poll) (writeFile : list Z) : res Sim :=
  Schedule (with_cons s (mkConsole readFile writeFile false EOF))
    ConsoleReadPoll 0 ConsoleTime ConsoleReadInt.

(** ** The synchronous console *)

Definition SynchConsole_new (s : Sim) (readFile : list poll) (writeFile : list Z) : res Sim :=
  s ← Console_new s readFile writeFile;
  let s := with_value s synchReadAvail 0 in
  let s := with_value s synchWriteAvail 0 in
  let s := with_value s RLineBlock 1 in
  Ok (with_value s WLineBlock 1).

(** The loop of [Semaphore::P] in the only thread. *)
Fixpoint wait (fuel : nat) (s : Sim) (x : semaphore) : res Sim :=
  match fuel with
  | O => Stop OutOfFuel
  | S fuel' =>
      if value (rest s) x =? 0 then s' ← Idle s; wait fuel' s' x
      else Ok (with_value s x (value (rest s) x - 1))
  end.

(** A character is displayed within [ConsoleTime] ticks, and the keyboard
    delivers nothing more when its list is used up. *)
Definition wait_fuel (s : Sim) : nat :=
  S (Z.to_nat ConsoleTime + length (keyboard (cons (rest s)))).

Definition P (s : Sim) (x : semaphore) : res Sim :=
  '(oldLevel, s) ← SetLevel s IntOff;
  s ← wait (wait_fuel s) s x;
  '(_, s) ← SetLevel s oldLevel;
  Ok s.

Definition V (s : Sim) (x : semaphore) : res Sim :=
  '(oldLevel, s) ← SetLevel s IntOff;
  '(_, s) ← SetLevel (signal s x) oldLevel;
  Ok s.

Definition put_and_wait (from : list Z) (loop : Z) (s : Sim) : res Sim :=
  ch ← arr_get from loop;
  s ← PutChar s ch;
  P s synchWriteAvail.

Definition Write (from : list Z) (numBytes : Z) (s : Sim) : res (Z * Sim) :=
  s ← P s WLineBlock;
  s ← for_loop (Z.to_nat numBytes) 0 (put_and_wait from) s;
  s ← V s WLineBlock;
  Ok (numBytes, s).

(** [do { synchReadAvail->P(); ch = cons->GetChar(); } while (ch == EOF);] *)
Fixpoint get_char (fuel : nat) (s : Sim) : res (Z * Sim) :=
  match fuel with
  | O => Stop OutOfFuel
  | S fuel' =>
      s ← P s synchReadAvail;
      let '(ch, s) := GetChar s in
      if ch =? EOF then get_char fuel' s else Ok (ch, s)
  end.

(** One round per signal that is or will be given. *)
Definition char_fuel (s : Sim) : nat :=
  S (Z.to_nat (value (rest s) synchReadAvail) + length (keyboard (cons (rest s)))).

(** The loop of [Read] with [n] characters left. *)
Fixpoint read_chars (n : nat) (loop : Z) (into : list Z) (ch : Z) (s : Sim)
    : res (Z * list Z * Z * Sim) :=
  match n with
  | O => Ok (loop, into, ch, s)
  | S n' =>
      '(ch, s) ← get_char (char_fuel s) s;
      if (ch =? newline) || (ch =? ctrl_A) then Ok (loop, into, ch, s)
      else into ← arr_set into loop ch; read_chars n' (loop + 1) into ch s
  end.

(** [ch] is not initialised when no character is asked for. *)
Definition Read (garbage_ch : Z) (into : list Z) (numBytes : Z) (s : Sim)
    : res (Z * list Z * Sim) :=
  into ← for_loop (Z.to_nat numBytes) 0 (λ loop into, arr_set into loop 0) into;
  s ← P s RLineBlock;
  '(loop, into, ch, s) ← read_chars (Z.to_nat numBytes) 0 into garbage_ch s;
  s ← V s RLineBlock;
  Ok (if ch =? ctrl_A then -1 else loop, into, s).

(** ** The streams *)

(** The characters that are typed and were not fetched yet. *)
Definition char_of (p : poll) : option Z := match p with Typed c => Some c | _ => None end.
Definition input (d : SynchConsole) : list Z :=
  (if incoming (cons d) =? EOF then [] else [incoming (cons d)]) ++ omap char_of (keyboard (cons d)).

(** The signals of [synchReadAvail] that are or may still be given. *)
Definition signals (d : SynchConsole) : Z :=
  value d synchReadAvail + Z.of_nat (length (keyboard (cons d))).

(** The same, for what is typed: the signals that characters give. *)
Fixpoint typed (k : list poll) : nat :=
  match k with [] => O | Typed _ :: k => S (typed k) | _ :: k => typed k end.
Definition credit (d : SynchConsole) : Z := value d synchReadAvail + Z.of_nat (typed (keyboard (cons d))).

(** What a keyboard may send: not the end of its file, where the ASSERT of
    [Read] (sysdep.cc) fails, and not the byte 0xFF, which as a [char] is [EOF],
    so that the console takes it for the absence of a character and loses it. *)
Definition regular (p : poll) : bool :=
  match p with Quiet => true | Typed c => negb (c =? EOF) | HangUp => false end.
Definition dev_wf (d : SynchConsole) : Prop := Forall (λ p, regular p = true) (keyboard (cons d)).

(** What interrupts leave alone. *)
Record served (d d' : SynchConsole) : Prop := mkServed {
  sv_input : input d' = input d;
  sv_display : display (cons d') = display (cons d);
  sv_signals : signals d' ≤ signals d;
  sv_credit : credit d' ≤ credit d;
  sv_keys : (length (keyboard (cons d')) ≤ length (keyboard (cons d)))%nat;
  sv_busy : putBusy (cons d) = false → putBusy (cons d') = false;
  sv_rline : value d' RLineBlock = value d RLineBlock;
  sv_wline : value d' WLineBlock = value d WLineBlock;
}.
#[export] Instance served_refl : Reflexive served.
Proof. intros d. by split. Qed.
#[export] Instance served_trans : Transitive served.
Proof. intros d1 d2 d3 [] []. split; try congruence; try lia. auto. Qed.

Definition poll_entry (t : Z) : Z * PendingInterrupt Handler :=
  (t, mkPending ConsoleReadPoll 0 t ConsoleReadInt).
Definition write_entry (t : Z) : Z * PendingInterrupt Handler :=
  (t, mkPending ConsoleWriteDone 0 t ConsoleWriteInt).

(** The console between two interrupts: one poll is pending, and the end of the
    character that is being displayed, if any, at time [tw]; a buffered
    character has been signalled; [w] is 1 while a character is displayed or
    its signal was not taken yet, [r] is 1 after a signal of the keyboard was
    taken and before the character is fetched. *)
Record dev_live (r w : Z) (d : SynchConsole) : Prop := mkDevLive {
  dl_wf : dev_wf d;
  dl_value : 0 ≤ r ∧ 0 ≤ value d synchReadAvail;
  dl_read : (if incoming (cons d) =? EOF then 0 else 1) ≤ value d synchReadAvail + r;
  dl_write : value d synchWriteAvail = w - (if putBusy (cons d) then 1 else 0);
}.

Record live (r w tw : Z) (s : Sim) : Prop := mkLive {
  lv_list : kl_wf (pending (interrupt s));
  lv_sorted : keys_sorted (queue s);
  lv_ticks : balanced (stats s);
  lv_dev : dev_live r w (rest s);
  lv_handler : inHandler (interrupt s) = false;
  lv_yield : yieldOnReturn (interrupt s) = false;
  lv_queue : ∃ tr, queue s ≡ₚ poll_entry tr :: (if putBusy (cons (rest s)) then [write_entry tw] else []);
}.

Context `{!KeyedListLaws (PendingInterrupt Handler) L}.

(** A character that arrives moves from the keyboard to the buffer. *)
Lemma CheckCharAvail_spec r w s :
  kl_wf (pending (interrupt s)) → keys_sorted (queue s) → balanced (stats s) → dev_live r w (rest s) →
  ∃ s', CheckCharAvail s = Ok s' ∧ kl_wf (pending (interrupt s')) ∧ keys_sorted (queue s') ∧
    balanced (stats s') ∧ dev_live r w (rest s') ∧ served (rest s) (rest s') ∧
    putBusy (cons (rest s')) = putBusy (cons (rest s)) ∧ now s' = now s ∧
    level (interrupt s') = level (interrupt s) ∧
    yieldOnReturn (interrupt s') = yieldOnReturn (interrupt s) ∧
    queue s' = insert_by_key (poll_entry (now s + ConsoleTime)).2 (now s + ConsoleTime) (queue s) ∧
    (incoming (cons (rest s)) = EOF → keyboard (cons (rest s)) ≠ [] →
     (length (keyboard (cons (rest s'))) < length (keyboard (cons (rest s))))%nat).
Proof using KeyedListLaws0.
  intros Hw Hs Hb [Hd [Hr0 Hv0] Hr Hwr]. unfold CheckCharAvail, Schedule. simpl.
  destruct (kl_sorted_insert_spec (pending (interrupt s))
    (mkPending ConsoleReadPoll 0 (totalTicks (stats s) + ConsoleTime) ConsoleReadInt)
    (totalTicks (stats s) + ConsoleTime) Hw) as (p & -> & Hwp & Hp). simpl_res.
  assert (keys_sorted (kl_elems p)) as Hsp by (rewrite Hp; by apply insert_by_key_sorted).
  destruct (rest s) as [[kb dis busy inc] val] eqn:Hrest. unfold dev_wf in Hd. simpl in *.
  assert (∀ s' : Sim, interrupt s' = interrupt (set_pending s p) → now s' = now s →
    balanced (stats s') → dev_live r w (rest s') →
    served (mkSynchConsole (mkConsole kb dis busy inc) val) (rest s') →
    putBusy (cons (rest s')) = busy →
    (inc = EOF → kb ≠ [] → (length (keyboard (cons (rest s'))) < length kb)%nat) →
    kl_wf (pending (interrupt s')) ∧ keys_sorted (queue s') ∧
    balanced (stats s') ∧ dev_live r w (rest s') ∧
    served (mkSynchConsole (mkConsole kb dis busy inc) val) (rest s') ∧
    putBusy (cons (rest s')) = busy ∧ now s' = now s ∧
    level (interrupt s') = level (interrupt s) ∧
    yieldOnReturn (interrupt s') = yieldOnReturn (interrupt s) ∧
    queue s' = insert_by_key (poll_entry (now s + ConsoleTime)).2 (now s + ConsoleTime) (queue s) ∧
    (inc = EOF → kb ≠ [] → (length (keyboard (cons (rest s'))) < length kb)%nat)) as Hfin.
  { intros s' Hi Hn Hb' Hl' Hsv Hpb Hk. unfold queue. rewrite Hi. split_and!; try done. }
  destruct (Z.eqb_spec inc EOF) as [->|Hne]; simpl.
  - rewrite Hrest. simpl. destruct kb as [|[|ch|] kb]; simpl.
    + eexists. split; [reflexivity|]. apply Hfin; try done; simpl; rewrite Hrest; done.
    + inversion Hd; subst. eexists. split; [reflexivity|]. apply Hfin; try done; simpl; rewrite ?Hrest.
      * by split.
      * split; try done; unfold signals, credit; simpl; lia.
      * lia.
    + inversion Hd as [|? ? Hch]; subst. apply negb_true_iff in Hch. eexists. split; [reflexivity|].
      apply Hfin; try done; simpl; rewrite ?Hrest.
      * split; simpl; try done; [lia|]. rewrite Hch. lia.
      * split; try done; unfold signals, credit, input; simpl; [by rewrite Hch|lia..].
      * simpl. lia.
    + inversion Hd; simplify_eq.
  - rewrite Hrest. simpl. rewrite (proj2 (Z.eqb_neq inc EOF) Hne). simpl.
    eexists. split; [reflexivity|].
    apply Hfin; try done; simpl; rewrite Hrest; try done. split; simpl; try done.
    by rewrite (proj2 (Z.eqb_neq inc EOF) Hne).
Qed.

Lemma live_queue r w tw s :
  live r w tw s → ∃ tr,
    queue s = poll_entry tr :: (if putBusy (cons (rest s)) then [write_entry tw] else []) ∨
    (putBusy (cons (rest s)) = true ∧ queue s = [write_entry tw; poll_entry tr]).
Proof using Type.
  intros [_ _ _ _ _ _ (tr & Hq)]. exists tr. destruct (putBusy (cons (rest s))).
  - symmetry in Hq. apply Permutation_length_2_inv in Hq as [->| ->]; [by left|by right].
  - apply Permutation_singleton_r in Hq as ->. by left.
Qed.

(** After an interrupt was taken off the queue and its handler called. *)
Record round_done (r w tw t : Z) (s s' : Sim) : Prop := mkRoundDone {
  rr_live : live r w tw s';
  rr_level : level (interrupt s') = IntOff;
  rr_status : status (interrupt s') = status (interrupt s);
  rr_served : served (rest s) (rest s');
  rr_now : now s' = Z.max (now s) t;
  rr_keys : putBusy (cons (rest s)) = false → incoming (cons (rest s)) = EOF →
    keyboard (cons (rest s)) ≠ [] →
    (length (keyboard (cons (rest s'))) < length (keyboard (cons (rest s))))%nat;
  rr_due : length (filter (λ e, e.1 ≤ now s') (queue s)) = S (length (due s'));
}.

Lemma advance_to_spec (s : Sim) t :
  balanced (stats s) →
  balanced (stats (advance_to s t)) ∧ now (advance_to s t) = Z.max (now s) t ∧
  interrupt (advance_to s t) = interrupt s ∧ rest (advance_to s t) = rest s.
Proof using Type.
  intros Hb. unfold advance_to, now, balanced in *. rewrite Z.gtb_ltb.
  destruct (Z.ltb_spec (totalTicks (stats s)) t); simpl; split_and!; try done; lia.
Qed.

Lemma invoke_poll r w tw s p tr q :
  live r w tw s → level (interrupt s) = IntOff → queue s = poll_entry tr :: q →
  kl_wf p → kl_elems p = q →
  ∃ s', invoke (advance_to (set_pending s p) tr) (poll_entry tr).2 (status (interrupt s)) = Ok s' ∧
        round_done r w tw tr s s'.
Proof using KeyedListLaws0.
  intros Hlive Hl Hq Hwp Hp. pose proof Hlive as [Hw Hs Hb Hd Hh Hy _].
  destruct (advance_to_spec (set_pending s p) tr Hb) as (Hb1 & Hn1 & Hi1 & Hr1).
  unfold invoke. simpl.
  set (s1 := set_status _ SystemMode).
  assert (queue s1 = q) as Hq1 by (unfold queue, s1; simpl; by rewrite Hi1).
  rewrite Hq in Hs. destruct Hs as [Hall Hs].
  destruct (CheckCharAvail_spec r w s1)
    as (s2 & -> & Hw2 & Hs2 & Hb2 & Hd2 & Hsv & Hpb & Hn2 & Hl2 & Hy2 & Hq2 & Hk).
  { unfold s1; simpl; by rewrite Hi1. }
  { by rewrite Hq1. }
  { exact Hb1. }
  { unfold s1; simpl; by rewrite Hr1. }
  assert (rest s1 = rest s) as Hrs by (unfold s1; simpl; by rewrite Hr1).
  assert (now s1 = Z.max (now s) tr) as Hns by exact Hn1.
  assert (q = if putBusy (cons (rest s)) then [write_entry tw] else []) as Hqe.
  { destruct (live_queue r w tw s Hlive) as (tr' & [E|[-> E]]); rewrite Hq in E.
    - by injection E as _ ->.
    - by injection E as _ _. }
  rewrite Hrs in *. rewrite Hns, Hq1 in *.
  eexists. split; [reflexivity|]. split; simpl; try done.
  - split; simpl; try done.
    + by rewrite Hy2; unfold s1; simpl; rewrite Hi1.
    + exists (Z.max (now s) tr + ConsoleTime). rewrite Hpb. change (queue s2 ≡ₚ
        poll_entry (Z.max (now s) tr + ConsoleTime) :: if putBusy (cons (rest s)) then [write_entry tw] else []).
      rewrite Hq2, insert_by_key_perm, Hqe. done.
  - by rewrite Hl2; unfold s1; simpl; rewrite Hi1.
  - change (now (set_inHandler (set_status s2 (status (interrupt s))) false)) with (now s2).
    change (due (set_inHandler (set_status s2 (status (interrupt s))) false)) with (due s2).
    unfold due. rewrite Hq, filter_cons_True by (simpl; lia). rewrite Hn2, Hq2.
    rewrite insert_future by (unfold ConsoleTime; lia). done.
Qed.

Lemma invoke_write r w tw s p tr :
  live r w tw s → level (interrupt s) = IntOff → putBusy (cons (rest s)) = true →
  queue s ≡ₚ [write_entry tw; poll_entry tr] → kl_wf p → kl_elems p = [poll_entry tr] →
  ∃ s', invoke (advance_to (set_pending s p) tw) (write_entry tw).2 (status (interrupt s)) = Ok s' ∧
        round_done r w tw tw s s'.
Proof using Type.
  intros [Hw Hs Hb [Hd1 Hv1 Hd2 Hd3] Hh Hy _] Hl Hpb Hq Hwp Hp.
  destruct (advance_to_spec (set_pending s p) tw Hb) as (Hb1 & Hn1 & Hi1 & Hr1).
  unfold invoke. simpl. unfold WriteDone. simpl. eexists. split; [reflexivity|].
  rewrite Hpb in Hd3.
  split; simpl; rewrite ?Hr1, ?Hi1; simpl; try done; try (by rewrite Hpb).
  - split; simpl; rewrite ?Hr1, ?Hi1; simpl; try done.
    + unfold queue. simpl. rewrite Hi1. simpl. rewrite Hp. by repeat constructor.
    + split; simpl; try done. lia.
    + exists tr. unfold queue. simpl. rewrite Hi1. simpl. by rewrite Hp.
  - match goal with |- length (filter _ _) = S (length (due ?x)) => set (s' := x) end.
    assert (now s' = Z.max (now s) tw) as Hn' by exact Hn1.
    assert (queue s' = [poll_entry tr]) as Hq'.
    { unfold queue, s'. simpl. rewrite Hi1. exact Hp. }
    unfold due. rewrite Hn', Hq'.
    rewrite Hq, filter_cons_True by (simpl; lia). done.
Qed.

(** One round of the interrupt check. *)
Lemma round r w tw s adv :
  live r w tw s → level (interrupt s) = IntOff →
  ∃ t x q, queue s = (t, x) :: q ∧
    if (t <=? now s) || adv then ∃ s', CheckIfDue s adv = Ok (true, s') ∧ round_done r w tw t s s'
    else ∃ s', CheckIfDue s adv = Ok (false, s') ∧ live r w tw s' ∧ level (interrupt s') = IntOff ∧
      status (interrupt s') = status (interrupt s) ∧ rest s' = rest s ∧ now s' = now s ∧
      due s = [] ∧ due s' = [].
Proof using KeyedListLaws0.
  intros Hlive Hl. pose proof Hlive as [Hw Hs Hb Hd Hh Hy (tr0 & Hperm)].
  assert (∃ t x q, queue s = (t, x) :: q ∧ type x ≠ TimerInt ∧ ∀ p, kl_wf p → kl_elems p = q → 
    ∃ s', invoke (advance_to (set_pending s p) t) x (status (interrupt s)) = Ok s' ∧
        round_done r w tw t s s') as (t & x & q & Hq & Ht & Hinv).
  { destruct (live_queue r w tw s Hlive) as (tr & [E|[Hpb E]]); rewrite E;
      (eexists _, _, _; split; [reflexivity|]; split; [done|]); intros p Hwp Hp.
    - by eapply invoke_poll.
    - eapply invoke_write; try done. by rewrite E. }
  exists t, x, q. split; [done|].
  destruct (CheckIfDue_cases s adv t x q Hw Hl Hq Ht) as (p & Hwp & Hp & ->).
  destruct ((t <=? now s) || adv) eqn:Hc.
  - destruct (Hinv p Hwp Hp) as (s' & -> & Hdone). by exists s'.
  - destruct (kl_sorted_insert_spec p x t Hwp) as (p' & -> & Hwp' & Hp'). rewrite Hp in Hp'.
    apply orb_false_iff in Hc as [Hc _]. apply Z.leb_gt in Hc.
    assert (due s = []) as Hdue.
    { eapply keys_sorted_head_due; [exact Hs|exact Hq|simpl; lia]. }
    rewrite Hq in Hs. destruct Hs as [Hall Hs].
    eexists. split; [reflexivity|]. split_and!; try done.
    + split; try done.
      * change (keys_sorted (kl_elems p')). rewrite Hp'. by apply insert_by_key_sorted.
      * exists tr0. change (kl_elems p' ≡ₚ poll_entry tr0 :: if putBusy (cons (rest s)) then [write_entry tw] else []).
        rewrite Hp', insert_by_key_perm, <- Hperm. by rewrite Hq.
    + unfold due in *. change (filter (λ e, e.1 ≤ now s) (kl_elems p') = []).
      rewrite Hp', insert_future by done. rewrite Hq in Hdue.
      by rewrite filter_cons_False in Hdue by (simpl; lia).
Qed.

(** The loop that fires everything that is due. *)
Lemma settle r w tw n s :
  live r w tw s → level (interrupt s) = IntOff → (length (due s) < n)%nat →
  ∃ s', check_all n s = Ok s' ∧ live r w tw s' ∧ level (interrupt s') = IntOff ∧
    status (interrupt s') = status (interrupt s) ∧ served (rest s) (rest s') ∧
    now s' = now s ∧ due s' = [].
Proof using KeyedListLaws0.
  revert s. induction n as [|n IH]; intros s Hlive Hl Hn; [lia|]. simpl.
  destruct (round r w tw s false Hlive Hl) as (t & x & q & Hq & Hc).
  destruct (Z.leb_spec t (now s)); simpl in Hc.
  - destruct Hc as (s1 & -> & [Hlive1 Hl1 Hst1 Hsv1 Hn1 _ Hd1]). simpl.
    rewrite Z.max_l in Hn1 by lia. rewrite Hn1 in Hd1.
    change (length (due s) = S (length (due s1))) in Hd1.
    destruct (IH s1 Hlive1 Hl1) as (s' & -> & ? & ? & ? & ? & ? & ?); [lia|].
    exists s'. split_and!; try done; try congruence; by etrans.
  - destruct Hc as (s1 & -> & ? & ? & ? & Hr & ? & ? & ?). simpl. exists s1. by rewrite Hr.
Qed.

Lemma live_frame r w tw s s' :
  live r w tw s → pending (interrupt s') = pending (interrupt s) →
  balanced (stats s') → rest s' = rest s →
  inHandler (interrupt s') = false → yieldOnReturn (interrupt s') = false → live r w tw s'.
Proof using Type.
  intros [Hw Hs Hb Hd Hh Hy Hq] Hp Hb' Hr Hh' Hy'.
  split; unfold queue in *; rewrite ?Hp, ?Hr; done.
Qed.

(** The idle machine takes the next interrupt. *)
Lemma Idle_spec r w tw s :
  live r w tw s → level (interrupt s) = IntOff →
  ∃ s' e, Idle s = Ok s' ∧ live r w tw s' ∧ level (interrupt s') = IntOff ∧
    status (interrupt s') = SystemMode ∧ served (rest s) (rest s') ∧ due s' = [] ∧
    head (queue s) = Some e ∧ now s' = Z.max (now s) e.1 ∧
    (putBusy (cons (rest s)) = false → incoming (cons (rest s)) = EOF →
     keyboard (cons (rest s)) ≠ [] →
     (length (keyboard (cons (rest s'))) < length (keyboard (cons (rest s))))%nat).
Proof using KeyedListLaws0.
  intros Hlive Hl. unfold Idle.
  destruct (round r w tw (set_status s IdleMode) true) as (t & x & q & Hq & Hc);
    [by eapply live_frame; [exact Hlive|..]; try done; apply Hlive|done|].
  rewrite orb_true_r in Hc. destruct Hc as (s1 & -> & [Hlive1 Hl1 _ Hsv1 Hn1 Hk1 _]). simpl_res.
  destruct (settle r w tw (check_fuel s1) s1 Hlive1 Hl1 (due_fuel s1))
    as (s2 & -> & Hlive2 & Hl2 & _ & Hsv2 & Hn2 & Hd2).
  eexists _, (t, x). split; [reflexivity|]. split_and!; try done.
  - eapply live_frame; [exact Hlive2|..]; try done; apply Hlive2.
  - by etrans.
  - change (queue (set_status s IdleMode)) with (queue s) in Hq. by rewrite Hq.
  - change (now s2 = Z.max (now s) t). by rewrite Hn2, Hn1.
  - intros H1 H2 H3. specialize (Hk1 H1 H2 H3). pose proof (sv_keys _ _ Hsv2). simpl in *. lia.
Qed.

(** One tick, when the interrupt level is restored. *)
Lemma restore_level r w tw s :
  live r w tw s → level (interrupt s) = IntOff → status (interrupt s) = SystemMode →
  ∃ s', SetLevel s IntOn = Ok (IntOff, s') ∧ live r w tw s' ∧ level (interrupt s') = IntOn ∧
    status (interrupt s') = SystemMode ∧ served (rest s) (rest s') ∧ due s' = [] ∧
    now s ≤ now s'.
Proof using KeyedListLaws0.
  intros Hlive Hl Hst. unfold SetLevel. rewrite (lv_handler _ _ _ _ Hlive), Hl. simpl.
  unfold OneTick. set (s1 := ChangeLevel (advance_clock (ChangeLevel s IntOn)) IntOff).
  assert (live r w tw s1 ∧ rest s1 = rest s ∧ now s ≤ now s1 ∧ status (interrupt s1) = SystemMode)
    as (Hlive1 & Hr1 & Hn1 & Hst1).
  { unfold s1, advance_clock. simpl. rewrite Hst. simpl. split_and!; try done.
    - eapply live_frame; [exact Hlive|..]; try done; try apply Hlive.
      pose proof (lv_ticks _ _ _ _ Hlive). unfold balanced in *. simpl. lia.
    - unfold now. simpl. unfold SystemTick. lia. }
  destruct (settle r w tw (check_fuel s1) s1 Hlive1 eq_refl (due_fuel s1))
    as (s2 & E2 & Hlive2 & Hl2 & Hst2 & Hsv2 & Hn2 & Hd2).
  rewrite E2. simpl. rewrite (lv_yield _ _ _ _ Hlive2). simpl.
  eexists. split; [reflexivity|]. split_and!; try done.
  - eapply live_frame; [exact Hlive2|..]; try done; apply Hlive2.
  - simpl. by rewrite Hst2.
  - simpl. by rewrite <- Hr1.
  - change (now s ≤ now s2). by rewrite Hn2.
Qed.

(** Between two operations of the thread.  [r] as above. *)
Record calm (r : Z) (s : Sim) : Prop := mkCalm {
  cm_live : live r 0 0 s;
  cm_idle : putBusy (cons (rest s)) = false;
  cm_level : level (interrupt s) = IntOn;
  cm_status : status (interrupt s) = SystemMode;
  cm_due : due s = [];
}.

Lemma live_dev r w tw r' w' tw' s d :
  live r w tw s → dev_live r' w' d → putBusy (cons d) = false → putBusy (cons (rest s)) = false →
  live r' w' tw' (with_rest s d).
Proof using Type.
  intros [Hw Hs Hb Hd Hh Hy (tr & Hq)] Hd' Hp Hp'. split; try done.
  exists tr. simpl. rewrite Hp. rewrite Hp' in Hq. exact Hq.
Qed.

(** The end of [P] and [V]: the level goes back to what it was. *)
Lemma leave_calm r s :
  live r 0 0 s → putBusy (cons (rest s)) = false → level (interrupt s) = IntOff →
  status (interrupt s) = SystemMode →
  ∃ s', SetLevel s IntOn = Ok (IntOff, s') ∧ calm r s' ∧ served (rest s) (rest s').
Proof using KeyedListLaws0.
  intros Hlive Hp Hl Hst.
  destruct (restore_level r 0 0 s Hlive Hl Hst) as (s' & -> & Hlive' & Hl' & Hst' & Hsv & Hd & _).
  exists s'. split; [done|]. split; [|done]. split; try done. by apply (sv_busy _ _ Hsv).
Qed.

Lemma enter_calm r s :
  calm r s → SetLevel s IntOff = Ok (IntOn, set_level s IntOff) ∧
             live r 0 0 (set_level s IntOff).
Proof using Type.
  intros [Hlive Hp Hl Hst Hd]. split.
  - unfold SetLevel. simpl. by rewrite Hl.
  - eapply live_frame; [exact Hlive|..]; try done; apply Hlive.
Qed.

(** A line semaphore. *)
Definition line_semaphore (x : semaphore) : bool :=
  match x with RLineBlock | WLineBlock => true | _ => false end.

Lemma line_dev_live r w s x v :
  dev_live r w (rest s) → line_semaphore x = true → dev_live r w (rest (with_value s x v)).
Proof using Type. intros [H1 H2 H3 H4] Hx. by split; destruct x; simpl. Qed.

Lemma wait_ready f s x v :
  value (rest s) x = v → v ≠ 0 → wait (S f) s x = Ok (with_value s x (v - 1)).
Proof using Type. intros Hv Hn. simpl. rewrite Hv. by destruct (Z.eqb_spec v 0). Qed.

Lemma P_line s x :
  calm 0 s → line_semaphore x = true → value (rest s) x = 1 →
  ∃ s', P s x = Ok s' ∧ calm 0 s' ∧ served (rest (with_value s x 0)) (rest s').
Proof using KeyedListLaws0.
  intros Hc Hx Hv. destruct (enter_calm 0 s Hc) as [E Hlive]. unfold P. rewrite E. simpl_res.
  unfold wait_fuel. rewrite (wait_ready _ _ _ 1) by done. simpl_res. change (1 - 1) with 0.
  destruct (leave_calm 0 (with_value (set_level s IntOff) x 0)) as (s' & -> & Hc' & Hsv); try done.
  - eapply live_dev; [exact Hlive| |apply Hc..]. eapply (line_dev_live _ _ s); [apply Hc|done].
  - apply Hc.
  - apply Hc.
  - by exists s'.
Qed.

Lemma V_line s x :
  calm 0 s → line_semaphore x = true →
  ∃ s', V s x = Ok s' ∧ calm 0 s' ∧ served (rest (signal s x)) (rest s').
Proof using KeyedListLaws0.
  intros Hc Hx. destruct (enter_calm 0 s Hc) as [E Hlive]. unfold V. rewrite E. simpl_res.
  destruct (leave_calm 0 (signal (set_level s IntOff) x)) as (s' & -> & Hc' & Hsv); try done.
  - eapply live_dev; [exact Hlive| |apply Hc..]. eapply (line_dev_live _ _ s); [apply Hc|done].
  - apply Hc.
  - apply Hc.
  - by exists s'.
Qed.

(** The wait for the display: within [ConsoleTime] ticks. *)
Lemma wait_write tw fuel s :
  live 0 1 tw s → level (interrupt s) = IntOff → status (interrupt s) = SystemMode → due s = [] →
  (0 < fuel)%nat → tw - now s < Z.of_nat fuel →
  ∃ s', wait fuel s synchWriteAvail = Ok s' ∧ live 0 0 0 s' ∧ putBusy (cons (rest s')) = false ∧
    level (interrupt s') = IntOff ∧ status (interrupt s') = SystemMode ∧ served (rest s) (rest s').
Proof using KeyedListLaws0.
  revert s. induction fuel as [|fuel IH]; intros s Hlive Hl Hst Hd Hf Htw; [lia|]. simpl.
  pose proof (lv_dev _ _ _ _ Hlive) as [H1 H2 H3 H4].
  destruct (putBusy (cons (rest s))) eqn:Hp; rewrite H4; simpl.
  - assert (now s < tw) as Hnow.
    { apply Z.nle_gt. intros Hle. assert (write_entry tw ∈ due s) as Hin.
      { apply list_elem_of_filter. split; [done|].
        destruct (lv_queue _ _ _ _ Hlive) as (tr & Hq). rewrite Hp in Hq. rewrite Hq. set_solver. }
      rewrite Hd in Hin. by apply elem_of_nil in Hin. }
    destruct (Idle_spec 0 1 tw s Hlive Hl)
      as (s1 & e & -> & Hlive1 & Hl1 & Hst1 & Hsv1 & Hd1 & He & Hn1 & _). simpl.
    assert (now s < e.1) as Hlt.
    { apply Z.nle_gt. intros Hle. assert (e ∈ due s) as Hin.
      { apply list_elem_of_filter. split; [done|]. destruct (queue s); [done|].
        injection He as ->. by left. }
      rewrite Hd in Hin. by apply elem_of_nil in Hin. }
    destruct (IH s1 Hlive1 Hl1 Hst1 Hd1) as (s' & -> & ? & ? & ? & ? & ?); [lia|lia|].
    exists s'. split_and!; try done. by etrans.
  - eexists. split; [reflexivity|]. split_and!; try done.
    eapply live_dev; [exact Hlive| |done..]. split; try done. simpl. by rewrite Hp.
Qed.

Lemma wait_read fuel s :
  live 0 0 0 s → putBusy (cons (rest s)) = false → level (interrupt s) = IntOff →
  status (interrupt s) = SystemMode → input (rest s) ≠ [] →
  (length (keyboard (cons (rest s))) < fuel)%nat →
  ∃ s', wait fuel s synchReadAvail = Ok s' ∧ live 1 0 0 s' ∧ putBusy (cons (rest s')) = false ∧
    level (interrupt s') = IntOff ∧ status (interrupt s') = SystemMode ∧
    input (rest s') = input (rest s) ∧ display (cons (rest s')) = display (cons (rest s)) ∧
    signals (rest s') < signals (rest s) ∧ credit (rest s') < credit (rest s) ∧
    value (rest s') RLineBlock = value (rest s) RLineBlock ∧
    value (rest s') WLineBlock = value (rest s) WLineBlock.
Proof using KeyedListLaws0.
  revert s. induction fuel as [|fuel IH]; intros s Hlive Hp Hl Hst Hin Hf; [lia|]. simpl.
  pose proof (lv_dev _ _ _ _ Hlive) as [H1 [_ H2] H3 H4].
  destruct (Z.eqb_spec (value (rest s) synchReadAvail) 0) as [Hv|Hv].
  - assert (incoming (cons (rest s)) = EOF) as Hi.
    { destruct (Z.eqb_spec (incoming (cons (rest s))) EOF); [done|lia]. }
    assert (keyboard (cons (rest s)) ≠ []) as Hk.
    { intros Hk. apply Hin. unfold input. by rewrite Hi, Hk. }
    destruct (Idle_spec 0 0 0 s Hlive Hl)
      as (s1 & e & -> & Hlive1 & Hl1 & Hst1 & [Hs1 Hs2 Hs3 Hs7 _ Hs4 Hs5 Hs6] & _ & _ & _ & Hk1). simpl.
    specialize (Hk1 Hp Hi Hk).
    destruct (IH s1 Hlive1 (Hs4 Hp) Hl1 Hst1) as (s' & -> & ? & ? & ? & ? & ? & ? & ? & ? & ? & ?);
      [by rewrite Hs1|lia|].
    exists s'. split_and!; try done; try congruence; lia.
  - eexists. split; [reflexivity|]. split_and!; try done.
    + eapply live_dev; [exact Hlive| |done..]. split; try done; simpl; [lia|].
      destruct (_ =? EOF); lia.
    + unfold signals. simpl. lia.
    + unfold credit. simpl. lia.
Qed.

Lemma P_read s :
  calm 0 s → input (rest s) ≠ [] →
  ∃ s', P s synchReadAvail = Ok s' ∧ calm 1 s' ∧
    input (rest s') = input (rest s) ∧ display (cons (rest s')) = display (cons (rest s)) ∧
    signals (rest s') < signals (rest s) ∧ credit (rest s') < credit (rest s) ∧
    value (rest s') RLineBlock = value (rest s) RLineBlock ∧
    value (rest s') WLineBlock = value (rest s) WLineBlock.
Proof using KeyedListLaws0.
  intros Hc Hin. destruct (enter_calm 0 s Hc) as [E Hlive]. unfold P. rewrite E. simpl_res.
  destruct (wait_read (wait_fuel (set_level s IntOff)) (set_level s IntOff) Hlive)
    as (s1 & -> & Hlive1 & Hp1 & Hl1 & Hst1 & ? & ? & ? & ? & ? & ?);
    [apply Hc|done|apply Hc|done|unfold wait_fuel; lia|]. simpl in *.
  destruct (leave_calm 1 s1 Hlive1 Hp1 Hl1 Hst1) as (s' & -> & Hc' & []). simpl.
  exists s'. split_and!; try done; try congruence; lia.
Qed.

(** Displaying one character. *)
Lemma put_and_wait_spec from loop ch s :
  calm 0 s → arr_get from loop = Ok ch →
  ∃ s', put_and_wait from loop s = Ok s' ∧ calm 0 s' ∧ input (rest s') = input (rest s) ∧
    display (cons (rest s')) = display (cons (rest s)) ++ [ch] ∧ credit (rest s') ≤ credit (rest s) ∧
    value (rest s') RLineBlock = value (rest s) RLineBlock ∧
    value (rest s') WLineBlock = value (rest s) WLineBlock.
Proof using KeyedListLaws0.
  intros [Hlive Hp Hl Hst Hd] Hch. unfold put_and_wait, PutChar, Schedule.
  rewrite Hch. simpl. rewrite Hp. simpl.
  pose proof Hlive as [Hw Hs Hb [H1 H2 H3 H4] Hh Hy (tr & Hq)].
  destruct (kl_sorted_insert_spec (pending (interrupt s)) (write_entry (now s + ConsoleTime)).2
    (now s + ConsoleTime) Hw) as (p & Ei & Hwp & Hep). unfold now, write_entry in Ei. simpl in Ei. rewrite Ei. simpl_res.
  match goal with |- context [P ?x synchWriteAvail] => set (s1 := x) end.
  unfold P. assert (SetLevel s1 IntOff = Ok (IntOn, set_level s1 IntOff)) as ->.
  { unfold SetLevel. simpl. by rewrite Hl. }
  simpl_res.
  assert (queue s1 = insert_by_key (write_entry (now s + ConsoleTime)).2 (now s + ConsoleTime) (queue s))
    as Hq1 by exact Hep.
  assert (due s1 = []) as Hd1.
  { unfold due. change (now s1) with (now s). rewrite Hq1, insert_future by (unfold ConsoleTime; lia).
    exact Hd. }
  rewrite Hp in *. simpl in H4.
  destruct (wait_write (now s + ConsoleTime) (wait_fuel (set_level s1 IntOff)) (set_level s1 IntOff))
    as (s2 & -> & Hlive2 & Hp2 & Hl2 & Hst2 & Hsv2); try done.
  - split; try done.
    + change (keys_sorted (queue s1)). rewrite Hq1. by apply insert_by_key_sorted.
    + exists tr. change (queue s1 ≡ₚ [poll_entry tr; write_entry (now s + ConsoleTime)]).
      rewrite Hq1, insert_by_key_perm, Hq. apply Permutation_swap.
  - unfold wait_fuel. lia.
  - change (now (set_level s1 IntOff)) with (now s). unfold wait_fuel, ConsoleTime. lia.
  - simpl_res. destruct (leave_calm 0 s2 Hlive2 Hp2 Hl2 Hst2) as (s' & -> & Hc' & []). simpl.
    destruct Hsv2. unfold credit in *. exists s'. split_and!; try done; unfold input in *; simpl in *; first [congruence|lia].
Qed.

(** The blocking interface. *)
Record ready (s : Sim) : Prop := mkReady {
  rd_calm : calm 0 s;
  rd_rline : value (rest s) RLineBlock = 1;
  rd_wline : value (rest s) WLineBlock = 1;
}.

Lemma Write_spec s from numBytes :
  ready s → 0 ≤ numBytes ≤ Z.of_nat (length from) →
  ∃ s', Write from numBytes s = Ok (numBytes, s') ∧ ready s' ∧
    display (cons (rest s')) = display (cons (rest s)) ++ take (Z.to_nat numBytes) from ∧
    input (rest s') = input (rest s).
Proof using KeyedListLaws0.
  intros [Hc Hr Hw] Hn. unfold Write.
  destruct (P_line s WLineBlock Hc eq_refl Hw) as (s1 & -> & Hc1 & []). simpl_res.
  destruct (for_loop_inv (put_and_wait from) (λ j s', calm 0 s' ∧
    display (cons (rest s')) = display (cons (rest s)) ++ take (Z.to_nat j) from ∧
    input (rest s') = input (rest s) ∧
    value (rest s') RLineBlock = 1 ∧ value (rest s') WLineBlock = 0) (Z.to_nat numBytes) 0 s1)
    as (s2 & -> & Hc2 & Hd2 & Hi2 & Hr2 & Hw2).
  - split_and!; try done; simpl in *; try congruence. by rewrite app_nil_r.
  - intros j s' Hj (Hc' & Hd' & Hi' & Hr' & Hw').
    destruct (arr_get_total from j) as (ch & Hch & Hl); [lia|].
    destruct (put_and_wait_spec from j ch s' Hc' Hch) as (s'' & -> & ? & ? & Hd'' & _ & ? & ?).
    exists s''. split; [done|]. split_and!; try done; try congruence.
    rewrite Hd'', Hd', <- app_assoc. f_equal.
    replace (Z.to_nat (j + 1)) with (S (Z.to_nat j)) by lia.
    by rewrite (take_S_r _ _ ch).
  - simpl_res. destruct (V_line s2 WLineBlock Hc2 eq_refl) as (s3 & -> & Hc3 & []). simpl_res.
    simpl in *. rewrite Hw2 in *. replace (Z.of_nat (Z.to_nat numBytes)) with numBytes in * by lia.
    exists s3. split; [done|]. split_and!; unfold input in *; simpl in *; try congruence.
    { split; try done; congruence. }
    by rewrite sv_display1, Hd2, Z.add_0_l.
Qed.

Lemma GetChar_spec s ch s' :
  calm 1 s → GetChar s = (ch, s') →
  calm 0 s' ∧ input (rest s) = (if ch =? EOF then [] else [ch]) ++ input (rest s') ∧
  display (cons (rest s')) = display (cons (rest s)) ∧ signals (rest s') = signals (rest s) ∧
  credit (rest s') = credit (rest s) ∧
  value (rest s') RLineBlock = value (rest s) RLineBlock ∧
  value (rest s') WLineBlock = value (rest s) WLineBlock.
Proof using Type.
  intros [Hlive Hp Hl Hst Hd] [= <- <-].
  pose proof (lv_dev _ _ _ _ Hlive) as [H1 [H0 H2] H3 H4].
  split_and!; try done. split; try done.
  eapply live_dev; [exact Hlive| |done..]. split; try done. simpl. lia.
Qed.

Lemma get_char_spec fuel s c rest' :
  calm 0 s → input (rest s) = c :: rest' → signals (rest s) < Z.of_nat fuel →
  ∃ s', get_char fuel s = Ok (c, s') ∧ calm 0 s' ∧ input (rest s') = rest' ∧
    display (cons (rest s')) = display (cons (rest s)) ∧
    value (rest s') RLineBlock = value (rest s) RLineBlock ∧
    value (rest s') WLineBlock = value (rest s) WLineBlock.
Proof using KeyedListLaws0.
  revert s. induction fuel as [|fuel IH]; intros s Hc Hin Hf.
  - destruct (lv_dev _ _ _ _ (cm_live _ _ Hc)) as [_ [_ ?] _ _]. unfold signals in Hf. lia.
  - cbn [get_char]. destruct (P_read s Hc) as (s1 & -> & Hc1 & Hi1 & Hd1 & Hs1 & _ & Hr1 & Hw1);
      [by rewrite Hin|]. simpl_res.
    destruct (GetChar s1) as [ch s2] eqn:Eg.
    destruct (GetChar_spec s1 ch s2 Hc1 Eg) as (Hc2 & Hi2 & Hd2 & Hs2 & _ & Hr2 & Hw2).
    rewrite Hi1, Hin in Hi2. destruct (Z.eqb_spec ch EOF) as [->|Hne]; simpl in Hi2.
    + destruct (IH s2 Hc2) as (s' & -> & ? & ? & ? & ? & ?); [done|lia|].
      exists s'. split_and!; try done; congruence.
    + injection Hi2 as -> Hi2. exists s2. split_and!; try done; congruence.
Qed.

(** The loop of [Read] follows [take_line]. *)
Lemma read_chars_spec n loop into ch0 s line e rest' :
  calm 0 s → 0 ≤ loop → loop + Z.of_nat n ≤ Z.of_nat (length into) → (n = 0%nat → ch0 ≠ ctrl_A) →
  take_line n (input (rest s)) = Some (line, e, rest') →
  ∃ ch s', read_chars n loop into ch0 s =
      Ok (loop + Z.of_nat (length line),
          take (Z.to_nat loop) into ++ line ++ drop (Z.to_nat loop + length line) into, ch, s') ∧
    (ch =? ctrl_A) = bool_decide (e = Some ctrl_A) ∧
    calm 0 s' ∧ input (rest s') = rest' ∧ display (cons (rest s')) = display (cons (rest s)) ∧
    value (rest s') RLineBlock = value (rest s) RLineBlock ∧
    value (rest s') WLineBlock = value (rest s) WLineBlock.
Proof using KeyedListLaws0.
  revert loop into ch0 s line. induction n as [|n IH]; intros loop into ch0 s line Hc Hl Hlen Hch0 Ht.
  - injection Ht as <- <- <-. exists ch0, s. cbn [length app read_chars Z.of_nat]. rewrite Z.add_0_r, Nat.add_0_r, take_drop.
    split_and!; try done. rewrite bool_decide_eq_false_2 by done. apply Z.eqb_neq. by apply Hch0.
  - simpl in Ht. destruct (input (rest s)) as [|c inp] eqn:Hin; [done|].
    destruct (get_char_spec (char_fuel s) s c inp Hc Hin) as (s1 & Eg & Hc1 & Hi1 & Hd1 & Hr1 & Hw1).
    { destruct (lv_dev _ _ _ _ (cm_live _ _ Hc)) as [_ [_ ?] _ _].
      unfold signals, char_fuel. lia. }
    cbn [read_chars]. rewrite Eg. simpl_res.
    destruct ((c =? newline) || (c =? ctrl_A)) eqn:Hend.
    + injection Ht as <- <- <-. exists c, s1. cbn [length app Z.of_nat]. rewrite Z.add_0_r, Nat.add_0_r, take_drop.
      split_and!; try done. destruct (Z.eqb_spec c ctrl_A);
        [by rewrite bool_decide_eq_true_2 by congruence|by rewrite bool_decide_eq_false_2 by congruence].
    + rewrite <- Hi1 in Ht.
      destruct (take_line n (input (rest s1))) as [[[line' e'] r']|] eqn:Ht'; [|done].
      injection Ht as <- <- <-. apply orb_false_iff in Hend as [_ Hne]. apply Z.eqb_neq in Hne.
      rewrite arr_set_in by lia. simpl_res.
      destruct (IH (loop + 1) (<[Z.to_nat loop:=c]> into) c s1 line' Hc1)
        as (ch & s' & E & He & Hc' & Hi' & Hd' & Hr' & Hw'); [lia|rewrite length_insert; lia|done|done|].
      exists ch, s'. rewrite E. split_and!; try done; try congruence.
      replace (loop + 1 + Z.of_nat (length line')) with (loop + Z.of_nat (length (c :: line')))
        by (simpl; lia).
      replace (Z.to_nat (loop + 1)) with (S (Z.to_nat loop)) by lia.
      rewrite (take_S_r _ _ c) by (apply list_lookup_insert_eq; lia).
      rewrite take_insert_ge, drop_insert_lt by lia.
      rewrite <- !app_assoc. simpl. by rewrite Nat.add_succ_r.
Qed.

Lemma zero_fill n into :
  (n ≤ length into)%nat →
  for_loop n 0 (λ loop into, arr_set into loop 0) into = Ok (replicate n 0 ++ drop n into).
Proof using Type.
  intros Hn.
  destruct (for_loop_inv (λ loop into, arr_set into loop 0)
    (λ j l, 0 ≤ j ∧ l = replicate (Z.to_nat j) 0 ++ drop (Z.to_nat j) into) n 0 into)
    as (l & E & _ & Hl).
  - done.
  - intros j l Hj [_ ->]. rewrite arr_set_in.
    + eexists. split; [reflexivity|]. split; [lia|].
      replace (Z.to_nat (j + 1)) with (S (Z.to_nat j)) by lia.
      rewrite insert_app_r_alt by (rewrite length_replicate; lia).
      rewrite length_replicate, Nat.sub_diag.
      destruct (lookup_lt_is_Some_2 into (Z.to_nat j)) as [x Hx]; [lia|].
      rewrite replicate_S_end, <- app_assoc, (drop_S _ x) by done. done.
    + rewrite length_app, length_replicate, length_drop. lia.
  - rewrite E, Hl. by rewrite Z.add_0_l, Nat2Z.id.
Qed.

Lemma Read_spec garbage_ch s into numBytes line e rest' :
  ready s → 0 < numBytes ≤ Z.of_nat (length into) →
  take_line (Z.to_nat numBytes) (input (rest s)) = Some (line, e, rest') →
  ∃ s', Read garbage_ch into numBytes s =
      Ok (if bool_decide (e = Some ctrl_A) then EOF else Z.of_nat (length line),
          line ++ replicate (Z.to_nat numBytes - length line) 0 ++ drop (Z.to_nat numBytes) into, s') ∧
    ready s' ∧ input (rest s') = rest' ∧ display (cons (rest s')) = display (cons (rest s)).
Proof using KeyedListLaws0.
  intros [Hc Hr Hw] Hn Ht. unfold Read. rewrite zero_fill by lia. simpl_res.
  destruct (P_line s RLineBlock Hc eq_refl Hr) as (s1 & -> & Hc1 & [Hi1 Hd1 _ _ _ _ Hr1 Hw1]). simpl_res.
  change (input (rest (with_value s RLineBlock 0))) with (input (rest s)) in Hi1. rewrite <- Hi1 in Ht.
  destruct (read_chars_spec (Z.to_nat numBytes) 0
    (replicate (Z.to_nat numBytes) 0 ++ drop (Z.to_nat numBytes) into) garbage_ch s1 line e rest' Hc1)
    as (ch & s2 & -> & He & Hc2 & Hi2 & Hd2 & Hr2 & Hw2);
    [done|rewrite length_app, length_replicate; lia|lia|done|].
  simpl_res. destruct (V_line s2 RLineBlock Hc2 eq_refl) as (s3 & -> & Hc3 & [Hi3 Hd3 _ _ _ _ Hr3 Hw3]).
  simpl_res. exists s3. rewrite He. split_and!.
  - assert (length line ≤ Z.to_nat numBytes)%nat as Hle by (by eapply take_line_length).
    rewrite Z.add_0_l, drop_app_le by (rewrite length_replicate; simpl; lia).
    rewrite drop_replicate. done.
  - simpl in *. split; [done|by rewrite Hr3, Hr2, Hr1|congruence].
  - simpl in *. unfold input in *. simpl in *. congruence.
  - simpl in *. congruence.
Qed.

(** The machine before a console is made. *)
Record switched_on (s : Sim) : Prop := mkSwitchedOn {
  so_list : kl_wf (pending (interrupt s));
  so_queue : queue s = [];
  so_ticks : balanced (stats s);
  so_handler : inHandler (interrupt s) = false;
  so_yield : yieldOnReturn (interrupt s) = false;
  so_level : level (interrupt s) = IntOn;
  so_status : status (interrupt s) = SystemMode;
}.

(** A new console, whose two semaphores are then made. *)
Lemma Console_new_spec s readFile writeFile :
  switched_on s → Forall (λ p, regular p = true) readFile →
  ∃ s', Console_new s readFile writeFile = Ok s' ∧ cons (rest s') = mkConsole readFile writeFile false EOF ∧
    ∀ v : semaphore → Z, v synchReadAvail = 0 → v synchWriteAvail = 0 →
      calm 0 (with_rest s' (mkSynchConsole (cons (rest s')) v)).
Proof using KeyedListLaws0.
  intros [Hw Hq Hb Hh Hy Hl Hst] Hf. unfold Console_new, Schedule. simpl.
  destruct (kl_sorted_insert_spec (pending (interrupt s)) (poll_entry (now s + ConsoleTime)).2
    (now s + ConsoleTime) Hw) as (p & Ei & Hwp & Hep). unfold now, poll_entry in Ei. simpl in Ei.
  rewrite Ei. simpl_res. change (kl_elems (pending (interrupt s))) with (queue s) in Hep.
  rewrite Hq in Hep. simpl in Hep. fold (poll_entry (now s + ConsoleTime)) in Hep.
  eexists. split; [reflexivity|]. split; [done|]. intros v Hr Hwr. split; try done.
  - split; try done.
    + change (keys_sorted (kl_elems p)). rewrite Hep. by repeat constructor.
    + split; simpl; try done; rewrite ?Hr, ?Hwr; done.
    + exists (now s + ConsoleTime). change (kl_elems p ≡ₚ [poll_entry (now s + ConsoleTime)]).
      by rewrite Hep.
  - unfold due. change (filter (λ e, e.1 ≤ now s) (kl_elems p) = []). rewrite Hep.
    rewrite filter_cons_False; [done|]. simpl. unfold ConsoleTime. lia.
Qed.

Lemma SynchConsole_new_spec s readFile writeFile :
  switched_on s → Forall (λ p, regular p = true) readFile →
  ∃ s', SynchConsole_new s readFile writeFile = Ok s' ∧ ready s' ∧
    input (rest s') = omap char_of readFile ∧ display (cons (rest s')) = writeFile.
Proof using KeyedListLaws0.
  intros Hon Hf. unfold SynchConsole_new.
  destruct (Console_new_spec s readFile writeFile Hon Hf) as (s' & -> & Hcons & Hcalm). simpl_res.
  eexists. split; [reflexivity|]. split.
  - split; [by apply Hcalm|done..].
  - unfold input. simpl. by rewrite Hcons.
Qed.

(** The synchronous console provides the interface. *)
Definition synch_cons (garbage_ch : Z) : SynchCons Sim := {|
  con_ok := ready;
  con_input := λ s, input (rest s);
  con_output := λ s, display (cons (rest s));
  con_write := Write;
  con_read := Read garbage_ch;
|}.

Lemma synch_cons_laws garbage_ch : @SynchConsLaws Sim (synch_cons garbage_ch).
Proof using KeyedListLaws0.
  split; simpl; intros.
  - by apply Write_spec.
  - by apply Read_spec.
Qed.
End console.
End Console.

(** ** The properties *)

Module ConsoleSpec.
Import Console.

Section spec.
Context {L : Type} `{KeyedListLaws (PendingInterrupt Handler) L}.
Implicit Types s : Sim L SynchConsole.

(** C23. Output on the synchronous console, while the keyboard is regular: its
    file does not end and holds no byte 0xFF (the invariant [ready], see
    [end_of_input_aborts] and [byte_255_is_lost] for what happens otherwise).
    However the keyboard polls fall between them, [Write] puts out all its
    characters in order, waiting for the display after each (the assertion of
    [PutChar] never fails), returns their number, terminates, and every character
    typed meanwhile is still there to be read, in order. *)
Theorem console_write_in_order s from numBytes :
  ready s → 0 ≤ numBytes ≤ Z.of_nat (length from) →
  ∃ s', Write from numBytes s = Ok (numBytes, s') ∧ ready s' ∧
    display (cons (rest s')) = display (cons (rest s)) ++ take (Z.to_nat numBytes) from ∧
    input (rest s') = input (rest s).
Proof using All. apply Write_spec. Qed.

(** Input from the synchronous console.  [Read] takes the characters typed
    up to the end of the line (or control-A, or a full buffer), in order and
    each once, whatever the pauses between them; it returns their number, or -1
    for control-A, the rest of the buffer is zero, and what follows the line
    stays for the next call. *)
Theorem console_read_line garbage_ch s into numBytes line e rest' :
  ready s → 0 < numBytes ≤ Z.of_nat (length into) →
  take_line (Z.to_nat numBytes) (input (rest s)) = Some (line, e, rest') →
  ∃ s', Read garbage_ch into numBytes s =
      Ok (if bool_decide (e = Some ctrl_A) then EOF else Z.of_nat (length line),
          line ++ replicate (Z.to_nat numBytes - length line) 0 ++ drop (Z.to_nat numBytes) into, s') ∧
    ready s' ∧ input (rest s') = rest' ∧ display (cons (rest s')) = display (cons (rest s)).
Proof using All. apply Read_spec. Qed.
End spec.

(** A console on which [42\n7] is being typed. *)
Definition L := NList.List (PendingInterrupt Handler).
Definition keys : list poll :=
  [Quiet; Typed 52; Quiet; Quiet; Typed 50; Typed 10; Typed 55].
Definition sample0 : Sim L SynchConsole :=
  mkSim (mkInterrupt IntOn kl_new false false SystemMode) Statistics_new
    (mkSynchConsole (mkConsole [] [] false EOF) (λ _, 0)).
Definition sample : Sim L SynchConsole :=
  match SynchConsole_new sample0 keys [] with Ok s => s | Stop _ => sample0 end.

Lemma console_ready :
  ready sample ∧ input (rest sample) = [52; 50; 10; 55] ∧ display (cons (rest sample)) = [].
Proof.
  destruct (SynchConsole_new_spec sample0 keys []) as (s & E & Hr & Hi & Hd).
  - split; try done. apply kl_new_spec.
  - by repeat constructor.
  - unfold sample. by rewrite E.
Qed.

Lemma console_write_in_order_witness :
  ∃ s', Write [72; 105] 2 sample = Ok (2, s') ∧ display (cons (rest s')) = [72; 105] ∧
        input (rest s') = [52; 50; 10; 55].
Proof.
  destruct console_ready as (Hr & Hi & Hd).
  destruct (console_write_in_order sample [72; 105] 2 Hr ltac:(simpl; lia)) as (s' & E & _ & Ho & Hi').
  exists s'. split; [exact E|]. rewrite Ho, Hi', Hd, Hi. split; reflexivity.
Defined.

Lemma console_read_line_witness :
  ∃ s', Read 0 [9; 9; 9; 9] 4 sample = Ok (2, [52; 50; 0; 0], s') ∧ input (rest s') = [55].
Proof.
  destruct console_ready as (Hr & Hi & Hd).
  destruct (console_read_line 0 sample [9; 9; 9; 9] 4 [52; 50] (Some 10) [55] Hr ltac:(simpl; lia))
    as (s' & E & _ & Hi' & _); [rewrite Hi; reflexivity|].
  exists s'. split; [exact E|exact Hi'].
Defined.

(** The byte 0xFF is lost: of A, 0xFF, B and a newline two characters are read. *)
Definition typed_ff : Sim L SynchConsole :=
  match SynchConsole_new sample0 [Typed 65; Typed (s8 255); Typed 66; Typed 10] [] with
  | Ok s => s | Stop _ => sample0 end.
Lemma byte_255_is_lost :
  match Read 0 [9; 9; 9; 9] 4 typed_ff with
  | Ok (n, into, _) => n = 2 ∧ into = [65; 66; 0; 0] | Stop _ => False end.
Proof. vm_compute. done. Qed.

(** At the end of the keyboard's file the kernel aborts, also in a write. *)
Definition closed : Sim L SynchConsole :=
  match SynchConsole_new sample0 [HangUp] [] with Ok s => s | Stop _ => sample0 end.
Lemma end_of_input_aborts : Write [72; 105] 2 closed = Stop AssertFailed.
Proof. vm_compute. reflexivity. Qed.
End ConsoleSpec.
