(* ===== verification/ConsoleTest.v ===== *)
(** * The test of the console (ConsoleTest in userprog/progtest.cc)

    The characters that are typed are echoed up to the first q.  The test has a
    console of its own, with two semaphores that its interrupt handlers signal;
    they are the first two of Console, whose definitions it shares.

    The console of the test is alone here.  In the program the console of the
    system calls, which Initialize makes first, goes on polling the standard
    input: when the test is called without file names, that console takes the
    first character. *)

From S2P Require Import Prelude NList Interrupt Console.
#[global] Open Scope Z_scope.
Import Console.

Module ConsoleTest.

Section test.
Context {L : Type} `{KeyedList (PendingInterrupt Handler) L}.
Notation Sim := (Sim L SynchConsole).

Definition quit : Z := 113.      (* 'q' *)

(** [for (;;)]; [char] is signed. *)
Fixpoint echo (fuel : nat) (s : Sim) : res Sim :=
  match fuel with
  | O => Stop OutOfFuel
  | S fuel' =>
      s ← P s synchReadAvail;
      let '(ch, s) := GetChar s in
      s ← PutChar s ch;
      s ← P s synchWriteAvail;
      if ch =? quit then Ok s else echo fuel' s
  end.

(** One round per character that may be typed. *)
Definition ConsoleTest (s : Sim) (in_ : list poll) (out : list Z) : res Sim :=
  s ← Console_new s in_ out;
  let s := with_value s synchReadAvail 0 in
  let s := with_value s synchWriteAvail 0 in
  echo (length in_) s.

(** Between two rounds: every signal of the keyboard that was or will be given
    has its character. *)
Record echoing (s : Sim) : Prop := mkEchoing {
  eg_calm : calm 0 s;
  eg_credit : credit (rest s) ≤ Z.of_nat (length (input (rest s)));
}.

Context `{!KeyedListLaws (PendingInterrupt Handler) L}.

Lemma omap_typed k : length (omap char_of k) = typed k.
Proof using Type.
  induction k as [|[|c|] k IH]; [done|exact IH| |exact IH].
  change (S (length (omap char_of k)) = S (typed k)). by rewrite IH.
Qed.

(** A signal that was taken and not followed by its character was given. *)
Lemma buffered (s : Sim) :
  credit (rest s) < Z.of_nat (length (input (rest s))) → calm 1 s → incoming (cons (rest s)) ≠ EOF.
Proof using Type.
  intros Hlt Hc E. pose proof (lv_dev _ _ _ _ (cm_live _ _ Hc)) as [_ [_ Hv] _ _].
  unfold credit, input in Hlt. rewrite E in Hlt. simpl in Hlt.
  pose proof (omap_typed (keyboard (cons (rest s)))). lia.
Qed.

(** One character, which [P], [GetChar], [PutChar] and [P] move from the
    keyboard to the display. *)
Lemma echo_one s c rest' :
  echoing s → input (rest s) = c :: rest' →
  ∃ s1 s2 s3, P s synchReadAvail = Ok s1 ∧ GetChar s1 = (c, s2) ∧
    (s2 ← PutChar s2 c; P s2 synchWriteAvail) = Ok s3 ∧ echoing s3 ∧
    input (rest s3) = rest' ∧ display (cons (rest s3)) = display (cons (rest s)) ++ [c].
Proof using All.
  intros [Hc Hcr] Hin. destruct (P_read s Hc) as (s1 & E1 & Hc1 & Hi1 & Hd1 & _ & Hcr1 & _ & _); [by rewrite Hin|].
  destruct (GetChar s1) as [ch s2] eqn:Eg.
  destruct (GetChar_spec s1 ch s2 Hc1 Eg) as (Hc2 & Hi2 & Hd2 & _ & Hcr2 & _ & _).
  assert ((ch =? EOF) = false) as Hne.
  { apply Z.eqb_neq. injection Eg as <- _. apply buffered; [rewrite Hi1; lia|done]. }
  rewrite Hne, Hi1, Hin in Hi2. injection Hi2 as <- Hi2.
  destruct (put_and_wait_spec [c] 0 c s2 Hc2 eq_refl) as (s3 & E3 & Hc3 & Hi3 & Hd3 & Hcr3 & _ & _).
  exists s1, s2, s3. split_and!; try done; try congruence.
  split; [done|]. rewrite Hi3, <- Hi2. rewrite Hin in Hcr. simpl in Hcr. lia.
Qed.

Lemma echo_spec line : ∀ n s rest',
  quit ∉ line → echoing s → input (rest s) = line ++ quit :: rest' → (length line < n)%nat →
  ∃ s', echo n s = Ok s' ∧ echoing s' ∧ input (rest s') = rest' ∧
    display (cons (rest s')) = display (cons (rest s)) ++ line ++ [quit].
Proof using All.
  induction line as [|c line IH]; intros [|n] s rest' Hq He Hin Hn; cbn [length app] in *; try lia;
    destruct (echo_one s _ _ He Hin) as (s1 & s2 & s3 & E1 & Eg & E3 & He3 & Hi3 & Hd3);
    cbn [echo]; rewrite E1; simpl_res; rewrite Eg; apply bind_ok in E3 as (s2' & Ep & E3); rewrite Ep; simpl_res;
    rewrite E3; simpl_res.
  - by exists s3.
  - destruct (Z.eqb_spec c quit) as [->|_]; [exfalso; apply Hq; by left|].
    destruct (IH n s3 rest') as (s' & -> & He' & Hi' & Hd'); [set_solver|done|done|lia|].
    exists s'. split_and!; try done. by rewrite Hd', Hd3, <- app_assoc.
Qed.

Lemma omap_length k : (length (omap char_of k) ≤ length k)%nat.
Proof using Type.
  induction k as [|p k IH]; [done|].
  change (length (match char_of p with Some x => x :: omap char_of k | None => omap char_of k end)
          ≤ S (length k))%nat.
  destruct (char_of p); cbn [length]; lia.
Qed.
End test.

(** ** The property *)

Module ConsoleTestSpec.

Section spec.
Context {L : Type} `{KeyedListLaws (PendingInterrupt Handler) L}.

(** The console test, with a regular keyboard and no other console.  Whatever
    the pauses between the characters, each is shown once and in the order in
    which it was typed, up to the first q, with which the test ends; what is
    typed behind it stays to be read.  No character is put out before the
    display is done with the previous one. *)
Theorem console_test_echoes (s : Sim L SynchConsole) in_ out line rest' :
  switched_on s → Forall (λ p, regular p = true) in_ →
  omap char_of in_ = line ++ quit :: rest' → quit ∉ line →
  ∃ s', ConsoleTest s in_ out = Ok s' ∧
    display (cons (rest s')) = out ++ line ++ [quit] ∧ input (rest s') = rest'.
Proof using All.
  intros Hon Hh Hin Hq. unfold ConsoleTest.
  destruct (Console_new_spec s in_ out Hon Hh) as (s1 & -> & Hcons & Hcalm). simpl_res.
  match goal with |- context [echo _ ?x] => set (s2 := x) end.
  assert (input (rest s2) = omap char_of in_) as Hi2 by (unfold input; simpl; by rewrite Hcons).
  assert (echoing s2) as He.
  { split; [by apply Hcalm|]. rewrite Hi2, omap_typed. unfold credit. simpl. by rewrite Hcons. }
  destruct (echo_spec line (length in_) s2 rest' Hq He) as (s' & E & _ & Hi' & Hd').
  - by rewrite Hi2.
  - pose proof (omap_length in_) as Hl. rewrite Hin, length_app in Hl. simpl in Hl. lia.
  - exists s'. split_and!; [done| |done]. rewrite Hd'. simpl. by rewrite Hcons.
Qed.
End spec.

Definition keys : list poll := [Quiet; Typed 104; Typed 105; Quiet; Quiet; Typed 113; Typed 55].

Lemma console_test_echoes_witness :
  ∃ s', ConsoleTest ConsoleSpec.sample0 keys [] = Ok s' ∧
    display (cons (rest s')) = [104; 105; 113] ∧ input (rest s') = [55].
Proof.
  apply (console_test_echoes ConsoleSpec.sample0 keys [] [104; 105] [55]).
  - split; try reflexivity. apply kl_new_spec.
  - repeat constructor.
  - reflexivity.
  - apply (bool_decide_unpack _). vm_compute. exact I.
Defined.
End ConsoleTestSpec.
End ConsoleTest.
