(* ===== verification/STable.v ===== *)
(** * Named semaphores (userprog/stable.cc, stable.h)

    The table of the semaphores that user programs create, wait for and signal
    by name.  It uses semaphores through the interface [SemOps]; the thread
    system of Thread.v is the instance [kern_sems]. *)

From S2P Require Import Prelude NList Bitmap Machine Interrupt FileHdr Directory AddrSpace Thread.

(** What the table needs of semaphores ([new Semaphore], [P], [V], [delete]). *)
Class SemOps (W : Type) := {
  sem_new : Z → W → Z * W;
  sem_P : Z → W → res W;
  sem_V : Z → W → res W;
  sem_delete : Z → W → res W;
}.

Module STable.

Definition MAX_SEMAPHORE : Z := 10.
(** [char name[50]] *)
Definition name_size : Z := 50.

(** A C string and [strcmp(a, b) == 0]. *)
Definition cstring (s : list Z) : list Z := Directory.until_nul s.
Definition streq (a b : list Z) : bool := bool_decide (cstring a = cstring b).

Record Sem := mkSem { name : list Z; sem : Z }.

Record STable (T : Type) := mkSTable { bm : T; semTab : list (option Sem) }.
Arguments mkSTable {T}.
Arguments bm {T}.
Arguments semTab {T}.

Section table.
Context {T : Type} `{FreeMap T} {W : Type} `{!SemOps W}.
Implicit Types (st : STable T) (w : W).

(** [strcpy] into a name that does not fit writes past the object. *)
Definition Sem_new (na : list Z) (i : Z) w : res (Sem * W) :=
  if Z.of_nat (length (cstring na)) <? name_size then
    let '(s, w) := sem_new i w in Ok (mkSem (cstring na) s, w)
  else Stop Undefined.

Definition wait (s : Sem) w : res W := sem_P (sem s) w.
Definition signal (s : Sem) w : res W := sem_V (sem s) w.

(** [bm0] is [new BitMap(MAX_SEMAPHORE)]. *)
Definition STable_new (bm0 : T) : STable T :=
  mkSTable bm0 (replicate (Z.to_nat MAX_SEMAPHORE) None).

(** [semTab[i]->] *)
Definition get_sem st (i : Z) : res Sem :=
  x ← arr_get (semTab st) i; match x with Some s => Ok s | None => Stop Undefined end.

(** The loops over the table: the first slot in use that has this name. *)
Fixpoint find_name st (na : list Z) (i : Z) (n : nat) : res (option Sem) :=
  match n with
  | O => Ok None
  | S n' =>
      used ← fm_test (bm st) i;
      if (used : bool) then
        s ← get_sem st i;
        if streq na (name s) then Ok (Some s) else find_name st na (i + 1) n'
      else find_name st na (i + 1) n'
  end.

Definition lookup_name st (na : list Z) : res (option Sem) :=
  find_name st na 0 (Z.to_nat MAX_SEMAPHORE).

Definition FindFreeSlot st : res (Z * STable T) :=
  '(id, m) ← fm_find (bm st); Ok (id, mkSTable m (semTab st)).

Definition Create (na : list Z) (init : Z) st w : res (Z * STable T * W) :=
  found ← lookup_name st na;
  match found with
  | Some _ => Ok (-1, st, w)
  | None =>
      '(id, st) ← FindFreeSlot st;
      if id <? 0 then Ok (-1, st, w)
      else
        '(s, w) ← Sem_new na init w;
        t ← arr_set (semTab st) id (Some s);
        Ok (0, mkSTable (bm st) t, w)
  end.

Definition Wait (na : list Z) st w : res (Z * W) :=
  found ← lookup_name st na;
  match found with Some s => w ← wait s w; Ok (0, w) | None => Ok (-1, w) end.

Definition Signal (na : list Z) st w : res (Z * W) :=
  found ← lookup_name st na;
  match found with Some s => w ← signal s w; Ok (0, w) | None => Ok (-1, w) end.

(** ** The table is a map from names to semaphores *)

Definition used_slot st (i : Z) (s : Sem) : Prop :=
  i ∈ fm_used (bm st) ∧ semTab st !! Z.to_nat i = Some (Some s).

Record wf st : Prop := mkWf {
  wf_bm : fm_wf (bm st);
  wf_size : fm_size (bm st) = MAX_SEMAPHORE;
  wf_len : length (semTab st) = Z.to_nat MAX_SEMAPHORE;
  wf_used : ∀ i, i ∈ fm_used (bm st) → ∃ s, used_slot st i s;
  wf_names : ∀ i j s s', used_slot st i s → used_slot st j s' → name s = name s' → i = j;
  wf_cstring : ∀ i s, used_slot st i s → cstring (name s) = name s;
}.

(** [m] is the map that [st] represents; as many slots are in use as it has
    names. *)
Definition maps st (m : gmap (list Z) Z) : Prop :=
  ∀ na x, m !! na = Some x ↔ ∃ i s, used_slot st i s ∧ name s = na ∧ sem s = x.
Definition represents st (m : gmap (list Z) Z) : Prop :=
  maps st m ∧ size (fm_used (bm st)) = size m.

Context `{!FreeMapLaws T}.

Lemma cstring_twice s : cstring (cstring s) = cstring s.
Proof using Type.
  unfold cstring. induction s as [|c s IH]; simpl; [done|].
  destruct (c =? 0) eqn:E; simpl; [done|]. by rewrite E, IH.
Qed.

Lemma used_size_le (b : T) : (size (fm_used b) ≤ Z.to_nat (fm_size b))%nat.
Proof using FreeMapLaws0.
  assert (fm_used b ⊆ list_to_set (seqZ 0 (fm_size b))) as Hsub.
  { intros i Hi. apply elem_of_list_to_set, elem_of_seqZ. apply fm_used_range in Hi. lia. }
  apply subseteq_size in Hsub. rewrite size_list_to_set in Hsub by apply NoDup_seqZ.
  by rewrite length_seqZ in Hsub.
Qed.

Lemma used_range st i s : wf st → used_slot st i s → 0 ≤ i < MAX_SEMAPHORE.
Proof using FreeMapLaws0. intros Hwf [Hi _]. apply fm_used_range in Hi. by rewrite wf_size in Hi. Qed.

Lemma find_name_spec st na n i :
  wf st → 0 ≤ i → i + Z.of_nat n = MAX_SEMAPHORE →
  ∃ r, find_name st na i n = Ok r ∧
    match r with
    | Some s => ∃ j, used_slot st j s ∧ name s = cstring na
    | None => ∀ j s, i ≤ j → used_slot st j s → name s ≠ cstring na
    end.
Proof using FreeMapLaws0.
  intros Hwf. revert i. induction n as [|n IH]; intros i Hi Hn; cbn [find_name].
  - exists None. split; [done|]. intros j s Hj Hu. pose proof (used_range _ _ _ Hwf Hu). lia.
  - destruct (IH (i + 1)) as (r & Er & Hr); [lia..|].
    rewrite fm_test_spec by (try apply Hwf; rewrite wf_size by done; lia). simpl_res.
    case_bool_decide as Hu; simpl.
    + destruct (wf_used _ Hwf i Hu) as [s Hs]. pose proof Hs as [_ Hl].
      unfold get_sem. rewrite (arr_get_in _ _ _ Hi Hl). simpl_res. unfold streq. rewrite (wf_cstring _ Hwf i s Hs).
      case_bool_decide as Hna; [exists (Some s); by split; [|exists i]|].
      exists r. split; [done|]. destruct r as [|]; [done|].
      intros j s' Hj Hs'. destruct (decide (j = i)) as [->|]; [|apply (Hr j); [lia|done]].
      destruct Hs' as [_ Hl']. congruence.
    + exists r. split; [done|]. destruct r as [|]; [done|].
      intros j s' Hj Hs'. apply (Hr j); [|done].
      destruct (decide (j = i)) as [->|]; [|lia]. by destruct Hs'.
Qed.

Lemma lookup_name_spec st m na :
  wf st → maps st m →
  ∃ r, lookup_name st na = Ok r ∧ sem <$> r = m !! cstring na ∧
       ∀ s, r = Some s → ∃ i, used_slot st i s.
Proof using FreeMapLaws0.
  intros Hwf Hm. destruct (find_name_spec st na (Z.to_nat MAX_SEMAPHORE) 0 Hwf) as (r & E & Hr); [done..|].
  exists r. split; [exact E|]. destruct r as [s|].
  - destruct Hr as (i & Hu & Hna). split; [|intros ? [= <-]; by exists i].
    simpl. symmetry. apply Hm. by exists i, s.
  - split; [|done]. simpl. symmetry. destruct (m !! cstring na) as [x|] eqn:Ex; [|done].
    apply Hm in Ex as (i & s & Hu & Hna & _). exfalso. apply (Hr i s); [|done..].
    pose proof (used_range _ _ _ Hwf Hu). lia.
Qed.

Lemma STable_new_spec (bm0 : T) :
  fm_wf bm0 → fm_size bm0 = MAX_SEMAPHORE → fm_used bm0 = ∅ →
  wf (STable_new bm0) ∧ represents (STable_new bm0) ∅.
Proof using FreeMapLaws0.
  intros Hw Hs Hu.
  assert (∀ i s, ¬ used_slot (STable_new bm0) i s) as Hno by (intros i s [Hi _]; simpl in Hi; set_solver).
  split.
  - split; try done; simpl; intros; first [set_solver | exfalso; by eapply Hno].
  - split; [|simpl; by rewrite Hu, map_size_empty, size_empty].
    intros na x. split; [by rewrite lookup_empty|]. intros (i & s & Hus & _). exfalso. by eapply Hno.
Qed.

(** A new semaphore in a free slot. *)
Lemma used_insert st b t id s0 i s :
  wf st → 0 ≤ id < MAX_SEMAPHORE → id ∉ fm_used (bm st) →
  fm_used b = {[id]} ∪ fm_used (bm st) → t = <[Z.to_nat id := Some s0]> (semTab st) →
  used_slot (mkSTable b t) i s ↔ (i = id ∧ s = s0) ∨ (i ≠ id ∧ used_slot st i s).
Proof using FreeMapLaws0.
  intros Hwf Hid Hnew Hb ->. unfold used_slot. simpl. rewrite Hb.
  destruct (decide (i = id)) as [->|Hne].
  - rewrite list_lookup_insert_eq by (rewrite wf_len by done; unfold MAX_SEMAPHORE in *; lia). set_solver.
  - split.
    + intros [Hi Hl]. right. split; [done|]. assert (i ∈ fm_used (bm st)) as Hi' by set_solver.
      split; [done|]. pose proof (fm_used_range _ _ Hi').
      by rewrite list_lookup_insert_ne in Hl by lia.
    + intros [[? _]|[_ [Hi Hl]]]; [done|]. pose proof (fm_used_range _ _ Hi).
      rewrite list_lookup_insert_ne by lia. set_solver.
Qed.

Lemma insert_wf st b t id s0 :
  wf st → 0 ≤ id < MAX_SEMAPHORE → id ∉ fm_used (bm st) → fm_wf b → fm_size b = fm_size (bm st) →
  fm_used b = {[id]} ∪ fm_used (bm st) → t = <[Z.to_nat id := Some s0]> (semTab st) →
  cstring (name s0) = name s0 → (∀ i s, used_slot st i s → name s ≠ name s0) →
  wf (mkSTable b t).
Proof using FreeMapLaws0.
  intros Hwf Hid Hnew Hbw Hbs Hb Ht Hc Hfresh.
  assert (∀ i s, used_slot (mkSTable b t) i s ↔ (i = id ∧ s = s0) ∨ (i ≠ id ∧ used_slot st i s)) as Hiff
    by (intros; by apply used_insert).
  split; simpl; try done.
  - rewrite Hbs. by apply wf_size.
  - rewrite Ht, length_insert. by apply wf_len.
  - intros i Hi. rewrite Hb in Hi. destruct (decide (i = id)) as [->|Hne].
    + exists s0. apply Hiff. by left.
    + destruct (wf_used _ Hwf i) as [s Hs]; [set_solver|]. exists s. apply Hiff. by right.
  - intros i j s s'. rewrite !Hiff. intros [[-> ->]|[? Hi]] [[-> ->]|[? Hj]] Hn; try done.
    + exfalso. by eapply Hfresh.
    + exfalso. by eapply Hfresh.
    + by eapply (wf_names _ Hwf).
  - intros i s. rewrite Hiff. intros [[-> ->]|[? Hi]]; [done|]. by eapply wf_cstring.
Qed.

Lemma insert_represents st b t id s0 m :
  wf st → 0 ≤ id < MAX_SEMAPHORE → id ∉ fm_used (bm st) →
  fm_used b = {[id]} ∪ fm_used (bm st) → t = <[Z.to_nat id := Some s0]> (semTab st) →
  maps st m → m !! name s0 = None →
  maps (mkSTable b t) (<[name s0 := sem s0]> m).
Proof using FreeMapLaws0.
  intros Hwf Hid Hnew Hb Ht Hm Hno na x.
  assert (∀ i s, used_slot (mkSTable b t) i s ↔ (i = id ∧ s = s0) ∨ (i ≠ id ∧ used_slot st i s)) as Hiff
    by (intros; by apply used_insert).
  rewrite lookup_insert_Some, (Hm na x). split.
  - intros [[<- <-]|[Hne (i & s & Hu & Hn & Hx)]].
    + exists id, s0. split; [apply Hiff; by left|done].
    + exists i, s. split; [|done]. apply Hiff. right. split; [|done]. intros ->. by destruct Hu.
  - intros (i & s & Hu & Hn & Hx). apply Hiff in Hu as [[-> ->]|[Hne Hu]]; [by left|].
    right. split; [|by exists i, s]. intros Heq. assert (m !! name s0 = Some x) as Hs.
    { apply Hm. exists i, s. split; [done|]. split; congruence. }
    congruence.
Qed.

(** [Create]: a name that is in use, or a full table, is refused; otherwise a new
    semaphore gets the name. *)
Lemma table_Create_spec na init st m w :
  wf st → represents st m → Z.of_nat (length (cstring na)) < name_size →
  ∃ r st' w' m', Create na init st w = Ok (r, st', w') ∧ wf st' ∧ represents st' m' ∧
    if bool_decide (is_Some (m !! cstring na)) || (MAX_SEMAPHORE <=? Z.of_nat (size m))
    then r = -1 ∧ st' = st ∧ w' = w ∧ m' = m
    else r = 0 ∧ w' = (sem_new init w).2 ∧ m' = <[cstring na := (sem_new init w).1]> m.
Proof using FreeMapLaws0.
  intros Hwf [Hm Hsz] Hna. unfold Create.
  destruct (lookup_name_spec st m na Hwf Hm) as (r & -> & Hr & _). simpl_res.
  destruct (m !! cstring na) as [x|] eqn:Ex.
  { destruct r; [|done]. exists (-1), st, w, m. by rewrite bool_decide_eq_true_2 by eauto. }
  destruct r; [done|]. rewrite bool_decide_eq_false_2 by (by intros []). simpl.
  unfold FindFreeSlot.
  destruct (fm_find_spec (bm st)) as [(id & b & E & Hbw & Hbs & Hid & Hnew & _ & Hb)|[E Hfull]];
    [apply Hwf| |]; rewrite E; simpl_res; rewrite wf_size in * by done.
  - rewrite (proj2 (Z.ltb_ge id 0)) by lia. unfold Sem_new. rewrite (proj2 (Z.ltb_lt _ _) Hna).
    destruct (sem_new init w) as [x w'] eqn:Es. simpl_res. cbn [semTab bm].
    rewrite arr_set_in by (rewrite wf_len by done; unfold MAX_SEMAPHORE in *; lia). simpl_res.
    assert (size (fm_used b) ≤ Z.to_nat MAX_SEMAPHORE)%nat as Hle.
    { rewrite <- Hbs. by apply used_size_le. }
    assert (size (fm_used b) = S (size m)) as Hsb.
    { rewrite Hb, size_union, size_singleton, Hsz by set_solver. done. }
    rewrite (proj2 (Z.leb_gt _ _)) by (unfold MAX_SEMAPHORE in *; lia).
    eexists _, _, _, _. split; [reflexivity|]. split_and!; try done.
    + eapply insert_wf; try done; [by rewrite wf_size|apply cstring_twice|].
      intros i s Hu Heq. simpl in Heq. assert (m !! cstring na = Some (sem s)) by (apply Hm; by exists i, s).
      congruence.
    + split; [by eapply (insert_represents st b _ id (mkSem (cstring na) x))|].
      simpl. by rewrite map_size_insert_None, Hsb.
  - exists (-1), st, w, m. split; [destruct st; done|]. split_and!; try done.
    apply FileHdr.full_size in Hfull; [|done].
    rewrite (proj2 (Z.leb_le _ _)) by lia. done.
Qed.

(** [Wait] and [Signal]. *)
Lemma Wait_spec na st m w :
  wf st → represents st m →
  Wait na st w = match m !! cstring na with
                 | Some x => w ← sem_P x w; Ok (0, w)
                 | None => Ok (-1, w)
                 end.
Proof using FreeMapLaws0.
  intros Hwf [Hm _]. unfold Wait. destruct (lookup_name_spec st m na Hwf Hm) as (r & -> & <- & _).
  by destruct r.
Qed.

Lemma Signal_spec na st m w :
  wf st → represents st m →
  Signal na st w = match m !! cstring na with
                   | Some x => w ← sem_V x w; Ok (0, w)
                   | None => Ok (-1, w)
                   end.
Proof using FreeMapLaws0.
  intros Hwf [Hm _]. unfold Signal. destruct (lookup_name_spec st m na Hwf Hm) as (r & -> & <- & _).
  by destruct r.
Qed.
End table.
End STable.

(** ** The semaphores of the thread system *)

Section kernel.
Context {L : Type} `{KeyedList Z L}.
Implicit Types k : Kern L.

(** A new semaphore has a new address. *)
#[export] Instance kern_sems : SemOps (Kern L) := {|
  sem_new := λ v k, let s := fresh (dom (semaphores k)) in (s, put_semaphore k s (Semaphore_new v));
  sem_P := λ s k, P k s;
  sem_V := λ s k, V k s;
  sem_delete := λ s k,
    _ ← get_semaphore k s; Ok (with_semaphores k (delete s (semaphores k)));
|}.

(** P and V create and delete no semaphore. *)
Definition same_sems k k' : Prop := dom (semaphores k') = dom (semaphores k).

Lemma put_same_sems k s x : is_Some (semaphores k !! s) → same_sems k (put_semaphore k s x).
Proof using Type.
  intros Hs. unfold same_sems. simpl. rewrite dom_insert_L. apply elem_of_dom in Hs. set_solver.
Qed.

Lemma Run_return_sems k k' : Run_return k = Ok k' → semaphores k' = semaphores k.
Proof using Type.
  unfold Run_return, destroy_carcass, Thread_delete. intros E.
  apply bind_ok in E as (k1 & E1 & E).
  assert (semaphores k1 = semaphores k) as <-.
  { destruct (threadToBeDestroyed k); [|by injection E1 as <-].
    apply bind_ok in E1 as (k2 & E2 & [= <-]). apply bind_ok in E2 as ([] & _ & E2).
    by apply bind_ok in E2 as (? & _ & [= <-]). }
  apply bind_ok in E as (th & _ & E). destruct (space th); [|by injection E as <-].
  by apply bind_ok in E as (? & _ & [= <-]).
Qed.

Lemma run_next_sems (go : Kern L → res (Kern L)) k k' :
  (∀ k k', go k = Ok k' → same_sems k k') → run_next go k = Ok k' → same_sems k k'.
Proof using Type.
  intros Hgo E. unfold run_next, FindNextToRun in E. apply bind_ok in E as ([t k1] & E1 & E).
  apply bind_ok in E1 as ([t' l] & _ & [= <- <-]).
  destruct t' as [t'|]; [|by injection E as <-]. apply bind_ok in E as (k2 & E2 & E).
  apply Hgo in E. unfold same_sems in *. rewrite E. unfold Run_switch in E2.
  apply bind_ok in E2 as (? & _ & E2). apply bind_ok in E2 as (? & _ & E2).
  apply bind_ok in E2 as ([] & _ & E2). by apply bind_ok in E2 as (? & _ & [= <-]).
Qed.

Lemma wait_on_sems (go : Kern L → res (Kern L)) k s l k' :
  (∀ k k', go k = Ok k' → same_sems k k') → wait_on go k s l = Ok k' → same_sems k k'.
Proof using Type.
  intros Hgo E. unfold wait_on, get_semaphore in E.
  destruct (semaphores k !! s) as [x|] eqn:Ex; [|done]. simpl_res.
  destruct (value x =? 0).
  - apply bind_ok in E as (q & _ & E). apply bind_ok in E as (k1 & E1 & E).
    apply run_next_sems in E; [|done]. unfold same_sems in *. rewrite E. unfold block in E1.
    apply bind_ok in E1 as ([] & _ & E1). apply bind_ok in E1 as (? & _ & [= <-]).
    apply (put_same_sems k s). by rewrite Ex.
  - injection E as <-. apply (put_same_sems k s). by rewrite Ex.
Qed.

Lemma arrive_sems n k k' : arrive n k = Ok k' → same_sems k k'.
Proof using Type.
  revert k k'. induction n as [|n IH]; intros k k' E; [done|]. simpl in E.
  apply bind_ok in E as (th & _ & E). destruct (resumes th).
  - by injection E as <-.
  - apply bind_ok in E as (k1 & E1 & [= <-]). unfold same_sems. simpl. by rewrite (Run_return_sems _ _ E1).
  - apply bind_ok in E as (k1 & E1 & E). apply wait_on_sems in E; [|done].
    unfold same_sems in *. by rewrite E, (Run_return_sems _ _ E1).
  - done.
Qed.

Lemma P_sems k s k' : P k s = Ok k' → same_sems k k'.
Proof using Type. apply (wait_on_sems _ (with_level k IntOff)). intros. by eapply arrive_sems. Qed.

Lemma V_sems k s k' : V k s = Ok k' → same_sems k k'.
Proof using Type.
  unfold V, get_semaphore. simpl. intros E. apply bind_ok in E as (x & Ex & E).
  destruct (semaphores k !! s) as [y|] eqn:Ey; [|done].
  apply bind_ok in E as ([t q] & _ & E). apply bind_ok in E as (k1 & E1 & E).
  apply bind_ok in E as (x1 & Ex1 & [= <-]).
  assert (semaphores k1 = <[s := mkSemaphore (value x) q]> (semaphores k)) as Hk1.
  { destruct t as [t|]; [|by injection E1 as <-]. unfold ReadyToRun in E1.
    apply bind_ok in E1 as (? & _ & E1). by apply bind_ok in E1 as (? & _ & [= <-]). }
  unfold same_sems. simpl. rewrite Hk1, !dom_insert_L.
  assert (s ∈ dom (semaphores k)) by (apply elem_of_dom; by rewrite Ey). set_solver.
Qed.
End kernel.

(** ** The properties *)

Module STableSpec.
Import STable.

(** The calls of user programs. *)
Inductive call := CreateSemaphore (na : list Z) (init : Z) | Down (na : list Z) | Up (na : list Z).

Definition perform {T W} `{FreeMap T} `{!SemOps W} (c : call) (st : STable T) (w : W)
    : res (Z * STable T * W) :=
  match c with
  | CreateSemaphore na init => Create na init st w
  | Down na => '(r, w) ← Wait na st w; Ok (r, st, w)
  | Up na => '(r, w) ← Signal na st w; Ok (r, st, w)
  end.

(** The specification: a finite map of at most ten names. *)
Definition perform_map {W} `{!SemOps W} (c : call) (m : gmap (list Z) Z) (w : W)
    : res (Z * gmap (list Z) Z * W) :=
  match c with
  | CreateSemaphore na init =>
      if bool_decide (is_Some (m !! cstring na)) || (MAX_SEMAPHORE <=? Z.of_nat (size m))
      then Ok (-1, m, w)
      else let '(x, w) := sem_new init w in Ok (0, <[cstring na := x]> m, w)
  | Down na => match m !! cstring na with
               | Some x => w ← sem_P x w; Ok (0, m, w) | None => Ok (-1, m, w) end
  | Up na => match m !! cstring na with
             | Some x => w ← sem_V x w; Ok (0, m, w) | None => Ok (-1, m, w) end
  end.

(** Names fit into [Sem::name]. *)
Definition short (c : call) : Prop :=
  match c with CreateSemaphore na _ => Z.of_nat (length (cstring na)) < name_size | _ => True end.

Section refinement.
Context {T : Type} `{FreeMapLaws T} {W : Type} `{!SemOps W}.

Lemma perform_refines c (st : STable T) m (w : W) :
  wf st → represents st m → short c →
  match perform_map c m w with
  | Ok (r, m', w') => ∃ st', perform c st w = Ok (r, st', w') ∧ wf st' ∧ represents st' m'
  | Stop e => perform c st w = Stop e
  end.
Proof using All.
  intros Hwf Hm Hc. destruct c as [na init|na|na]; simpl.
  - destruct (table_Create_spec na init st m w Hwf Hm Hc) as (r & st' & w' & m' & -> & Hwf' & Hm' & Hr).
    destruct (_ || _).
    + destruct Hr as (-> & -> & -> & ->). by exists st.
    + destruct Hr as (-> & -> & ->). destruct (sem_new init w) as [x w1]. by exists st'.
  - rewrite (Wait_spec na st m w Hwf Hm). destruct (m !! cstring na); [|by exists st].
    destruct (sem_P _ w); simpl; [by exists st|done].
  - rewrite (Signal_spec na st m w Hwf Hm). destruct (m !! cstring na); [|by exists st].
    destruct (sem_V _ w); simpl; [by exists st|done].
Qed.

Fixpoint perform_all (cs : list call) (st : STable T) (w : W) : res (list Z * STable T * W) :=
  match cs with
  | [] => Ok ([], st, w)
  | c :: cs =>
      '(r, st, w) ← perform c st w; '(rs, st, w) ← perform_all cs st w; Ok (r :: rs, st, w)
  end.
Fixpoint perform_map_all (cs : list call) (m : gmap (list Z) Z) (w : W)
    : res (list Z * gmap (list Z) Z * W) :=
  match cs with
  | [] => Ok ([], m, w)
  | c :: cs =>
      '(r, m, w) ← perform_map c m w; '(rs, m, w) ← perform_map_all cs m w; Ok (r :: rs, m, w)
  end.

(** The semaphore table.  Starting from the empty table, every sequence of
    Create, Wait and Signal gives the same results and does the same to the
    semaphores as a finite map from names to semaphores that holds at most ten
    names: Create refuses a name in use and a full table with -1, Wait and
    Signal act on the semaphore of that name and return -1 when there is
    none. *)
Theorem semaphore_table_is_map cs (bm0 : T) (w : W) :
  fm_wf bm0 → fm_size bm0 = MAX_SEMAPHORE → fm_used bm0 = ∅ → Forall short cs →
  match perform_map_all cs ∅ w with
  | Ok (rs, m', w') =>
      ∃ st', perform_all cs (STable_new bm0) w = Ok (rs, st', w') ∧ wf st' ∧ represents st' m'
  | Stop e => perform_all cs (STable_new bm0) w = Stop e
  end.
Proof using All.
  intros Hb Hs Hu Hcs. destruct (STable_new_spec bm0 Hb Hs Hu) as [Hwf Hm].
  generalize (STable_new bm0), (∅ : gmap (list Z) Z), Hwf, Hm. clear Hwf Hm.
  revert w. induction Hcs as [|c cs Hc _ IH]; intros w st m Hwf Hm; simpl; [by exists st|].
  pose proof (perform_refines c st m w Hwf Hm Hc) as Hr.
  destruct (perform_map c m w) as [[[r m1] w1]|e]; simpl; [|by rewrite Hr].
  destruct Hr as (st1 & -> & Hwf1 & Hm1). simpl. specialize (IH w1 st1 m1 Hwf1 Hm1).
  destruct (perform_map_all cs m1 w1) as [[[rs m'] w']|e]; simpl; [|by rewrite IH].
  destruct IH as (st' & -> & ? & ?). by exists st'.
Qed.
End refinement.

Section served.
Context {T : Type} `{FreeMapLaws T} {L : Type} `{KeyedListLaws Z L}.

(** Every name stands for a live semaphore. *)
Definition backed (m : gmap (list Z) Z) (k : Kern L) : Prop :=
  ∀ na x, m !! na = Some x → is_Some (semaphores k !! x).

Lemma backed_same m k k' : backed m k → same_sems k k' → backed m k'.
Proof using Type. intros Hb Hs na x Hx. apply elem_of_dom. rewrite Hs. apply elem_of_dom. by eapply Hb. Qed.

(** C29. Named semaphores on the thread system.  Whatever the running thread
    asks of the table, with names of fewer than 50 characters and initial values
    that are not negative, the call is served: no dangling semaphore is used, no
    ASSERT fails, the thread system's invariant holds again, and every name of
    the table still stands for a live semaphore.  Create returns 0 exactly when
    the name is new and one of the ten slots is free, and the name then stands for
    a new semaphore with the initial value; otherwise it returns -1 and changes
    nothing.  Down is the P of the semaphore of that name (the thread may sleep in
    it), Up its V, and -1 says that there is none.  (A longer name overruns its
    array, [long_name_overruns]; a negative semaphore does not block,
    [negative_semaphore_passes].) *)
Theorem named_semaphores_served c (st : STable T) m (k : Kern L) :
  ok k → idle k = false → wf st → represents st m → backed m k → short c →
  (match c with CreateSemaphore _ init => 0 ≤ init | _ => True end) →
  ∃ r st' k' m', perform c st k = Ok (r, st', k') ∧ ok k' ∧ wf st' ∧ represents st' m' ∧ backed m' k' ∧
    match c with
    | CreateSemaphore na init =>
        if bool_decide (m !! cstring na = None ∧ Z.of_nat (size m) < MAX_SEMAPHORE)
        then r = 0 ∧ ∃ x, semaphores k !! x = None ∧ semaphores k' = <[x := Semaphore_new init]> (semaphores k) ∧
                          m' = <[cstring na := x]> m
        else r = -1 ∧ k' = k ∧ m' = m
    | Down na => m' = m ∧
        match m !! cstring na with
        | Some x => r = 0 ∧ serve (RP x) k = Ok k' | None => r = -1 ∧ k' = k end
    | Up na => m' = m ∧
        match m !! cstring na with
        | Some x => r = 0 ∧ serve (RV x) k = Ok k' | None => r = -1 ∧ k' = k end
    end.
Proof using All.
  intros Hok Hidle Hwf Hm Hb Hc Hv. pose proof (perform_refines c st m k Hwf Hm Hc) as Hr.
  destruct c as [na init|na|na]; simpl in *.
  - assert (bool_decide (m !! cstring na = None ∧ Z.of_nat (size m) < MAX_SEMAPHORE)
      = negb (bool_decide (is_Some (m !! cstring na)) || (MAX_SEMAPHORE <=? Z.of_nat (size m)))) as ->.
    { destruct (m !! cstring na) as [y|]; [by rewrite bool_decide_eq_false_2 by (by intros [])|].
      simpl. destruct (Z.leb_spec MAX_SEMAPHORE (Z.of_nat (size m)));
        [apply bool_decide_eq_false_2; intros []; lia|by apply bool_decide_eq_true_2]. }
    destruct (_ || _) in Hr |- *; simpl;
      [destruct Hr as (st' & E & ? & ?); exists (-1), st', k, m; by split_and!|].
    destruct Hr as (st' & E & ? & ?).
    set (x := fresh (dom (semaphores k))) in *.
    assert (semaphores k !! x = None) as Hx by (apply not_elem_of_dom, is_fresh).
    destruct (serve_Semaphore x init k Hok Hidle Hx Hv) as (k' & [= <-] & Hok' & _).
    eexists 0, st', _, _. split; [exact E|]. split_and!; try done; [|by exists x].
    intros na' y Hy. simpl. destruct (decide (y = x)) as [->|Hne]; [by rewrite lookup_insert_eq|].
    rewrite lookup_insert_ne by done. apply lookup_insert_Some in Hy as [[_ ->]|[_ Hy]]; [done|].
    by eapply Hb.
  - destruct (m !! cstring na) as [x|] eqn:Ex;
      [|destruct Hr as (st' & E & ? & ?); by exists (-1), st', k, m].
    destruct (serve_P x k Hok Hidle (Hb _ _ Ex)) as (k' & E & Hok' & _). simpl in E. rewrite E in Hr.
    destruct Hr as (st' & E' & ? & ?). exists 0, st', k', m. split_and!; try done.
    eapply backed_same; [exact Hb|by eapply P_sems].
  - destruct (m !! cstring na) as [x|] eqn:Ex;
      [|destruct Hr as (st' & E & ? & ?); by exists (-1), st', k, m].
    destruct (serve_V x k Hok (Hb _ _ Ex)) as (k' & E & Hok' & _). simpl in E. rewrite E in Hr.
    destruct Hr as (st' & E' & ? & ?). exists 0, st', k', m. split_and!; try done.
    eapply backed_same; [exact Hb|by eapply V_sems].
Qed.
End served.

(** The kernel after start-up creates and uses a semaphore named [ab]. *)
Definition ab : list Z := [97; 98; 0].
Definition bits : BitMap.BitMap := BitMap.mkBitMap MAX_SEMAPHORE 1 [0].
Definition calls : list call := [CreateSemaphore ab 1; CreateSemaphore ab 5; Down ab; Up [99]].

Lemma bits_empty : fm_wf bits ∧ fm_size bits = MAX_SEMAPHORE ∧ fm_used bits = ∅.
Proof.
  split; [|split; [done|vm_compute; reflexivity]].
  split; try done. simpl. repeat constructor; unfold two32; lia.
Qed.

Lemma semaphore_table_is_map_witness :
  ∃ st' k', perform_all calls (STable_new bits) ThreadSpec.boot = Ok ([0; -1; 0; -1], st', k').
Proof.
  destruct bits_empty as (Hb & Hs & Hu).
  pose proof (semaphore_table_is_map calls bits ThreadSpec.boot Hb Hs Hu ltac:(by repeat constructor)) as Hr.
  destruct (perform_map_all calls ∅ ThreadSpec.boot) as [[[rs m'] k']|e] eqn:E.
  - destruct Hr as (st' & Hr & _). exists st', k'. rewrite Hr.
    assert (rs = [0; -1; 0; -1]) as ->; [|done].
    assert (fst <$> (fst <$> match perform_map_all calls ∅ ThreadSpec.boot with Ok x => Some x | Stop _ => None end)
            = Some [0; -1; 0; -1]) as Ers by (vm_compute; reflexivity).
    rewrite E in Ers. by injection Ers.
  - exfalso. assert (match perform_map_all calls ∅ ThreadSpec.boot with Ok _ => true | Stop _ => false end = true)
      as Eok by (vm_compute; reflexivity).
    by rewrite E in Eok.
Defined.

Lemma named_semaphores_served_witness :
  ∃ r st' k' (m' : gmap (list Z) Z),
    perform (CreateSemaphore ab 1) (STable_new bits) ThreadSpec.boot = Ok (r, st', k') ∧ ok k' ∧ backed m' k'.
Proof.
  destruct bits_empty as (Hb & Hs & Hu). destruct (STable_new_spec bits Hb Hs Hu) as [Hwf Hm].
  destruct (named_semaphores_served (CreateSemaphore ab 1) (STable_new bits) ∅ ThreadSpec.boot ThreadSpec.boot_ok eq_refl
    Hwf Hm) as (r & st' & k' & m' & E & Hok & _ & _ & Hbk & _); [by intros ? ?|done|done|].
  by exists r, st', k', m'.
Defined.

(** A semaphore that is created with a negative value does not block: P only
    waits while the value is 0. *)
Lemma negative_semaphore_passes {L} `{KeyedList Z L} (k : Kern L) s v :
  v < 0 → ∃ k', P (put_semaphore k s (Semaphore_new v)) s = Ok k' ∧
                semaphores k' !! s = Some (Semaphore_new (v - 1)).
Proof.
  intros Hv. unfold P, wait_on, get_semaphore. simpl. rewrite lookup_insert_eq. simpl_res. simpl.
  rewrite (proj2 (Z.eqb_neq v 0)) by lia. eexists. split; [reflexivity|]. simpl. by rewrite lookup_insert_eq.
Qed.

(** A name of 50 or more characters overruns [Sem::name]. *)
Lemma long_name_overruns {W} `{!SemOps W} (w : W) :
  perform (CreateSemaphore (replicate 50 97) 1) (STable_new bits) w = Stop Undefined.
Proof. vm_compute. reflexivity. Qed.
End STableSpec.
