(* ===== verification/Process.v ===== *)
(** * Processes (userprog/pcb.cc, ptable.cc, progtest.cc)

    The process table and the protocol of Exec, Join and Exit.  A process is a
    thread that runs a user program; a call that can wait ([joinsem->P()],
    [exitsem->P()]) ends one step of the process, and what the routine does
    behind the P is a step of its own, which can be taken when the semaphore is
    positive.  That P and V of the thread system let exactly such a step happen
    is shown in Thread.v.  The mutual-exclusion semaphores ([bmsem], [mutex],
    [addrLock]) are taken and released inside one step, so finding one of them
    taken is an error ([WouldBlock]) that does not occur. *)

From S2P Require Import Prelude Bitmap Machine FileHdr UnixFS AddrSpace STable.

Module Process.

Definition MAXPROCESS : Z := 10.

(** Where a process is: in user code, waiting in [JoinWait] of the process
    [c], or waiting in [ExitWait]. *)
Inductive point := InUser | InJoin (c : Z) | InExit.
#[export] Instance point_eq_dec : EqDecision point.
Proof. solve_decision. Defined.

(** Semaphores are their values.  [thread] is the process number of the
    thread. *)
Record PCB := mkPCB {
  joinsem : Z;
  exitsem : Z;
  mutex : Z;
  exitcode : Z;
  thread : option Z;
  pid : Z;
  numwait : Z;
  parentID : Z;
  JoinStatus : Z;
}.

(** An entry of [pcb]: NULL, a PCB, or a pointer to a deleted PCB. *)
Inductive slot := Null | At (p : PCB) | Freed.

Record PTable (T : Type) := mkPTable { bm : T; pcb : list slot; psize : Z; bmsem : Z }.
Arguments mkPTable {T}.
Arguments bm {T}.
Arguments pcb {T}.
Arguments psize {T}.
Arguments bmsem {T}.

(** The part of a thread that processes use: its name and address space. *)
Record proc := mkProc { at_point : point; tname : list Z; space : option AddrSpace }.

Record World (T : Type) := mkWorld {
  pTab : PTable T;
  procs : gmap Z proc;             (* the live threads by process number *)
  gPhysPageBitMap : T;
  addrLock : Z;
  machine : Machine;
}.
Arguments mkWorld {T}.
Arguments pTab {T}.
Arguments procs {T}.
Arguments gPhysPageBitMap {T}.
Arguments addrLock {T}.
Arguments machine {T}.

Section operations.
Context {T : Type} `{FreeMap T}.
Implicit Types (t : PTable T) (w : World T).

Definition with_bm t (b : T) : PTable T := mkPTable b (pcb t) (psize t) (bmsem t).
Definition with_pcb t (l : list slot) : PTable T := mkPTable (bm t) l (psize t) (bmsem t).
Definition with_bmsem t (v : Z) : PTable T := mkPTable (bm t) (pcb t) (psize t) v.
Definition with_table w t : World T :=
  mkWorld t (procs w) (gPhysPageBitMap w) (addrLock w) (machine w).
Definition with_procs w (ps : gmap Z proc) : World T :=
  mkWorld (pTab w) ps (gPhysPageBitMap w) (addrLock w) (machine w).
Definition with_pages w (b : T) : World T :=
  mkWorld (pTab w) (procs w) b (addrLock w) (machine w).

(** [pcb[i]->] *)
Definition get_pcb t (i : Z) : res PCB :=
  x ← arr_get (pcb t) i; match x with At p => Ok p | _ => Stop Undefined end.
Definition put_slot t (i : Z) (x : slot) : res (PTable T) :=
  l ← arr_set (pcb t) i x; Ok (with_pcb t l).
Definition put_pcb t (i : Z) (p : PCB) : res (PTable T) := put_slot t i (At p).

Definition get_proc w (me : Z) : res proc :=
  match procs w !! me with Some x => Ok x | None => Stop Undefined end.
Definition set_point w (me : Z) (pt : point) : res (World T) :=
  x ← get_proc w me; Ok (with_procs w (<[me := mkProc pt (tname x) (space x)]> (procs w))).

(** ** PCB *)

Definition PCB_new (current id : Z) : PCB :=
  mkPCB 0 0 1 0 None id 0 (if id =? 0 then 0 else current) (-1).

Definition SetExitCode (p : PCB) (ec : Z) : PCB :=
  mkPCB (joinsem p) (exitsem p) (mutex p) ec (thread p) (pid p) (numwait p) (parentID p) (JoinStatus p).
Definition with_numwait (p : PCB) (n : Z) : PCB :=
  mkPCB (joinsem p) (exitsem p) (mutex p) (exitcode p) (thread p) (pid p) n (parentID p) (JoinStatus p).
Definition IncNumWait (p : PCB) : PCB := with_numwait p (numwait p + 1).
Definition DecNumWait (p : PCB) : PCB :=
  if numwait p =? 0 then p else with_numwait p (numwait p - 1).
Definition with_joinsem (p : PCB) (v : Z) : PCB :=
  mkPCB v (exitsem p) (mutex p) (exitcode p) (thread p) (pid p) (numwait p) (parentID p) (JoinStatus p).
Definition with_exitsem (p : PCB) (v : Z) : PCB :=
  mkPCB (joinsem p) v (mutex p) (exitcode p) (thread p) (pid p) (numwait p) (parentID p) (JoinStatus p).
Definition with_parent (p : PCB) (id : Z) : PCB :=
  mkPCB (joinsem p) (exitsem p) (mutex p) (exitcode p) (thread p) (pid p) (numwait p) id (JoinStatus p).

(** [JoinWait] up to its P. *)
Definition JoinWait (p : PCB) : PCB :=
  IncNumWait (mkPCB (joinsem p) (exitsem p) (mutex p) (exitcode p) (thread p) (pid p) (numwait p)
                (parentID p) (parentID p)).
Definition JoinRelease (p : PCB) : PCB := let p := DecNumWait p in with_joinsem p (V (joinsem p)).
Definition ExitRelease (p : PCB) : PCB := with_exitsem p (V (exitsem p)).

(** [PCB::Exec]: the thread is forked; it starts in [MyStartProcess].  The
    object behind [pcb[i]] changes, and a live thread is added. *)
Definition PCB_Exec (p : PCB) (filename : list Z) (pID current : Z) w : res (Z * PCB * World T) :=
  m ← P (mutex p);
  let p := mkPCB (joinsem p) (exitsem p) m (exitcode p) (Some pID) (pid p) (numwait p) current
             (JoinStatus p) in
  let w := with_procs w (<[pID := mkProc InUser filename None]> (procs w)) in
  let p := mkPCB (joinsem p) (exitsem p) (V (mutex p)) (exitcode p) (thread p) (pid p) (numwait p)
             (parentID p) (JoinStatus p) in
  Ok (pID, p, w).

(** [thread->FreeSpace()] *)
Definition FreeSpace w (me : Z) : res (World T) :=
  x ← get_proc w me;
  match space x with
  | None => Ok w
  | Some sp => b ← AddrSpace_delete sp (gPhysPageBitMap w); Ok (with_pages w b)
  end.

(** [thread->Finish()], which must be called by the thread itself and never
    returns: the thread is gone. *)
Definition Finish w (current me : Z) : res (World T) :=
  ASSERT (me =? current);; Ok (with_procs w (delete me (procs w))).

(** The destructor; it does not return when the PCB has a thread. *)
Definition PCB_delete (p : PCB) (current : Z) w : res (World T) :=
  match thread p with
  | None => Ok w
  | Some th => w ← FreeSpace w th; Finish w current th
  end.

(** ** PTable *)

(** [bm0] is [new BitMap(size)]; the array has [MAXPROCESS] entries. *)
Definition PTable_new (bm0 : T) (size : Z) : res (PTable T) :=
  b ← fm_mark bm0 0;
  put_pcb (mkPTable b (replicate (Z.to_nat MAXPROCESS) Null) size 1) 0
    (with_parent (PCB_new 0 0) (-1)).

Definition GetFreeSlot t : res (Z * PTable T) := '(r, b) ← fm_find (bm t); Ok (r, with_bm t b).

Definition IsExist t (pID : Z) : res bool :=
  if (pID <? 0) || (pID >? 9) then Ok false else fm_test (bm t) pID.

(** A process number without a process: no value is returned. *)
Definition GetName w (pID : Z) : res (list Z) :=
  if (pID >=? 0) && (pID <? psize (pTab w)) then
    used ← fm_test (bm (pTab w)) pID;
    if (used : bool) then
      p ← get_pcb (pTab w) pID;
      match thread p with
      | Some th => x ← get_proc w th; Ok (tname x)
      | None => Stop Undefined
      end
    else Stop Undefined
  else Stop Undefined.

(** [garbage_type]: see StubFS.Open.  Every early return releases [bmsem]. *)
Definition ExecUpdate (garbage_type : Z) (fs : StubFS.FileSystem) (filename : option (list Z))
    (current : Z) w : res (Z * World T) :=
  let t := pTab w in
  s ← P (bmsem t);
  let t := with_bmsem t s in
  let fail t := Ok (-1, with_table w (with_bmsem t (V (bmsem t)))) in
  match filename with
  | None => fail t
  | Some filename =>
      x ← get_proc w current;
      if STable.streq filename (tname x) then fail t
      else
        executable ← StubFS.Open garbage_type fs filename;
        match executable with
        | None => fail t
        | Some _ =>
            '(ID, t) ← GetFreeSlot t;
            if ID <? 0 then fail t
            else
              b ← fm_mark (bm t) ID;
              let p := with_parent (PCB_new current ID) current in
              '(pID, p, w) ← PCB_Exec p filename ID current (with_table w (with_bm t b));
              t ← put_pcb (pTab w) ID p;
              Ok (pID, with_table w (with_bmsem t (V (bmsem t))))
        end
  end.

(** [PTable::Remove], called by [current]. *)
Definition Remove (pID current : Z) w : res (World T) :=
  let t := pTab w in
  if (pID <? 0) || (pID >? 9) then Ok w
  else
    used ← fm_test (bm t) pID;
    if (used : bool) then
      b ← fm_clear (bm t) pID;
      p ← get_pcb t pID;
      t ← put_slot (with_bm t b) pID Freed;
      PCB_delete p current (with_table w t)
    else Ok w.

(** [ExitUpdate] up to [ExitWait]; [Some r]: it returns. *)
Definition ExitUpdate (ec current : Z) w : res (option Z * World T) :=
  let pID := current in
  if pID =? 0 then Stop Halted
  else
    exists_ ← IsExist (pTab w) pID;
    if negb (exists_ : bool) then Ok (Some (-1), w)
    else
      p ← get_pcb (pTab w) pID;
      t ← put_pcb (pTab w) pID (SetExitCode p ec);
      p ← get_pcb t pID;
      q ← get_pcb t (parentID p);
      t ← put_pcb t (parentID p) (DecNumWait q);
      p ← get_pcb t pID;
      if negb (JoinStatus p =? -1) then
        t ← put_pcb t pID (JoinRelease p);
        w ← set_point (with_table w t) current InExit;
        Ok (None, w)
      else w ← Remove pID current (with_table w t); Ok (None, w).

(** The rest of [ExitUpdate], behind the P of [ExitWait]. *)
Definition ExitUpdate_return (current : Z) w : res (World T) :=
  p ← get_pcb (pTab w) current;
  v ← P (exitsem p);
  t ← put_pcb (pTab w) current (with_exitsem p v);
  Remove current current (with_table w t).

(** [JoinUpdate] up to the P of [JoinWait]; [Some r]: it returns. *)
Definition JoinUpdate (pID current : Z) w : res (option Z * World T) :=
  let t := pTab w in
  if (pID <? 0) || (pID >=? psize t) then Ok (Some (-1), w)
  else
    x ← arr_get (pcb t) pID;
    match x with
    | Null => Ok (Some (-1), w)
    | _ =>
        p ← get_pcb t pID;
        if negb (current =? parentID p) then Ok (Some (-1), w)
        else
          t ← put_pcb t pID (JoinWait p);
          w ← set_point (with_table w t) current (InJoin pID);
          Ok (None, w)
    end.

(** The rest of [JoinUpdate], behind that P. *)
Definition JoinUpdate_return (pID current : Z) w : res (Z * World T) :=
  p ← get_pcb (pTab w) pID;
  v ← P (joinsem p);
  t ← put_pcb (pTab w) pID (with_joinsem p v);
  w ← set_point (with_table w t) current InUser;
  p ← get_pcb (pTab w) pID;
  let ec := exitcode p in
  if negb (ec =? 0) then Ok (-1, w)
  else t ← put_pcb (pTab w) pID (ExitRelease p); Ok (ec, with_table w t).

(** ** System calls and the start of a process *)

(** [handle_SC_Exit]: a status other than 0 is ignored. *)
Definition handle_SC_Exit (exitStatus current : Z) w : res (World T) :=
  if negb (exitStatus =? 0) then Ok w
  else
    '(r, w) ← ExitUpdate exitStatus current w;
    match r with
    | None => Ok w
    | Some _ => w ← FreeSpace w current; Finish w current current
    end.

(** [StartProcess]; [garbage] and [garbage_hdr] as in AddrSpace.v.  The machine
    then runs the program. *)
Definition StartProcess (garbage : AddrSpace) (garbage_hdr : list Z) (garbage_type : Z)
    (fs : StubFS.FileSystem) (filename : list Z) (current : Z) w : res (World T) :=
  let m := machine w in
  '(sp, ld) ← AddrSpace_new_name garbage garbage_hdr garbage_type fs filename
                (mkLoader (gPhysPageBitMap w) (mainMemory m) (addrLock w));
  x ← get_proc w current;
  let ps := <[current := mkProc (at_point x) (tname x) (Some sp)]> (procs w) in
  m ← InitRegisters sp (with_memory m (AddrSpace.memory ld));
  Ok (mkWorld (pTab w) ps (AddrSpace.gPhysPageBitMap ld) (AddrSpace.addrLock ld) (RestoreState sp m)).

Definition MyStartProcess (garbage : AddrSpace) (garbage_hdr : list Z) (garbage_type : Z)
    (fs : StubFS.FileSystem) (pID : Z) w : res (World T) :=
  filename ← GetName w pID;
  StartProcess garbage garbage_hdr garbage_type fs filename pID w.
End operations.

(** ** The invariant *)

Section invariant.
Context {T : Type} `{FreeMap T}.
Implicit Types (t : PTable T) (w : World T).

Definition live_pcb (x : option slot) : option PCB :=
  match x with Some (At p) => Some p | _ => None end.
Definition lookup_pcb t (i : Z) : option PCB :=
  if bool_decide (0 ≤ i) then live_pcb (pcb t !! Z.to_nat i) else None.
Definition point_at w (i : Z) : option point := at_point <$> procs w !! i.

(** The protocol of one process [i] with its parent: not joined; joined, the
    parent waits (and the child has released it when it is in ExitWait
    already); the parent has returned and has released the child. *)
Inductive phase w (i : Z) (p : PCB) : Prop :=
  | not_joined :
      JoinStatus p = -1 → joinsem p = 0 → exitsem p = 0 →
      point_at w i ≠ Some InExit → point_at w (parentID p) ≠ Some (InJoin i) → phase w i p
  | joined :
      JoinStatus p ≠ -1 → exitsem p = 0 → point_at w (parentID p) = Some (InJoin i) →
      joinsem p = (if decide (point_at w i = Some InExit) then 1 else 0) → phase w i p
  | released :
      JoinStatus p ≠ -1 → joinsem p = 0 → exitsem p = 1 →
      point_at w (parentID p) ≠ Some (InJoin i) → point_at w i = Some InExit → phase w i p.

Record pcb_ok w (i : Z) (p : PCB) : Prop := mkPcbOk {
  po_thread : thread p = Some i;
  po_code : exitcode p = 0;
  po_parent : is_Some (lookup_pcb (pTab w) (parentID p));
  po_self : parentID p ≠ i;
  po_phase : phase w i p;
}.

Definition space_ok (size : Z) (sp : AddrSpace) : Prop :=
  numPages sp = Z.of_nat (length (pageTable sp)) ∧ Forall (λ r, 0 ≤ r < size) (frames sp).

Record inv w : Prop := mkInv {
  i_wf : fm_wf (bm (pTab w));
  i_size : fm_size (bm (pTab w)) = MAXPROCESS;
  i_psize : psize (pTab w) = MAXPROCESS;
  i_len : length (pcb (pTab w)) = Z.to_nat MAXPROCESS;
  i_bmsem : bmsem (pTab w) = 1;
  i_lock : addrLock w = 1;
  i_main : ∃ p, lookup_pcb (pTab w) 0 = Some p ∧ parentID p = -1;
  i_used : ∀ i, i ∈ fm_used (bm (pTab w)) ↔ is_Some (lookup_pcb (pTab w) i);
  i_procs : ∀ i, is_Some (procs w !! i) ↔ is_Some (lookup_pcb (pTab w) i);
  i_pcb : ∀ i p, i ≠ 0 → lookup_pcb (pTab w) i = Some p → pcb_ok w i p;
  i_join : ∀ i c, point_at w i = Some (InJoin c) →
    ∃ p, c ≠ 0 ∧ lookup_pcb (pTab w) c = Some p ∧ parentID p = i;
  i_exit : ∀ i, point_at w i = Some InExit →
    i ≠ 0 ∧ ∀ c p, lookup_pcb (pTab w) c = Some p → parentID p ≠ i;
  i_pages : fm_wf (gPhysPageBitMap w);
  i_space : ∀ i x sp, procs w !! i = Some x → space x = Some sp →
    space_ok (fm_size (gPhysPageBitMap w)) sp;
  i_regs : length (registers (machine w)) = Z.to_nat NumTotalRegs;
}.

Lemma get_pcb_spec t i p : lookup_pcb t i = Some p → get_pcb t i = Ok p.
Proof using Type.
  unfold lookup_pcb, get_pcb. case_bool_decide as Hi; [|done]. intros Hl.
  destruct (pcb t !! Z.to_nat i) as [[| |]|] eqn:E; simplify_eq/=.
  by rewrite (arr_get_in _ _ _ Hi E).
Qed.

Lemma lookup_pcb_range t i p :
  lookup_pcb t i = Some p → 0 ≤ i < Z.of_nat (length (pcb t)).
Proof using Type.
  unfold lookup_pcb. case_bool_decide as Hi; [|done]. intros Hl.
  destruct (pcb t !! Z.to_nat i) as [x|] eqn:E; [|done]. apply lookup_lt_Some in E. lia.
Qed.

Definition set_slot t (i : Z) (x : slot) : PTable T := with_pcb t (<[Z.to_nat i := x]> (pcb t)).

Lemma put_slot_spec t i x :
  0 ≤ i < Z.of_nat (length (pcb t)) → put_slot t i x = Ok (set_slot t i x).
Proof using Type. intros Hi. unfold put_slot. rewrite arr_set_in by lia. done. Qed.

Lemma lookup_set_slot t i x j :
  0 ≤ i < Z.of_nat (length (pcb t)) →
  lookup_pcb (set_slot t i x) j = if decide (j = i) then live_pcb (Some x) else lookup_pcb t j.
Proof using Type.
  intros Hi. unfold lookup_pcb, set_slot. simpl. case_bool_decide as Hj.
  - destruct (decide (j = i)) as [->|Hne]; [by rewrite list_lookup_insert_eq by lia|].
    by rewrite list_lookup_insert_ne by lia.
  - by rewrite decide_False by lia.
Qed.

(** What a phase looks at. *)
Lemma phase_agree w w' i p p' :
  (point_at w' i = Some InExit ↔ point_at w i = Some InExit) →
  (point_at w' (parentID p') = Some (InJoin i) ↔ point_at w (parentID p) = Some (InJoin i)) →
  JoinStatus p' = JoinStatus p → joinsem p' = joinsem p → exitsem p' = exitsem p →
  phase w i p → phase w' i p'.
Proof using Type.
  intros He Hj E1 E2 E3 [A B C D F|A B C D|A B C D F].
  - apply not_joined; try congruence; tauto.
  - apply joined; try congruence; [tauto|]. rewrite E2, D.
    destruct (decide (point_at w i = Some InExit)), (decide (point_at w' i = Some InExit)); tauto.
  - apply released; try congruence; tauto.
Qed.

Lemma pcb_len w : inv w → Z.of_nat (length (pcb (pTab w))) = MAXPROCESS.
Proof using Type. intros Hi. by rewrite (i_len _ Hi). Qed.

Lemma lookup_range w i p : inv w → lookup_pcb (pTab w) i = Some p → 0 ≤ i < MAXPROCESS.
Proof using Type. intros Hi Hl. apply lookup_pcb_range in Hl. by rewrite (pcb_len w Hi) in Hl. Qed.

Lemma lookup_set w i p x j :
  inv w → lookup_pcb (pTab w) i = Some p →
  lookup_pcb (set_slot (pTab w) i x) j =
    if decide (j = i) then live_pcb (Some x) else lookup_pcb (pTab w) j.
Proof using Type. intros _ Hl. apply lookup_set_slot. by eapply lookup_pcb_range. Qed.

Lemma set_slot_same t i p : lookup_pcb t i = Some p → set_slot t i (At p) = t.
Proof using Type.
  unfold lookup_pcb, set_slot. case_bool_decide as Hi; [|done]. intros Hl.
  destruct (pcb t !! Z.to_nat i) as [[| |]|] eqn:E; simplify_eq/=.
  rewrite list_insert_id by done. by destruct t.
Qed.

(** A process goes to another point and a PCB changes accordingly. *)
Definition moved w (me : Z) (x : proc) (pt : point) (c : Z) (p' : PCB) : World T :=
  with_procs (with_table w (set_slot (pTab w) c (At p')))
    (<[me := mkProc pt (tname x) (space x)]> (procs w)).

Lemma moved_point w me x pt c p' i :
  point_at (moved w me x pt c p') i = if decide (i = me) then Some pt else point_at w i.
Proof using Type.
  unfold point_at. simpl. destruct (decide (i = me)) as [->|]; [by rewrite lookup_insert_eq|].
  by rewrite lookup_insert_ne.
Qed.

Lemma inv_moved w me x pt c p p' :
  inv w → procs w !! me = Some x → lookup_pcb (pTab w) c = Some p → c ≠ 0 →
  thread p' = thread p → exitcode p' = 0 → parentID p' = parentID p →
  phase (moved w me x pt c p') c p' →
  (∀ i q, i ≠ 0 → i ≠ c → lookup_pcb (pTab w) i = Some q → phase w i q →
     phase (moved w me x pt c p') i q) →
  (∀ d, pt = InJoin d → ∃ q, d ≠ 0 ∧ lookup_pcb (pTab w) d = Some q ∧ parentID q = me) →
  (pt = InExit → me ≠ 0 ∧ ∀ i q, lookup_pcb (pTab w) i = Some q → parentID q ≠ me) →
  inv (moved w me x pt c p').
Proof using Type.
  intros Hi Hx Hc Hc0 Ht He Hpar Hph Hoth Hjoin Hexit.
  pose proof (lookup_set w c p (At p')) as Hls.
  assert (∀ i, is_Some (lookup_pcb (pTab (moved w me x pt c p')) i) ↔ is_Some (lookup_pcb (pTab w) i)) as Hsome.
  { intros i. simpl. rewrite Hls by done. destruct (decide (i = c)) as [->|]; [|done].
    rewrite Hc. by split; eexists. }
  assert (∀ i q, lookup_pcb (pTab (moved w me x pt c p')) i = Some q →
    ∃ q0, lookup_pcb (pTab w) i = Some q0 ∧ parentID q = parentID q0) as Hback.
  { intros i q. simpl. rewrite Hls by done. destruct (decide (i = c)) as [->|]; [|by exists q].
    intros [= <-]. by exists p. }
  pose proof Hi as [A1 A2 A3 A4 A5 A6 A7 A8 A9 A10 A11 A12 A13 A14 A15].
  split; simpl; try done.
  - by rewrite length_insert.
  - destruct A7 as (q & Hq & Hqp). exists q. rewrite Hls by done. by rewrite decide_False by done.
  - intros i. rewrite A8. symmetry. apply Hsome.
  - intros i. rewrite lookup_insert_is_Some', A9, Hsome. split; [|tauto].
    intros [->|?]; [|done]. apply A9. by rewrite Hx.
  - intros i q Hi0. rewrite Hls by done. destruct (decide (i = c)) as [->|Hne]; intros Hq.
    + injection Hq as <-. destruct (A10 c p Hc0 Hc) as [? ? ? ? _].
      split; [congruence|done|apply Hsome; by rewrite Hpar|congruence|done].
    + destruct (A10 i q Hi0 Hq) as [? ? ? ? ?]. split; try done; [by apply Hsome|by apply Hoth].
  - intros i d. rewrite moved_point. destruct (decide (i = me)) as [->|Hne].
    + intros [= ->]. destruct (Hjoin d eq_refl) as (q & ? & Hq & ?).
      destruct (decide (d = c)) as [->|]; [exists p'|exists q]; rewrite Hls by done;
        [rewrite decide_True by done|rewrite decide_False by done]; split_and!; try done. congruence.
    + intros Hp. destruct (A11 i d Hp) as (q & ? & Hq & ?).
      destruct (decide (d = c)) as [->|]; [exists p'|exists q]; rewrite Hls by done;
        [rewrite decide_True by done|rewrite decide_False by done]; split_and!; try done. congruence.
  - intros i. rewrite moved_point. destruct (decide (i = me)) as [->|Hne]; intros Hp.
    + injection Hp as ->. destruct (Hexit eq_refl) as [? Hno]. split; [done|].
      intros j q Hq. destruct (Hback j q Hq) as (q0 & Hq0 & ->). by apply (Hno j).
    + destruct (A12 i Hp) as [? Hno]. split; [done|].
      intros j q Hq. destruct (Hback j q Hq) as (q0 & Hq0 & ->). by apply (Hno j).
  - intros i y sp Hy Hsp. apply lookup_insert_Some in Hy as [[<- <-]|[_ Hy]]; [|by eapply A14].
    by eapply A14.
Qed.

(** Counting does not matter. *)
Lemma inv_numwait w c p n :
  inv w → lookup_pcb (pTab w) c = Some p →
  inv (with_table w (set_slot (pTab w) c (At (with_numwait p n)))).
Proof using Type.
  intros Hi Hc. pose proof (lookup_set w c p (At (with_numwait p n))) as Hls.
  assert (∀ i, is_Some (lookup_pcb (set_slot (pTab w) c (At (with_numwait p n))) i) ↔
               is_Some (lookup_pcb (pTab w) i)) as Hsome.
  { intros i. rewrite Hls by done. destruct (decide (i = c)) as [->|]; [|done].
    rewrite Hc. by split; eexists. }
  pose proof Hi as [A1 A2 A3 A4 A5 A6 A7 A8 A9 A10 A11 A12 A13 A14 A15].
  split; simpl; try done.
  - by rewrite length_insert.
  - destruct A7 as (q & Hq & Hqp). rewrite Hls by done. destruct (decide (0 = c)) as [<-|].
    + eexists. split; [reflexivity|]. simpl. congruence.
    + by exists q.
  - intros i. rewrite A8. symmetry. apply Hsome.
  - intros i. by rewrite A9, Hsome.
  - intros i q Hi0. rewrite Hls by done. destruct (decide (i = c)) as [->|Hne]; intros Hq.
    + injection Hq as <-. destruct (A10 c p Hi0 Hc) as [? ? ? ? Hph].
      split; simpl; try done; [by apply Hsome|].
      by eapply (phase_agree w (with_table w _) c p); [..|exact Hph].
    + destruct (A10 i q Hi0 Hq) as [? ? ? ? Hph]. split; try done; [by apply Hsome|].
      by eapply (phase_agree w (with_table w _) i q); [..|exact Hph].
  - intros i d Hp. destruct (A11 i d Hp) as (q & ? & Hq & ?). rewrite Hls by done.
    destruct (decide (d = c)) as [->|]; [|by exists q].
    eexists. split_and!; [done|reflexivity|]. simpl. congruence.
  - intros i Hp. destruct (A12 i Hp) as [? Hno]. split; [done|]. intros j q. rewrite Hls by done.
    destruct (decide (j = c)) as [->|]; [|by apply Hno]. intros [= <-]. simpl. by apply (Hno c).
Qed.

(** The process [me] is gone. *)
Definition gone w (me : Z) (b pages : T) : World T :=
  mkWorld (set_slot (with_bm (pTab w) b) me Freed) (delete me (procs w)) pages (addrLock w) (machine w).

Lemma inv_gone w me p b pages :
  inv w → me ≠ 0 → lookup_pcb (pTab w) me = Some p →
  (∀ i, point_at w i ≠ Some (InJoin me)) →
  (∀ c q, lookup_pcb (pTab w) c = Some q → parentID q ≠ me) →
  fm_wf b → fm_size b = fm_size (bm (pTab w)) → fm_used b = fm_used (bm (pTab w)) ∖ {[me]} →
  fm_wf pages → fm_size pages = fm_size (gPhysPageBitMap w) →
  inv (gone w me b pages).
Proof using Type.
  intros Hi Hme Hp Hnj Hnc Hbw Hbs Hbu Hpw Hps.
  assert (∀ j, lookup_pcb (set_slot (with_bm (pTab w) b) me Freed) j =
    if decide (j = me) then None else lookup_pcb (pTab w) j) as Hls.
  { intros j. rewrite lookup_set_slot; [done|]. by eapply (lookup_pcb_range (pTab w)). }
  pose proof Hi as [A1 A2 A3 A4 A5 A6 A7 A8 A9 A10 A11 A12 A13 A14 A15].
  assert (∀ j, point_at (gone w me b pages) j = if decide (j = me) then None else point_at w j) as Hpt.
  { intros j. unfold point_at. simpl. destruct (decide (j = me)) as [->|]; [by rewrite lookup_delete_eq|].
    by rewrite lookup_delete_ne. }
  split; simpl; try done.
  - congruence.
  - by rewrite length_insert.
  - destruct A7 as (q & Hq & Hqp). exists q. rewrite Hls. by rewrite decide_False by congruence.
  - intros i. rewrite Hbu, Hls, elem_of_difference, A8, elem_of_singleton.
    destruct (decide (i = me)); [split; [tauto|by intros []]|tauto].
  - intros i. rewrite Hls, lookup_delete_is_Some, A9.
    destruct (decide (i = me)) as [->|]; [split; [tauto|by intros []]|]. split; [tauto|]. by intros ?; split.
  - intros i q Hi0. rewrite Hls. destruct (decide (i = me)) as [->|Hne]; [done|]. intros Hq.
    destruct (A10 i q Hi0 Hq) as [? ? Hpar ? Hph]. pose proof (Hnc i q Hq).
    split; try done; [simpl; by rewrite Hls, decide_False|].
    eapply phase_agree; [..|exact Hph]; try done; rewrite Hpt; by rewrite decide_False.
  - intros i d. rewrite Hpt. destruct (decide (i = me)) as [->|]; [done|]. intros Hd.
    destruct (A11 i d Hd) as (q & ? & Hq & ?). exists q. rewrite Hls.
    rewrite decide_False; [done|]. intros ->. by apply (Hnj i).
  - intros i. rewrite Hpt. destruct (decide (i = me)) as [->|]; [done|]. intros Hd.
    destruct (A12 i Hd) as [? Hno]. split; [done|]. intros c q. rewrite Hls.
    destruct (decide (c = me)); [done|]. apply Hno.
  - intros i x sp Hx Hsp. apply lookup_delete_Some in Hx as [_ Hx]. rewrite Hps. by eapply A14.
Qed.

Context `{!FreeMapLaws T}.

(** What [Remove] does when a process calls it for itself. *)
Lemma Remove_run w me p x :
  fm_wf (bm (pTab w)) → fm_size (bm (pTab w)) = MAXPROCESS → me ∈ fm_used (bm (pTab w)) →
  lookup_pcb (pTab w) me = Some p → thread p = Some me → procs w !! me = Some x →
  fm_wf (gPhysPageBitMap w) → (∀ sp, space x = Some sp → space_ok (fm_size (gPhysPageBitMap w)) sp) →
  ∃ b pages, Remove me me w = Ok (gone w me b pages) ∧
    fm_wf b ∧ fm_size b = fm_size (bm (pTab w)) ∧ fm_used b = fm_used (bm (pTab w)) ∖ {[me]} ∧
    fm_wf pages ∧ fm_size pages = fm_size (gPhysPageBitMap w) ∧
    fm_used pages = fm_used (gPhysPageBitMap w) ∖
      match space x with Some sp => list_to_set (frames sp) | None => ∅ end.
Proof using FreeMapLaws0.
  intros Hw Hs Hu Hp Hth Hx Hpw Hsp. pose proof (fm_used_range _ _ Hu) as Hr'.
  pose proof Hr' as Hr. rewrite Hs in Hr. unfold MAXPROCESS in Hr.
  unfold Remove. rewrite Z.gtb_ltb, (proj2 (Z.ltb_ge me 0)), (proj2 (Z.ltb_ge 9 me)) by lia. simpl.
  rewrite fm_test_spec by done. simpl_res. rewrite bool_decide_eq_true_2 by done.
  destruct (fm_clear_spec (bm (pTab w)) me Hw Hr') as (b & -> & Hbw & Hbs & Hbu). simpl_res.
  rewrite (get_pcb_spec _ _ _ Hp). simpl_res.
  rewrite put_slot_spec by (simpl; by eapply lookup_pcb_range). simpl_res.
  unfold PCB_delete. rewrite Hth. unfold FreeSpace, get_proc. simpl. rewrite Hx. simpl_res. simpl.
  destruct (space x) as [sp|] eqn:Hspx.
  - destruct (Hsp sp eq_refl) as [Hn Hf].
    destruct (delete_spec (gPhysPageBitMap w) sp Hpw Hn Hf) as (pages & -> & ? & ? & ?).
    simpl_res. unfold Finish. rewrite Z.eqb_refl. simpl. by exists b, pages.
  - unfold Finish. rewrite Z.eqb_refl. simpl. exists b, (gPhysPageBitMap w). split_and!; try done. set_solver.
Qed.

(** [w2] is [w] with another PCB for [me]; it is deleted anyway. *)
Lemma process_gone_spec w w2 me p p2 x :
  inv w → me ≠ 0 → lookup_pcb (pTab w) me = Some p →
  w2 = with_table w (set_slot (pTab w) me (At p2)) → thread p2 = Some me → procs w !! me = Some x →
  (∀ i, point_at w i ≠ Some (InJoin me)) →
  (∀ c q, lookup_pcb (pTab w) c = Some q → parentID q ≠ me) →
  ∃ b pages, Remove me me w2 = Ok (gone w me b pages) ∧ inv (gone w me b pages) ∧
    fm_used b = fm_used (bm (pTab w)) ∖ {[me]} ∧
    fm_used pages = fm_used (gPhysPageBitMap w) ∖
      match space x with Some sp => list_to_set (frames sp) | None => ∅ end.
Proof using FreeMapLaws0.
  intros Hi Hme Hp -> Hth Hx Hnj Hnc.
  set (w2 := with_table w (set_slot (pTab w) me (At p2))).
  assert (∀ b pages, gone w2 me b pages = gone w me b pages) as Hgone.
  { intros b pages. unfold gone, w2, set_slot, with_pcb, with_bm. simpl. by rewrite list_insert_insert_eq. }
  destruct (Remove_run w2 me p2 x) as (b & pages & E & ? & ? & ? & ? & ? & ?); try done; try apply Hi.
  - by rewrite Hp.
  - unfold w2. simpl. rewrite (lookup_set w me p) by done. by rewrite decide_True.
  - intros sp Hsp. by eapply (i_space _ Hi).
  - exists b, pages. rewrite <- Hgone. split; [done|]. rewrite Hgone. split; [|done]. by eapply inv_gone.
Qed.

(** ** Join *)

Lemma inv_parent w i p :
  inv w → i ≠ 0 → lookup_pcb (pTab w) i = Some p →
  ∃ q x, lookup_pcb (pTab w) (parentID p) = Some q ∧ procs w !! parentID p = Some x.
Proof using Type.
  intros Hi Hi0 Hp. destruct (po_parent _ _ _ (i_pcb _ Hi i p Hi0 Hp)) as [q Hq].
  assert (is_Some (procs w !! parentID p)) as [x Hx] by (apply (i_procs _ Hi); by rewrite Hq). by exists q, x.
Qed.

Lemma JoinUpdate_waits w me c p :
  inv w → point_at w me = Some InUser → c ≠ 0 → lookup_pcb (pTab w) c = Some p → parentID p = me →
  JoinStatus p = -1 →
  ∃ x w', procs w !! me = Some x ∧ JoinUpdate c me w = Ok (None, w') ∧
    w' = moved w me x (InJoin c) c (JoinWait p) ∧ inv w'.
Proof using Type.
  intros Hi Hpt Hc Hp Hpar Hjs. pose proof (lookup_range w c p Hi Hp) as Hr.
  unfold point_at in Hpt. destruct (procs w !! me) as [x|] eqn:Hx; [|done]. injection Hpt as Hpt.
  unfold JoinUpdate. rewrite (i_psize _ Hi), Z.geb_leb, (proj2 (Z.ltb_ge c 0)), (proj2 (Z.leb_gt _ c)) by lia.
  simpl. pose proof Hp as Hp'. unfold lookup_pcb in Hp'. rewrite bool_decide_eq_true_2 in Hp' by lia.
  destruct (pcb (pTab w) !! Z.to_nat c) as [[|p0|]|] eqn:Ec; simplify_eq/=.
  rewrite (arr_get_in _ _ _ (proj1 Hr) Ec). simpl_res. rewrite (get_pcb_spec _ _ _ Hp). simpl_res.
  rewrite Z.eqb_refl. simpl. unfold put_pcb. rewrite put_slot_spec by (rewrite pcb_len by done; lia). simpl_res.
  unfold set_point, get_proc. simpl. rewrite Hx. simpl_res.
  exists x. eexists. split; [done|]. split; [reflexivity|]. split; [done|].
  destruct (i_pcb _ Hi c p Hc Hp) as [? ? Hpp Hself Hph].
  pose proof (lookup_pcb_range _ _ _ Hp) as Hrp.
  inversion Hph as [B1 B2 B3 B4 B5|B1|B1]; [|congruence..].
  assert (point_at w (parentID p) = Some InUser) as Hpu by (unfold point_at; rewrite Hx; simpl; by rewrite Hpt).
  apply (inv_moved w (parentID p) x (InJoin c) c p (JoinWait p)); try done.
  - destruct Hpp as [q Hq]. pose proof (lookup_range w _ q Hi Hq).
    apply joined; simpl; rewrite ?moved_point.
    + lia.
    + done.
    + by rewrite decide_True.
    + destruct (decide (c = parentID p)); [congruence|]. by rewrite decide_False.
  - intros i q Hi0 Hne Hq Hphq. eapply phase_agree; [..|exact Hphq]; try done; rewrite moved_point.
    + destruct (decide (i = parentID p)) as [->|]; [|done]. rewrite Hpu. split; congruence.
    + destruct (decide (parentID q = parentID p)) as [->|]; [|done]. rewrite Hpu. split; congruence.
  - intros d [= <-]. exists p. done.
Qed.

Lemma JoinUpdate_returns w me c :
  inv w → point_at w me = Some (InJoin c) →
  (∃ p, lookup_pcb (pTab w) c = Some p ∧ 0 < joinsem p) →
  ∃ p x, lookup_pcb (pTab w) c = Some p ∧ procs w !! me = Some x ∧ point_at w c = Some InExit ∧
    let w' := moved w me x InUser c (ExitRelease (with_joinsem p 0)) in
    JoinUpdate_return c me w = Ok (exitcode p, w') ∧ inv w'.
Proof using Type.
  intros Hi Hpt (p & Hp & Hpos). destruct (i_join _ Hi me c Hpt) as (p' & Hc & Hp' & Hpar).
  assert (p' = p) as -> by congruence. clear Hp'.
  destruct (i_pcb _ Hi c p Hc Hp) as [Hth Hec Hpp Hself Hph].
  inversion Hph as [B1 B2|B1 B2 B3 B4|B1 B2]; [lia| |lia].
  destruct (decide (point_at w c = Some InExit)) as [He|]; [|lia].
  pose proof Hpt as Hpt'. unfold point_at in Hpt'. destruct (procs w !! me) as [x|] eqn:Hx; [|done].
  exists p, x. split; [done|]. split; [done|]. split; [done|]. cbv zeta.
  pose proof (lookup_pcb_range _ _ _ Hp) as Hrp.
  assert (∀ t1 p1, lookup_pcb (set_slot (pTab w) c (At p1)) c = Some p1) as Hset.
  { intros _ p1. rewrite lookup_set_slot by done. by rewrite decide_True. }
  split.
  - unfold JoinUpdate_return. rewrite (get_pcb_spec _ _ _ Hp). simpl_res. unfold P. rewrite B4. simpl_res. simpl.
    unfold put_pcb. rewrite put_slot_spec by done. simpl_res. unfold set_point, get_proc. simpl. rewrite Hx.
    simpl_res. simpl. rewrite (get_pcb_spec _ _ (with_joinsem p 0)) by (by apply (Hset (pTab w))). simpl_res.
    simpl. rewrite Hec. simpl. rewrite put_slot_spec by (simpl; by rewrite length_insert). simpl_res.
    do 2 f_equal. unfold moved, with_procs, with_table, set_slot, with_pcb. simpl. by rewrite list_insert_insert_eq.
  - apply (inv_moved w me x InUser c p); try done.
    + apply released; simpl; rewrite ?moved_point.
      * done.
      * done.
      * unfold V. lia.
      * rewrite decide_True by done. congruence.
      * rewrite decide_False by congruence. done.
    + intros i q Hi0 Hne Hq Hphq. eapply phase_agree; [..|exact Hphq]; try done; rewrite moved_point.
      * destruct (decide (i = me)) as [->|]; [|done]. rewrite Hpt. split; congruence.
      * destruct (decide (parentID q = me)) as [->|]; [|done]. rewrite Hpt. split; congruence.
Qed.

(** ** Exit *)

Lemma DecNumWait_is p : ∃ n, DecNumWait p = with_numwait p n.
Proof using Type.
  unfold DecNumWait. destruct (numwait p =? 0); [exists (numwait p); by destruct p|by eexists].
Qed.

(** The first part of [ExitUpdate(0)]: only the parent's count changes. *)
Lemma ExitUpdate_spec w me p :
  inv w → point_at w me = Some InUser → me ≠ 0 → lookup_pcb (pTab w) me = Some p →
  (∀ c q, lookup_pcb (pTab w) c = Some q → parentID q ≠ me) →
  ∃ w1, inv w1 ∧ procs w1 = procs w ∧ gPhysPageBitMap w1 = gPhysPageBitMap w ∧ bm (pTab w1) = bm (pTab w) ∧
    lookup_pcb (pTab w1) me = Some p ∧
    (∀ c q, lookup_pcb (pTab w1) c = Some q → parentID q ≠ me) ∧
    ∃ w', ExitUpdate 0 me w = Ok (None, w') ∧ inv w' ∧
      if JoinStatus p =? -1 then ∃ b pages, w' = gone w1 me b pages ∧
        fm_used b = fm_used (bm (pTab w)) ∖ {[me]} ∧
        fm_used pages = fm_used (gPhysPageBitMap w) ∖
          match procs w !! me ≫= space with Some sp => list_to_set (frames sp) | None => ∅ end
      else ∃ x, procs w !! me = Some x ∧ w' = moved w1 me x InExit me (JoinRelease p).
Proof using FreeMapLaws0.
  intros Hi Hpt Hme Hp Hnc. destruct (i_pcb _ Hi me p Hme Hp) as [Hth Hec Hpp Hself Hph].
  destruct Hpp as [q Hq]. destruct (DecNumWait_is q) as [n Hn].
  set (w1 := with_table w (set_slot (pTab w) (parentID p) (At (with_numwait q n)))).
  assert (inv w1) as Hi1 by by apply inv_numwait.
  pose proof (lookup_set w (parentID p) q (At (with_numwait q n))) as Hls.
  assert (lookup_pcb (pTab w1) me = Some p) as Hp1.
  { unfold w1. simpl. rewrite Hls by done. by rewrite decide_False by congruence. }
  assert (∀ c q', lookup_pcb (pTab w1) c = Some q' → parentID q' ≠ me) as Hnc1.
  { intros c q'. unfold w1. simpl. rewrite Hls by done.
    destruct (decide (c = parentID p)) as [->|]; [|by apply Hnc]. intros [= <-]. simpl. by apply (Hnc (parentID p)). }
  exists w1. split_and!; try done.
  assert (ExitUpdate 0 me w =
    if negb (JoinStatus p =? -1) then
      w' ← set_point (with_table w1 (set_slot (pTab w1) me (At (JoinRelease p)))) me InExit; Ok (None, w')
    else w' ← Remove me me w1; Ok (None, w')) as ->.
  { pose proof (lookup_range w me p Hi Hp) as Hr. unfold MAXPROCESS in Hr.
    unfold ExitUpdate. rewrite (proj2 (Z.eqb_neq me 0)) by done. unfold IsExist.
    rewrite Z.gtb_ltb, (proj2 (Z.ltb_ge me 0)), (proj2 (Z.ltb_ge 9 me)) by lia. simpl.
    rewrite fm_test_spec by (try apply Hi; rewrite i_size by done; done). simpl_res.
    rewrite bool_decide_eq_true_2 by (apply (i_used _ Hi); by rewrite Hp). simpl.
    rewrite (get_pcb_spec _ _ _ Hp). simpl_res.
    assert (SetExitCode p 0 = p) as -> by (unfold SetExitCode; rewrite <- Hec; by destruct p).
    unfold put_pcb. rewrite put_slot_spec by (by eapply lookup_pcb_range). simpl_res.
    rewrite (set_slot_same _ _ _ Hp), (get_pcb_spec _ _ _ Hp). simpl_res.
    rewrite (get_pcb_spec _ _ _ Hq). simpl_res. rewrite Hn.
    rewrite put_slot_spec by (by eapply lookup_pcb_range). simpl_res.
    change (set_slot (pTab w) (parentID p) (At (with_numwait q n))) with (pTab w1).
    rewrite (get_pcb_spec _ _ _ Hp1). simpl_res.
    destruct (JoinStatus p =? -1); [done|]. simpl.
    rewrite put_slot_spec by (by eapply (lookup_pcb_range (pTab w1))). done. }
  destruct (Z.eqb_spec (JoinStatus p) (-1)) as [Hjs|Hjs]; simpl.
  - assert (is_Some (procs w !! me)) as [x Hx] by (apply (i_procs _ Hi); by rewrite Hp).
    destruct (process_gone_spec w1 w1 me p p x Hi1 Hme Hp1) as (b & pages & -> & Hinv & Hb & Hpg); try done.
    + by rewrite set_slot_same.
    + intros i Hj. destruct (i_join _ Hi i me Hj) as (p' & _ & Hp' & Hpar).
      inversion Hph as [? ? ? ? B|B|B]; [|congruence..]. apply B.
      assert (p' = p) as -> by congruence. by rewrite Hpar.
    + simpl_res. eexists. split; [reflexivity|]. split; [done|]. exists b, pages. by rewrite Hx.
  - unfold set_point, get_proc. simpl. unfold point_at in Hpt.
    destruct (procs w !! me) as [x|] eqn:Hx; [|done]. simpl_res. injection Hpt as Hpt.
    eexists. split; [reflexivity|]. split; [|by exists x].
    assert (point_at w me = Some InUser) as Hpu by (unfold point_at; rewrite Hx; simpl; by rewrite Hpt).
    assert (∀ i, point_at w1 i = point_at w i) as Hpw by done.
    inversion Hph as [B|B1 B2 B3 B4|? ? ? ? B]; [congruence| |congruence].
    rewrite Hpu in B4. destruct (DecNumWait_is p) as [n' Hn'].
    apply (inv_moved w1 me x InExit me p (JoinRelease p)); try done.
    + unfold JoinRelease. by rewrite Hn'.
    + unfold JoinRelease. by rewrite Hn'.
    + unfold JoinRelease. by rewrite Hn'.
    + unfold JoinRelease. rewrite Hn'. apply joined; simpl; rewrite ?moved_point; try done.
      * by rewrite decide_False.
      * destruct (decide (me = me)); [|done]. rewrite decide_True, B4 by done. done.
    + intros i q' Hi0 Hne Hq' Hphq. eapply phase_agree; [..|exact Hphq]; try done; rewrite moved_point.
      * by rewrite decide_False.
      * destruct (decide (parentID q' = me)) as [Heq|]; [|done]. by destruct (Hnc1 i q' Hq').
Qed.

(** [ExitWait] is over. *)
Lemma ExitUpdate_return_spec w me :
  inv w → point_at w me = Some InExit →
  (∃ p, lookup_pcb (pTab w) me = Some p ∧ 0 < exitsem p) →
  ∃ b pages, ExitUpdate_return me w = Ok (gone w me b pages) ∧ inv (gone w me b pages) ∧
    fm_used b = fm_used (bm (pTab w)) ∖ {[me]} ∧
    fm_used pages = fm_used (gPhysPageBitMap w) ∖
      match procs w !! me ≫= space with Some sp => list_to_set (frames sp) | None => ∅ end.
Proof using FreeMapLaws0.
  intros Hi Hpt (p & Hp & Hpos). destruct (i_exit _ Hi me Hpt) as [Hme Hnc].
  destruct (i_pcb _ Hi me p Hme Hp) as [Hth Hec Hpp Hself Hph].
  inversion Hph as [? ? ?|? ?|B1 B2 B3 B4 B5]; [lia..|].
  unfold ExitUpdate_return. rewrite (get_pcb_spec _ _ _ Hp). simpl_res. unfold P. rewrite B3. simpl_res. simpl.
  unfold put_pcb. rewrite put_slot_spec by (by eapply lookup_pcb_range). simpl_res.
  set (p1 := with_exitsem p 0).
  assert (is_Some (procs w !! me)) as [x Hx] by (apply (i_procs _ Hi); by rewrite Hp).
  destruct (process_gone_spec w (with_table w (set_slot (pTab w) me (At p1))) me p p1 x Hi Hme Hp)
    as (b & pages & E & Hinv & Hb & Hpg); try done.
  { intros i Hj. destruct (i_join _ Hi i me Hj) as (p' & _ & Hp' & Hpar).
    assert (p' = p) as -> by congruence. apply B4. by rewrite Hpar. }
  exists b, pages. rewrite Hx. done.
Qed.

(** ** Exec *)

Definition fresh_pcb (ID current : Z) : PCB := mkPCB 0 0 1 0 (Some ID) ID 0 current (-1).
(** The process [ID] was created by [current]. *)
Definition spawned w (ID : Z) (f : list Z) (current : Z) (b : T) : World T :=
  mkWorld (set_slot (with_bm (pTab w) b) ID (At (fresh_pcb ID current)))
    (<[ID := mkProc InUser f None]> (procs w)) (gPhysPageBitMap w) (addrLock w) (machine w).

Lemma spawned_point w ID f current b i :
  point_at (spawned w ID f current b) i = if decide (i = ID) then Some InUser else point_at w i.
Proof using Type.
  unfold point_at. simpl. destruct (decide (i = ID)) as [->|]; [by rewrite lookup_insert_eq|].
  by rewrite lookup_insert_ne.
Qed.

Lemma inv_spawned w ID f current b :
  inv w → point_at w current = Some InUser → 0 ≤ ID < MAXPROCESS → ID ∉ fm_used (bm (pTab w)) →
  fm_wf b → fm_size b = fm_size (bm (pTab w)) → fm_used b = {[ID]} ∪ fm_used (bm (pTab w)) →
  inv (spawned w ID f current b).
Proof using Type.
  intros Hi Hcur Hr Hnew Hbw Hbs Hbu.
  assert (∀ j, lookup_pcb (pTab (spawned w ID f current b)) j =
    if decide (j = ID) then Some (fresh_pcb ID current) else lookup_pcb (pTab w) j) as Hls.
  { intros j. simpl. rewrite lookup_set_slot; [done|]. simpl. by rewrite (pcb_len w Hi). }
  assert (lookup_pcb (pTab w) ID = None) as Hno.
  { apply eq_None_not_Some. intros Hs. by apply Hnew, (i_used _ Hi). }
  assert (is_Some (lookup_pcb (pTab w) current)) as Hcur'.
  { apply (i_procs _ Hi). unfold point_at in Hcur. by destruct (procs w !! current). }
  assert (current ≠ ID) as Hne by (intros ->; by rewrite Hno in Hcur'; destruct Hcur').
  pose proof Hi as [A1 A2 A3 A4 A5 A6 A7 A8 A9 A10 A11 A12 A13 A14 A15].
  split; simpl; try done.
  - congruence.
  - by rewrite length_insert.
  - destruct A7 as (q & Hq & Hqp). exists q. rewrite Hls. rewrite decide_False; [done|]. intros <-. congruence.
  - intros i. rewrite Hbu, Hls, elem_of_union, A8, elem_of_singleton.
    destruct (decide (i = ID)) as [->|]; [|tauto]. split; [by eexists|by left].
  - intros i. rewrite Hls, lookup_insert_is_Some', A9.
    destruct (decide (i = ID)) as [->|]; [split; [by eexists|by left]|]. split; [|tauto]. by intros [?|?].
  - intros i q Hi0. rewrite Hls. destruct (decide (i = ID)) as [->|Hn]; intros Hq.
    + injection Hq as <-. split; simpl; try done; [by rewrite Hls, decide_False|].
      apply not_joined; simpl; rewrite ?spawned_point; try done.
      * by rewrite decide_True.
      * rewrite decide_False by done. congruence.
    + destruct (A10 i q Hi0 Hq) as [? ? Hpp ? Hph].
      assert (parentID q ≠ ID) as Hpn by (intros E; rewrite E, Hno in Hpp; by destruct Hpp).
      split; try done; [simpl; by rewrite Hls, decide_False|].
      eapply phase_agree; [..|exact Hph]; try done; rewrite spawned_point; by rewrite decide_False.
  - intros i d. rewrite spawned_point. destruct (decide (i = ID)) as [->|]; [done|]. intros Hd.
    destruct (A11 i d Hd) as (q & ? & Hq & ?). exists q. rewrite Hls.
    rewrite decide_False; [done|]. congruence.
  - intros i. rewrite spawned_point. destruct (decide (i = ID)) as [->|]; [done|]. intros Hd.
    destruct (A12 i Hd) as [? Hno']. split; [done|]. intros c q. rewrite Hls.
    destruct (decide (c = ID)) as [->|]; [|apply Hno']. intros [= <-]. simpl. congruence.
  - intros i x sp Hx Hsp. apply lookup_insert_Some in Hx as [[<- <-]|[_ Hx]]; [done|]. by eapply A14.
Qed.

Definition missing (gt : Z) (fs : StubFS.FileSystem) (f : list Z) : bool :=
  match StubFS.Open gt fs f with Ok (Some _) => false | _ => true end.

Lemma ExecUpdate_spec gt fs filename current w x :
  inv w → procs w !! current = Some x → at_point x = InUser →
  ∃ r w', ExecUpdate gt fs filename current w = Ok (r, w') ∧ inv w' ∧
    match filename with
    | Some f =>
        if STable.streq f (tname x) || missing gt fs f
           || bool_decide (size (fm_used (bm (pTab w))) = Z.to_nat MAXPROCESS)
        then r = -1 ∧ w' = w
        else 0 ≤ r < MAXPROCESS ∧ r ∉ fm_used (bm (pTab w)) ∧
             (∀ j, 0 ≤ j < r → j ∈ fm_used (bm (pTab w))) ∧
             ∃ b, w' = spawned w r f current b
    | None => r = -1 ∧ w' = w
    end.
Proof using FreeMapLaws0.
  intros Hi Hx Hpt. unfold ExecUpdate. rewrite (i_bmsem _ Hi). simpl_res. unfold P. simpl_res. simpl.
  assert (with_table w (with_bmsem (with_bmsem (pTab w) 0) (V 0)) = w) as Hsame.
  { unfold with_table, with_bmsem, V. simpl. rewrite <- (i_bmsem _ Hi). by destruct w as [[]]. }
  assert (∀ r : Z, Ok (r, with_table w (with_bmsem (with_bmsem (pTab w) 0) (V 0))) = Ok (r, w)) as Hfail
    by (intros; by rewrite Hsame).
  destruct filename as [f|]; [|exists (-1), w; by split; [exact (Hfail (-1))|]].
  unfold get_proc. rewrite Hx. simpl_res.
  destruct (STable.streq f (tname x)); [exists (-1), w; by split; [exact (Hfail (-1))|]|]. simpl orb.
  unfold missing. assert (∃ ex, StubFS.Open gt fs f = Ok ex) as [ex ->].
  { unfold StubFS.Open, Unix.OpenForReadWrite. simpl. case_match; by eexists. }
  simpl_res. destruct ex as [ex|]; [|exists (-1), w; by split; [exact (Hfail (-1))|]].
  simpl orb. unfold GetFreeSlot. simpl.
  destruct (fm_find_spec (bm (pTab w)) (i_wf _ Hi)) as [(ID & b & -> & Hbw & Hbs & Hr & Hnew & Hmin & Hbu)|[-> Hfull]].
  - simpl_res. rewrite i_size in Hr by done. rewrite (proj2 (Z.ltb_ge ID 0)) by lia. simpl.
    destruct (fm_mark_spec b ID Hbw) as (b' & -> & Hbw' & Hbs' & Hbu'); [by rewrite Hbs, i_size|].
    simpl_res. unfold PCB_Exec, P. simpl. simpl_res. unfold put_pcb.
    rewrite put_slot_spec by (simpl; by rewrite (pcb_len w Hi)). simpl_res.
    rewrite bool_decide_eq_false_2.
    2: { intros Hs. assert (size (fm_used b) ≤ Z.to_nat MAXPROCESS)%nat.
         { rewrite <- (i_size _ Hi), <- Hbs. apply STable.used_size_le. }
         rewrite Hbu, size_union, size_singleton in * by set_solver. lia. }
    exists ID, (spawned w ID f current b'). split.
    { do 2 f_equal. unfold spawned, with_table, with_bmsem, set_slot, with_pcb, with_bm, V. simpl.
      by rewrite (i_bmsem _ Hi). }
    split; [|split_and!; try done; try lia; by exists b'].
    apply inv_spawned; try done.
    + unfold point_at. rewrite Hx. simpl. by rewrite Hpt.
    + congruence.
    + rewrite Hbu', Hbu. set_solver.
  - simpl_res. exists (-1), w. simpl. split; [|split; [done|]].
    + exact (Hfail (-1)).
    + rewrite bool_decide_eq_true_2; [done|]. apply FileHdr.full_size in Hfull; [|by rewrite i_size].
      pose proof (STable.used_size_le (bm (pTab w))). rewrite i_size in * by done. unfold MAXPROCESS in *. lia.
Qed.

(** ** The start of a program *)

Lemma program_loads garbage hdr gt fs name (st : Loader T) sp ld :
  fm_wf (AddrSpace.gPhysPageBitMap st) → missing gt fs name = false →
  AddrSpace_new_name garbage hdr gt fs name st = Ok (sp, ld) →
  fm_wf (AddrSpace.gPhysPageBitMap ld) ∧
  fm_size (AddrSpace.gPhysPageBitMap ld) = fm_size (AddrSpace.gPhysPageBitMap st) ∧
  AddrSpace.addrLock ld = AddrSpace.addrLock st ∧
  space_ok (fm_size (AddrSpace.gPhysPageBitMap st)) sp.
Proof using FreeMapLaws0.
  intros Hwf Hm. unfold missing in Hm. unfold AddrSpace_new_name.
  destruct (StubFS.Open gt fs name) as [[f|]|]; try done. simpl_res.
  destruct (read_header hdr (StubFS.unix fs) f) as [h|]; [|done]. simpl_res.
  unfold P. destruct (AddrSpace.addrLock st =? 0); [done|]. simpl_res.
  rewrite fm_num_clear_spec by done. simpl_res. rewrite Z.gtb_ltb.
  destruct (Z.ltb_spec (fm_size (AddrSpace.gPhysPageBitMap st)
    - Z.of_nat (size (fm_used (AddrSpace.gPhysPageBitMap st)))) (pages_of h)).
  { intros E. exfalso. cbn [alloc_pages for_loop Z.to_nat] in E. apply bind_ok in E as (? & _ & E).
    by apply bind_ok in E as (? & _ & E). }
  pose proof (pages_of_nonneg h).
  destruct (alloc_pages_spec (AddrSpace.gPhysPageBitMap st) (pages_of h) Hwf)
    as (pt & bm & -> & Hlen & [_ Hfree _] & Hwf' & Hsize & _); [lia|]. simpl_res.
  destruct (load_segment (StubFS.unix fs) f (code h) pt _ _) as [mem1|]; [|done]. simpl_res.
  destruct (load_segment (StubFS.unix fs) f (initData h) pt _ _) as [mem2|]; [|done]. simpl_res.
  intros [= <- <-]. simpl. split_and!; try done; [unfold V; lia|].
  split; simpl; [lia|]. unfold frames. simpl. eapply Forall_impl; [exact Hfree|]. simpl. intros; lia.
Qed.

(** Loading the program in the file named [name] in a world. *)
Definition load garbage hdr gt fs name w : res (AddrSpace * Loader T) :=
  AddrSpace_new_name garbage hdr gt fs name
    (mkLoader (gPhysPageBitMap w) (mainMemory (machine w)) (addrLock w)).

(** It does not fail when the program fits into the free frames. *)
Lemma load_fits garbage hdr gt fs name w f h :
  StubFS.Open gt fs name = Ok (Some f) → is_program (Unix.contents (StubFS.unix fs) (StubFS.file f)) h →
  AddrSpaceSpec.loadable h (mkLoader (gPhysPageBitMap w) (mainMemory (machine w)) (addrLock w)) →
  ∃ x, load garbage hdr gt fs name w = Ok x.
Proof using FreeMapLaws0.
  intros Ho Hp Hl. destruct (AddrSpaceSpec.AddrSpace_new_spec garbage hdr (StubFS.unix fs) f h _ Machine_new Hp Hl eq_refl)
    as (sp & ld & _ & E & _). exists (sp, ld). by apply E.
Qed.

Lemma StartProcess_spec garbage hdr gt fs name me w :
  inv w → is_Some (procs w !! me) → missing gt fs name = false →
  (∃ x, load garbage hdr gt fs name w = Ok x) →
  ∃ w', StartProcess garbage hdr gt fs name me w = Ok w' ∧ inv w' ∧ pTab w' = pTab w.
Proof using FreeMapLaws0.
  intros Hi [x Hx] Hm [[sp ld] E]. unfold StartProcess. unfold load in E. rewrite E. simpl_res.
  destruct (program_loads garbage hdr gt fs name
    (mkLoader (gPhysPageBitMap w) (mainMemory (machine w)) (addrLock w)) sp ld (i_pages _ Hi) Hm E) as (Hpw & Hps & Hlk & Hsp). simpl in *.
  unfold get_proc. rewrite Hx. simpl_res. rewrite InitRegisters_spec by (simpl; apply Hi). simpl_res.
  eexists. split; [reflexivity|]. split; [|done].
  set (w' := mkWorld _ _ _ _ _).
  assert (∀ j, point_at w' j = point_at w j) as Hpt.
  { intros j. unfold point_at, w'. simpl. destruct (decide (j = me)) as [->|].
    - by rewrite lookup_insert_eq, Hx.
    - by rewrite lookup_insert_ne. }
  pose proof Hi as [A1 A2 A3 A4 A5 A6 A7 A8 A9 A10 A11 A12 A13 A14 A15].
  split; try done.
  - simpl. congruence.
  - intros j. simpl. rewrite lookup_insert_is_Some', A9. split; [|tauto].
    intros [<-|?]; [|done]. apply A9. by rewrite Hx.
  - intros i q Hi0 Hq. destruct (A10 i q Hi0 Hq) as [? ? ? ? Hph]. split; try done.
    eapply phase_agree; [..|exact Hph]; try done; by rewrite Hpt.
  - intros i c. rewrite Hpt. apply A11.
  - intros i. rewrite Hpt. apply A12.
  - intros i y sp' Hy Hsp'. simpl in *. rewrite Hps. apply lookup_insert_Some in Hy as [[<- <-]|[_ Hy]].
    + simpl in Hsp'. by injection Hsp' as <-.
    + by eapply A14.
Qed.

(** ** All requests *)

(** What the processes do: system calls, the first step of a forked thread, and
    the return of the calls that wait. *)
Inductive request :=
  | RExec (filename : option (list Z))
  | RStart (filename : list Z)            (* StartProcess, in the first process *)
  | RMyStart                              (* MyStartProcess, in a forked one *)
  | RJoin (c : Z)
  | RExit (exitStatus : Z)
  | RJoinReturn (c : Z)
  | RExitReturn.

Section requests.
Context (garbage : AddrSpace) (hdr : list Z) (gt : Z) (fs : StubFS.FileSystem).

(** The result goes to the caller's register 2; [None]: the caller does not
    return (yet). *)
Definition perform (r : request) (me : Z) w : res (option Z * World T) :=
  match r with
  | RExec f => '(v, w) ← ExecUpdate gt fs f me w; Ok (Some v, w)
  | RStart f => w ← StartProcess garbage hdr gt fs f me w; Ok (None, w)
  | RMyStart => w ← MyStartProcess garbage hdr gt fs me w; Ok (None, w)
  | RJoin c => JoinUpdate c me w
  | RExit st => w ← handle_SC_Exit st me w; Ok (None, w)
  | RJoinReturn c => '(v, w) ← JoinUpdate_return c me w; Ok (Some v, w)
  | RExitReturn => w ← ExitUpdate_return me w; Ok (None, w)
  end.

(** When the request can be made without running into the defects of the
    table: a process is not joined twice or after it was deleted, a parent
    outlives its children, and the file of a program that is started exists.  The last two wait for a positive semaphore. *)
Definition enabled (r : request) (me : Z) w : Prop :=
  match r with
  | RExec _ => point_at w me = Some InUser
  | RStart f => point_at w me = Some InUser ∧ missing gt fs f = false
  | RMyStart => me ≠ 0 ∧ point_at w me = Some InUser ∧
      ∀ x, procs w !! me = Some x → missing gt fs (tname x) = false
  | RJoin c => point_at w me = Some InUser ∧ c ≠ 0 ∧
      (∀ x, arr_get (pcb (pTab w)) c = Ok x → x ≠ Freed) ∧
      ∀ p, lookup_pcb (pTab w) c = Some p → parentID p = me → JoinStatus p = -1
  | RExit st => point_at w me = Some InUser ∧
      (st = 0 → me ≠ 0 ∧ ∀ c q, lookup_pcb (pTab w) c = Some q → parentID q ≠ me)
  | RJoinReturn c => point_at w me = Some (InJoin c) ∧
      ∃ p, lookup_pcb (pTab w) c = Some p ∧ 0 < joinsem p
  | RExitReturn => point_at w me = Some InExit ∧
      ∃ p, lookup_pcb (pTab w) me = Some p ∧ 0 < exitsem p
  end.

Definition step w w' : Prop := ∃ r me v, enabled r me w ∧ perform r me w = Ok (v, w').

Lemma JoinUpdate_refused w me c :
  inv w → 
  (∀ x, arr_get (pcb (pTab w)) c = Ok x → x ≠ Freed) →
  (∀ p, lookup_pcb (pTab w) c = Some p → parentID p ≠ me) →
  JoinUpdate c me w = Ok (Some (-1), w).
Proof using Type.
  intros Hi Hfr Hno. unfold JoinUpdate. rewrite (i_psize _ Hi).
  destruct (Z.ltb_spec c 0); [done|]. rewrite Z.geb_leb.
  destruct (Z.leb_spec MAXPROCESS c); [done|]. simpl.
  destruct (arr_get_total (pcb (pTab w)) c) as (x & Ex & Hx); [rewrite (pcb_len w Hi); lia|].
  rewrite Ex. simpl_res. destruct x as [|p|]; [done| |by destruct (Hfr Freed)].
  assert (lookup_pcb (pTab w) c = Some p) as Hp.
  { unfold lookup_pcb. rewrite bool_decide_eq_true_2 by lia. by rewrite Hx. }
  rewrite (get_pcb_spec _ _ _ Hp). simpl_res.
  by rewrite (proj2 (Z.eqb_neq me (parentID p))) by (by apply not_eq_sym, Hno).
Qed.

(** How the constructor of the address space fails in a request that starts a
    program. *)
Definition program_of (r : request) (me : Z) w : option (list Z) :=
  match r with
  | RStart f => Some f
  | RMyStart => tname <$> procs w !! me
  | _ => None
  end.
Definition load_failure (r : request) (me : Z) w : option stop :=
  f ← program_of r me w;
  match load garbage hdr gt fs f w with Stop e => Some e | Ok _ => None end.

Lemma start_spec f me w :
  inv w → is_Some (procs w !! me) → missing gt fs f = false →
  match load garbage hdr gt fs f w with
  | Stop e => StartProcess garbage hdr gt fs f me w = Stop e
  | Ok _ => ∃ w', StartProcess garbage hdr gt fs f me w = Ok w' ∧ inv w'
  end.
Proof using FreeMapLaws0.
  intros Hi Hx Hm. destruct (load garbage hdr gt fs f w) as [x|e] eqn:E.
  - destruct (StartProcess_spec garbage hdr gt fs f me w Hi Hx Hm) as (w' & ? & ? & _); [by eexists|]. by exists w'.
  - unfold load in E. unfold StartProcess. by rewrite E.
Qed.

Lemma perform_spec r me w :
  inv w → enabled r me w →
  match load_failure r me w with
  | Some e => perform r me w = Stop e
  | None => ∃ v w', perform r me w = Ok (v, w') ∧ inv w'
  end.
Proof using FreeMapLaws0.
  intros Hi. destruct r; unfold load_failure; simpl; intros Hen.
  - unfold point_at in Hen. destruct (procs w !! me) as [x|] eqn:Hx; [|done]. injection Hen as Hen.
    destruct (ExecUpdate_spec gt fs filename me w x Hi Hx Hen) as (v & w' & -> & ? & _). simpl_res. eauto.
  - destruct Hen as [Hpt Hm]. assert (is_Some (procs w !! me)) as Hx.
    { unfold point_at in Hpt. by destruct (procs w !! me). }
    pose proof (start_spec filename me w Hi Hx Hm) as Hs.
    destruct (load garbage hdr gt fs filename w); [|by rewrite Hs].
    destruct Hs as (w' & -> & ?). simpl_res. eauto.
  - destruct Hen as (Hme & Hpt & Hl). unfold point_at in Hpt.
    destruct (procs w !! me) as [x|] eqn:Hx; [|done].
    assert (is_Some (lookup_pcb (pTab w) me)) as [p Hp] by (apply (i_procs _ Hi); by rewrite Hx).
    unfold MyStartProcess, GetName. pose proof (lookup_range w me p Hi Hp) as Hr.
    rewrite (i_psize _ Hi), Z.geb_leb, (proj2 (Z.leb_le 0 me)), (proj2 (Z.ltb_lt me _)) by lia. simpl.
    rewrite fm_test_spec by (try apply Hi; rewrite i_size by done; done). simpl_res.
    rewrite bool_decide_eq_true_2 by (apply (i_used _ Hi); by rewrite Hp).
    rewrite (get_pcb_spec _ _ _ Hp). simpl_res.
    rewrite (po_thread _ _ _ (i_pcb _ Hi me p Hme Hp)). unfold get_proc. rewrite Hx. simpl_res.
    pose proof (start_spec (tname x) me w Hi (mk_is_Some _ _ Hx) (Hl x eq_refl)) as Hs. simpl.
    destruct (load garbage hdr gt fs (tname x) w); [|by rewrite Hs].
    destruct Hs as (w' & -> & ?). simpl_res. eauto.
  - destruct Hen as (Hpt & Hc & Hfr & Hone).
    destruct (lookup_pcb (pTab w) c) as [p|] eqn:Hp; [destruct (decide (parentID p = me)) as [Hpar|]|].
    + destruct (JoinUpdate_waits w me c p Hi Hpt Hc Hp Hpar) as (x & w' & _ & -> & _ & ?); [by apply Hone|]. eauto.
    + rewrite JoinUpdate_refused; try done; [eauto|]. intros p' Hp'. by assert (p' = p) as -> by congruence.
    + rewrite JoinUpdate_refused; try done; [eauto|]. intros p' Hp'. congruence.
  - destruct Hen as [Hpt Hst]. unfold handle_SC_Exit.
    destruct (Z.eqb_spec exitStatus 0) as [->|]; simpl; [|eauto]. destruct (Hst eq_refl) as [Hme Hnc].
    assert (is_Some (lookup_pcb (pTab w) me)) as [p Hp].
    { apply (i_procs _ Hi). unfold point_at in Hpt. by destruct (procs w !! me). }
    destruct (ExitUpdate_spec w me p Hi Hpt Hme Hp Hnc)
      as (w1 & _ & _ & _ & _ & _ & _ & w' & -> & ? & _). simpl_res. eauto.
  - destruct Hen as [Hpt Hsem].
    destruct (JoinUpdate_returns w me c Hi Hpt Hsem) as (p & x & _ & _ & _ & E & ?). rewrite E. simpl_res. eauto.
  - destruct Hen as [Hpt Hsem].
    destruct (ExitUpdate_return_spec w me Hi Hpt Hsem) as (b & pages & -> & ? & _). simpl_res. eauto.
Qed.

Lemma reachable_inv w0 w : inv w0 → rtc step w0 w → inv w.
Proof using FreeMapLaws0.
  intros Hi Hs. induction Hs as [|w0 w1 w (r & me & v & Hen & E) _ IH]; [done|]. apply IH.
  pose proof (perform_spec r me w0 Hi Hen) as Hp. destruct (load_failure r me w0); [congruence|].
  destruct Hp as (v' & w' & E' & ?). congruence.
Qed.
End requests.
End invariant.
End Process.

(** ** The properties *)

Module ProcessSpec.
Import Process.

Section spec.
Context {T : Type} `{FreeMapLaws T}.
Context (garbage : AddrSpace) (hdr : list Z) (gt : Z) (fs : StubFS.FileSystem).
Implicit Types (w : World T).
Notation enabled := (enabled gt fs).
Notation perform := (perform garbage hdr gt fs).
Notation step := (step garbage hdr gt fs).

(** The table after start-up: process 0, "main", which no PCB has a thread for. *)
Lemma boot_inv bm0 pages m :
  fm_wf bm0 → fm_size bm0 = MAXPROCESS → fm_used bm0 = ∅ → fm_wf pages →
  length (registers m) = Z.to_nat NumTotalRegs →
  ∃ t, PTable_new bm0 MAXPROCESS = Ok t ∧
    inv (mkWorld t {[ 0 := mkProc InUser [109; 97; 105; 110] None ]} pages 1 m).
Proof using H0.
  intros Hw Hs Hu Hpw Hm. unfold PTable_new.
  destruct (fm_mark_spec bm0 0 Hw) as (b & -> & Hbw & Hbs & Hbu); [by rewrite Hs|]. simpl_res.
  unfold put_pcb. rewrite put_slot_spec by done. eexists. split; [reflexivity|].
  set (t := set_slot _ 0 _).
  assert (∀ i, lookup_pcb t i = if decide (i = 0) then Some (with_parent (PCB_new 0 0) (-1)) else None) as Hls.
  { intros i. unfold t. rewrite lookup_set_slot by done. case_decide; [done|]. unfold lookup_pcb. simpl.
    case_bool_decide; [|done]. match goal with |- live_pcb (?l !! ?k) = _ => set (o := l !! k) end.
    destruct o as [x|] eqn:E; [|done]. unfold o in E.
    by apply (lookup_replicate_1 10 Null) in E as [-> _]. }
  assert (∀ w i pt, procs w = {[ 0 := mkProc InUser [109; 97; 105; 110] None ]} →
    point_at (T:=T) w i = Some pt → pt = InUser) as Hpt.
  { intros w i pt E. unfold point_at. rewrite E, fmap_Some.
    intros (x & Hx & ->). by apply lookup_singleton_Some in Hx as [_ <-]. }
  split; try done.
  - simpl. congruence.
  - exists (with_parent (PCB_new 0 0) (-1)). simpl. by rewrite Hls.
  - intros i. simpl. rewrite Hbu, Hu, Hls. case_decide as Hi; [|split; [set_solver|by intros []]].
    split; [by eexists|set_solver].
  - intros i. simpl. rewrite Hls, lookup_singleton. case_decide as Hi.
    + rewrite Hi, decide_True by done. by split; eexists.
    + rewrite decide_False by done. by split; intros [].
  - intros i p Hi. simpl. by rewrite Hls, decide_False.
  - intros i c Hc. by apply Hpt in Hc.
  - intros i Hc. by apply Hpt in Hc.
  - intros i x sp Hx. simpl in Hx. apply lookup_singleton_Some in Hx as [_ <-]. done.
Qed.

(** C21. The process table.  From start-up on, every request of a process
    (Exec, Join, Exit, starting its program, returning from the waits of Join
    and Exit) is served without a failed assertion or a dangling pointer,
    provided that no child is joined twice or after it has exited, that parents
    exit after their children, and that a program that is started has a file;
    and the table stays consistent: the bitmap, the PCBs and the live threads are
    the same set of process numbers, every process has a live parent, and who
    waits in Join waits for a child of its own.  The exception is a program that
    cannot be loaded (its file is no object file, or there is not enough memory:
    [no_memory_double_delete]): then the request stops where the constructor of
    the address space does.  A program that fits is loaded ([load_fits]). *)
Theorem process_table_consistent w0 w r me :
  inv w0 → rtc step w0 w → enabled r me w →
  match load_failure garbage hdr gt fs r me w with
  | Some e => perform r me w = Stop e
  | None => ∃ v w', perform r me w = Ok (v, w') ∧ inv w'
  end.
Proof using All. intros Hi Hs. apply perform_spec. by eapply reachable_inv. Qed.

(** C22. Join waits for Exit.  A parent that waits for its child can return
    exactly when the child has called Exit; then Join returns the exit code 0,
    the child, which had waited for this, can finish, and with it its process
    number and its pages are free again. *)
Theorem join_waits_for_exit w0 w me c :
  inv w0 → rtc step w0 w → point_at w me = Some (InJoin c) →
  (point_at w c = Some InExit ↔ enabled (RJoinReturn c) me w) ∧
  (point_at w c = Some InExit →
     ∃ w1 w2, perform (RJoinReturn c) me w = Ok (Some 0, w1) ∧ point_at w1 me = Some InUser ∧
       enabled RExitReturn c w1 ∧ perform RExitReturn c w1 = Ok (None, w2) ∧
       procs w2 !! c = None ∧ fm_used (bm (pTab w2)) = fm_used (bm (pTab w)) ∖ {[c]} ∧
       fm_used (gPhysPageBitMap w2) = fm_used (gPhysPageBitMap w) ∖
         match procs w !! c ≫= space with Some sp => list_to_set (frames sp) | None => ∅ end).
Proof using All.
  intros Hi0 Hs Hpt. pose proof (reachable_inv _ _ _ _ _ _ Hi0 Hs) as Hi.
  destruct (i_join _ Hi me c Hpt) as (p & Hc & Hp & Hpar).
  pose proof (i_pcb _ Hi c p Hc Hp) as [_ Hec _ Hself Hph].
  assert (joinsem p = if decide (point_at w c = Some InExit) then 1 else 0) as Hj.
  { inversion Hph as [? ? ? ? B|? ? ? B|? ? ? B]; [by rewrite Hpar in B|done|by rewrite Hpar in B]. }
  assert (point_at w c = Some InExit → enabled (RJoinReturn c) me w) as Hen.
  { intros He. split; [done|]. exists p. split; [done|]. rewrite Hj, decide_True by done. lia. }
  split.
  - split; [exact Hen|]. intros [_ (p' & Hp' & Hpos)]. assert (p' = p) as -> by congruence.
    rewrite Hj in Hpos. destruct (decide (point_at w c = Some InExit)); [done|lia].
  - intros He. destruct (Hen He) as [_ Hsem].
    destruct (JoinUpdate_returns w me c Hi Hpt Hsem) as (p' & x & Hp' & Hx & _ & E & Hi1).
    assert (p' = p) as -> by congruence. cbv zeta in E, Hi1. set (w1 := moved w me x InUser c _) in *.
    assert (point_at w1 c = Some InExit) as He1.
    { unfold w1. rewrite moved_point, decide_False by congruence. done. }
    assert (∃ q, lookup_pcb (pTab w1) c = Some q ∧ 0 < exitsem q) as Hsem1.
    { exists (ExitRelease (with_joinsem p 0)). unfold w1. simpl. rewrite (lookup_set w c p) by done.
      rewrite decide_True by done. split; [done|]. simpl. unfold V.
      inversion Hph as [? ? B|? B|? ? B]; rewrite ?B; lia. }
    destruct (ExitUpdate_return_spec w1 c Hi1 He1 Hsem1) as (b & pages & E2 & _ & Hb & Hpg).
    exists w1, (gone w1 c b pages). cbn [Process.perform]. rewrite E, E2, Hec. simpl_res.
    split_and!; try done.
    + unfold w1. by rewrite moved_point, decide_True.
    + simpl. by rewrite lookup_delete_eq.
    + simpl. rewrite Hpg. unfold w1. simpl. rewrite lookup_insert_ne by congruence. done.
Qed.

(** Exec.  A process cannot execute its own program, a file that does not
    exist, or an eleventh process: the result is -1 and nothing changes.
    Otherwise the result is the least free process number, and the new process
    is a child of the caller that has not been joined. *)
Theorem exec_takes_least_free_pid w filename me x :
  inv w → procs w !! me = Some x → at_point x = InUser →
  ∃ r w', ExecUpdate gt fs filename me w = Ok (r, w') ∧ inv w' ∧
    match filename with
    | Some f =>
        if STable.streq f (tname x) || missing gt fs f
           || bool_decide (size (fm_used (bm (pTab w))) = Z.to_nat MAXPROCESS)
        then r = -1 ∧ w' = w
        else 0 ≤ r < MAXPROCESS ∧ r ∉ fm_used (bm (pTab w)) ∧
             (∀ j, 0 ≤ j < r → j ∈ fm_used (bm (pTab w))) ∧
             ∃ b, w' = spawned w r f me b
    | None => r = -1 ∧ w' = w
    end.
Proof using H0. apply ExecUpdate_spec. Qed.
End spec.

(** ** A parent and a child *)

Definition bits : BitMap.BitMap := BitMap.mkBitMap MAXPROCESS 1 [0].
Definition pages : BitMap.BitMap := BitMap.mkBitMap 128 4 [0; 0; 0; 0].
Definition no_space : AddrSpace := mkSpace [] 0.
(** A host with an empty file named [a]. *)
Definition host : StubFS.FileSystem :=
  StubFS.mkFileSystem [] (Unix.mkUnix {[ 0 := [] ]} {[ [97] := 0 ]} 1 ∅).

Definition boot : World BitMap.BitMap :=
  mkWorld (match PTable_new bits MAXPROCESS with Ok t => t | Stop _ => mkPTable bits [] 0 0 end)
    {[ 0 := mkProc InUser [109; 97; 105; 110] None ]} pages 1 Machine_new.

Lemma table_boot_ok : inv boot.
Proof.
  destruct (boot_inv bits pages Machine_new) as (t & E & Hi); try done.
  - split; try done. simpl. repeat constructor; unfold two32; lia.
  - split; try done. simpl. repeat constructor; unfold two32; lia.
  - unfold boot. by rewrite E.
Qed.

Notation do r me := (perform no_space [] 0 host r me).
Definition after (x : res (option Z * World BitMap.BitMap)) : World BitMap.BitMap :=
  match x with Ok (_, w) => w | Stop _ => boot end.

(** Main executes [a], joins it, and [a] exits. *)
Definition execd : World BitMap.BitMap := after (do (RExec (Some [97])) 0 boot).
Definition joining : World BitMap.BitMap := after (do (RJoin 1) 0 execd).
Definition exiting : World BitMap.BitMap := after (do (RExit 0) 1 joining).

Lemma lookup_pcb_elem {T} (t : PTable T) i p : lookup_pcb t i = Some p → At p ∈ pcb t.
Proof.
  unfold lookup_pcb. case_bool_decide; [|done]. intros Hl.
  destruct (pcb t !! Z.to_nat i) as [[| |]|] eqn:E; simplify_eq/=. by eapply list_elem_of_lookup_2.
Qed.

Lemma exiting_reachable : rtc (step no_space [] 0 host) boot exiting.
Proof.
  eapply rtc_l; [exists (RExec (Some [97])), 0, (Some 1); split; [reflexivity|vm_compute; reflexivity]|].
  eapply rtc_l; [exists (RJoin 1), 0, None; split; [|vm_compute; reflexivity]|].
  { split; [reflexivity|]. split; [done|]. split; vm_compute; [by intros x [= <-]|by intros p [= <-]]. }
  eapply rtc_l; [exists (RExit 0), 1, None; split; [|vm_compute; reflexivity]|apply rtc_refl].
  split; [reflexivity|]. intros _. split; [done|]. intros c q Hq. apply lookup_pcb_elem in Hq.
  vm_compute in Hq. repeat (apply elem_of_cons in Hq as [Hq|Hq]; [try discriminate Hq; injection Hq as ->; done|]).
  by apply elem_of_nil in Hq.
Qed.

(** Main starts a program, with the map of 256 bits that the kernel makes. *)
Definition program_host : StubFS.FileSystem :=
  StubFS.mkFileSystem [] (Unix.mkUnix (Unix.inodes AddrSpaceSpec.sample_host) {[ [97] := 0 ]} 1 ∅).
Definition kernel_boot : World BitMap.BitMap :=
  mkWorld (pTab boot) (procs boot) (BitMap.mkBitMap 256 8 (replicate 8 0)) 1 Machine_new.

Lemma kernel_boot_ok : inv kernel_boot.
Proof.
  destruct (boot_inv bits (BitMap.mkBitMap 256 8 (replicate 8 0)) Machine_new) as (t & E & Hi); try done.
  - split; try done. simpl. repeat constructor; unfold two32; lia.
  - split; try done. simpl. repeat constructor; unfold two32; lia.
  - unfold kernel_boot, boot. by rewrite E.
Qed.

Lemma process_table_consistent_witness :
  ∃ v w', perform no_space [] 0 program_host (RStart [97]) 0 kernel_boot = Ok (v, w') ∧ inv w' ∧
    numPages <$> (procs w' !! 0 ≫= space) = Some 4.
Proof.
  pose proof (process_table_consistent no_space [] 0 program_host kernel_boot kernel_boot (RStart [97]) 0
    kernel_boot_ok (rtc_refl _ _) (conj eq_refl eq_refl)) as Hs.
  assert (load_failure no_space [] 0 program_host (RStart [97]) 0 kernel_boot = None) as E by (vm_compute; reflexivity).
  rewrite E in Hs. destruct Hs as (v & w' & Ep & Hi). exists v, w'. split; [exact Ep|]. split; [exact Hi|].
  assert (match perform no_space [] 0 program_host (RStart [97]) 0 kernel_boot with
          | Ok (_, w) => numPages <$> (procs w !! 0 ≫= space) | Stop _ => None end = Some 4) as En
    by (vm_compute; reflexivity).
  rewrite Ep in En. exact En.
Defined.

Lemma join_waits_for_exit_witness :
  ∃ w1 w2, do (RJoinReturn 1) 0 exiting = Ok (Some 0, w1) ∧ do RExitReturn 1 w1 = Ok (None, w2) ∧
           procs w2 !! 1 = None.
Proof.
  destruct (join_waits_for_exit no_space [] 0 host boot exiting 0 1 table_boot_ok exiting_reachable eq_refl) as [_ Hj].
  destruct (Hj eq_refl) as (w1 & w2 & E1 & _ & _ & E2 & Hgone & _).
  exists w1, w2. split; [exact E1|]. split; [exact E2|exact Hgone].
Defined.

Lemma exec_takes_least_free_pid_witness :
  ∃ w', ExecUpdate 0 host (Some [97]) 0 boot = Ok (1, w') ∧ inv w'.
Proof.
  destruct (exec_takes_least_free_pid 0 host boot (Some [97]) 0
    (mkProc InUser [109; 97; 105; 110] None) table_boot_ok eq_refl eq_refl) as (r & w' & E & Hi & _).
  assert (r = 1) as ->.
  { assert (match ExecUpdate 0 host (Some [97]) 0 boot with Ok (r, _) => r | Stop _ => 0 end = 1) as Er
      by (vm_compute; reflexivity).
    rewrite E in Er. exact Er. }
  exists w'. split; [exact E|exact Hi].
Defined.

(** The defects that [enabled] excludes.  A child that exits before it is
    joined leaves a dangling pointer in the table. *)
Lemma join_after_exit_dangles :
  do (RJoin 1) 0 (after (do (RExit 0) 1 execd)) = Stop Undefined.
Proof. vm_compute. reflexivity. Qed.

(** A child whose parent has exited follows that parent's dangling pointer:
    process 2 is the child of process 1. *)
Definition family : World BitMap.BitMap :=
  mkWorld (pTab execd) (<[1 := mkProc InUser [98] None]> (procs execd)) pages 1 Machine_new.
Lemma orphan_exit_dangles :
  do (RExit 0) 2 (after (do (RExit 0) 1 (after (do (RExec (Some [97])) 1 family)))) = Stop Undefined.
Proof. vm_compute. reflexivity. Qed.

(** [Exit] with a status other than 0 does nothing at all. *)
Lemma exit_with_error_returns {T} `{FreeMap T} st me (w : World T) :
  st ≠ 0 → handle_SC_Exit st me w = Ok w.
Proof. intros Hst. unfold handle_SC_Exit. by rewrite (proj2 (Z.eqb_neq st 0)). Qed.
End ProcessSpec.
