(* ===== verification/Floats.v ===== *)
(** * Numbers of type float in the system calls (userprog/exception.cc)

    The conversions of ReadFloat and PrintFloat between text and [float], on
    buffers of bytes.  A [float] is an IEEE number of 32 bits and each operation
    rounds to the nearest one, as SpecFloat of the Standard Library has them;
    a conversion to [int] cuts the fraction off and is undefined for a number
    that does not fit. *)

From S2P Require Import Prelude.
From Stdlib Require Import SpecFloat.

Module Floats.

(** ** Type float *)

Definition prec : Z := 24.
Definition emax : Z := 128.
Definition float : Type := spec_float.

Definition zero : float := S754_zero false.
Definition of_int (n : Z) : float := binary_normalize prec emax n 0 false.
Definition add : float → float → float := SFadd prec emax.
Definition sub : float → float → float := SFsub prec emax.
Definition mul : float → float → float := SFmul prec emax.
Definition div : float → float → float := SFdiv prec emax.

(** [(int) x] *)
Definition to_int (x : float) : res Z :=
  match x with
  | S754_zero _ => Ok 0
  | S754_finite s m e =>
      let n := cond_Zopp s (Z.shiftl (Z.pos m) e) in
      if (- two31 <=? n) && (n <? two31) then Ok n else Stop Undefined
  | _ => Stop Undefined
  end.

(** ** ReadFloat *)

(** The loop that checks the input, with [n] characters left: the last index of
    the number, [None] for an invalid one. *)
Fixpoint check_float (n : nat) (i lastIndex dotCount : Z) (buffer : list Z) : res (option Z) :=
  match n with
  | O => Ok (Some lastIndex)
  | S n' =>
      c ← arr_get buffer i;
      if c =? 46 then
        let dotCount := dotCount + 1 in
        if dotCount >? 1 then Ok None else check_float n' (i + 1) i dotCount buffer
      else if ((s8 c <? 48) || (s8 c >? 57)) && negb (c =? 45) then Ok None
      else check_float n' (i + 1) i dotCount buffer
  end.

(** The loop that computes the number, from the last of [n] characters on. *)
Fixpoint add_digits (n : nat) (firstIndex : Z) (buffer : list Z) (number multiplier : float) : res float :=
  match n with
  | O => Ok number
  | S n' =>
      c ← arr_get buffer (firstIndex + Z.of_nat n');
      if c =? 46 then add_digits n' firstIndex buffer number multiplier
      else if c =? 45 then add_digits n' firstIndex buffer number multiplier
      else
        let number := add number (mul (of_int (s8 c - 48)) multiplier) in
        add_digits n' firstIndex buffer number (mul multiplier (of_int 10))
  end.

(** The body of [ReadFloat] behind the call of [Read]; [None] for an invalid
    number. *)
Definition parse_float (buffer : list Z) (numbytes : Z) : res (option float) :=
  c ← arr_get buffer 0;
  let isNegative := c =? 45 in
  let firstIndex := if isNegative then 1 else 0 in
  last ← check_float (Z.to_nat (numbytes - firstIndex)) firstIndex firstIndex 0 buffer;
  match last with
  | None => Ok None
  | Some lastIndex =>
      number ← add_digits (Z.to_nat (lastIndex - firstIndex + 1)) firstIndex buffer zero (of_int 1);
      Ok (Some (if isNegative then mul number (of_int (-1)) else number))
  end.

(** ** PrintFloat *)

(** [do { intLength++; intPartLength /= 10; } while (intPartLength != 0)]: at
    most ten rounds for an [int]. *)
Fixpoint int_length (fuel : nat) (intPartLength intLength : Z) : res Z :=
  match fuel with
  | O => Stop OutOfFuel
  | S fuel' =>
      let intLength := intLength + 1 in
      let intPartLength := Z.quot intPartLength 10 in
      if intPartLength =? 0 then Ok intLength else int_length fuel' intPartLength intLength
  end.

(** The loop for the length of the fraction, with [n] rounds left. *)
Fixpoint frac_length (n : nat) (i : Z) (fracPart : float) : res (Z * float) :=
  match n with
  | O => Ok (6, fracPart)
  | S n' =>
      let fracPart := mul fracPart (of_int 10) in
      k ← to_int fracPart;
      if k =? 0 then Ok (i, fracPart) else frac_length n' (i + 1) fracPart
  end.

(** The digits of the integer part, the last one first: one round of the fuel
    per byte of the buffer. *)
Fixpoint int_digits (fuel : nat) (idx : Z) (number : float) (buffer : list Z) : res (list Z) :=
  match fuel with
  | O => Stop OutOfFuel
  | S fuel' =>
      k ← to_int number;
      buffer ← arr_set buffer idx (u8 (48 + Z.rem k 10));
      let number := div number (of_int 10) in
      k ← to_int number;
      if k =? 0 then Ok buffer else int_digits fuel' (idx + 1) number buffer
  end.

(** One round of the loop that turns the digits round. *)
Definition swap_digits (intLength : Z) (i : Z) (buffer : list Z) : res (list Z) :=
  temp ← arr_get buffer i;
  c ← arr_get buffer (intLength - i - 1);
  buffer ← arr_set buffer i c;
  arr_set buffer (intLength - i - 1) temp.

(** The loop that writes the fraction, from index [i] on. *)
Fixpoint frac_digits (n : nat) (i : Z) (fracPart : float) (buffer : list Z) : res (list Z) :=
  match n with
  | O => Ok buffer
  | S n' =>
      k ← to_int fracPart;
      buffer ← arr_set buffer i (u8 (48 + Z.rem k 10));
      frac_digits n' (i + 1) (div fracPart (of_int 10)) buffer
  end.

(** The text of [PrintFloat] and its length, for a number other than 0.0;
    [heap] is what new memory holds. *)
Definition format_float (heap : nat → Z) (number : float) : res (list Z * Z) :=
  let isNegative := SFltb number zero in
  let number := if isNegative then SFopp number else number in
  intPart ← to_int number;
  intLength ← int_length 11 intPart 0;
  '(fracLength, fracPart) ← frac_length 6 0 (sub number (of_int intPart));
  let totalLength := intLength + 1 + fracLength in
  let buffer := (λ i, u8 (heap i)) <$> seq 0 (Z.to_nat (totalLength + 1)) in
  buffer ← int_digits (S (length buffer)) 0 number buffer;
  buffer ← for_loop (Z.to_nat (Z.quot intLength 2)) 0 (swap_digits intLength) buffer;
  buffer ← arr_set buffer intLength 46;
  buffer ← frac_digits (Z.to_nat fracLength) (intLength + 1) fracPart buffer;
  buffer ← arr_set buffer totalLength 0;
  buffer ← (if isNegative then arr_set buffer 0 45 else Ok buffer);
  Ok (buffer, totalLength).

(** ** Whole numbers that a float holds exactly *)

(** The float of [z], [0 < z < 2 ^ 24]: 24 digits, the first one 1. *)
Definition shift_of (z : Z) : Z := 23 - Z.log2 z.
Definition whole (s : bool) (z : Z) : float := S754_finite s (Z.to_pos (z * 2 ^ shift_of z)) (- shift_of z).

Lemma digits2_log2 p : Z.pos (digits2_pos p) = Z.log2 (Z.pos p) + 1.
Proof.
  induction p as [p IH|p IH|]; cbn [digits2_pos]; [| |done]; rewrite Pos2Z.inj_succ, IH.
  - rewrite (Pos2Z.inj_xI p), Z.log2_succ_double by lia. lia.
  - rewrite (Pos2Z.inj_xO p), Z.log2_double by lia. lia.
Qed.

Lemma iter_pos_nat {A} (f : A → A) p x : iter_pos f p x = Nat.iter (Pos.to_nat p) f x.
Proof.
  assert (∀ n m (y : A), Nat.iter (n + m) f y = Nat.iter n f (Nat.iter m f y)) as Hadd.
  { intros n m y. induction n as [|n IH]; simpl; congruence. }
  revert x. induction p as [p IH|p IH|]; intros x; cbn [iter_pos]; [| |done].
  - rewrite !IH, <- Hadd. replace (Pos.to_nat p~1) with (Pos.to_nat p + Pos.to_nat p + 1)%nat by lia. by rewrite (Hadd _ 1%nat).
  - rewrite !IH, <- Hadd. f_equal. lia.
Qed.

Lemma pos_iter_xO m d : Z.pos (Pos.iter xO m d) = Z.pos m * 2 ^ Z.pos d.
Proof.
  induction d as [|d IH] using Pos.peano_ind; [simpl; lia|].
  rewrite Pos.iter_succ, Pos2Z.inj_xO, IH, Pos2Z.inj_succ, Z.pow_succ_r by lia. lia.
Qed.

(** Shifting right cuts the last digits off, exactly when they are zeros. *)
Lemma shr_1_half r : 0 ≤ shr_m r → shr_m (shr_1 r) = shr_m r / 2 ∧ 0 ≤ shr_m (shr_1 r).
Proof.
  destruct r as [m r s]. simpl. intros Hm. destruct m as [|[p|p|]|p]; simpl; try (split; [done|lia]).
  - split; [|lia]. rewrite (Pos2Z.inj_xI p). apply (Z.div_unique_pos _ _ _ 1); lia.
  - split; [|lia]. rewrite (Pos2Z.inj_xO p). apply (Z.div_unique_pos _ _ _ 0); lia.
Qed.

Lemma shr_half n r : 0 ≤ shr_m r → shr_m (Nat.iter n shr_1 r) = shr_m r / 2 ^ Z.of_nat n.
Proof.
  intros Hr. enough (shr_m (Nat.iter n shr_1 r) = shr_m r / 2 ^ Z.of_nat n ∧ 0 ≤ shr_m (Nat.iter n shr_1 r)) by tauto.
  induction n as [|n [IH Hn]]; [by rewrite Z.div_1_r|].
  change (Nat.iter (S n) shr_1 r) with (shr_1 (Nat.iter n shr_1 r)).
  destruct (shr_1_half _ Hn) as [-> H0]. split; [|done]. rewrite IH, Nat2Z.inj_succ, Z.pow_succ_r by lia.
  rewrite Z.mul_comm, Z.div_div by lia. done.
Qed.

Lemma shr_exact n z : 0 ≤ z → Nat.iter n shr_1 (Build_shr_record (z * 2 ^ Z.of_nat n) false false) = Build_shr_record z false false.
Proof.
  intros Hz. revert z Hz. induction n as [|n IH]; intros z Hz; [by rewrite Z.mul_1_r|].
  change (Nat.iter (S n) shr_1 ?r) with (shr_1 (Nat.iter n shr_1 r)).
  rewrite Nat2Z.inj_succ, Z.pow_succ_r by lia. replace (z * (2 * 2 ^ Z.of_nat n)) with (2 * z * 2 ^ Z.of_nat n) by lia.
  rewrite IH by lia. destruct z as [|p|p]; [done|done|lia].
Qed.

Lemma shr_nat r e n : 0 ≤ n → shr r e n = (Nat.iter (Z.to_nat n) shr_1 r, e + n).
Proof.
  intros Hn. destruct n as [|p|p]; [by rewrite Z.add_0_r| |lia]. cbn [shr]. rewrite iter_pos_nat. done.
Qed.

Lemma Zdigits2_log2 m : 0 < m → Zdigits2 m = Z.log2 m + 1.
Proof. destruct m as [|p|p]; try lia. intros _. apply digits2_log2. Qed.

Lemma log2_range z : 0 < z < 2 ^ 24 → 0 ≤ Z.log2 z ≤ 23.
Proof.
  intros Hz. split; [apply Z.log2_nonneg|]. pose proof (Z.log2_lt_pow2 z 24). lia.
Qed.

(** The exponent of a number with [d] digits in front of the point. *)
Lemma fexp_digits d : 0 ≤ d → fexp prec emax d = d - 24.
Proof. intros Hd. unfold fexp, emin, prec, emax. lia. Qed.

Lemma round_exact s z j :
  0 < z < 2 ^ 24 → shift_of z ≤ j → binary_round_aux prec emax s (z * 2 ^ j) (- j) loc_Exact = whole s z.
Proof.
  intros Hz Hj. pose proof (log2_range z Hz) as Hl. unfold shift_of in Hj. unfold binary_round_aux, shr_fexp, shr_record_of_loc.
  assert (0 < z * 2 ^ j) as Hpos by (apply Z.mul_pos_pos; [lia|apply Z.pow_pos_nonneg; lia]).
  rewrite Zdigits2_log2, Z.log2_mul_pow2, fexp_digits by lia. rewrite shr_nat by lia.
  set (n := Z.to_nat _). replace (z * 2 ^ j) with (z * 2 ^ shift_of z * 2 ^ Z.of_nat n).
  2: { unfold shift_of, n. rewrite <- Z.mul_assoc, <- Z.pow_add_r by lia. f_equal. f_equal. lia. }
  assert (0 < z * 2 ^ shift_of z) as Hp2 by (apply Z.mul_pos_pos; [lia|apply Z.pow_pos_nonneg; unfold shift_of; lia]).
  rewrite shr_exact by lia. cbn [loc_of_shr_record round_nearest_even shr_m].
  rewrite Zdigits2_log2, Z.log2_mul_pow2, fexp_digits by (unfold shift_of; lia).
  match goal with |- context [shr _ _ ?x] => replace x with 0 by (unfold shift_of; lia) end.
  cbn [shr shr_m]. unfold whole.
  destruct (z * 2 ^ shift_of z) as [|p|p]; [lia| |lia]. cbn [Z.to_pos].
  match goal with |- context [S754_finite s p ?x] => replace x with (- shift_of z) by (unfold shift_of; lia) end.
  rewrite (proj2 (Z.leb_le _ _)); [done|]. unfold shift_of, emax, prec. lia.
Qed.

Lemma round_whole s z j :
  0 < z < 2 ^ 24 → 0 ≤ j → binary_round prec emax s (Z.to_pos (z * 2 ^ j)) (- j) = whole s z.
Proof.
  intros Hz Hj. pose proof (log2_range z Hz) as Hl. unfold binary_round.
  assert (0 < z * 2 ^ j) as Hpos by (apply Z.mul_pos_pos; [lia|apply Z.pow_pos_nonneg; lia]).
  rewrite digits2_log2, Z2Pos.id, Z.log2_mul_pow2, fexp_digits by lia. unfold shl_align.
  destruct (_ - - j) as [|d|d] eqn:E.
  - rewrite Z2Pos.id by done. apply round_exact; [done|unfold shift_of; lia].
  - rewrite Z2Pos.id by done. apply round_exact; [done|unfold shift_of; lia].
  - rewrite pos_iter_xO, Z2Pos.id by done.
    replace (z * 2 ^ j * 2 ^ Z.pos d) with (z * 2 ^ shift_of z).
    2: { rewrite <- Z.mul_assoc, <- Z.pow_add_r by lia. f_equal. f_equal. unfold shift_of. lia. }
    match goal with |- binary_round_aux _ _ _ _ ?x _ = _ => replace x with (- shift_of z) by (unfold shift_of; lia) end.
    by apply round_exact.
Qed.

(** Whole numbers below 2 ^ 24 are exact, and so are their sums and products. *)
Lemma of_int_pos z : 0 < z < 2 ^ 24 → of_int z = whole false z.
Proof.
  intros Hz. unfold of_int. destruct z as [|p|p]; [lia| |lia]. cbn [binary_normalize].
  rewrite <- (round_whole false (Z.pos p) 0) by lia. by rewrite Z.mul_1_r.
Qed.
Lemma of_int_neg z : 0 < z < 2 ^ 24 → of_int (- z) = whole true z.
Proof.
  intros Hz. unfold of_int. destruct z as [|p|p]; [lia| |lia]. cbn [binary_normalize Z.opp].
  rewrite <- (round_whole true (Z.pos p) 0) by lia. by rewrite Z.mul_1_r.
Qed.

Lemma normalize_whole z j : 0 < z < 2 ^ 24 → 0 ≤ j → binary_normalize prec emax (z * 2 ^ j) (- j) false = whole false z.
Proof.
  intros Hz Hj. assert (0 < z * 2 ^ j) as Hpos by (apply Z.mul_pos_pos; [lia|apply Z.pow_pos_nonneg; lia]).
  rewrite <- (round_whole false z j) by done. by destruct (z * 2 ^ j) as [|p|p]; [lia| |lia].
Qed.

Lemma mul_whole s a t b :
  0 < a → 0 < b → a * b < 2 ^ 24 → mul (whole s a) (whole t b) = whole (xorb s t) (a * b).
Proof.
  intros Ha Hb Hab. assert (0 < a * b) as Hp by lia. assert (0 < a < 2 ^ 24) as Ha' by nia. assert (0 < b < 2 ^ 24) as Hb' by nia.
  pose proof (log2_range a Ha') as La. pose proof (log2_range b Hb') as Lb.
  assert (∀ z, 0 < z < 2 ^ 24 → 0 < z * 2 ^ shift_of z) as Hpos.
  { intros z Hz. apply Z.mul_pos_pos; [lia|]. apply Z.pow_pos_nonneg; [lia|]. pose proof (log2_range z Hz). unfold shift_of. lia. }
  unfold mul, whole at 1 2. cbn [SFmul]. rewrite Pos2Z.inj_mul, !Z2Pos.id by auto.
  replace (a * 2 ^ shift_of a * (b * 2 ^ shift_of b)) with (a * b * 2 ^ (shift_of a + shift_of b)).
  2: { rewrite Z.pow_add_r by (unfold shift_of; lia). lia. }
  replace (- shift_of a + - shift_of b) with (- (shift_of a + shift_of b)) by lia.
  apply round_exact; [lia|]. pose proof (Z.log2_mul_below a b Ha Hb) as Hbelow. unfold shift_of. lia.
Qed.

Lemma shl_whole z ez :
  0 < z < 2 ^ 24 → ez ≤ - shift_of z →
  Z.pos (fst (shl_align (Z.to_pos (z * 2 ^ shift_of z)) (- shift_of z) ez)) = z * 2 ^ (- ez).
Proof.
  intros Hz He. pose proof (log2_range z Hz) as Hl.
  assert (0 < z * 2 ^ shift_of z) as Hp2 by (apply Z.mul_pos_pos; [lia|apply Z.pow_pos_nonneg; unfold shift_of; lia]).
  unfold shl_align. destruct (ez - - shift_of z) as [|d|d] eqn:E; [|lia|]; cbn [fst].
  - rewrite Z2Pos.id by done. f_equal. f_equal. lia.
  - rewrite pos_iter_xO, Z2Pos.id by done. rewrite <- Z.mul_assoc, <- Z.pow_add_r by (unfold shift_of; lia).
    f_equal. f_equal. lia.
Qed.

Lemma add_whole a b : 0 < a → 0 < b → a + b < 2 ^ 24 → add (whole false a) (whole false b) = whole false (a + b).
Proof.
  intros Ha Hb Hab. unfold add, whole at 1 2. cbn [SFadd cond_Zopp].
  rewrite !shl_whole by lia. rewrite <- Z.mul_add_distr_r.
  set (ez := Z.min _ _). rewrite <- (Z.opp_involutive ez) at 2. apply normalize_whole; [lia|].
  pose proof (log2_range a). unfold ez, shift_of. lia.
Qed.

(** No rounding makes a number of an [int] zero. *)
Lemma shr_fexp_pos m e l :
  0 < m → 0 ≤ Z.log2 m + 1 + e → 0 < shr_m (shr_fexp prec emax m e l).1 ∧ e ≤ (shr_fexp prec emax m e l).2.
Proof.
  intros Hm He. unfold shr_fexp. rewrite Zdigits2_log2, fexp_digits by done.
  assert (shr_m (shr_record_of_loc m l) = m) as E by (by destruct l as [|[]]).
  destruct (Z.le_gt_cases (Z.log2 m + 1 + e - 24 - e) 0) as [Hn|Hn].
  - assert (shr (shr_record_of_loc m l) e (Z.log2 m + 1 + e - 24 - e) = (shr_record_of_loc m l, e)) as ->.
    { by destruct (_ - e) eqn:En; [|lia|]. }
    simpl. rewrite E. lia.
  - rewrite shr_nat by lia. cbn [fst snd]. rewrite shr_half by lia. rewrite E, Z2Nat.id by lia. split; [|lia].
    apply Z.div_str_pos. split; [apply Z.pow_pos_nonneg; lia|].
    apply Z.le_trans with (2 ^ Z.log2 m); [apply Z.pow_le_mono_r; lia|by apply Z.log2_spec].
Qed.

Lemma of_int_nonzero n : n ≠ 0 → SFeqb (of_int n) zero = false.
Proof.
  intros Hn. assert (∀ s p, SFeqb (binary_round prec emax s p 0) zero = false) as Hround.
  { intros s p. unfold binary_round. destruct (shl_align p 0 _) as [mz ez] eqn:Es.
    pose proof (Z.log2_nonneg (Z.pos p)) as Hlp.
    assert (0 ≤ Z.log2 (Z.pos mz) + 1 + ez) as Hez.
    { rewrite digits2_log2, fexp_digits in Es by lia. unfold shl_align in Es.
      set (x := Z.log2 (Z.pos p) + 1 + 0 - 24) in Es.
      destruct (x - 0) as [|d|d] eqn:Ed; apply pair_equal_spec in Es as [<- <-]; try lia.
      rewrite pos_iter_xO, Z.log2_mul_pow2 by lia. lia. }
    unfold binary_round_aux.
    destruct (shr_fexp_pos (Z.pos mz) ez loc_Exact) as [H1 H2]; [done|done|].
    destruct (shr_fexp prec emax (Z.pos mz) ez loc_Exact) as [mrs e1] eqn:E1. cbn [fst snd] in *.
    set (r := round_nearest_even _ _).
    assert (shr_m mrs ≤ r) as Hr by (unfold r; destruct (loc_of_shr_record mrs) as [|[]]; simpl; repeat case_match; lia).
    destruct (shr_fexp_pos r e1 loc_Exact) as [H3 H4]; [lia|..].
    { (* the shifted number has its digits in front of the point *)
      pose proof (Z.log2_le_mono _ _ Hr). unfold shr_fexp in E1.
      rewrite Zdigits2_log2, fexp_digits in E1 by done.
      destruct (Z.le_gt_cases (Z.log2 (Z.pos mz) + 1 + ez - 24 - ez) 0) as [Hle|Hgt].
      - assert (mrs = Build_shr_record (Z.pos mz) false false ∧ e1 = ez) as [-> ->].
        { set (x := Z.log2 (Z.pos mz) + 1 + ez - 24) in *.
          destruct (x - ez) eqn:En; [|lia|]; apply pair_equal_spec in E1 as [<- <-]; done. }
        simpl in *. lia.
      - rewrite shr_nat in E1 by lia. apply pair_equal_spec in E1 as [E1 <-].
        assert (shr_m mrs = Z.pos mz / 2 ^ (Z.log2 (Z.pos mz) - 23)) as Em.
        { rewrite <- E1, shr_half by done. cbn [shr_m shr_record_of_loc]. do 2 f_equal. lia. }
        rewrite <- Z.shiftr_div_pow2 in Em by lia. pose proof (Z.log2_shiftr (Z.pos mz) (Z.log2 (Z.pos mz) - 23)) as Hls.
        rewrite <- Em in Hls. lia. }
    destruct (shr_fexp prec emax r e1 loc_Exact) as [mrs2 e2]. cbn [fst snd] in *.
    destruct (shr_m mrs2) as [|q|q]; [lia| |lia]. case_match; by destruct s. }
  unfold of_int. destruct n as [|p|p]; [done|apply Hround..].
Qed.

(** ** What ReadFloat makes of a number *)

Lemma of_int_0 : of_int 0 = zero.
Proof. done. Qed.

Lemma add_int a b : 0 ≤ a → 0 ≤ b → a + b < 2 ^ 24 → add (of_int a) (of_int b) = of_int (a + b).
Proof.
  intros Ha Hb Hab. destruct (decide (a = 0)) as [->|Hna], (decide (b = 0)) as [->|Hnb]; try done.
  - by rewrite of_int_0, Z.add_0_l, (of_int_pos b) by lia.
  - by rewrite of_int_0, Z.add_0_r, (of_int_pos a) by lia.
  - rewrite !of_int_pos by lia. apply add_whole; lia.
Qed.

Lemma mul_int a b : 0 ≤ a < 2 ^ 24 → 0 < b < 2 ^ 24 → a * b < 2 ^ 24 → mul (of_int a) (of_int b) = of_int (a * b).
Proof.
  intros Ha Hb Hab. destruct (decide (a = 0)) as [->|Hna].
  - by rewrite of_int_0, Z.mul_0_l, (of_int_pos b) by lia.
  - rewrite !of_int_pos by (split; [nia|lia]). apply mul_whole; lia.
Qed.

Lemma to_int_whole s z : 0 < z < 2 ^ 24 → to_int (whole s z) = Ok (cond_Zopp s z).
Proof.
  intros Hz. pose proof (log2_range z Hz) as Hl. unfold to_int, whole.
  assert (0 < z * 2 ^ shift_of z) as Hp2 by (apply Z.mul_pos_pos; [lia|apply Z.pow_pos_nonneg; unfold shift_of; lia]).
  rewrite Z2Pos.id, Z.shiftl_opp_r, Z.shiftr_div_pow2, Z.div_mul by (unfold shift_of; try lia; apply Z.pow_nonzero; lia).
  destruct s; cbn [cond_Zopp]; rewrite (proj2 (Z.leb_le _ _)), (proj2 (Z.ltb_lt _ _)) by (unfold two31; lia); done.
Qed.

(** The value of [n] read with this sign. *)
Lemma to_int_signed (neg : bool) n :
  0 ≤ n < 2 ^ 24 → to_int (if neg then mul (of_int n) (of_int (-1)) else of_int n) = Ok (if neg then - n else n).
Proof.
  intros Hn. destruct (decide (n = 0)) as [->|Hne]; [by destruct neg|]. rewrite of_int_pos by lia. destruct neg.
  - change (of_int (-1)) with (whole true 1). rewrite mul_whole, Z.mul_1_r by lia. by rewrite to_int_whole by lia.
  - by rewrite to_int_whole by lia.
Qed.

(** Digits and at most one point. *)
Definition float_char (c : Z) : Prop := 48 ≤ c < 58 ∨ c = 46.
Definition digits_of (l : list Z) : list Z := filter (λ c, c ≠ 46) l.
Definition value_of (ds : list Z) : Z := foldl (λ x c, x * 10 + (c - 48)) 0 ds.
Definition points (l : list Z) : nat := length (filter (λ c, c = 46) l).

Lemma value_of_snoc ds c : value_of (ds ++ [c]) = value_of ds * 10 + (c - 48).
Proof. unfold value_of. by rewrite foldl_snoc. Qed.

Lemma value_of_range ds : Forall (λ c, 48 ≤ c < 58) ds → 0 ≤ value_of ds < 10 ^ Z.of_nat (length ds).
Proof.
  induction ds as [|c ds IH] using rev_ind; intros Hds; [done|]. apply Forall_app in Hds as [Hds Hc].
  apply Forall_cons in Hc as [Hc _]. specialize (IH Hds).
  rewrite value_of_snoc, length_app, Nat2Z.inj_add. change (Z.of_nat (length [c])) with 1. rewrite Z.pow_add_r, Z.pow_1_r by lia. lia.
Qed.

Lemma digits_of_digits l : Forall float_char l → Forall (λ c, 48 ≤ c < 58) (digits_of l).
Proof.
  intros Hl. apply Forall_forall. intros c Hc. unfold digits_of in Hc. rewrite list_elem_of_filter in Hc.
  destruct Hc as [Hne Hc]. rewrite Forall_forall in Hl. by destruct (Hl c Hc).
Qed.

Lemma check_float_ok l : ∀ i lastIndex dots buffer pre rest,
  buffer = pre ++ l ++ rest → i = Z.of_nat (length pre) → Forall float_char l → 0 ≤ dots → dots + Z.of_nat (points l) ≤ 1 →
  check_float (length l) i lastIndex dots buffer =
    Ok (Some (if bool_decide (l = []) then lastIndex else i + Z.of_nat (length l) - 1)).
Proof.
  induction l as [|c l IH]; intros i lastIndex dots buffer pre rest Hb Hi Hl Hd Hp; [done|].
  apply Forall_cons in Hl as [Hc Hl]. cbn [length check_float].
  assert (buffer !! length pre = Some c) as Hlook by (rewrite Hb; by apply list_lookup_middle).
  rewrite (arr_get_in buffer i c) by (rewrite ?Hi, ?Nat2Z.id; done || lia). simpl_res.
  assert (∀ dots', 0 ≤ dots' → dots' + Z.of_nat (points l) ≤ 1 → check_float (length l) (i + 1) i dots' buffer =
    Ok (Some (i + Z.of_nat (S (length l)) - 1))) as Hnext.
  { intros dots' H1 H2. rewrite (IH (i + 1) i dots' buffer (pre ++ [c]) rest); try done.
    - do 2 f_equal. case_bool_decide as E; [subst l; simpl; lia|lia].
    - by rewrite Hb, <- app_assoc.
    - rewrite length_app. simpl. lia. }
  unfold points in Hp. destruct (Z.eqb_spec c 46) as [->|Hne].
  - rewrite filter_cons_True in Hp by done. simpl length in Hp. rewrite Z.gtb_ltb, (proj2 (Z.ltb_ge _ _)) by lia.
    apply Hnext; [lia|unfold points; lia].
  - rewrite filter_cons_False in Hp by done. destruct Hc as [Hc|?]; [|done].
    assert (s8 c = c) as -> by (unfold s8; rewrite Z.mod_small; lia).
    rewrite (proj2 (Z.ltb_ge c 48)), (Z.gtb_ltb c), (proj2 (Z.ltb_ge _ _)) by lia. cbn [orb andb]. by apply Hnext.
Qed.

Lemma add_digits_ok l : ∀ k v buffer pre rest,
  buffer = pre ++ l ++ rest → Forall float_char l → (length (digits_of l) + k ≤ 7)%nat → 0 ≤ v < 10 ^ Z.of_nat k →
  add_digits (length l) (Z.of_nat (length pre)) buffer (of_int v) (of_int (10 ^ Z.of_nat k)) =
    Ok (of_int (value_of (digits_of l) * 10 ^ Z.of_nat k + v)).
Proof.
  induction l as [|c l IH] using rev_ind; intros k v buffer pre rest Hb Hl Hk Hv; [done|].
  apply Forall_app in Hl as [Hl Hc]. apply Forall_cons in Hc as [Hc _]. rewrite length_app, Nat.add_1_r. cbn [add_digits].
  assert (buffer !! (length pre + length l)%nat = Some c) as Hlook.
  { rewrite Hb, <- app_assoc, lookup_app_r by lia. replace (length pre + length l - length pre)%nat with (length l) by lia.
    by apply list_lookup_middle. }
  rewrite (arr_get_in buffer _ c) by (rewrite <- ?Nat2Z.inj_add, ?Nat2Z.id; done || lia). simpl_res.
  unfold digits_of in *. rewrite filter_app in *.
  assert (buffer = pre ++ l ++ [c] ++ rest) as Hb' by (by rewrite Hb, <- app_assoc).
  destruct (Z.eqb_spec c 46) as [->|Hne].
  - rewrite (filter_cons_False _ 46), filter_nil, app_nil_r in * by lia. by apply (IH k v buffer pre ([46] ++ rest)).
  - destruct Hc as [Hc|?]; [|done]. rewrite (filter_cons_True _ c), filter_nil, length_app in * by done.
    cbn [length] in Hk. rewrite (proj2 (Z.eqb_neq c 45)) by lia.
    assert (s8 c = c) as -> by (unfold s8; rewrite Z.mod_small; lia).
    assert (10 ^ Z.of_nat (S k) = 10 * 10 ^ Z.of_nat k) as E10 by (rewrite Nat2Z.inj_succ, Z.pow_succ_r by lia; lia).
    assert (10 * 10 ^ Z.of_nat k ≤ 10 ^ 7) as Hpow.
    { rewrite <- E10. apply Z.pow_le_mono_r; lia. }
    assert (0 < 10 ^ Z.of_nat k) as Hpos by (apply Z.pow_pos_nonneg; lia).
    assert (2 ^ 24 = 16777216) as E24 by done. assert (10 ^ 7 = 10000000) as E7 by done.
    rewrite (mul_int (c - 48)), add_int, (mul_int (10 ^ Z.of_nat k)) by nia.
    replace (10 ^ Z.of_nat k * 10) with (10 ^ Z.of_nat (S k)) by lia.
    rewrite (IH (S k) _ buffer pre ([c] ++ rest)); [|done|done|lia|nia].
    f_equal. f_equal. rewrite value_of_snoc. lia.
Qed.

(** A number of at most seven digits is read without its point: "1.5" is 15. *)
Lemma parse_float_digits (neg : bool) l rest :
  l ≠ [] → Forall float_char l → (points l ≤ 1)%nat → (length (digits_of l) ≤ 7)%nat →
  let text := (if neg then [45] else []) ++ l in
  ∃ x, parse_float (text ++ rest) (Z.of_nat (length text)) = Ok (Some x) ∧
    to_int x = Ok (if neg then - value_of (digits_of l) else value_of (digits_of l)).
Proof.
  intros Hne Hl Hp Hd text. set (pre := if neg then [45] else []) in *.
  assert (Z.of_nat (length pre) = if neg then 1 else 0) as Epre by (by destruct neg).
  assert (arr_get (text ++ rest) 0 = Ok (if neg then 45 else default 0 (head l)) ∧ (neg = false → default 0 (head l) ≠ 45)) as [E0 H45].
  { split.
    - unfold text, pre. destruct neg; [done|]. destruct l as [|c l]; [done|]. done.
    - intros _. destruct l as [|c l]; [done|]. apply Forall_cons in Hl as [Hc _]. simpl. destruct Hc; lia. }
  unfold parse_float. rewrite E0. simpl_res.
  assert ((if neg then 45 else default 0 (head l)) =? 45 = neg) as ->.
  { destruct neg; [done|]. by apply Z.eqb_neq, H45. }
  rewrite <- Epre.
  assert (Z.to_nat (Z.of_nat (length text) - Z.of_nat (length pre)) = length l) as ->.
  { unfold text. rewrite length_app. lia. }
  rewrite (check_float_ok l _ _ 0 _ pre rest); [|by unfold text; rewrite <- app_assoc|done|done|done|lia]. simpl_res.
  rewrite bool_decide_eq_false_2 by done.
  replace (Z.to_nat _) with (length l) by lia. change zero with (of_int 0). change (of_int 1) with (of_int (10 ^ Z.of_nat 0)).
  rewrite (add_digits_ok l 0 0 _ pre rest); [|by unfold text; rewrite <- app_assoc|done|lia|done]. simpl_res.
  rewrite Z.mul_1_r, Z.add_0_r. eexists. split; [reflexivity|]. apply to_int_signed.
  pose proof (value_of_range _ (digits_of_digits l Hl)) as Hv.
  assert (10 ^ Z.of_nat (length (digits_of l)) ≤ 10 ^ 7) by (apply Z.pow_le_mono_r; lia). lia.
Qed.

(** ** What PrintFloat displays *)

(** Numbers of up to three digits: the digits and a point, but a minus sign
    stands where the first digit was. *)
Definition display (n : Z) : list Z :=
  match decimal (Z.abs n) ++ [46] with c :: l => (if n <? 0 then 45 else c) :: l | [] => [] end.

Definition displays (n : Z) : bool :=
  match format_float (λ _, 0) (of_int n) with
  | Ok (buffer, len) => bool_decide (take (Z.to_nat len) buffer = display n)
  | Stop _ => false
  end.

Lemma print_float_small n : -1000 < n < 1000 → n ≠ 0 → displays n = true.
Proof.
  intros Hn Hne. assert (forallb (λ n, displays n || (n =? 0)) (seqZ (-999) 1999) = true) as Hall by (vm_compute; done).
  rewrite forallb_forall in Hall. specialize (Hall n). rewrite orb_true_iff, Z.eqb_eq in Hall.
  destruct Hall; [|done|done]. apply list_elem_of_In, elem_of_seqZ. lia.
Qed.
End Floats.
