(* ===== verification/Exception.v ===== *)
(** * System calls (userprog/exception.cc)

    The handlers of the system calls, over the machine, the console (the
    interface [SynchCons]), the UNIX files of the stub file system, the named
    semaphores and the process table.  The view is that of the calling thread:
    a call in which it goes to sleep (Join, Exit, Down on a semaphore of value
    0) ends with [WouldBlock]; what happens then is in Thread.v and Process.v. *)

From S2P Require Import Prelude NList Bitmap Machine MipsSim UnixFS Directory AddrSpace Console STable Process Floats.
From Stdlib Require Import SpecFloat.

Module Exception.

Definition SC_Halt : Z := 0.
Definition SC_Exit : Z := 1.
Definition SC_Exec : Z := 2.
Definition SC_Join : Z := 3.
Definition SC_ReadInt : Z := 11.
Definition SC_PrintInt : Z := 12.
Definition SC_ReadFloat : Z := 13.
Definition SC_PrintFloat : Z := 14.
Definition SC_ReadChar : Z := 15.
Definition SC_PrintChar : Z := 16.
Definition SC_ReadString : Z := 17.
Definition SC_PrintString : Z := 18.
Definition SC_CreateFile : Z := 19.
Definition SC_OpenFile : Z := 20.
Definition SC_ReadFile : Z := 21.
Definition SC_WriteFile : Z := 22.
Definition SC_CloseFile : Z := 23.
Definition SC_CreateSemaphore : Z := 24.
Definition SC_Up : Z := 25.
Definition SC_Down : Z := 26.

Definition MaxFileLength : Z := 32.
Definition MAX_FILENAME_LEN : Z := 200.
Definition MAX_FILECONTENT_LEN : Z := 2000.

(** The kernel's globals, as far as system calls use them; [pid] is
    [currentThread->processID]. *)
Record Globals (C T W : Type) := mkGlobals {
  gSynchConsole : C;
  fileSystem : StubFS.FileSystem;
  semTab : STable.STable T;
  sems : W;
  world : Process.World T;
  pid : Z;
  status : MachineStatus;
}.
Arguments mkGlobals {C T W}.
Arguments gSynchConsole {C T W}.
Arguments fileSystem {C T W}.
Arguments semTab {C T W}.
Arguments sems {C T W}.
Arguments world {C T W}.
Arguments pid {C T W}.
Arguments status {C T W}.

(** [strlen]: a buffer without a NUL is read past its end. *)
Definition strlen (s : list Z) : res Z :=
  if bool_decide (0 ∈ s) then Ok (Z.of_nat (length (Directory.until_nul s))) else Stop Undefined.

(** A kernel buffer holds bytes; the console deals in values of type [char],
    which is signed. *)
Definition to_chars (buf : list Z) : list Z := s8 <$> buf.
Definition to_bytes (cs : list Z) : list Z := u8 <$> cs.
Definition set_char (buf : list Z) (i c : Z) : res (list Z) := arr_set buf i (u8 c).

(** ** Numbers in decimal *)

(** All of the [n] characters from [j] on are zeros. *)
Fixpoint zeros_from (n : nat) (j : Z) (buffer : list Z) : res bool :=
  match n with
  | O => Ok true
  | S n' => c ← arr_get buffer j; if negb (c =? 48) then Ok false else zeros_from n' (j + 1) buffer
  end.

(** The loop that checks the input of [ReadInt], with [n] characters left: the
    last index of the number, [None] for an invalid one. *)
Fixpoint check_int (n : nat) (i lastIndex : Z) (buffer : list Z) : res (option Z) :=
  match n with
  | O => Ok (Some lastIndex)
  | S n' =>
      c ← arr_get buffer i;
      if c =? 46 then
        valid ← zeros_from n' (i + 1) buffer; Ok (if (valid : bool) then Some (i - 1) else None)
      else if (s8 c <? 48) && (s8 c >? 57) then Ok None
      else check_int n' (i + 1) i buffer
  end.

(** One round of the loop that computes the number. *)
Definition add_digit (buffer : list Z) (i number : Z) : res Z :=
  c ← arr_get buffer i; Ok (s32 (number * 10 + (s8 c - 48))).

(** The body of [ReadInt] behind the call of [Read]. *)
Definition parse_int (buffer : list Z) (numbytes : Z) : res Z :=
  c ← arr_get buffer 0;
  let isNegative := c =? 45 in
  let firstIndex := if isNegative then 1 else 0 in
  last ← check_int (Z.to_nat (numbytes - firstIndex)) firstIndex firstIndex buffer;
  match last with
  | None => Ok 0
  | Some lastIndex =>
      number ← for_loop (Z.to_nat (lastIndex - firstIndex + 1)) firstIndex (add_digit buffer) 0;
      Ok (if isNegative then s32 (number * -1) else number)
  end.

(** [while (tmp) { numLength++; tmp /= 10; }]: at most ten rounds for an [int]. *)
Fixpoint count_digits (fuel : nat) (tmp numLength : Z) : res Z :=
  match fuel with
  | O => Stop OutOfFuel
  | S fuel' =>
      if tmp =? 0 then Ok numLength else count_digits fuel' (Z.quot tmp 10) (numLength + 1)
  end.

(** The loop that writes the digits, from the last one down to [firstIndex]. *)
Fixpoint put_digits (n : nat) (firstIndex number : Z) (buffer : list Z) : res (list Z) :=
  match n with
  | O => Ok buffer
  | S n' =>
      buffer ← set_char buffer (firstIndex + Z.of_nat n') (Z.rem number 10 + 48);
      put_digits n' firstIndex (Z.quot number 10) buffer
  end.

(** The text of [PrintInt] and its length, for a number other than 0; [buffer]
    is [new char[256]]. *)
Definition format_int (number : Z) (buffer : list Z) : res (list Z * Z) :=
  let isNegative := number <? 0 in
  let firstIndex := if isNegative then 1 else 0 in
  let number := if isNegative then s32 (number * -1) else number in
  numLength ← count_digits 11 number 0;
  buffer ← put_digits (Z.to_nat numLength) firstIndex number buffer;
  if isNegative then
    buffer ← set_char buffer 0 45;
    buffer ← set_char buffer (numLength + 1) 0;
    Ok (buffer, numLength + 1)
  else
    buffer ← set_char buffer numLength 0;
    Ok (buffer, numLength).

(** ** The handlers *)

Section handlers.
Context {C T W : Type} `{SynchCons C} `{FreeMap T} `{!SemOps W}.
Notation K := (Globals C T W).
Notation St := (Machine * K)%type.

(** What uninitialised memory holds: [heap] new objects, [oneChar] the local
    variable of [User2System], [garbage_type] see StubFS.Open. *)
Context (heap : nat → Z) (oneChar garbage_type : Z).

Definition new_char (n : Z) : list Z := (λ i, u8 (heap i)) <$> seq 0 (Z.to_nat n).

Definition with_console (st : St) (c : C) : St :=
  let '(m, k) := st in
  (m, mkGlobals c (fileSystem k) (semTab k) (sems k) (world k) (pid k) (status k)).
Definition with_files (st : St) (fs : StubFS.FileSystem) : St :=
  let '(m, k) := st in
  (m, mkGlobals (gSynchConsole k) fs (semTab k) (sems k) (world k) (pid k) (status k)).
Definition with_sems (st : St) (t : STable.STable T) (w : W) : St :=
  let '(m, k) := st in
  (m, mkGlobals (gSynchConsole k) (fileSystem k) t w (world k) (pid k) (status k)).
Definition with_world (st : St) (w : Process.World T) : St :=
  let '(m, k) := st in
  (m, mkGlobals (gSynchConsole k) (fileSystem k) (semTab k) (sems k) w (pid k) (status k)).
Definition set_status (s : MachineStatus) (k : K) : K :=
  mkGlobals (gSynchConsole k) (fileSystem k) (semTab k) (sems k) (world k) (pid k) s.

Definition read_reg (st : St) (r : Z) : res Z := ReadRegister st.1 r.
Definition write_reg (st : St) (r v : Z) : res St := m ← WriteRegister st.1 r v; Ok (m, st.2).

Definition IncrementR (st : St) : res St :=
  counter ← read_reg st PCReg;
  st ← write_reg st PrevPCReg counter;
  counter ← read_reg st NextPCReg;
  st ← write_reg st PCReg counter;
  write_reg st NextPCReg (s32 (counter + 4)).

(** The exception handler as the memory accesses of a handler see it: they
    raise no system call. *)
Definition fault (which : ExceptionType) (st : St) : res St :=
  _ ← read_reg st 2;
  match which with
  | PageFaultException => Stop Halted
  | SyscallException => Stop Undefined
  | _ => Ok st
  end.
#[local] Instance fault_kernel : Kernel K := {|
  setStatus := set_status;
  ExceptionHandler := fault;
|}.

Definition user2system (virtAddr limit : Z) (st : St) : res (list Z * St) :=
  User2System oneChar virtAddr limit st.
Definition system2user (virtAddr len : Z) (buffer : list Z) (st : St) : res (Z * St) :=
  System2User virtAddr len buffer st.

Definition console_read (into : list Z) (numBytes : Z) (st : St) : res (Z * list Z * St) :=
  '(n, into, c) ← con_read (to_chars into) numBytes (gSynchConsole st.2);
  Ok (n, to_bytes into, with_console st c).
Definition console_write (from : list Z) (numBytes : Z) (st : St) : res (Z * St) :=
  '(n, c) ← con_write (to_chars from) numBytes (gSynchConsole st.2); Ok (n, with_console st c).

Definition handle_SC_ReadInt (st : St) : res St :=
  '(numbytes, buffer, st) ← console_read (new_char 256) 255 st;
  number ← parse_int buffer numbytes;
  write_reg st 2 number.

Definition handle_SC_PrintInt (st : St) : res St :=
  number ← read_reg st 4;
  if number =? 0 then '(_, st) ← console_write [48; 0] 1 st; Ok st
  else
    '(buffer, n) ← format_int number (new_char 256);
    '(_, st) ← console_write buffer n st; Ok st.

Definition handle_SC_ReadFloat (st : St) : res St :=
  '(numbytes, buffer, st) ← console_read (new_char 256) 255 st;
  number ← Floats.parse_float buffer numbytes;
  match number with
  | None => st ← write_reg st 2 0; st ← IncrementR st; Stop Halted
  | Some number => n ← Floats.to_int number; write_reg st 2 n
  end.

(** The register holds an [int], which the assignment to [number] converts. *)
Definition handle_SC_PrintFloat (st : St) : res St :=
  n ← read_reg st 4;
  let number := Floats.of_int n in
  if SFeqb number Floats.zero then '(_, st) ← console_write [48; 46; 48; 0] 3 st; IncrementR st
  else
    '(buffer, n) ← Floats.format_float heap number;
    '(_, st) ← console_write buffer n st; Ok st.

Definition handle_SC_ReadChar (st : St) : res St :=
  '(numBytes, buffer, st) ← console_read (new_char 255) 255 st;
  if numBytes >? 1 then st ← write_reg st 2 0; Stop Halted
  else if numBytes =? 0 then st ← write_reg st 2 0; Stop Halted
  else c ← arr_get buffer 0; write_reg st 2 (s8 c).

Definition handle_SC_PrintChar (st : St) : res St :=
  c ← read_reg st 4; '(_, st) ← console_write [u8 c] 1 st; Ok st.

Definition handle_SC_ReadString (st : St) : res St :=
  virtAddr ← read_reg st 4;
  length ← read_reg st 5;
  '(buffer, st) ← user2system virtAddr length st;
  '(_, buffer, st) ← console_read buffer length st;
  '(_, st) ← system2user virtAddr length buffer st;
  Ok st.

Definition handle_SC_PrintString (st : St) : res St :=
  virtAddr ← read_reg st 4;
  '(buffer, st) ← user2system virtAddr 255 st;
  length ← strlen buffer;
  '(_, st) ← console_write buffer (length + 1) st;
  Ok st.

(** [Create] returns a bool, which is never -1. *)
Definition handle_SC_CreateFile (st : St) : res St :=
  virtualAddr ← read_reg st 4;
  '(fname, st) ← user2system virtualAddr MAX_FILENAME_LEN st;
  len ← strlen fname;
  if len =? 0 then write_reg st 2 (-1)
  else
    '(succ, fs) ← StubFS.Create (fileSystem st.2) fname 0;
    let st := with_files st fs in
    st ← (if Z.b2z succ =? -1 then write_reg st 2 (-1) else Ok st);
    write_reg st 2 0.

Definition valid_id (fileid : Z) : bool := negb ((fileid <? 0) || (fileid >=? FileSys.N_FILES_IN_TABLE)).

(** [fileSystem->file_table[fileid]] and the assignment to it. *)
Definition file_at (st : St) (fileid : Z) : res (option StubFS.OpenFile) :=
  arr_get (StubFS.file_table (fileSystem st.2)) fileid.
Definition set_file (st : St) (fileid : Z) (f : option StubFS.OpenFile) (u : Unix.Unix) : res St :=
  t ← arr_set (StubFS.file_table (fileSystem st.2)) fileid f;
  Ok (with_files st (StubFS.mkFileSystem t u)).

(** The end of ReadFile and WriteFile: no byte counts as the end of the file,
    and the file is rewound. *)
Definition file_result (fileid nbytes : Z) (f : option StubFS.OpenFile) (st : St) : res St :=
  if nbytes =? 0 then
    st ← write_reg st 2 (-2);
    match f with
    | Some f => set_file st fileid (Some (StubFS.with_offset f 0)) (StubFS.unix (fileSystem st.2))
    | None => Ok st
    end
  else write_reg st 2 nbytes.

Definition handle_SC_ReadFile (st : St) : res St :=
  virtualAddress ← read_reg st 4;
  charcount ← read_reg st 5;
  fileid ← read_reg st 6;
  let buffer := new_char MAX_FILECONTENT_LEN in
  if fileid =? 0 then
    '(nbytes, buffer, st) ← console_read buffer charcount st;
    st ← file_result fileid nbytes None st;
    '(_, st) ← system2user virtualAddress nbytes buffer st; Ok st
  else if fileid =? 1 then write_reg st 2 (-1)
  else if negb (valid_id fileid) then write_reg st 2 (-1)
  else
    f ← file_at st fileid;
    match f with
    | None => write_reg st 2 (-1)
    | Some f =>
        if negb (StubFS.type f =? 0) then write_reg st 2 (-1)
        else
          '(nbytes, bs, f) ← StubFS.Read (StubFS.unix (fileSystem st.2)) f charcount;
          buffer ← overlay buffer 0 bs;
          st ← set_file st fileid (Some f) (StubFS.unix (fileSystem st.2));
          st ← file_result fileid nbytes (Some f) st;
          '(_, st) ← system2user virtualAddress nbytes buffer st; Ok st
    end.

Definition handle_SC_WriteFile (st : St) : res St :=
  virtualAddress ← read_reg st 4;
  charcount ← read_reg st 5;
  fileid ← read_reg st 6;
  '(buffer, st) ← user2system virtualAddress charcount st;
  if fileid =? 0 then write_reg st 2 (-1)
  else if fileid =? 1 then
    '(nbytes, st) ← console_write buffer (charcount + 1) st;
    file_result fileid nbytes None st
  else if negb (valid_id fileid) then write_reg st 2 (-1)
  else
    f ← file_at st fileid;
    match f with
    | None => write_reg st 2 (-1)
    | Some f =>
        len ← strlen buffer;
        let n := if charcount + 1 <? len then charcount + 1 else len in
        '(nbytes, f, u) ← StubFS.Write (StubFS.unix (fileSystem st.2)) f buffer n;
        st ← set_file st fileid (Some f) u;
        file_result fileid nbytes (Some f) st
    end.

Definition handle_SC_CloseFile (st : St) : res St :=
  fileid ← read_reg st 4;
  if fileid =? 0 then write_reg st 2 (-1)
  else if fileid =? 1 then write_reg st 2 (-1)
  else if negb (valid_id fileid) then write_reg st 2 (-1)
  else
    f ← file_at st fileid;
    match f with
    | None => write_reg st 2 (-1)
    | Some _ =>
        st ← set_file st fileid None (StubFS.unix (fileSystem st.2));
        write_reg st 2 0
    end.

Definition handle_SC_OpenFile (st : St) : res St :=
  virAddr_name ← read_reg st 4;
  type ← read_reg st 5;
  if negb (type =? 0) && negb (type =? 1) && negb (type =? 2) && negb (type =? 3) then
    write_reg st 2 (-1)
  else
    '(fname, st) ← user2system virAddr_name MAX_FILENAME_LEN st;
    let is_stdin := STable.streq fname StubFS.stdin_name in
    let is_stdout := STable.streq fname StubFS.stdout_name in
    if is_stdin || (type =? 2) then
      write_reg st 2 (if is_stdin && (type =? 2) then 0 else -1)
    else if is_stdout || (type =? 3) then
      write_reg st 2 (if is_stdout && (type =? 3) then 1 else -1)
    else
      '(f, fs) ← StubFS.Open_type (fileSystem st.2) fname type;
      let st := with_files st fs in
      if f =? -1 then write_reg st 2 (-1) else write_reg st 2 f.

(** The caller sleeps in [JoinWait]. *)
Definition handle_SC_Join (st : St) : res St :=
  id ← read_reg st 4;
  '(r, w) ← Process.JoinUpdate id (pid st.2) (world st.2);
  match r with
  | Some r => write_reg (with_world st w) 2 r
  | None => Stop WouldBlock
  end.

(** The caller sleeps or is gone unless the status is not 0. *)
Definition handle_SC_Exit (st : St) : res St :=
  exitStatus ← read_reg st 4;
  w ← Process.handle_SC_Exit exitStatus (pid st.2) (world st.2);
  if negb (exitStatus =? 0) then Ok (with_world st w) else Stop WouldBlock.

Definition handle_SC_CreateSemaphore (st : St) : res St :=
  virtAddr ← read_reg st 4;
  semval ← read_reg st 5;
  '(name, st) ← user2system virtAddr (MAX_FILENAME_LEN + 1) st;
  '(r, t, w) ← STable.Create name semval (semTab st.2) (sems st.2);
  let st := with_sems st t w in
  if r =? -1 then write_reg st 2 (-1) else write_reg st 2 r.

Definition handle_SC_Up (st : St) : res St :=
  virtAddr ← read_reg st 4;
  '(name, st) ← user2system virtAddr (MaxFileLength + 1) st;
  '(r, w) ← STable.Signal name (semTab st.2) (sems st.2);
  let st := with_sems st (semTab st.2) w in
  if r =? -1 then write_reg st 2 (-1) else write_reg st 2 r.

Definition handle_SC_Down (st : St) : res St :=
  virtAddr ← read_reg st 4;
  '(name, st) ← user2system virtAddr (MaxFileLength + 1) st;
  '(r, w) ← STable.Wait name (semTab st.2) (sems st.2);
  let st := with_sems st (semTab st.2) w in
  if r =? -1 then write_reg st 2 (-1) else write_reg st 2 r.

Definition handle_SC_Exec (st : St) : res St :=
  virtAddr ← read_reg st 4;
  '(name, st) ← user2system virtAddr MAX_FILENAME_LEN st;
  f ← StubFS.Open garbage_type (fileSystem st.2) name;
  match f with
  | None => write_reg st 2 (-1)
  | Some _ =>
      '(r, w) ← Process.ExecUpdate garbage_type (fileSystem st.2) (Some name) (pid st.2) (world st.2);
      write_reg (with_world st w) 2 r
  end.

(** ** The exception handler *)

(** The [switch] over the number of the system call, without Halt. *)
Definition handler_of (type : Z) : option (St → res St) :=
  if type =? SC_CreateFile then Some handle_SC_CreateFile
  else if type =? SC_OpenFile then Some handle_SC_OpenFile
  else if type =? SC_CloseFile then Some handle_SC_CloseFile
  else if type =? SC_ReadFile then Some handle_SC_ReadFile
  else if type =? SC_WriteFile then Some handle_SC_WriteFile
  else if type =? SC_ReadInt then Some handle_SC_ReadInt
  else if type =? SC_PrintInt then Some handle_SC_PrintInt
  else if type =? SC_ReadFloat then Some handle_SC_ReadFloat
  else if type =? SC_PrintFloat then Some handle_SC_PrintFloat
  else if type =? SC_ReadChar then Some handle_SC_ReadChar
  else if type =? SC_PrintChar then Some handle_SC_PrintChar
  else if type =? SC_ReadString then Some handle_SC_ReadString
  else if type =? SC_PrintString then Some handle_SC_PrintString
  else if type =? SC_Join then Some handle_SC_Join
  else if type =? SC_Exit then Some handle_SC_Exit
  else if type =? SC_CreateSemaphore then Some handle_SC_CreateSemaphore
  else if type =? SC_Up then Some handle_SC_Up
  else if type =? SC_Down then Some handle_SC_Down
  else if type =? SC_Exec then Some handle_SC_Exec
  else None.

Definition ExceptionHandler (which : ExceptionType) (st : St) : res St :=
  type ← read_reg st 2;
  match which with
  | PageFaultException => Stop Halted
  | SyscallException =>
      if type =? SC_Halt then Stop Halted
      else match handler_of type with
           | Some handle => st ← handle st; IncrementR st
           | None => Ok st
           end
  | _ => Ok st
  end.

(** The kernel that user programs run on. *)
Definition kernel : Kernel K := {|
  setStatus := set_status;
  Machine.ExceptionHandler := ExceptionHandler;
|}.
End handlers.
End Exception.
