(* ===== verification/ExceptionProps.v ===== *)
(** * Properties of the system calls

    Numbers in decimal, what a system call may change (the memory of its
    program and nothing else), the traps inside a system call, the checks of
    file identifiers, and a file written and read back through user memory. *)

From S2P Require Import Prelude NList Bitmap Machine MipsSim UnixFS Directory AddrSpace Interrupt Console STable Process Floats Exception Thread.
Import Exception.

(** ** Decimal numbers *)

Definition digit (c : Z) : Prop := 48 ≤ c < 58.

(** The number a sequence of digits stands for. *)
Definition decimal (ds : list Z) : Z := foldl (λ x c, x * 10 + (c - 48)) 0 ds.

(** [text] is [n] in decimal: an optional sign, digits, no leading zero. *)
Definition numeral (n : Z) (text : list Z) : Prop :=
  ∃ ds, text = (if n <? 0 then [45] else []) ++ ds ∧ Forall digit ds ∧ decimal ds = Z.abs n ∧
        ds ≠ [] ∧ (head ds = Some 48 → ds = [48]).

(** The last [n] digits of [x]. *)
Fixpoint digits_of (n : nat) (x : Z) : list Z :=
  match n with
  | O => []
  | S n' => digits_of n' (Z.quot x 10) ++ [Z.rem x 10 + 48]
  end.

Lemma length_digits n x : length (digits_of n x) = n.
Proof. revert x. induction n as [|n IH]; intros x; simpl; [done|]. rewrite length_app, IH. simpl. lia. Qed.

Lemma digits_digit n x : 0 ≤ x → Forall digit (digits_of n x).
Proof.
  revert x. induction n as [|n IH]; intros x Hx; simpl; [constructor|].
  apply Forall_app. split; [apply IH, Z.quot_pos; lia|].
  repeat constructor; pose proof (Z.rem_bound_pos x 10); lia.
Qed.

Lemma decimal_snoc ds c : decimal (ds ++ [c]) = decimal ds * 10 + (c - 48).
Proof. unfold decimal. by rewrite foldl_app. Qed.

Lemma decimal_digits n x : 0 ≤ x < 10 ^ Z.of_nat n → decimal (digits_of n x) = x.
Proof.
  revert x. induction n as [|n IH]; intros x Hx; cbn [digits_of].
  - change (10 ^ Z.of_nat 0) with 1 in Hx. unfold decimal. simpl. lia.
  - rewrite Nat2Z.inj_succ, Z.pow_succ_r in Hx by lia.
    rewrite decimal_snoc, IH; [pose proof (Z.quot_rem' x 10); lia|].
    split; [apply Z.quot_pos; lia|]. apply Z.quot_lt_upper_bound; lia.
Qed.

Lemma digits_head n x :
  10 ^ Z.of_nat n ≤ x < 10 ^ Z.of_nat (S n) → head (digits_of (S n) x) ≠ Some 48.
Proof.
  revert x. induction n as [|n IH]; intros x Hx.
  - change (10 ^ Z.of_nat 0) with 1 in Hx. change (10 ^ Z.of_nat 1) with 10 in Hx. simpl.
    rewrite Z.rem_small by lia. injection 1. lia.
  - rewrite (Nat2Z.inj_succ (S n)), (Nat2Z.inj_succ n), !Z.pow_succ_r in Hx by lia.
    change (digits_of (S (S n)) x) with (digits_of (S n) (Z.quot x 10) ++ [Z.rem x 10 + 48]).
    assert (0 < 10 ^ Z.of_nat n) by (apply Z.pow_pos_nonneg; lia).
    specialize (IH (Z.quot x 10)).
    pose proof (length_digits (S n) (Z.quot x 10)) as Hl.
    destruct (digits_of (S n) (Z.quot x 10)) as [|d ds]; [done|]. simpl. apply IH.
    rewrite Nat2Z.inj_succ, Z.pow_succ_r by lia. split.
    + apply Z.quot_le_lower_bound; lia.
    + apply Z.quot_lt_upper_bound; lia.
Qed.

(** Counting the digits: the loop ends, with the least power of ten above the
    number. *)
Lemma count_digits_spec fuel x acc :
  0 ≤ x < 10 ^ Z.of_nat fuel → ∃ n : nat, (n ≤ fuel)%nat ∧
    count_digits (S fuel) x acc = Ok (acc + Z.of_nat n) ∧ x < 10 ^ Z.of_nat n ∧
    (0 < x → ∃ n', n = S n' ∧ 10 ^ Z.of_nat n' ≤ x).
Proof.
  revert x acc. induction fuel as [|fuel IH]; intros x acc Hx; cbn [count_digits].
  - change (10 ^ Z.of_nat 0) with 1 in Hx. rewrite (proj2 (Z.eqb_eq x 0)) by lia.
    exists O. split_and!; [lia|by rewrite Z.add_0_r|simpl; lia|lia].
  - destruct (Z.eqb_spec x 0) as [->|Hne].
    { exists O. split_and!; [lia|by rewrite Z.add_0_r|simpl; lia|lia]. }
    rewrite Nat2Z.inj_succ, Z.pow_succ_r in Hx by lia.
    destruct (IH (Z.quot x 10) (acc + 1)) as (n & Hn & E & Hlt & Hge).
    { split; [apply Z.quot_pos; lia|]. apply Z.quot_lt_upper_bound; lia. }
    cbn [count_digits] in E. exists (S n).
    pose proof (Z.quot_rem' x 10). pose proof (Z.rem_bound_pos x 10).
    split_and!; [lia| |rewrite Nat2Z.inj_succ, Z.pow_succ_r by lia; lia|].
    + rewrite E. f_equal. lia.
    + intros Hx0. exists n. split; [done|]. destruct (decide (Z.quot x 10 = 0)) as [E0|E0].
      * destruct n as [|n']; [simpl; lia|]. exfalso.
        assert (count_digits (S fuel) (Z.quot x 10) (acc + 1) = Ok (acc + 1)) as E'.
        { cbn [count_digits]. by rewrite E0. }
        cbn [count_digits] in E'. rewrite E' in E. injection E. lia.
      * destruct Hge as (n' & -> & Hge); [pose proof (Z.quot_pos x 10); lia|].
        rewrite Nat2Z.inj_succ, Z.pow_succ_r by lia. lia.
Qed.

Lemma put_digits_spec n first x buffer :
  0 ≤ first → first + Z.of_nat n ≤ Z.of_nat (length buffer) → 0 ≤ x →
  put_digits n first x buffer =
    Ok (take (Z.to_nat first) buffer ++ digits_of n x ++ drop (Z.to_nat first + n) buffer).
Proof.
  revert x buffer. induction n as [|n IH]; intros x buffer Hf Hl Hx; cbn [put_digits digits_of].
  - simpl. by rewrite Nat.add_0_r, take_drop.
  - pose proof (Z.rem_bound_pos x 10).
    unfold set_char. rewrite arr_set_in by lia. simpl_res.
    rewrite IH; [|lia|rewrite length_insert; lia|apply Z.quot_pos; lia].
    replace (Z.to_nat (first + Z.of_nat n)) with (Z.to_nat first + n)%nat by lia.
    unfold u8. rewrite Z.mod_small by lia.
    rewrite take_insert_ge by lia. do 2 f_equal. rewrite <- app_assoc. f_equal.
    rewrite insert_take_drop, drop_app_length' by (rewrite ?length_take; lia). simpl. do 2 f_equal. lia.
Qed.

Lemma numeral_chars n text : numeral n text → Forall (λ c, 45 ≤ c < 58) text.
Proof.
  intros (ds & -> & Hds & _). apply Forall_app. split.
  - case_match; repeat constructor; lia.
  - eapply Forall_impl; [exact Hds|]. unfold digit. simpl. lia.
Qed.

Lemma to_chars_small text : Forall (λ c, 45 ≤ c < 58) text → to_chars text = text.
Proof.
  induction 1 as [|c text Hc _ IH]; [done|]. change (s8 c :: to_chars text = c :: text). rewrite IH. f_equal.
  unfold s8. rewrite Z.mod_small; lia.
Qed.
Lemma to_bytes_small text : Forall (λ c, 45 ≤ c < 58) text → to_bytes text = text.
Proof.
  induction 1 as [|c text Hc _ IH]; [done|]. change (u8 c :: to_bytes text = c :: text). rewrite IH. f_equal.
  unfold u8. rewrite Z.mod_small; lia.
Qed.

(** What [PrintInt] makes of a number. *)
Lemma format_int_spec n buffer :
  - two31 < n < two31 → n ≠ 0 → length buffer = 256%nat →
  ∃ text rest, format_int n buffer = Ok (text ++ rest, Z.of_nat (length text)) ∧ numeral n text.
Proof.
  intros Hn Hn0 Hl. unfold format_int.
  assert ((if n <? 0 then s32 (n * -1) else n) = Z.abs n) as ->.
  { destruct (Z.ltb_spec n 0); [rewrite s32_small|]; unfold is_s32; lia. }
  destruct (count_digits_spec 10 (Z.abs n) 0) as (k & Hk & -> & Hlt & Hge).
  { unfold two31 in Hn. change (10 ^ Z.of_nat 10) with 10000000000. lia. }
  destruct Hge as (k' & -> & Hge); [lia|]. simpl_res. rewrite Z.add_0_l, Nat2Z.id.
  rewrite put_digits_spec by (destruct (n <? 0); lia).
  pose proof (length_digits (S k') (Z.abs n)) as Hlen.
  pose proof (digits_digit (S k') (Z.abs n) ltac:(lia)) as Hdig.
  pose proof (decimal_digits (S k') (Z.abs n) ltac:(lia)) as Hdec.
  pose proof (digits_head k' (Z.abs n) ltac:(lia)) as Hhd.
  set (ds := digits_of (S k') (Z.abs n)) in *.
  assert (numeral n ((if n <? 0 then [45] else []) ++ ds)) as Hnum.
  { exists ds. split_and!; try done. by intros ->. }
  exists ((if n <? 0 then [45] else []) ++ ds).
  simpl_res. destruct buffer as [|b buffer]; [done|]. unfold set_char.
  destruct (n <? 0).
  - rewrite arr_set_in by (simpl; lia). simpl_res.
    rewrite arr_set_in by (rewrite length_insert; simpl; rewrite length_app, Hlen, length_drop; simpl in *; lia).
    simpl_res. eexists. split; [|done]. f_equal. f_equal; [|simpl; lia].
    replace (Z.to_nat (Z.of_nat (S k') + 1)) with (length (45%Z :: ds) + 0)%nat by (simpl; lia).
    change (Z.to_nat 0) with 0%nat. change (Z.to_nat 1) with 1%nat. change (take 1 (b :: buffer)) with [b].
    change (<[0%nat := u8 45]> ([b] ++ ?tl)) with (45 :: tl).
    rewrite (app_comm_cons ds). apply insert_app_r.
  - rewrite arr_set_in by (simpl; rewrite length_app, Hlen, length_drop; simpl in *; lia).
    simpl_res. eexists. split; [|done]. f_equal. f_equal; [|simpl; lia].
    replace (Z.to_nat (Z.of_nat (S k'))) with (length ds + 0)%nat by lia.
    apply (insert_app_r ds).
Qed.

(** ** Reading a number back *)

Lemma check_int_digits pre ds rest last :
  Forall digit ds →
  check_int (length ds) (Z.of_nat (length pre)) last (pre ++ ds ++ rest) =
    Ok (Some (if bool_decide (ds = []) then last else Z.of_nat (length pre + length ds) - 1)).
Proof.
  intros Hds. revert pre last. induction Hds as [|c ds Hc _ IH]; intros pre last; [done|].
  cbn [length check_int].
  rewrite (arr_get_in _ _ c); [|lia|rewrite Nat2Z.id; by apply list_lookup_middle].
  simpl_res. unfold digit in Hc. rewrite (proj2 (Z.eqb_neq c 46)) by lia.
  assert (s8 c = c) as -> by (unfold s8; rewrite Z.mod_small; lia).
  rewrite (proj2 (Z.ltb_ge c 48)) by lia. cbn [andb].
  specialize (IH (pre ++ [c]) (Z.of_nat (length pre))).
  rewrite <- app_assoc, length_app in IH. simpl app in IH. simpl length in IH.
  replace (Z.of_nat (length pre) + 1) with (Z.of_nat (length pre + 1)) by lia.
  change ((c :: ds) ++ rest) with (c :: ds ++ rest). rewrite IH.
  do 2 f_equal. repeat case_bool_decide; subst; simpl; try done; lia.
Qed.

Lemma decimal_nonneg ds : Forall digit ds → 0 ≤ decimal ds.
Proof.
  induction ds as [|c ds IH] using rev_ind; intros Hd; [done|].
  apply Forall_app in Hd as [Hd Hc]. apply Forall_cons in Hc as [Hc _]. unfold digit in Hc.
  rewrite decimal_snoc. specialize (IH Hd). lia.
Qed.

Lemma decimal_app_le ds ds' :
  Forall digit (ds ++ ds') → 0 ≤ decimal ds ≤ decimal (ds ++ ds').
Proof.
  induction ds' as [|c ds' IH] using rev_ind; intros Hd.
  - rewrite app_nil_r in *. split; [by apply decimal_nonneg|done].
  - rewrite app_assoc in *. apply Forall_app in Hd as [Hd Hc]. apply Forall_cons in Hc as [Hc _].
    unfold digit in Hc. rewrite decimal_snoc. specialize (IH Hd). lia.
Qed.

Lemma add_digits_spec ds ds' pre rest :
  Forall digit (ds ++ ds') → decimal (ds ++ ds') < two31 →
  for_loop (length ds') (Z.of_nat (length pre + length ds)) (add_digit (pre ++ ds ++ ds' ++ rest))
    (decimal ds) = Ok (decimal (ds ++ ds')).
Proof.
  revert ds. induction ds' as [|c ds' IH]; intros ds Hd Hlt.
  - by rewrite app_nil_r.
  - replace (ds ++ c :: ds') with ((ds ++ [c]) ++ ds') in Hd, Hlt |- * by (by rewrite <- app_assoc).
    pose proof (decimal_app_le _ _ Hd) as Hle.
    pose proof (proj1 (proj1 (Forall_app _ _ _) Hd)) as Hdc.
    pose proof (decimal_nonneg _ Hdc) as Hle0.
    apply Forall_app in Hdc as [_ Hc]. apply Forall_cons in Hc as [Hc _]. unfold digit in Hc.
    cbn [length for_loop].
    assert (add_digit (pre ++ ds ++ (c :: ds') ++ rest) (Z.of_nat (length pre + length ds)) (decimal ds)
            = Ok (decimal (ds ++ [c]))) as ->.
    { unfold add_digit. rewrite (arr_get_in _ _ c); [|lia|].
      2:{ rewrite Nat2Z.id, <- length_app, app_assoc. by apply list_lookup_middle. }
      simpl_res. assert (s8 c = c) as -> by (unfold s8; rewrite Z.mod_small; lia).
      rewrite <- decimal_snoc. by rewrite s32_small by (unfold is_s32, two31 in *; lia). }
    simpl_res.
    specialize (IH _ Hd Hlt). rewrite length_app in IH. simpl length in IH.
    replace (Z.of_nat (length pre + length ds) + 1) with (Z.of_nat (length pre + (length ds + 1))) by lia.
    rewrite <- IH. do 2 f_equal. rewrite <- app_assoc. done.
Qed.

(** [ReadInt] recovers the number of a numeral. *)
Lemma parse_int_spec n text rest :
  - two31 < n < two31 → numeral n text → parse_int (text ++ rest) (Z.of_nat (length text)) = Ok n.
Proof.
  intros Hn (ds & -> & Hds & Hdec & Hne & _). unfold parse_int.
  assert (∃ c, head (((if n <? 0 then [45] else []) ++ ds) ++ rest) = Some c ∧
            (c =? 45) = (n <? 0)) as (c & Hc & Eneg).
  { destruct ds as [|d ds]; [done|]. apply Forall_cons in Hds as [Hd _]. unfold digit in Hd.
    destruct (n <? 0); simpl; eexists; split; try done. apply Z.eqb_neq. lia. }
  rewrite (arr_get_in _ 0 c); [|lia|by rewrite <- head_lookup]. simpl_res. rewrite Eneg.
  set (pre := if n <? 0 then [45] else []).
  assert ((if n <? 0 then 1 else 0) = Z.of_nat (length pre)) as -> by (subst pre; by destruct (n <? 0)).
  rewrite length_app. replace (Z.to_nat _) with (length ds) by lia. rewrite <- app_assoc.
  rewrite check_int_digits by done. simpl_res. rewrite bool_decide_eq_false_2 by done.
  replace (Z.to_nat _) with (length ds) by lia.
  pose proof (add_digits_spec [] ds pre rest) as E. simpl in E. rewrite Nat.add_0_r in E.
  change (decimal []) with 0 in E.
  rewrite E; [|done|lia]. simpl_res. rewrite Hdec. f_equal.
  destruct (Z.ltb_spec n 0); [rewrite s32_small|]; unfold is_s32; lia.
Qed.

(** ** What a system call does to the machine *)

(** A machine that runs a user program: forty registers, a delayed load aimed
    at a general register, a linear page table. *)
Record user_ok (m : Machine) : Prop := mkUserOk {
  uo_regs : length (registers m) = Z.to_nat NumTotalRegs;
  uo_load : 0 ≤ reg m LoadReg < NumGPRegs;
  uo_table : ∃ pt, linear m pt;
}.

(** No delayed load is on its way; register 0 is 0. *)
Definition quiet (m : Machine) : Prop := reg m LoadReg = 0 ∧ reg m LoadValueReg = 0 ∧ reg m 0 = 0.

(** From [m] to [m'] the kernel served its user program: the program counters
    and the translation are as before, and so are the memory that the program
    has no right to write and the general registers but register 2. *)
Record served (m m' : Machine) : Prop := mkServed {
  sv_ok : user_ok m';
  sv_pc : ∀ r, PCReg ≤ r ≤ PrevPCReg → reg m' r = reg m r;
  sv_space : same_space m m';
  sv_mem : ∀ pa, (∀ a, frame m a true ≠ Some pa) → mainMemory m' !! pa = mainMemory m !! pa;
  sv_regs : quiet m → quiet m' ∧ ∀ r, 0 ≤ r < NumGPRegs → r ≠ 2 → reg m' r = reg m r;
}.

Lemma served_refl m : user_ok m → served m m.
Proof. intros Hm. by split. Qed.

Lemma served_trans m1 m2 m3 : served m1 m2 → served m2 m3 → served m1 m3.
Proof.
  intros [H1 P1 S1 M1 G1] [H2 P2 S2 M2 G2]. split; [done| |by etransitivity| |].
  - intros r Hr. by rewrite P2, P1.
  - intros pa Hpa. rewrite M2, M1; [done..|]. intros a. by rewrite <- S1.
  - intros Hq. destruct (G1 Hq) as [Hq1 E1]. destruct (G2 Hq1) as [Hq2 E2]. split; [done|].
    intros r Hr Hne. by rewrite E2, E1.
Qed.

Lemma reg_insert m r r' v :
  user_ok m → 0 ≤ r < NumTotalRegs → 0 ≤ r' →
  reg (set_reg m r v) r' = if bool_decide (r' = r) then v else reg m r'.
Proof.
  intros Hm Hr Hr'. unfold reg, set_reg, with_registers. cbn [registers]. case_bool_decide as E.
  - subst r'. by rewrite list_lookup_insert_eq by (rewrite (uo_regs m Hm); lia).
  - by rewrite list_lookup_insert_ne by lia.
Qed.

(** Any register but the delayed load. *)
Lemma set_reg_user_ok m r v :
  user_ok m → 0 ≤ r < NumTotalRegs → (r = LoadReg → 0 ≤ v < NumGPRegs) → user_ok (set_reg m r v).
Proof.
  intros Hm Hr Hv. pose proof Hm as [Hl Hd [pt [H1 H2 H3 H4]]]. split.
  - simpl. by rewrite length_insert.
  - rewrite reg_insert by (done || lia). case_bool_decide as E; [by apply Hv|done].
  - exists pt. by split.
Qed.

(** A register that the program does not keep its own values in, or that does
    not change. *)
Definition not_kept (m : Machine) (r v : Z) : Prop := r = 2 ∨ r = BadVAddrReg ∨ (quiet m → reg m r = v).

Lemma set_reg_served m r v :
  user_ok m → 0 ≤ r < NumTotalRegs → (r = LoadReg → 0 ≤ v < NumGPRegs) → ¬ PCReg ≤ r ≤ PrevPCReg →
  not_kept m r v → served m (set_reg m r v).
Proof.
  intros Hm Hr Hv Hpc Hk. split; [by apply set_reg_user_ok| |by split|done|].
  - intros r' Hr'. rewrite reg_insert by (done || unfold PCReg in *; lia).
    rewrite bool_decide_eq_false_2; [done|lia].
  - intros Hq. assert (∀ r', 0 ≤ r' → r' ≠ 2 → r' ≠ BadVAddrReg → reg (set_reg m r v) r' = reg m r') as E.
    { intros r' Hr' H2 H3. rewrite reg_insert by done. case_bool_decide as Er; [|done]. subst r'.
      destruct Hk as [?|[?|Hk]]; [done..|]. by rewrite Hk. }
    unfold quiet, NumGPRegs, LoadReg, LoadValueReg, BadVAddrReg in *. rewrite !E by lia. split; [done|].
    intros r' Hr' Hne. apply E; lia.
Qed.

Lemma DelayedLoad_served E m : user_ok m → post E (served m) (DelayedLoad m 0 0).
Proof.
  intros Hm. unfold DelayedLoad. pose proof Hm as [Hl Hd _]. unfold NumGPRegs, NumTotalRegs in *.
  rewrite arr_set_in by lia. simpl_res. simpl post. fold (set_reg m (reg m LoadReg) (reg m LoadValueReg)).
  assert (served m (set_reg m (reg m LoadReg) (reg m LoadValueReg))) as H1.
  { apply set_reg_served; unfold PCReg, PrevPCReg, LoadReg, LoadValueReg, NumTotalRegs, NumGPRegs in *; try done; try lia.
    right. right. intros (E1 & E2 & E3). unfold LoadReg, LoadValueReg in *. by rewrite E1, E2, E3. }
  set (m1 := set_reg m _ _) in *.
  assert (served m1 (set_reg m1 LoadReg 0)) as H2.
  { apply set_reg_served; try apply H1; try done; try (unfold PCReg, PrevPCReg, LoadReg; lia). right. right. by intros (E1 & _). }
  assert (served (set_reg m1 LoadReg 0) (set_reg (set_reg m1 LoadReg 0) LoadValueReg 0)) as H3.
  { apply set_reg_served; try apply H2; try done; try (unfold PCReg, PrevPCReg, LoadValueReg; lia). right. right. by intros (_ & E2 & _). }
  eapply served_trans; [exact H1|]. eapply served_trans; [exact H2|]. eapply served_trans; [exact H3|].
  apply set_reg_served; [apply H3|done|done|unfold PCReg; lia|]. right. right. by intros (_ & _ & E3).
Qed.

(** Page tables equal up to use and dirty bits, everything else equal. *)
Lemma same_served m m' :
  user_ok m → same_space m m' → registers m' = registers m → mainMemory m' = mainMemory m →
  served m m'.
Proof.
  intros Hm Hss Hr Hmem. pose proof Hm as [Hl Hd [pt Hlin]].
  split; [|unfold reg; by rewrite Hr|done|by rewrite Hmem|unfold quiet, reg; by rewrite Hr].
  split; [by rewrite Hr|unfold reg in *; by rewrite Hr|by eapply same_space_linear].
Qed.

(** Whatever the computation may stop for: if it returns, with [Q]. *)
Notation returns := (post (λ _, True)).

Lemma returns_bind {A B} (Q : B → Prop) (m : res A) (k : A → res B) :
  (∀ a, m = Ok a → returns Q (k a)) → returns Q (m ≫= k).
Proof. destruct m; simpl; auto. Qed.

Section accesses.
Context {K : Type} `{Kernel K}.

(** The handler of the exceptions that memory accesses raise. *)
Context (HK : ∀ which m k, which ≠ SyscallException → user_ok m →
  returns (λ st, served m st.1) (Machine.ExceptionHandler which (m, k))).

Lemma RaiseException_served which bad m k :
  which ≠ SyscallException → user_ok m → returns (λ st, served m st.1) (RaiseException which bad (m, k)).
Proof using HK.
  intros Hw Hm. unfold RaiseException.
  assert (served m (set_reg m BadVAddrReg bad)) as H0.
  { apply set_reg_served; [done..| |unfold BadVAddrReg, PCReg, PrevPCReg; lia|]; [done|by right; left]. }
  eapply post_bind; [by apply DelayedLoad_served, H0|]. intros m1 _ H1.
  eapply post_bind; [by apply HK, H1|]. intros [m2 k2] _ H2. simpl in *.
  by eapply served_trans, served_trans.
Qed.

(** Translation touches the use and dirty bits, and raises no system call. *)
Lemma Translate_served m a size writing :
  user_ok m → size = 1 ∨ size = 2 ∨ size = 4 →
  ∃ exc pa m', Translate m a size writing = Ok (exc, pa, m') ∧ served m m' ∧
    mainMemory m' = mainMemory m ∧ exc ≠ SyscallException ∧
    (exc = NoException → frame m a writing = Some pa).
Proof using Type.
  intros Hm Hs. pose proof Hm as [_ _ [pt Hlin]]. pose proof Hlin as [Hl1 Hl2 Hl3 Hl4].
  destruct (Translate_spec m pt Hlin a size writing Hs) as (exc & pa & m' & Et & T).
  exists exc, pa, m'. split; [done|].
  destruct T as [| | | |e ? He Hv Hro Hb|e ? He Hv Hro Hb]; try (split_and!; [by apply served_refl|done..]).
  split_and!; try done.
  - apply same_served; try done. by eapply touch_same_space.
  - intros _. unfold frame. rewrite Hl1, Hl2, He, Hv, (bool_decide_eq_true_2 _ Hb).
    destruct (readOnly e), writing; naive_solver.
Qed.

Lemma ReadMem_served m k a size :
  user_ok m → size = 1 ∨ size = 2 ∨ size = 4 → returns (λ r, served m r.2.1) (ReadMem a size (m, k)).
Proof using HK.
  intros Hm Hs. unfold ReadMem.
  destruct (Translate_served m a size false Hm Hs) as (exc & pa & m' & -> & Hm' & _ & Hexc & _).
  simpl_res. case_bool_decide.
  - eapply post_bind; [apply RaiseException_served; [done|apply Hm']|].
    intros st _ Hst. simpl. by eapply served_trans.
  - by destruct Hs as [->|[->| ->]].
Qed.

Lemma WriteMem_served m k a v :
  user_ok m → returns (λ r, served m r.2.1) (WriteMem a 1 v (m, k)).
Proof using HK.
  intros Hm. unfold WriteMem.
  destruct (Translate_served m a 1 true Hm ltac:(by left)) as (exc & pa & m' & -> & Hm' & Hmem & Hexc & Hf).
  simpl_res. case_bool_decide as Hn.
  - eapply post_bind; [apply RaiseException_served; [done|apply Hm']|].
    intros st _ Hst. simpl. by eapply served_trans.
  - simpl. specialize (Hf Hn). destruct Hm' as [[H1 H2 [pt [? ? ? ?]]] P1 [? ? ?] M1 G1].
    split; try done; [split; try done; exists pt; by split|].
    intros pa' Hpa'. cbn [mainMemory with_memory]. rewrite write_bytes_lookup, bool_decide_eq_false_2, Hmem; [done|].
    simpl length. intros Hr. apply (Hpa' a). rewrite Hf. f_equal. lia.
Qed.

Lemma served_more m1 m2 {A} (f : A → Machine) (r : res A) :
  served m1 m2 → returns (λ x, served m2 (f x)) r → returns (λ x, served m1 (f x)) r.
Proof using Type. intros H1. apply post_mono; [done|]. intros x Hx. by eapply served_trans. Qed.

Lemma u2s_served n va idx c buf m k :
  user_ok m → returns (λ r, served m r.2.1) (u2s_loop n va idx c buf (m, k)).
Proof using HK.
  revert idx c buf m k. induction n as [|n IH]; intros idx c buf m k Hm; cbn [u2s_loop].
  { by apply served_refl. }
  eapply post_bind; [apply ReadMem_served; [done|by left]|]. intros [v [m1 k1]] _ H1. simpl in H1.
  apply returns_bind. intros buf' _. case_match; [done|].
  eapply served_more; [done|]. apply IH, H1.
Qed.

Lemma User2System_served c va limit m k :
  user_ok m → returns (λ r, served m r.2.1) (User2System c va limit (m, k)).
Proof using HK. intros Hm. unfold User2System. case_match; [done|]. by apply u2s_served. Qed.

Lemma s2u_served n va len i buf m k :
  user_ok m → returns (λ r, served m r.2.1) (s2u_loop n va len i buf (m, k)).
Proof using HK.
  revert i m k. induction n as [|n IH]; intros i m k Hm; cbn [s2u_loop]; [done|].
  apply returns_bind. intros b _.
  eapply post_bind; [by apply WriteMem_served|]. intros [v [m1 k1]] _ H1. simpl in H1.
  case_match; [|done]. eapply served_more; [done|]. apply IH, H1.
Qed.

Lemma System2User_served va len buf m k :
  user_ok m → returns (λ r, served m r.2.1) (System2User va len buf (m, k)).
Proof using HK.
  intros Hm. unfold System2User. repeat case_match; try by apply served_refl. by apply s2u_served.
Qed.
End accesses.

(** ** The handlers *)

Section handlers.
Context {C T W : Type} `{SynchCons C} `{FreeMap T} `{!SemOps W}.
Notation K := (Globals C T W).
Notation St := (Machine * K)%type.
Context (heap : nat → Z) (oneChar garbage_type : Z).

#[local] Existing Instance fault_kernel.

Lemma fault_served which m (k : K) :
  which ≠ SyscallException → user_ok m → returns (λ st, served m st.1) (Machine.ExceptionHandler which (m, k)).
Proof.
  intros Hw Hm. simpl. unfold fault. apply returns_bind. intros _ _.
  destruct which; try done; by apply served_refl.
Qed.

(** A computation that starts in [st] serves the program of [st]. *)
Definition serves (st : St) (r : res St) : Prop := user_ok st.1 → returns (λ st', served st.1 st'.1) r.

Lemma serves_ok st st' : st'.1 = st.1 → serves st (Ok st').
Proof. intros E Hm. simpl. rewrite E. by apply served_refl. Qed.

Lemma serves_stop st e : serves st (Stop e).
Proof. done. Qed.

Lemma serves_same {A} st (m : res A) k : (∀ a, serves st (k a)) → serves st (m ≫= k).
Proof. intros Hk Hm. apply returns_bind. intros a _. by apply Hk. Qed.

Lemma serves_then {A} (f : A → St) st (m : res A) k :
  (user_ok st.1 → returns (λ a, served st.1 (f a).1) m) → (∀ a, serves (f a) (k a)) → serves st (m ≫= k).
Proof.
  intros Hm Hk Hok. eapply post_bind; [by apply Hm|]. intros a _ Ha. simpl in Ha.
  eapply served_more; [done|]. apply Hk, Ha.
Qed.

Lemma serves_moved st st' r : st'.1 = st.1 → serves st' r → serves st r.
Proof. unfold serves. by intros ->. Qed.

Lemma write_reg_serves (st : St) v : serves st (write_reg st 2 v).
Proof.
  intros Hm. unfold write_reg, WriteRegister. unfold LoadReg, NumTotalRegs in *.
  pose proof (uo_regs _ Hm) as Hl. unfold NumTotalRegs in Hl.
  apply returns_bind. intros m1 E. apply bind_ok in E as (u & _ & E). apply bind_ok in E as (regs & E & E').
  apply arr_set_ok in E as [_ ->]. injection E' as <-. simpl.
  apply (set_reg_served st.1 2 v); [done|unfold NumTotalRegs; lia|done|unfold PCReg; lia|by left].
Qed.

Lemma user2system_serves va limit st k :
  (∀ buf st1, serves st1 (k (buf, st1))) → serves st (user2system oneChar va limit st ≫= k).
Proof.
  intros Hk. apply (serves_then snd); [|by intros [buf st1]]. destruct st as [m g]. intros Hm.
  by apply User2System_served; [apply fault_served|].
Qed.

Lemma system2user_serves va len buf st k :
  (∀ n st1, serves st1 (k (n, st1))) → serves st (system2user va len buf st ≫= k).
Proof.
  intros Hk. apply (serves_then snd); [|by intros [n st1]]. destruct st as [m g]. intros Hm.
  by apply System2User_served; [apply fault_served|].
Qed.

(** Parts that leave the machine alone. *)
Lemma kept_serves {A} (f : A → St) st (m : res A) k :
  (∀ a, m = Ok a → (f a).1 = st.1) → (∀ a, serves (f a) (k a)) → serves st (m ≫= k).
Proof.
  intros Hm Hk. apply (serves_then f); [|done]. intros Hok. destruct m as [a|e]; [|done].
  simpl. rewrite (Hm a eq_refl). by apply served_refl.
Qed.

Lemma console_read_serves into n st k :
  (∀ x buf st1, serves st1 (k (x, buf, st1))) → serves st (console_read into n st ≫= k).
Proof.
  intros Hk. apply (kept_serves snd); [|by intros [[x buf] st1]].
  intros a E. unfold console_read in E. apply bind_ok in E as ([[x buf] c] & _ & E). injection E as <-. by destruct st.
Qed.

Lemma console_write_serves from n st k :
  (∀ x st1, serves st1 (k (x, st1))) → serves st (console_write from n st ≫= k).
Proof.
  intros Hk. apply (kept_serves snd); [|by intros [x st1]].
  intros a E. unfold console_write in E. apply bind_ok in E as ([x c] & _ & E). injection E as <-. by destruct st.
Qed.

Lemma set_file_serves st i f u : serves st (set_file st i f u).
Proof.
  intros Hm. unfold set_file. apply returns_bind. intros t _. simpl. destruct st. by apply served_refl.
Qed.

Lemma bind_serves st (m : res St) k : serves st m → (∀ st1, serves st1 (k st1)) → serves st (m ≫= k).
Proof. intros Hm Hk. by apply (serves_then (λ x, x)). Qed.
Lemma with_console_machine (st : St) c : (with_console st c).1 = st.1.
Proof. by destruct st. Qed.
Lemma with_files_machine (st : St) fs : (with_files st fs).1 = st.1.
Proof. by destruct st. Qed.
Lemma with_sems_machine (st : St) t w : (with_sems st t w).1 = st.1.
Proof. by destruct st. Qed.
Lemma with_world_machine (st : St) w : (with_world st w).1 = st.1.
Proof. by destruct st. Qed.

End handlers.

(** One step of a handler: what it does next serves the program. *)
Ltac serve_step :=
  match goal with
  | |- serves ?st ?r =>
      match r with
      | context [with_files st ?x] => apply (serves_moved st (with_files st x)); [apply with_files_machine|]
      | context [with_sems st ?x ?y] => apply (serves_moved st (with_sems st x y)); [apply with_sems_machine|]
      | context [with_world st ?x] => apply (serves_moved st (with_world st x)); [apply with_world_machine|]
      end
  | |- serves _ (Stop _) => apply serves_stop
  | |- serves ?st (Ok ?st') => apply serves_ok; by try destruct st as [? ?]
  | |- serves _ (write_reg _ 2 _) => apply write_reg_serves
  | |- 0 ≤ 2 < LoadReg => done
  | |- ¬ PCReg ≤ 2 ≤ PrevPCReg => unfold PCReg; lia
  | |- serves _ (user2system _ _ _ _ ≫= _) => apply user2system_serves; intros
  | |- serves _ (system2user _ _ _ _ ≫= _) => apply system2user_serves; intros
  | |- serves _ (console_read _ _ _ ≫= _) => apply console_read_serves; intros
  | |- serves _ (console_write _ _ _ ≫= _) => apply console_write_serves; intros
  | |- serves _ (set_file _ _ _ _) => apply set_file_serves
  | |- serves _ (write_reg _ _ _ ≫= _) => apply bind_serves; [|intros]
  | |- serves _ ((if _ then write_reg _ _ _ else _) ≫= _) => apply bind_serves; [|intros]
  | |- serves _ (set_file _ _ _ _ ≫= _) => apply bind_serves; [|intros]
  | |- serves _ (file_result _ _ _ _ ≫= _) => apply bind_serves; [|intros]
  | |- serves _ (_ ≫= _) => apply serves_same; intros
  | |- serves ?st (if _ then _ else _) => case_match
  | |- serves ?st (match _ with _ => _ end) => case_match
  end; cbn beta iota zeta.
Ltac serve := cbn beta iota zeta; repeat serve_step.

Section calls.
Context {C T W : Type} `{SynchCons C} `{FreeMap T} `{!SemOps W}.
Notation K := (Globals C T W).
Notation St := (Machine * K)%type.
Context (heap : nat → Z) (oneChar garbage_type : Z).

Lemma file_result_serves id n f (st : St) : serves st (file_result id n f st).
Proof. unfold file_result. serve. Qed.
Lemma ReadInt_serves (st : St) : serves st (handle_SC_ReadInt heap st).
Proof. unfold handle_SC_ReadInt. serve. Qed.
Lemma PrintInt_serves (st : St) : serves st (handle_SC_PrintInt heap st).
Proof. unfold handle_SC_PrintInt. serve. Qed.
Lemma ReadFloat_serves (st : St) : serves st (handle_SC_ReadFloat heap st).
Proof. unfold handle_SC_ReadFloat. serve. Qed.
Lemma ReadChar_serves (st : St) : serves st (handle_SC_ReadChar heap st).
Proof. unfold handle_SC_ReadChar. serve. Qed.
Lemma PrintChar_serves (st : St) : serves st (handle_SC_PrintChar st).
Proof. unfold handle_SC_PrintChar. serve. Qed.
Lemma ReadString_serves (st : St) : serves st (handle_SC_ReadString oneChar st).
Proof. unfold handle_SC_ReadString. serve. Qed.
Lemma PrintString_serves (st : St) : serves st (handle_SC_PrintString oneChar st).
Proof. unfold handle_SC_PrintString. serve. Qed.
Lemma CreateFile_serves (st : St) : serves st (handle_SC_CreateFile oneChar st).
Proof. unfold handle_SC_CreateFile. serve. Qed.
Lemma ReadFile_serves (st : St) : serves st (handle_SC_ReadFile heap st).
Proof. unfold handle_SC_ReadFile. serve; apply file_result_serves. Qed.
Lemma WriteFile_serves (st : St) : serves st (handle_SC_WriteFile oneChar st).
Proof. unfold handle_SC_WriteFile. serve; apply file_result_serves. Qed.
Lemma CloseFile_serves (st : St) : serves st (handle_SC_CloseFile st).
Proof. unfold handle_SC_CloseFile. serve. Qed.
Lemma OpenFile_serves (st : St) : serves st (handle_SC_OpenFile oneChar st).
Proof. unfold handle_SC_OpenFile. serve. Qed.
Lemma Join_serves (st : St) : serves st (handle_SC_Join st).
Proof. unfold handle_SC_Join. serve. Qed.
Lemma Exit_serves (st : St) : serves st (handle_SC_Exit st).
Proof. unfold handle_SC_Exit. serve. Qed.
Lemma CreateSemaphore_serves (st : St) : serves st (handle_SC_CreateSemaphore oneChar st).
Proof. unfold handle_SC_CreateSemaphore. serve. Qed.
Lemma Up_serves (st : St) : serves st (handle_SC_Up oneChar st).
Proof. unfold handle_SC_Up. serve. Qed.
Lemma Down_serves (st : St) : serves st (handle_SC_Down oneChar st).
Proof. unfold handle_SC_Down. serve. Qed.
Lemma Exec_serves (st : St) : serves st (handle_SC_Exec oneChar garbage_type st).
Proof. unfold handle_SC_Exec. serve. Qed.

Lemma read_reg_user (st : St) r :
  user_ok st.1 → 0 ≤ r < NumTotalRegs → read_reg st r = Ok (reg st.1 r).
Proof using Type.
  intros Hm Hr. unfold read_reg, ReadRegister, ASSERT.
  rewrite Z.geb_leb, (proj2 (Z.leb_le _ _)), (proj2 (Z.ltb_lt _ _)) by lia. simpl_res. cbn [andb].
  pose proof (uo_regs _ Hm) as Hl.
  destruct (lookup_lt_is_Some_2 (registers st.1) (Z.to_nat r)) as [v Hv]; [lia|].
  unfold reg. rewrite Hv. apply arr_get_in; [lia|done].
Qed.

(** PrintFloat of a number other than 0. *)
Lemma PrintFloat_serves (st : St) : reg st.1 4 ≠ 0 → serves st (handle_SC_PrintFloat heap st).
Proof using Type.
  intros Hn Hm. unfold handle_SC_PrintFloat. rewrite read_reg_user by done. simpl_res.
  rewrite Floats.of_int_nonzero by done. revert Hm. change (serves st (' (buffer, n) ← Floats.format_float heap (Floats.of_int (reg st.1 4));
    '(_, st1) ← console_write buffer n st; Ok st1)). serve.
Qed.

Lemma handler_serves type h (st : St) :
  (type = SC_PrintFloat → reg st.1 4 ≠ 0) →
  handler_of heap oneChar garbage_type type = Some h →
  serves st (h st).
Proof using Type.
  intros Hz E. unfold handler_of in E.
  repeat match type of E with (if ?b then Some ?f else _) = _ => destruct b eqn:?; [apply (inj Some) in E; subst h|] end.
  - apply CreateFile_serves.
  - apply OpenFile_serves.
  - apply CloseFile_serves.
  - apply ReadFile_serves.
  - apply WriteFile_serves.
  - apply ReadInt_serves.
  - apply PrintInt_serves.
  - apply ReadFloat_serves.
  - apply PrintFloat_serves. apply Hz. lia.
  - apply ReadChar_serves.
  - apply PrintChar_serves.
  - apply ReadString_serves.
  - apply PrintString_serves.
  - apply Join_serves.
  - apply Exit_serves.
  - apply CreateSemaphore_serves.
  - apply Up_serves.
  - apply Down_serves.
  - apply Exec_serves.
  - discriminate E.
Qed.

Lemma write_reg_user (st : St) r v :
  user_ok st.1 → 0 ≤ r < NumTotalRegs → write_reg st r v = Ok (set_reg st.1 r v, st.2).
Proof using Type.
  intros Hm Hr. unfold write_reg, WriteRegister, ASSERT.
  rewrite Z.geb_leb, (proj2 (Z.leb_le _ _)), (proj2 (Z.ltb_lt _ _)) by lia. simpl_res. cbn [andb].
  rewrite arr_set_in; [done|]. rewrite (uo_regs _ Hm). lia.
Qed.

Lemma set_pc_user_ok m r v : user_ok m → PCReg ≤ r ≤ PrevPCReg → user_ok (set_reg m r v).
Proof using Type.
  unfold PCReg, PrevPCReg. intros Hm Hr. apply set_reg_user_ok; [done|unfold NumTotalRegs; lia|].
  unfold LoadReg. lia.
Qed.

(** A call that returns did so through its handler and [IncrementR]. *)
Lemma ExceptionHandler_returns (st st' : St) :
  (reg st.1 2 = SC_PrintFloat → reg st.1 4 ≠ 0) → user_ok st.1 →
  is_Some (handler_of heap oneChar garbage_type (reg st.1 2)) →
  ExceptionHandler heap oneChar garbage_type SyscallException st = Ok st' →
  ∃ st1, served st.1 st1.1 ∧ IncrementR st1 = Ok st'.
Proof using Type.
  intros Hz Hm [h Hh] E. unfold ExceptionHandler in E.
  rewrite read_reg_user in E by done. simpl_res. rewrite Hh in E.
  case_match; [done|]. apply bind_ok in E as (st1 & E1 & E2).
  pose proof (handler_serves _ _ st Hz Hh Hm) as Hs. rewrite E1 in Hs. by exists st1.
Qed.

(** PrintFloat of 0. *)
Definition prints_zero (m : Machine) : Prop := reg m 2 = SC_PrintFloat ∧ reg m 4 = 0.

(** The three program counters move on; nothing else changes. *)
Lemma IncrementR_spec (st : St) :
  user_ok st.1 → ∃ m', IncrementR st = Ok (m', st.2) ∧ user_ok m' ∧
    reg m' PrevPCReg = reg st.1 PCReg ∧ reg m' PCReg = reg st.1 NextPCReg ∧
    reg m' NextPCReg = s32 (reg st.1 NextPCReg + 4) ∧
    (∀ r, 0 ≤ r → ¬ PCReg ≤ r ≤ PrevPCReg → reg m' r = reg st.1 r) ∧
    same_space st.1 m' ∧ mainMemory m' = mainMemory st.1.
Proof using Type.
  destruct st as [m k]. intros Hm. simpl in Hm. unfold IncrementR.
  rewrite read_reg_user by done. simpl_res.
  rewrite write_reg_user by done. simpl_res. simpl fst. simpl snd.
  set (m1 := set_reg m PrevPCReg _).
  assert (user_ok m1) as H1 by (apply set_pc_user_ok; [done|unfold PCReg, NextPCReg, PrevPCReg; lia]).
  rewrite read_reg_user by done. simpl_res. rewrite write_reg_user by done. simpl_res. simpl fst. simpl snd.
  set (m2 := set_reg m1 PCReg _).
  assert (user_ok m2) as H2 by (apply set_pc_user_ok; [done|unfold PCReg, NextPCReg, PrevPCReg; lia]).
  rewrite write_reg_user by done. simpl fst. simpl snd.
  set (m3 := set_reg m2 NextPCReg _).
  assert (user_ok m3) as H3 by (apply set_pc_user_ok; [done|unfold PCReg, NextPCReg, PrevPCReg; lia]).
  assert (reg m1 NextPCReg = reg m NextPCReg) as E1 by (subst m1; by rewrite reg_insert).
  exists m3. split; [done|]. split; [done|].
  assert (∀ r, 0 ≤ r → reg m3 r =
    if bool_decide (r = NextPCReg) then s32 (reg m NextPCReg + 4)
    else if bool_decide (r = PCReg) then reg m NextPCReg
    else if bool_decide (r = PrevPCReg) then reg m PCReg else reg m r) as Er.
  { intros r Hr. subst m3. rewrite reg_insert by done. subst m2. rewrite reg_insert by done.
    subst m1. rewrite !reg_insert by done. done. }
  split_and!; try (rewrite Er by done; done).
  - intros r Hr Hne. rewrite Er by done. unfold PCReg, PrevPCReg, NextPCReg in *.
    by rewrite !bool_decide_eq_false_2 by lia.
  - subst m3 m2 m1. by split.
  - done.
Qed.

(** What a system call that returns does to the machine.  PrintFloat of 0 moves
    the program counters twice. *)
Record serves_one (m m' : Machine) : Prop := mkServesOne {
  so_ok : user_ok m';
  so_pcs : if decide (prints_zero m)
    then reg m' PrevPCReg = reg m NextPCReg ∧ reg m' PCReg = s32 (reg m NextPCReg + 4) ∧
         reg m' NextPCReg = s32 (s32 (reg m NextPCReg + 4) + 4)
    else reg m' PrevPCReg = reg m PCReg ∧ reg m' PCReg = reg m NextPCReg ∧
         reg m' NextPCReg = s32 (reg m NextPCReg + 4);
  so_space : same_space m m';
  so_mem : ∀ pa, (∀ a, frame m a true ≠ Some pa) → mainMemory m' !! pa = mainMemory m !! pa;
  so_regs : quiet m → quiet m' ∧ ∀ r, 0 ≤ r < NumGPRegs → r ≠ 2 → reg m' r = reg m r;
}.

Lemma increment_served m (st : St) :
  served m st.1 → ∃ m', IncrementR st = Ok (m', st.2) ∧ user_ok m' ∧
    reg m' PrevPCReg = reg st.1 PCReg ∧ reg m' PCReg = reg st.1 NextPCReg ∧
    reg m' NextPCReg = s32 (reg st.1 NextPCReg + 4) ∧ same_space m m' ∧
    (∀ pa, (∀ a, frame m a true ≠ Some pa) → mainMemory m' !! pa = mainMemory m !! pa) ∧
    (quiet m → quiet m' ∧ ∀ r, 0 ≤ r < NumGPRegs → r ≠ 2 → reg m' r = reg m r).
Proof using Type.
  intros [Hok _ Hss Hmem Hgpr].
  destruct (IncrementR_spec st Hok) as (m' & E & Hok' & P1 & P2 & P3 & Hrest & Hss' & Hmem').
  exists m'. split_and!; try done; [by etransitivity|intros pa Hpa; rewrite Hmem'; by apply Hmem|].
  unfold quiet, NumGPRegs, LoadReg, LoadValueReg, PCReg, PrevPCReg in *. intros Hq. rewrite !Hrest by lia.
  destruct (Hgpr Hq) as [Hq1 Hsame]. split; [done|]. intros r Hr Hne. rewrite Hrest by lia. by apply Hsame.
Qed.

Lemma handler_prints_zero m (k : K) m' k' :
  user_ok m → prints_zero m →
  ExceptionHandler heap oneChar garbage_type SyscallException (m, k) = Ok (m', k') →
  ∃ k1 m1, IncrementR (m, k1) = Ok (m1, k1) ∧ user_ok m1 ∧ IncrementR (m1, k1) = Ok (m', k').
Proof using Type.
  intros Hm [H2 H4]. unfold ExceptionHandler. rewrite read_reg_user by done. simpl_res. simpl fst. rewrite H2. simpl.
  unfold handle_SC_PrintFloat. rewrite read_reg_user by done. simpl_res. simpl fst. rewrite H4. simpl.
  unfold console_write. intros (st1 & E1 & E2)%bind_ok. apply bind_ok in E1 as ([n st] & E & E1).
  apply bind_ok in E as ([n' c] & _ & E). injection E as _ <-.
  destruct (IncrementR_spec (with_console (m, k) c) Hm) as (m1 & Em & Hm1 & _).
  change (IncrementR (with_console (m, k) c) = Ok st1) in E1. rewrite Em in E1. injection E1 as <-.
  by exists (with_console (m, k) c).2, m1.
Qed.

Lemma syscall_effect m (k : K) m' k' :
  user_ok m → is_Some (handler_of (C:=C) (T:=T) (W:=W) heap oneChar garbage_type (reg m 2)) →
  ExceptionHandler heap oneChar garbage_type SyscallException (m, k) = Ok (m', k') → serves_one m m'.
Proof using Type.
  intros Hm Hh E. destruct (decide (prints_zero m)) as [Hz|Hz].
  - destruct (handler_prints_zero m k m' k' Hm Hz E) as (k1 & m1 & E1 & Hm1 & E2).
    destruct (increment_served m (m, k1) (served_refl m Hm)) as (m1' & E1' & _ & P1 & P2 & P3 & Hss & Hmem & Hregs).
    rewrite E1 in E1'. injection E1' as <-. simpl in *.
    destruct (increment_served m1 (m1, k1) (served_refl m1 Hm1)) as (m2 & E2' & Hok2 & Q1 & Q2 & Q3 & Hss2 & Hmem2 & Hregs2).
    rewrite E2 in E2'. injection E2' as -> ->. simpl in *. split; [done| |by etransitivity| |].
    + rewrite decide_True by done. by rewrite Q1, Q2, Q3, P2, P3.
    + intros pa Hpa. rewrite Hmem2; [by apply Hmem|]. intros a Ha. apply (Hpa a).
      by rewrite Hss.
    + intros Hq. destruct (Hregs Hq) as [Hq1 Hr1]. destruct (Hregs2 Hq1) as [Hq2 Hr2].
      split; [done|]. intros r Hr Hne. by rewrite Hr2, Hr1.
  - destruct (ExceptionHandler_returns (m, k) _ ltac:(intros H2 H4; by apply Hz) Hm Hh E) as (st1 & Hs & E2).
    pose proof (sv_pc _ _ Hs) as Hpc.
    destruct (increment_served m st1 Hs) as (m2 & E3 & Hok2 & P1 & P2 & P3 & Hrest).
    rewrite E3 in E2. injection E2 as -> _. split; try apply Hrest; [done|].
    rewrite decide_False by done.
    by rewrite P1, P2, P3, !Hpc by (unfold PCReg, NextPCReg, PrevPCReg; lia).
Qed.

(** PrintFloat of 0 shows "0.0" and moves the program counters itself, so that
    the exception handler moves them for the second time: the instruction behind
    the call is skipped. *)
Lemma PrintFloat_zero (st : St) c :
  user_ok st.1 → reg st.1 2 = SC_PrintFloat → reg st.1 4 = 0 →
  con_write [48; 46; 48; 0] 3 (gSynchConsole st.2) = Ok (3, c) →
  ∃ m', ExceptionHandler heap oneChar garbage_type SyscallException st = Ok (m', (with_console st c).2) ∧
    reg m' PCReg = s32 (reg st.1 NextPCReg + 4).
Proof using Type.
  intros Hm H2 H4 Hc. destruct st as [m k]. simpl in *. unfold ExceptionHandler.
  rewrite read_reg_user by done. simpl_res. simpl fst. rewrite H2. simpl. cbn [fst].
  unfold handle_SC_PrintFloat. rewrite read_reg_user by done. simpl_res. simpl fst. rewrite H4. simpl.
  unfold console_write. change (to_chars [48; 46; 48; 0]) with [48; 46; 48; 0]. simpl snd. rewrite Hc. simpl_res.
  destruct (IncrementR_spec (with_console (m, k) c) Hm) as (m1 & -> & Hm1 & _ & _ & P3 & _). simpl_res.
  destruct (IncrementR_spec (m1, (with_console (m, k) c).2) Hm1) as (m2 & -> & _ & _ & Q2 & _).
  exists m2. split; [done|]. simpl in *. by rewrite Q2.
Qed.
End calls.

(** ** Traps inside a system call *)

Lemma use_entry_no_syscall e off size writing exc pa e' :
  use_entry e off size writing = Ok (exc, pa, e') → exc ≠ SyscallException.
Proof.
  unfold use_entry. destruct (readOnly e && writing); [by intros [= <- _ _]|].
  destruct (_ >=? _); [by intros [= <- _ _]|]. intros (u & _ & Hu)%bind_ok. by injection Hu as <- _ _.
Qed.

(** No translation, by page table or by TLB, ends in a system call. *)
Lemma Translate_no_syscall m a size writing exc pa m' :
  Translate m a size writing = Ok (exc, pa, m') → exc ≠ SyscallException.
Proof.
  unfold Translate. intros Ht. case_match; [by injection Ht as <- _ _|].
  apply bind_ok in Ht as (u1 & _ & Ht). apply bind_ok in Ht as (u2 & _ & Ht).
  repeat case_match; try done; repeat (apply bind_ok in Ht as (? & ? & Ht); repeat case_match; subst);
    try done; simplify_eq; try done; by eapply use_entry_no_syscall.
Qed.

Section agree.
Context {K : Type} (K1 K2 : Kernel K).
Context (Hst : @setStatus K K1 = @setStatus K K2).
Context (Heh : ∀ which st, which ≠ SyscallException →
  @Machine.ExceptionHandler K K1 which st = @Machine.ExceptionHandler K K2 which st).

Lemma RaiseException_agree which bad st :
  which ≠ SyscallException → @RaiseException K K1 which bad st = @RaiseException K K2 which bad st.
Proof using Hst Heh.
  intros Hw. unfold RaiseException. destruct st as [m k]. rewrite Hst.
  destruct (DelayedLoad _ 0 0) as [m1|e]; [|done]. simpl_res. by rewrite Heh.
Qed.

Lemma ReadMem_agree a size st : @ReadMem K K1 a size st = @ReadMem K K2 a size st.
Proof using Hst Heh.
  unfold ReadMem. destruct st as [m k].
  destruct (Translate m a size false) as [[[exc pa] m1]|e] eqn:Et; [|done]. simpl_res.
  apply Translate_no_syscall in Et. case_bool_decide; [|done]. by rewrite RaiseException_agree.
Qed.

Lemma WriteMem_agree a size v st : @WriteMem K K1 a size v st = @WriteMem K K2 a size v st.
Proof using Hst Heh.
  unfold WriteMem. destruct st as [m k].
  destruct (Translate m a size true) as [[[exc pa] m1]|e] eqn:Et; [|done]. simpl_res.
  apply Translate_no_syscall in Et. case_bool_decide; [|done]. by rewrite RaiseException_agree.
Qed.

Lemma User2System_agree c va limit st :
  @User2System K K1 c va limit st = @User2System K K2 c va limit st.
Proof using Hst Heh.
  unfold User2System. case_match; [done|]. generalize (replicate (Z.to_nat (limit + 1)) 0) as buf.
  generalize 0 as idx. revert c st. induction (Z.to_nat limit) as [|n IH]; intros c st idx buf; [done|].
  cbn [u2s_loop]. rewrite ReadMem_agree. destruct (@ReadMem K K2 _ 1 st) as [[v st']|e]; [|done].
  simpl_res. destruct (arr_set _ _ _) as [buf'|e]; [|done]. case_match; [done|]. apply IH.
Qed.

Lemma System2User_agree va len buf st :
  @System2User K K1 va len buf st = @System2User K K2 va len buf st.
Proof using Hst Heh.
  unfold System2User. do 2 (case_match; [done|]). generalize 0 as i. revert st.
  induction (Z.to_nat len) as [|n IH]; intros st i; [done|].
  cbn [s2u_loop]. destruct (arr_get buf i) as [b|e]; [|done]. simpl_res.
  rewrite WriteMem_agree. destruct (@WriteMem K K2 _ 1 _ st) as [[v st']|e]; [|done].
  case_match; [|done]. apply IH.
Qed.
End agree.

Lemma take_line_text n text rest :
  Forall (λ c, 45 ≤ c < 58) text → (length text < n)%nat →
  take_line n (text ++ newline :: rest) = Some (text, Some newline, rest).
Proof.
  intros Ht. revert n. induction Ht as [|c text Hc _ IH]; intros [|n] Hn; simpl in Hn |- *; try lia; [done|].
  rewrite IH by lia. unfold newline, ctrl_A.
  by rewrite (proj2 (Z.eqb_neq c 10)), (proj2 (Z.eqb_neq c 1)) by lia.
Qed.

Lemma decimal_big d ds :
  Forall digit (d :: ds) → d ≠ 48 → 10 ^ Z.of_nat (length ds) ≤ decimal (d :: ds).
Proof.
  intros Hds Hd0. apply Forall_cons in Hds as [Hd Hds]. unfold digit in Hd.
  induction ds as [|c ds IH] using rev_ind.
  - unfold decimal. simpl. change (10 ^ Z.of_nat 0) with 1. lia.
  - rewrite app_comm_cons, decimal_snoc, length_app. apply Forall_app in Hds as [Hds Hc].
    apply Forall_cons in Hc as [Hc _]. unfold digit in Hc. specialize (IH Hds). simpl length.
    rewrite Nat.add_1_r, Nat2Z.inj_succ, Z.pow_succ_r by lia. lia.
Qed.

(** A numeral of an [int] has at most eleven characters. *)
Lemma numeral_length n text : - two31 < n < two31 → numeral n text → (length text < 255)%nat.
Proof.
  intros Hn (ds & -> & Hds & Hdec & Hne & Hhd). rewrite length_app.
  assert (length (if (n <? 0)%Z then [45%Z] else []) ≤ 1)%nat by (destruct (n <? 0); simpl; lia).
  destruct ds as [|d ds]; [done|]. destruct (decide (d = 48)) as [->|Hd].
  - rewrite Hhd by done. simpl. lia.
  - pose proof (decimal_big d ds Hds Hd) as Hbig. rewrite Hdec in Hbig. simpl length.
    destruct (decide (length ds < 10)%nat) as [|Hl]; [lia|]. exfalso.
    pose proof (Z.pow_le_mono_r 10 10 (Z.of_nat (length ds)) ltac:(lia) ltac:(lia)) as Hp.
    change (10 ^ 10) with 10000000000 in Hp. unfold two31 in Hn. lia.
Qed.

(** ** Numbers on the console *)

Section numbers.
Context {C T W : Type} `{SynchCons C} `{Laws : !SynchConsLaws C} `{FreeMap T} `{!SemOps W}.
Notation St := (Machine * Globals C T W)%type.
Context (heap : nat → Z).

Lemma console_write_text (st : St) text rest n :
  con_ok (gSynchConsole st.2) → n = Z.of_nat (length text) → Forall (λ c, 45 ≤ c < 58) text →
  ∃ c, console_write (text ++ rest) n st = Ok (n, with_console st c) ∧ con_ok c ∧
    con_output c = con_output (gSynchConsole st.2) ++ text ∧
    con_input c = con_input (gSynchConsole st.2).
Proof using Laws.
  intros Hc -> Htext. unfold console_write.
  destruct (con_write_spec (gSynchConsole st.2) (to_chars (text ++ rest)) (Z.of_nat (length text)))
    as (c & -> & Hok & Hout & Hin); [done|unfold to_chars; rewrite length_fmap, length_app; lia|].
  exists c. split_and!; try done. rewrite Hout. f_equal. unfold to_chars.
  rewrite Nat2Z.id, fmap_app, take_app_length' by (by rewrite length_fmap).
  by apply to_chars_small.
Qed.

Lemma print_int_numeral (st : St) n :
  - two31 < n < two31 → user_ok st.1 → reg st.1 4 = n → con_ok (gSynchConsole st.2) →
  ∃ text c, numeral n text ∧ handle_SC_PrintInt heap st = Ok (with_console st c) ∧
    con_ok c ∧ con_output c = con_output (gSynchConsole st.2) ++ text ∧
    con_input c = con_input (gSynchConsole st.2).
Proof using Laws.
  intros Hn Hm Hr Hc. unfold handle_SC_PrintInt. rewrite read_reg_user, Hr by done. simpl_res.
  destruct (Z.eqb_spec n 0) as [->|Hn0].
  - assert (numeral 0 [48]) as Hnum.
    { exists [48]. split_and!; try done. repeat constructor; lia. }
    destruct (console_write_text st [48] [0] 1 Hc) as (c & E & Hrest); [done|exact (numeral_chars _ _ Hnum)|].
    change ([48] ++ [0]) with [48; 0] in E. exists [48], c. rewrite E. split; [done|]. by split.
  - destruct (format_int_spec n (new_char heap 256)) as (text & rest & -> & Hnum); [done..|].
    simpl_res. destruct (console_write_text st text rest (Z.of_nat (length text)) Hc) as (c & -> & Hrest);
      [done|exact (numeral_chars _ _ Hnum)|]. exists text, c. split; [done|]. by split.
Qed.

Lemma read_int_numeral (st : St) n text rest :
  - two31 < n < two31 → numeral n text → user_ok st.1 → con_ok (gSynchConsole st.2) →
  con_input (gSynchConsole st.2) = text ++ newline :: rest →
  ∃ c, handle_SC_ReadInt heap st = Ok (set_reg st.1 2 n, (with_console st c).2) ∧
    con_ok c ∧ con_input c = rest ∧ con_output c = con_output (gSynchConsole st.2).
Proof using Laws.
  intros Hn Hnum Hm Hc Hin. unfold handle_SC_ReadInt, console_read.
  pose proof (numeral_chars n text Hnum) as Hch.
  destruct (con_read_spec (gSynchConsole st.2) (to_chars (new_char heap 256)) 255 text (Some newline) rest)
    as (c & -> & Hok & Hin' & Hout); [done|split; [done|]|rewrite Hin; apply take_line_text; [done|]|].
  { unfold to_chars, new_char. by rewrite !length_fmap, length_seq. }
  { exact (numeral_length _ _ Hn Hnum). }
  rewrite bool_decide_eq_false_2 by done. simpl_res. unfold to_bytes at 1.
  rewrite fmap_app. fold (to_bytes text). rewrite to_bytes_small by done.
  rewrite (parse_int_spec n) by done. simpl_res.
  rewrite write_reg_user by (rewrite ?with_console_machine; done).
  rewrite with_console_machine. exists c. by split_and!.
Qed.
End numbers.

Module ExceptionSpec.

Section spec.
Context {C T W : Type} `{SynchCons C} `{FreeMap T} `{!SemOps W}.
Notation K := (Globals C T W).
Notation St := (Machine * K)%type.
Context (heap : nat → Z) (oneChar garbage_type : Z).
Notation real_kernel := (kernel heap oneChar garbage_type).
Notation handler := (handler_of heap oneChar garbage_type).

(** Traps inside a system call: copying strings between user and kernel
    memory while a system call is served gives the same result with the
    complete exception handler as with the part of it that the handlers are
    defined with, whatever machine, address and length: a nested trap is never
    a system call. *)
Theorem nested_traps_agree (st : St) va n c buf :
  @User2System K real_kernel c va n st = @User2System K fault_kernel c va n st ∧
  @System2User K real_kernel va n buf st = @System2User K fault_kernel va n buf st.
Proof.
  split; [apply User2System_agree|apply System2User_agree]; try done; by intros [] [m k] Hw.
Qed.

(** C30.  A system call that returns serves its caller and nobody else.  The
    program counters move to the next instruction (so the call is not repeated),
    the address translation is as before, of the memory only bytes of pages
    that the program itself may write have changed (the memory of the kernel
    and of the other programs is untouched), and of the general registers only
    register 2, which has the result.  PrintFloat of 0 is different in one point:
    it moves the program counters twice.  A call with a number that the handler
    does not know returns with nothing done: the program counters stay, so the
    program makes the call again. *)
Theorem syscall_isolated m k m' k' :
  user_ok m →
  ExceptionHandler heap oneChar garbage_type SyscallException (m, k) = Ok (m', k') →
  match handler (reg m 2) with
  | None => m' = m ∧ k' = k
  | Some _ =>
      (if decide (prints_zero m)
       then reg m' PrevPCReg = reg m NextPCReg ∧ reg m' PCReg = s32 (reg m NextPCReg + 4) ∧
            reg m' NextPCReg = s32 (s32 (reg m NextPCReg + 4) + 4)
       else reg m' PrevPCReg = reg m PCReg ∧ reg m' PCReg = reg m NextPCReg ∧
            reg m' NextPCReg = s32 (reg m NextPCReg + 4)) ∧
      user_ok m' ∧ same_space m m' ∧
      (∀ pa, (∀ a, frame m a true ≠ Some pa) → mainMemory m' !! pa = mainMemory m !! pa) ∧
      (quiet m → quiet m' ∧ ∀ r, 0 ≤ r < NumGPRegs → r ≠ 2 → reg m' r = reg m r)
  end.
Proof.
  intros Hm E. destruct (handler (reg m 2)) as [h|] eqn:Eh.
  - destruct (syscall_effect heap oneChar garbage_type m k m' k' Hm (mk_is_Some _ _ Eh) E). done.
  - unfold ExceptionHandler in E. rewrite read_reg_user in E by done. simpl_res. simpl fst in E.
    rewrite Eh in E. case_match; [done|]. by injection E as <- <-.
Qed.

(** C33.  Printing and reading a number.  For every [int] but the least one,
    [PrintInt] displays its decimal numeral (sign, no leading zeros) and changes
    nothing else; and when the user types that numeral and Enter, [ReadInt]
    returns the number in register 2, whatever the machine. *)
Theorem print_read_int `{!SynchConsLaws C} (st : St) n :
  - two31 < n < two31 → user_ok st.1 → reg st.1 4 = n → con_ok (gSynchConsole st.2) →
  ∃ text c, numeral n text ∧ handle_SC_PrintInt heap st = Ok (with_console st c) ∧
    con_ok c ∧ con_output c = con_output (gSynchConsole st.2) ++ text ∧
    con_input c = con_input (gSynchConsole st.2) ∧
    ∀ (st2 : St) rest, user_ok st2.1 → con_ok (gSynchConsole st2.2) →
      con_input (gSynchConsole st2.2) = text ++ newline :: rest →
      ∃ c2, handle_SC_ReadInt heap st2 = Ok (set_reg st2.1 2 n, (with_console st2 c2).2) ∧
        con_ok c2 ∧ con_input c2 = rest ∧ con_output c2 = con_output (gSynchConsole st2.2).
Proof.
  intros Hn Hm Hr Hc.
  destruct (print_int_numeral heap st n) as (text & c & Hnum & E & Hrest); try done.
  exists text, c. split_and!; try apply Hrest; try done.
  intros st2 rest Hm2 Hc2 Hin. by apply (read_int_numeral heap st2 n text).
Qed.
End spec.

(** The kernel after start-up, with a program of two pages. *)
#[local] Instance sample_console : SynchCons (Sim ConsoleSpec.L Console.SynchConsole) := Console.synch_cons 0.
#[local] Instance sample_console_laws : SynchConsLaws (Sim ConsoleSpec.L Console.SynchConsole) :=
  Console.synch_cons_laws 0.

Definition sample_globals : Globals (Sim ConsoleSpec.L Console.SynchConsole) BitMap.BitMap (Thread.Kern (NList.List Z)) :=
  mkGlobals ConsoleSpec.sample
    (match StubFS.FileSystem_new Unix.empty with
     | Ok fs => fs | Stop _ => StubFS.mkFileSystem [] Unix.empty end)
    (STable.STable_new STableSpec.bits) ThreadSpec.boot ProcessSpec.boot 0 SystemMode.

(** A system call [type] with two arguments, at address 100. *)
Definition calling (type a b : Z) : Machine :=
  set_reg (set_reg (set_reg (set_reg (set_reg MemoryProps.sample_machine 2 type) 4 a) 5 b) PCReg 100) NextPCReg 104.

Lemma calling_ok type a b : user_ok (calling type a b).
Proof.
  split; [done| |].
  - change (reg (calling type a b) LoadReg) with 0. by unfold NumGPRegs.
  - exists MemoryProps.sample_table. destruct MemoryProps.sample_linear as [H1 H2 H3 H4]. by split.
Qed.

(** Close of standard input. *)
Lemma syscall_isolated_witness :
  ∃ m' k', ExceptionHandler (λ _, 0) 0 0 SyscallException
             (calling SC_CloseFile 0 0, sample_globals) = Ok (m', k') ∧
    reg m' PCReg = 104 ∧ reg m' NextPCReg = 108 ∧ reg m' 2 = -1 ∧ mainMemory m' !! 7 = mainMemory (calling SC_CloseFile 0 0) !! 7.
Proof.
  destruct (ExceptionHandler (λ _, 0) 0 0 SyscallException
             (calling SC_CloseFile 0 0, sample_globals)) as [[m' k']|e] eqn:E.
  - pose proof (syscall_isolated (λ _, 0) 0 0 (calling SC_CloseFile 0 0) sample_globals m' k'
      (calling_ok SC_CloseFile 0 0) E) as Hserved.
    change (handler_of (λ _, 0) 0 0 (reg (calling SC_CloseFile 0 0) 2)) with
      (Some (@handle_SC_CloseFile (Sim ConsoleSpec.L Console.SynchConsole) BitMap.BitMap
         (Thread.Kern (NList.List Z)))) in Hserved.
    destruct Hserved as (Hpcs & _ & _ & Hmem & _).
    rewrite decide_False in Hpcs by (intros [H0 _]; vm_compute in H0; discriminate H0).
    destruct Hpcs as (_ & H1 & H2).
    exists m', k'. split_and!; [done|exact H1|exact H2| |].
    + assert ((λ r : res (Machine * _), match r with Ok st => reg st.1 2 | Stop _ => 0 end)
        (ExceptionHandler (λ _, 0) 0 0 SyscallException
             (calling SC_CloseFile 0 0, sample_globals)) = -1) as H3 by (vm_compute; reflexivity).
      rewrite E in H3. exact H3.
    + apply Hmem. intros a Ha. unfold frame in Ha. simpl in Ha.
      pose proof (offset_range a). pose proof (vpn_range a). unfold PageSize, SectorSize in *.
      destruct (Z.to_nat (vpn_of a)) as [|[|]]; simpl in Ha; try discriminate; injection Ha; lia.
  - exfalso. revert E. vm_compute. discriminate.
Defined.

Lemma print_read_int_witness :
  ∃ text c, numeral (-2147483647) text ∧
    handle_SC_PrintInt (λ _, 0) (calling SC_PrintInt (-2147483647) 0, sample_globals)
    = Ok (with_console (calling SC_PrintInt (-2147483647) 0, sample_globals) c) ∧ con_output c = text.
Proof.
  destruct ConsoleSpec.console_ready as (Hr & Hi & Hd).
  destruct (print_read_int (λ _, 0)
    (calling SC_PrintInt (-2147483647) 0, sample_globals) (-2147483647)) as (text & c & Hnum & E & _ & Hout & _).
  - unfold two31. lia.
  - apply calling_ok.
  - reflexivity.
  - exact Hr.
  - exists text, c. split_and!; [exact Hnum|exact E|]. rewrite Hout.
    change (Console.display (Console.cons (rest ConsoleSpec.sample)) ++ text = text). by rewrite Hd.
Defined.

(** ** What ReadInt and PrintInt do with other input *)

(** Letters are taken for digits: the range test asks for a character that is
    below 0 and above 9 at the same time.  An empty line reads as -48, and the
    least [int] is printed with characters below 0. *)
Lemma read_int_takes_letters :
  parse_int [97; 0] 1 = Ok 49 ∧ parse_int [0; 0] 0 = Ok (-48).
Proof. split; vm_compute; reflexivity. Qed.

Lemma print_int_least :
  format_int (- two31) (replicate 256 0)
  = Ok ([45; 46; 47; 44; 41; 44; 40; 45; 42; 44; 40] ++ replicate 245 0, 11).
Proof. vm_compute. reflexivity. Qed.
End ExceptionSpec.
