(* ===== verification/FileCalls.v ===== *)
(** * The file system calls

    What CreateFile, OpenFile, ReadFile, WriteFile and CloseFile do for a user
    program, in terms of its memory, the table of open files and the files of
    the host; the identifiers they refuse; a session that writes a file and
    reads it back. *)

From S2P Require Import Prelude NList Bitmap Machine MipsSim UnixFS Directory FileSys AddrSpace Interrupt Console STable Process Exception ExceptionProps.
Import Exception.

(** ** Strings *)

Definition char_ok (c : Z) : Prop := is_u8 c ∧ c ≠ 0.

Lemma until_nul_string str n :
  Forall char_ok str → Directory.until_nul (str ++ replicate n 0) = str.
Proof.
  induction 1 as [|c str [_ Hc] _ IH]; simpl; [apply Directory.until_nul_replicate|].
  by rewrite (proj2 (Z.eqb_neq c 0)), IH.
Qed.

Lemma strlen_string str n :
  Forall char_ok str → (0 < n)%nat → strlen (str ++ replicate n 0) = Ok (Z.of_nat (length str)).
Proof.
  intros Hs Hn. unfold strlen. rewrite until_nul_string by done.
  rewrite bool_decide_eq_true_2; [done|]. apply elem_of_app. right. destruct n; [lia|]. by left.
Qed.

(** User memory holds [str] at [va]: [limit] characters, or fewer and a NUL. *)
Record user_string (m : Machine) (va : Z) (limit : nat) (str : list Z) : Prop := mkUserString {
  us_chars : ∀ j : nat, (j < length str)%nat → ubyte m (s32 (va + Z.of_nat j)) = str !! j;
  us_end : length str = limit ∨
           (length str < limit)%nat ∧ ubyte m (s32 (va + Z.of_nat (length str))) = Some 0;
  us_ok : Forall char_ok str;
}.

(** The machine after a call that only answered [v] in register 2. *)
Record answers (m : Machine) (v : Z) (m' : Machine) : Prop := mkAnswers {
  an_ok : user_ok m';
  an_space : same_space m m';
  an_mem : mainMemory m' = mainMemory m;
  an_reg : reg m' 2 = v;
}.

Lemma answers_ubyte m v m' a : answers m v m' → ubyte m' a = ubyte m a.
Proof. intros [_ Hs Hm _]. by apply ubyte_same. Qed.

Lemma answers_string m v m' va limit str :
  answers m v m' → user_string m va limit str → user_string m' va limit str.
Proof.
  intros Ha [H1 H2 H3]. split; [|destruct H2 as [H2|[H2 H4]]|done].
  - intros j Hj. rewrite (answers_ubyte m v m') by done. by apply H1.
  - by left.
  - right. by rewrite (answers_ubyte m v m').
Qed.

(** A machine with the same registers, memory and translation. *)
Lemma answer m m1 v :
  user_ok m → same_space m m1 → registers m1 = registers m → mainMemory m1 = mainMemory m →
  answers m v (set_reg m1 2 v).
Proof.
  intros Hm Hs Hr Hmem. pose proof (same_served m m1 Hm Hs Hr Hmem) as [Hok _ _ _].
  split; [by apply set_reg_user_ok| |done|].
  - etransitivity; [done|]. by split.
  - by rewrite reg_insert.
Qed.

Section copy.
Context {K : Type} `{Kernel K}.

(** [System2User] of characters without a NUL copies them all. *)
Lemma s2u_loop_full str : ∀ va i buf rest m (k : K) pt,
  drop (Z.to_nat i) buf = str ++ rest → Forall char_ok str → str ≠ [] →
  0 ≤ i → i + Z.of_nat (length str) ≤ two31 → linear m pt → frames_inj m →
  (∀ j, i ≤ j < i + Z.of_nat (length str) → is_Some (frame m (s32 (va + j)) true)) →
  ∃ m', s2u_loop (length str) va (i + Z.of_nat (length str)) i buf (m, k)
        = Ok (i + Z.of_nat (length str), (m', k)) ∧
    same_space m m' ∧ registers m' = registers m ∧
    (∀ j : nat, (j < length str)%nat → ubyte m' (s32 (va + i + Z.of_nat j)) = str !! j) ∧
    (∀ a, (∀ j, i ≤ j < i + Z.of_nat (length str) → u32 a ≠ u32 (va + j)) → ubyte m' a = ubyte m a).
Proof.
  induction str as [|c str IH]; intros va i buf rest m k pt Hdrop Hstr Hne Hi Hmax Hlin Hinj Hw; [done|].
  apply Forall_cons in Hstr as [[Hc Hc0] Hstr]. simpl length in *. cbn [s2u_loop].
  assert (arr_get buf i = Ok c) as ->.
  { apply arr_get_in; [lia|]. replace (Z.to_nat i) with (Z.to_nat i + 0)%nat by lia.
    rewrite <- lookup_drop, Hdrop. done. }
  simpl_res.
  destruct (write_ubyte m k pt (s32 (va + i)) c Hlin Hinj) as (m1 & -> & Hss & Hr & Hub & Hoth);
    [done|apply Hw; lia|].
  simpl_res. rewrite s8_zero, bool_decide_eq_false_2, andb_true_r by done.
  destruct str as [|c' str'].
  - rewrite (proj2 (Z.ltb_ge _ _)) by (simpl; lia). exists m1. split_and!; try done.
    + intros j Hj. replace j with 0%nat by (simpl in Hj; lia). by rewrite Z.add_0_r.
    + intros a Ha. apply Hoth. rewrite u32_s32. apply Ha. simpl. lia.
  - set (str := c' :: str') in *. assert (str ≠ []) as Hne' by done.
    assert (0 < length str)%nat by (subst str; simpl; lia).
    rewrite (proj2 (Z.ltb_lt _ _)) by lia.
    destruct (same_space_linear m m1 pt Hss Hlin) as [pt1 Hlin1].
    destruct (IH va (i + 1) buf rest m1 k pt1) as (m2 & E2 & Hss2 & Hr2 & Hub2 & Hoth2); try done; try lia.
    { replace (Z.to_nat (i + 1)) with (Z.to_nat i + 1)%nat by lia. rewrite <- drop_drop, Hdrop. done. }
    { by eapply frames_inj_same. }
    { intros j Hj. eapply writable_same; [done|]. apply Hw. lia. }
    replace (i + Z.of_nat (S (length str))) with (i + 1 + Z.of_nat (length str)) in * by lia.
    exists m2. split_and!; [exact E2|by etransitivity|by rewrite Hr2| |].
    + intros [|j] Hj; simpl lookup.
      * rewrite Hoth2; [rewrite Z.add_0_r; exact Hub|].
        intros j' Hj'. rewrite u32_s32, <- Z.add_assoc. apply addr_distinct; unfold two31, two32 in *; lia.
      * rewrite <- (Hub2 j) by lia. do 2 f_equal. lia.
    + intros a Ha. rewrite Hoth2; [|intros j Hj; apply Ha; lia].
      apply Hoth. rewrite u32_s32. apply Ha. lia.
Qed.
End copy.

Section files.
Context {C T W : Type} `{SynchCons C} `{FreeMap T} `{!SemOps W}.
Notation K := (Globals C T W).
Notation St := (Machine * K)%type.
Context (heap : nat → Z) (oneChar : Z).

#[local] Existing Instance fault_kernel.

Definition with_fs (k : K) (fs : StubFS.FileSystem) : K :=
  mkGlobals (gSynchConsole k) fs (Exception.semTab k) (sems k) (world k) (pid k) (status k).

Lemma with_files_fs m k fs : with_files (m, k) fs = (m, with_fs k fs).
Proof. done. Qed.

Lemma user2system_string m (k : K) va n str :
  user_ok m → user_string m va n str →
  ∃ m1, user2system oneChar va (Z.of_nat n) (m, k) = Ok (str ++ replicate (n + 1 - length str) 0, (m1, k)) ∧
    same_space m m1 ∧ registers m1 = registers m ∧ mainMemory m1 = mainMemory m.
Proof.
  intros [_ _ [pt Hlin]] [Hc He Hok]. unfold user2system, User2System.
  rewrite (proj2 (Z.ltb_ge _ 0)) by lia. rewrite Nat2Z.id.
  replace (Z.to_nat (Z.of_nat n + 1)) with (n + 1)%nat by lia.
  apply (u2s_loop_string str n va 0 oneChar [] m k pt); try done.
  - intros j Hj. rewrite Z.add_0_r. by apply Hc.
  - by rewrite Z.add_0_r.
Qed.

Lemma user_string_length m va n str : user_string m va n str → (length str ≤ n)%nat.
Proof. intros [_ [He|[He _]] _]; lia. Qed.


(** ** The five calls *)

Notation fs := (λ k : K, fileSystem k).
Notation table := (λ k : K, StubFS.file_table (fileSystem k)).
Notation host := (λ k : K, StubFS.unix (fileSystem k)).

Lemma file_at_spec m (k : K) i f :
  0 ≤ i → table k !! Z.to_nat i = Some f → file_at (m, k) i = Ok f.
Proof. intros. unfold file_at. by apply arr_get_in. Qed.

Lemma set_file_spec m (k : K) i f u :
  0 ≤ i < Z.of_nat (length (table k)) →
  set_file (m, k) i f u = Ok (m, with_fs k (StubFS.mkFileSystem (<[Z.to_nat i := f]> (table k)) u)).
Proof. intros Hi. unfold set_file. simpl fst. simpl snd. by rewrite arr_set_in. Qed.

Lemma valid_id_true i : 2 ≤ i < N_FILES_IN_TABLE → valid_id i = true.
Proof.
  intros Hi. unfold valid_id. by rewrite Z.geb_leb, (proj2 (Z.ltb_ge i 0)), (proj2 (Z.leb_gt _ _)) by lia.
Qed.

Lemma CreateFile_spec m (k : K) name :
  user_ok m → user_string m (reg m 4) 200 name → name ≠ [] → Unix.wf (host k) →
  if decide (name ∈ Unix.refused (host k)) then handle_SC_CreateFile oneChar (m, k) = Stop AssertFailed else
  ∃ m' u ino, handle_SC_CreateFile oneChar (m, k)
      = Ok (m', with_fs k (StubFS.mkFileSystem (table k) u)) ∧ answers m 0 m' ∧
    0 ≤ ino ∧ Unix.wf u ∧ Unix.names u !! name = Some ino ∧ Unix.contents u ino = [].
Proof.
  intros Hm Hs Hne Hwf. unfold handle_SC_CreateFile. rewrite read_reg_user by done. simpl_res.
  destruct (user2system_string m k (reg m 4) 200 name Hm Hs) as (m1 & E & Hss & Hr & Hmem).
  change (Z.of_nat 200) with MAX_FILENAME_LEN in E. simpl fst. rewrite E. clear E. simpl_res.
  pose proof (user_string_length _ _ _ _ Hs) as Hl. destruct Hs as [_ _ Hok].
  rewrite strlen_string by (done || lia). simpl_res.
  rewrite (proj2 (Z.eqb_neq _ 0)) by (destruct name; [done|simpl; lia]).
  unfold StubFS.Create. simpl snd.
  set (padded := name ++ _).
  assert (Unix.cname padded = name) as Ec by (by apply until_nul_string).
  destruct (decide (name ∈ Unix.refused (host k))) as [Hin|Hcr].
  { rewrite (Unix.OpenForWrite_refused (host k) padded) by (by rewrite Ec). done. }
  destruct (Unix.OpenForWrite_spec (host k) padded Hwf) as (u & Eo & _ & Hwf' & Hino & Hn & Hc & _);
    [by rewrite Ec|].
  rewrite Eo. simpl_res. rewrite (proj2 (Z.eqb_neq _ (-1))) by lia. simpl_res.
  rewrite with_files_fs. change (Z.b2z true =? -1) with false. cbn beta iota.
  pose proof (same_served m m1 Hm Hss Hr Hmem) as [Hok1 _ _ _].
  rewrite write_reg_user by done. rewrite Ec in Hn, Hino, Hc.
  do 3 eexists. split; [reflexivity|]. split; [by apply answer|]. split; [exact Hino|done].
Qed.

(** A file that exists is opened in a free slot, at its beginning. *)
Lemma OpenFile_spec m (k : K) name type ino j :
  user_ok m → user_string m (reg m 4) 200 name → reg m 5 = type → type = 0 ∨ type = 1 →
  name ≠ StubFS.stdin_name → name ≠ StubFS.stdout_name →
  length (table k) = Z.to_nat N_FILES_IN_TABLE → Unix.names (host k) !! name = Some ino → 0 ≤ ino →
  2 ≤ j < N_FILES_IN_TABLE → table k !! Z.to_nat j = Some None →
  ∃ m' i, handle_SC_OpenFile oneChar (m, k)
      = Ok (m', with_fs k (StubFS.mkFileSystem
                  (<[Z.to_nat i := Some (StubFS.mkOpenFile ino 0 type)]> (table k)) (host k))) ∧
    answers m i m' ∧ 2 ≤ i < N_FILES_IN_TABLE ∧ table k !! Z.to_nat i = Some None.
Proof.
  intros Hm Hs Ht Htype Hin Hout Hl Hname Hino Hj Hfree. unfold handle_SC_OpenFile.
  rewrite !read_reg_user by done. simpl_res. simpl fst. rewrite Ht.
  assert (negb (type =? 0) && negb (type =? 1) && negb (type =? 2) && negb (type =? 3) = false) as ->
    by (by destruct Htype as [->| ->]).
  destruct (user2system_string m k (reg m 4) 200 name Hm Hs) as (m1 & E & Hss & Hr & Hmem).
  change (Z.of_nat 200) with MAX_FILENAME_LEN in E. rewrite E. clear E. simpl_res.
  destruct Hs as [_ _ Hok]. unfold STable.streq, STable.cstring. rewrite until_nul_string by done.
  rewrite !bool_decide_eq_false_2 by done.
  assert ((false || (type =? 2)) = false) as -> by (by destruct Htype as [->| ->]).
  assert ((false || (type =? 3)) = false) as -> by (by destruct Htype as [->| ->]).
  unfold StubFS.Open_type, Unix.OpenForReadWrite, Unix.cname. rewrite until_nul_string by done.
  assert (∃ i, StubFS.getIdxFreeSlot (fileSystem k) = Ok i ∧ 2 ≤ i < N_FILES_IN_TABLE ∧
            table k !! Z.to_nat i = Some None) as (i & Ei & Hi & Hni).
  { destruct (StubFS.stub_free_slot_spec (table k) 2 (Z.to_nat (N_FILES_IN_TABLE - 2))) as (r & E & Hcase);
      [done|by rewrite Hl|]. exists r. split; [exact E|].
    destruct Hcase as [[_ Hall]|Hok']; [|exact Hok'].
    destruct (Hall j) as [f Hf]; [exact Hj|]. rewrite Hfree in Hf. done. }
  simpl snd.
  assert ((if type =? 2 then Ok 0 else if type =? 3 then Ok 1
           else if (type =? 0) || (type =? 1) then StubFS.getIdxFreeSlot (fileSystem k) else Ok (-1)) = Ok i) as ->
    by (by destruct Htype as [->| ->]).
  simpl_res. rewrite (proj2 (Z.eqb_neq i (-1))) by lia. rewrite Hname. unfold ASSERT. cbn [default from_option negb orb]. simpl_res. change (id ino) with ino.
  rewrite (proj2 (Z.eqb_neq ino (-1))) by lia.
  rewrite arr_set_in by (rewrite Hl; unfold N_FILES_IN_TABLE in *; lia). simpl_res.
  rewrite with_files_fs, (proj2 (Z.eqb_neq i (-1))) by lia.
  pose proof (same_served m m1 Hm Hss Hr Hmem) as [Hok1 _ _ _]. rewrite write_reg_user by done.
  do 2 eexists. split; [reflexivity|]. split; [by apply answer|]. done.
Qed.

Lemma CloseFile_spec m (k : K) f :
  user_ok m → 2 ≤ reg m 4 < N_FILES_IN_TABLE → length (table k) = Z.to_nat N_FILES_IN_TABLE →
  table k !! Z.to_nat (reg m 4) = Some (Some f) →
  ∃ m', handle_SC_CloseFile (m, k)
      = Ok (m', with_fs k (StubFS.mkFileSystem (<[Z.to_nat (reg m 4) := None]> (table k)) (host k))) ∧
    answers m 0 m'.
Proof.
  intros Hm Hi Hl Hf. unfold handle_SC_CloseFile. rewrite read_reg_user by done. simpl_res. simpl fst.
  rewrite (proj2 (Z.eqb_neq _ 0)), (proj2 (Z.eqb_neq _ 1)), valid_id_true by lia. simpl negb. cbn iota.
  rewrite (file_at_spec m k _ (Some f)) by (done || lia). simpl_res.
  rewrite set_file_spec by (rewrite Hl; unfold N_FILES_IN_TABLE in *; lia). simpl_res.
  rewrite write_reg_user by done. eexists. split; [reflexivity|]. by apply answer.
Qed.

(** A non-empty string is written at the position of the file. *)
Lemma WriteFile_spec m (k : K) n str f :
  user_ok m → user_string m (reg m 4) n str → str ≠ [] → reg m 5 = Z.of_nat n →
  2 ≤ reg m 6 < N_FILES_IN_TABLE → length (table k) = Z.to_nat N_FILES_IN_TABLE →
  table k !! Z.to_nat (reg m 6) = Some (Some f) → 0 ≤ StubFS.currentOffset f →
  ∃ m', handle_SC_WriteFile oneChar (m, k)
      = Ok (m', with_fs k (StubFS.mkFileSystem
          (<[Z.to_nat (reg m 6) := Some (StubFS.with_offset f (StubFS.currentOffset f + Z.of_nat (length str)))]>
             (table k))
          (Unix.with_contents (host k) (StubFS.file f)
             (Unix.splice (Unix.contents (host k) (StubFS.file f)) (Z.to_nat (StubFS.currentOffset f)) str)))) ∧
    answers m (Z.of_nat (length str)) m'.
Proof.
  intros Hm Hs Hne Hn Hi Hl Hf Ho. unfold handle_SC_WriteFile.
  rewrite !read_reg_user by done. simpl_res. simpl fst. rewrite Hn.
  destruct (user2system_string m k (reg m 4) n str Hm Hs) as (m1 & -> & Hss & Hr & Hmem). simpl_res.
  pose proof (user_string_length _ _ _ _ Hs) as Hlen. destruct Hs as [_ _ Hok].
  assert (0 < length str)%nat by (destruct str; [done|simpl; lia]).
  rewrite (proj2 (Z.eqb_neq _ 0)), (proj2 (Z.eqb_neq _ 1)), valid_id_true by lia. simpl negb. cbn iota.
  rewrite (file_at_spec m1 k _ (Some f)) by (done || lia). simpl_res.
  rewrite strlen_string by (done || lia). simpl_res. rewrite (proj2 (Z.ltb_ge _ _)) by lia.
  unfold StubFS.Write. simpl snd.
  rewrite StubFS.stub_WriteAt_spec by (rewrite ?length_app; lia). simpl_res.
  rewrite set_file_spec by (rewrite Hl; unfold N_FILES_IN_TABLE in *; lia). simpl_res.
  unfold file_result. rewrite (proj2 (Z.eqb_neq _ 0)) by lia.
  pose proof (same_served m m1 Hm Hss Hr Hmem) as [Hok1 _ _ _]. rewrite write_reg_user by done.
  eexists. split; [|by apply answer]. do 2 f_equal. unfold with_fs. f_equal. f_equal.
  f_equal. f_equal. by rewrite Nat2Z.id, take_app_length.
Qed.

(** Reading characters without a NUL from the position of the file: they are
    in user memory, and only there memory has changed. *)
Lemma ReadFile_spec m (k : K) n f :
  let bs := take n (drop (Z.to_nat (StubFS.currentOffset f)) (Unix.contents (host k) (StubFS.file f))) in
  user_ok m → frames_inj m → writable m (reg m 4) (length bs) → reg m 5 = Z.of_nat n →
  Z.of_nat (length bs) ≤ MAX_FILECONTENT_LEN → Forall char_ok bs → bs ≠ [] →
  2 ≤ reg m 6 < N_FILES_IN_TABLE → length (table k) = Z.to_nat N_FILES_IN_TABLE →
  table k !! Z.to_nat (reg m 6) = Some (Some f) → StubFS.type f = 0 → 0 ≤ StubFS.currentOffset f →
  ∃ m', handle_SC_ReadFile heap (m, k)
      = Ok (m', with_fs k (StubFS.mkFileSystem
          (<[Z.to_nat (reg m 6) := Some (StubFS.with_offset f (StubFS.currentOffset f + Z.of_nat (length bs)))]>
             (table k)) (host k))) ∧
    reg m' 2 = Z.of_nat (length bs) ∧ same_space m m' ∧
    (∀ j : nat, (j < length bs)%nat → ubyte m' (s32 (reg m 4 + Z.of_nat j)) = bs !! j) ∧
    (∀ a, (∀ j, 0 ≤ j < Z.of_nat (length bs) → u32 a ≠ u32 (reg m 4 + j)) → ubyte m' a = ubyte m a).
Proof.
  intros bs Hm Hinj Hw Hn Hlen Hbs Hne Hi Hl Hf Htype Ho. unfold handle_SC_ReadFile.
  rewrite !read_reg_user by done. simpl_res. simpl fst. rewrite Hn.
  rewrite (proj2 (Z.eqb_neq _ 0)), (proj2 (Z.eqb_neq _ 1)), valid_id_true by lia. simpl negb. cbn iota.
  rewrite (file_at_spec m k _ (Some f)) by (done || lia). simpl_res. rewrite Htype. simpl Z.eqb. simpl negb. cbn iota.
  unfold StubFS.Read. rewrite StubFS.stub_ReadAt_spec by lia. simpl_res. simpl snd. rewrite Nat2Z.id. fold bs.
  assert (0 < length bs)%nat by (destruct bs; [done|simpl; lia]).
  destruct (overlay_in (new_char heap MAX_FILECONTENT_LEN) 0 bs) as (buf & -> & Hlb & Hbuf).
  { done. } { unfold new_char. rewrite length_fmap, length_seq, Z2Nat.id by done. lia. }
  simpl_res. rewrite set_file_spec by (rewrite Hl; unfold N_FILES_IN_TABLE in *; lia). simpl_res.
  unfold file_result. rewrite (proj2 (Z.eqb_neq _ 0)) by lia. rewrite write_reg_user by done. simpl_res.
  simpl fst. simpl snd. unfold system2user, System2User.
  rewrite (proj2 (Z.ltb_ge _ 0)), (proj2 (Z.eqb_neq _ 0)), Nat2Z.id by lia.
  pose proof (set_reg_served m 2 (Z.of_nat (length bs)) Hm) as Hs.
  destruct Hs as [Hok _ Hss Hmem _]; [done|done|unfold PCReg; lia|by left|].
  destruct (uo_table _ Hok) as [pt Hlin].
  destruct (s2u_loop_full (K:=K) bs (reg m 4) 0 buf (drop (length bs) buf) (set_reg m 2 (Z.of_nat (length bs)))
    (with_fs k (StubFS.mkFileSystem
       (<[Z.to_nat (reg m 6) := Some (StubFS.with_offset f (StubFS.currentOffset f + Z.of_nat (length bs)))]>
             (table k)) (host k))) pt) as (m2 & E2 & Hss2 & Hr2 & Hub & Hoth); try done.
  { change (drop (Z.to_nat 0) buf) with buf. rewrite <- (take_drop (length bs) buf) at 1. f_equal.
    apply list_eq. intros j. destruct (decide (j < length bs)%nat) as [Hj|Hj].
    - rewrite lookup_take_lt by done. rewrite Hbuf, bool_decide_eq_true_2 by lia. f_equal. simpl. lia.
    - rewrite !lookup_ge_None_2; [done|lia|rewrite length_take; lia]. }
  { unfold MAX_FILECONTENT_LEN, two31 in *. lia. }
  rewrite !Z.add_0_l in E2. rewrite E2. simpl_res. eexists. split; [reflexivity|].
  assert (∀ a, ubyte (set_reg m 2 (Z.of_nat (length bs))) a = ubyte m a) as Hsame by (intros a; by apply ubyte_same).
  split_and!.
  - unfold reg. rewrite Hr2. change (reg (set_reg m 2 (Z.of_nat (length bs))) 2 = Z.of_nat (length bs)).
    by rewrite reg_insert.
  - by etransitivity.
  - intros j Hj. rewrite <- (Hub j Hj). by rewrite Z.add_0_r.
  - intros a Ha. rewrite Hoth, Hsame; [done|]. intros j Hj. apply Ha. lia.
Qed.
End files.

(** ** Properties *)

Module FileCallsSpec.

(** A call with its arguments in registers 4, 5 and 6. *)
Definition args (a b c : Z) (m : Machine) : Machine := set_reg (set_reg (set_reg m 4 a) 5 b) 6 c.

Lemma args_spec a b c m :
  user_ok m → user_ok (args a b c m) ∧ reg (args a b c m) 4 = a ∧ reg (args a b c m) 5 = b ∧
    reg (args a b c m) 6 = c ∧ same_space m (args a b c m) ∧ mainMemory (args a b c m) = mainMemory m.
Proof.
  intros Hm. unfold args. set (m1 := set_reg m 4 a). set (m2 := set_reg m1 5 b).
  assert (user_ok m1) as H1 by (by apply set_reg_user_ok).
  assert (user_ok m2) as H2 by (by apply set_reg_user_ok).
  split_and!; [by apply set_reg_user_ok| | | |by split|done]; unfold m2, m1 in *; rewrite !reg_insert by done; done.
Qed.

(** A call that only answers leaves the memory of the program as it was. *)
Lemma args_answers a b c m v m' : user_ok m → answers (args a b c m) v m' → answers m v m'.
Proof.
  intros Hm [Ho Hs He Hr]. destruct (args_spec a b c m Hm) as (_ & _ & _ & _ & Hs' & He').
  split; [done|by etransitivity|by rewrite He|done].
Qed.

Lemma args_string a b c m va limit str :
  user_ok m → user_string m va limit str → user_string (args a b c m) va limit str.
Proof.
  intros Hm Hs. destruct (args_spec a b c m Hm) as (Ho & _ & _ & _ & Hss & He).
  by apply (answers_string m (reg (args a b c m) 2)).
Qed.

Section spec.
Context {C T W : Type} `{SynchCons C} `{FreeMap T} `{!SemOps W}.
Notation K := (Globals C T W).
Notation St := (Machine * K)%type.
Context (heap : nat → Z) (oneChar : Z).
Notation table := (λ k : K, StubFS.file_table (fileSystem k)).
Notation host := (λ k : K, StubFS.unix (fileSystem k)).

Definition call (h : St → res St) (a b c : Z) (st : St) : res St := h (args a b c st.1, st.2).

(** A program creates the file named at [name], opens it, writes [n] characters
    at [text] into it, closes it, opens it again and reads [n] characters into
    the buffer at [buf]. *)
Definition session (name text buf n : Z) (st : St) : res St :=
  st ← call (handle_SC_CreateFile oneChar) name 0 0 st;
  st ← call (handle_SC_OpenFile oneChar) name 0 0 st;
  let id := reg st.1 2 in
  st ← call (handle_SC_WriteFile oneChar) text n id st;
  st ← call handle_SC_CloseFile id 0 0 st;
  st ← call (handle_SC_OpenFile oneChar) name 0 0 st;
  let id := reg st.1 2 in
  call (handle_SC_ReadFile heap) buf n id st.

(** C32.  A file written through the system calls is read back through them.
    Whatever the state of the machine and of the host, if a descriptor is free,
    then the session that creates a file, writes a text of one to 2000 characters
    without NUL from user memory, closes, reopens and reads it succeeds: the
    last call returns the length of the text, the text is in the buffer of the
    program, and the file of that name on the host has it as its contents.  (The
    calls have a buffer of 2000 characters for the text; a name has 1 to 200
    characters and is not "stdin" or "stdout".)  If the host refuses to open
    the name for writing, CreateFile ends the kernel with an ASSERT. *)
Theorem file_session m (k : K) name text nva tva bva j :
  user_ok m → frames_inj m → Unix.wf (host k) →
  length (table k) = Z.to_nat N_FILES_IN_TABLE →
  2 ≤ j < N_FILES_IN_TABLE → table k !! Z.to_nat j = Some None →
  user_string m nva 200 name → name ≠ [] → name ≠ StubFS.stdin_name → name ≠ StubFS.stdout_name →
  user_string m tva (length text) text → text ≠ [] → Z.of_nat (length text) ≤ MAX_FILECONTENT_LEN →
  writable m bva (length text) →
  if decide (name ∈ Unix.refused (host k))
  then session nva tva bva (Z.of_nat (length text)) (m, k) = Stop AssertFailed else
  ∃ m' k' ino, session nva tva bva (Z.of_nat (length text)) (m, k) = Ok (m', k') ∧
    reg m' 2 = Z.of_nat (length text) ∧
    (∀ i : nat, (i < length text)%nat → ubyte m' (s32 (bva + Z.of_nat i)) = text !! i) ∧
    Unix.names (host k') !! name = Some ino ∧ Unix.contents (host k') ino = text.
Proof.
  intros Hm Hinj Hwf Hl Hj Hfree Hname Hne Hin Hout Htext Hte Hlen Hw. unfold session, call. simpl fst. simpl snd.
  destruct (args_spec nva 0 0 m Hm) as (Ho & E4 & _).
  pose proof (CreateFile_spec oneChar (args nva 0 0 m) k name Ho) as Hcreate.
  destruct (decide (name ∈ Unix.refused (host k))) as [Hrefused|_].
  { rewrite Hcreate; [done|rewrite E4; by apply args_string|done..]. }
  destruct Hcreate as (m1 & u & ino & -> & A1 & Hino & _ & Hn & Hc);
    [rewrite E4; by apply args_string|done..|].
  apply args_answers in A1; [|done]. simpl_res. simpl fst. simpl snd.
  pose proof (answers_string _ _ _ _ _ _ A1 Hname) as Hname1.
  pose proof (answers_string _ _ _ _ _ _ A1 Htext) as Htext1.
  pose proof (an_ok _ _ _ A1) as Hm1.
  (* OpenFile *)
  destruct (args_spec nva 0 0 m1 Hm1) as (Ho1 & E4' & E5' & _).
  edestruct (OpenFile_spec oneChar (args nva 0 0 m1) (with_fs k (StubFS.mkFileSystem (table k) u)) name 0 ino j)
    as (m2 & i & -> & A2 & Hi & Hti); try done; [rewrite E4'; by apply args_string|by left|].
  apply args_answers in A2; [|done]. simpl_res. simpl fst. simpl snd.
  rewrite (an_reg _ _ _ A2).
  pose proof (answers_string _ _ _ _ _ _ A2 Hname1) as Hname2.
  pose proof (answers_string _ _ _ _ _ _ A2 Htext1) as Htext2.
  pose proof (an_ok _ _ _ A2) as Hm2.
  (* WriteFile *)
  destruct (args_spec tva (Z.of_nat (length text)) i m2 Hm2) as (Ho2 & E4w & E5w & E6w & _).
  assert (0 ≤ i < Z.of_nat (length (table k))) as Hir by (rewrite Hl; unfold N_FILES_IN_TABLE in *; lia).
  match goal with |- context [handle_SC_WriteFile _ (_, ?kw)] => destruct (WriteFile_spec oneChar
    (args tva (Z.of_nat (length text)) i m2) kw (length text) text (StubFS.mkOpenFile ino 0 0)) as (m3 & -> & A3);
    [done|rewrite E4w; by apply args_string|done|done|by rewrite E6w|simpl; by rewrite length_insert|
     rewrite E6w; simpl; by rewrite list_lookup_insert_eq by lia|done|] end.
  rewrite E6w. apply args_answers in A3; [|done]. simpl_res. simpl fst. simpl snd.
  pose proof (answers_string _ _ _ _ _ _ A3 Hname2) as Hname3.
  pose proof (an_ok _ _ _ A3) as Hm3.
  (* CloseFile *)
  destruct (args_spec i 0 0 m3 Hm3) as (Ho3 & E4c & _).
  match goal with |- context [handle_SC_CloseFile (_, ?kc)] =>
    edestruct (CloseFile_spec (args i 0 0 m3) kc) as (m4 & -> & A4);
    [done|by rewrite E4c|simpl; by rewrite !length_insert|
     rewrite E4c; simpl; by rewrite list_lookup_insert_eq by (rewrite length_insert; lia)|] end.
  rewrite E4c. apply args_answers in A4; [|done]. simpl_res. simpl fst. simpl snd.
  pose proof (answers_string _ _ _ _ _ _ A4 Hname3) as Hname4.
  pose proof (an_ok _ _ _ A4) as Hm4.
  (* OpenFile *)
  destruct (args_spec nva 0 0 m4 Hm4) as (Ho4 & E4o & E5o & _).
  match goal with |- context [handle_SC_OpenFile _ (_, ?ko)] =>
    destruct (OpenFile_spec oneChar (args nva 0 0 m4) ko name 0 ino i) as (m5 & i' & -> & A5 & Hi' & Hti');
    [done|rewrite E4o; by apply args_string|exact E5o|by left|done|done|simpl; by rewrite !length_insert|done..|
     simpl; by rewrite list_lookup_insert_eq by (rewrite !length_insert; lia)|] end.
  apply args_answers in A5; [|done]. simpl_res. simpl fst. simpl snd.
  rewrite (an_reg _ _ _ A5). pose proof (an_ok _ _ _ A5) as Hm5.
  (* ReadFile *)
  destruct (args_spec bva (Z.of_nat (length text)) i' m5 Hm5) as (Ho5 & E4r & E5r & E6r & Hss5 & _).
  assert (same_space m (args bva (Z.of_nat (length text)) i' m5)) as Hss.
  { etransitivity; [apply A1|]. etransitivity; [apply A2|]. etransitivity; [apply A3|].
    etransitivity; [apply A4|]. etransitivity; [apply A5|done]. }
  match goal with |- context [handle_SC_ReadFile _ (_, ?kr)] => set (k5 := kr) end.
  assert (Unix.contents (host k5) ino = text) as Hct.
  { subst k5. cbn [with_fs fileSystem StubFS.unix StubFS.file]. rewrite Unix.contents_with, Hc.
    rewrite bool_decide_eq_true_2 by done. unfold Unix.splice. simpl. by rewrite drop_nil, app_nil_r. }
  pose proof (ReadFile_spec heap (args bva (Z.of_nat (length text)) i' m5) k5 (length text)
    (StubFS.mkOpenFile ino 0 0)) as HR. cbv zeta in HR. cbn [StubFS.file StubFS.currentOffset StubFS.type] in HR.
  rewrite Hct in HR. change (drop (Z.to_nat 0) text) with text in HR. rewrite take_ge, E4r, E6r in HR by lia.
  destruct HR as (m6 & -> & Hr6 & _ & Hb6 & _); try done.
  - by eapply frames_inj_same.
  - intros l Hl'. eapply writable_same; [done|]. by apply Hw.
  - apply Htext.
  - subst k5. simpl. by rewrite !length_insert.
  - subst k5. simpl. by rewrite list_lookup_insert_eq by (rewrite !length_insert; unfold N_FILES_IN_TABLE in *; lia).
  - do 3 eexists. split; [reflexivity|]. split_and!; [done|done| |exact Hct]. subst k5. exact Hn.
Qed.

(** An identifier that stands for no open file. *)
Definition closed (k : K) (id : Z) : Prop :=
  id < 0 ∨ N_FILES_IN_TABLE ≤ id ∨ table k !! Z.to_nat id = Some None.

Lemma closed_file_at m (k : K) id : closed k id → valid_id id = false ∨ file_at (m, k) id = Ok None.
Proof using Type.
  intros Hc. unfold valid_id. rewrite Z.geb_leb.
  destruct (Z.ltb_spec id 0); [by left|]. destruct (Z.leb_spec N_FILES_IN_TABLE id); [by left|].
  destruct Hc as [Hc|[Hc|Hc]]; [lia..|]. right. by apply file_at_spec.
Qed.


(** ** What the handlers do against their comments *)

(** The read-only type 1 is the one that ReadFile refuses. *)
Lemma read_only_file_not_readable m (k : K) f :
  user_ok m → 2 ≤ reg m 6 < N_FILES_IN_TABLE → table k !! Z.to_nat (reg m 6) = Some (Some f) →
  StubFS.type f = 1 → handle_SC_ReadFile heap (m, k) = Ok (set_reg m 2 (-1), k).
Proof.
  intros Hm Hi Hf Ht. unfold handle_SC_ReadFile. rewrite !read_reg_user by done. simpl_res. simpl fst.
  rewrite (proj2 (Z.eqb_neq _ 0)), (proj2 (Z.eqb_neq _ 1)), valid_id_true by lia. simpl negb. cbn iota.
  rewrite (file_at_spec m k _ (Some f)) by (done || lia). simpl_res. rewrite Ht. by rewrite write_reg_user.
Qed.

(** A read of -1 characters moves the position of the file back; from the
    beginning it becomes negative, which the next access of the file asserts
    against. *)
Lemma negative_read_moves_back m (k : K) ino :
  user_ok m → 2 ≤ reg m 6 < N_FILES_IN_TABLE → length (table k) = Z.to_nat N_FILES_IN_TABLE →
  table k !! Z.to_nat (reg m 6) = Some (Some (StubFS.mkOpenFile ino 0 0)) → reg m 5 = -1 →
  handle_SC_ReadFile heap (m, k) = Ok (set_reg m 2 (-1), with_fs k (StubFS.mkFileSystem
    (<[Z.to_nat (reg m 6) := Some (StubFS.mkOpenFile ino (-1) 0)]> (table k)) (host k))).
Proof.
  intros Hm Hi Hl Hf Hn. unfold handle_SC_ReadFile. rewrite !read_reg_user by done. simpl_res. simpl fst.
  rewrite (proj2 (Z.eqb_neq _ 0)), (proj2 (Z.eqb_neq _ 1)), valid_id_true by lia. simpl negb. cbn iota.
  rewrite (file_at_spec m k _ _) by (done || lia). simpl_res. rewrite Hn. simpl. unfold overlay. simpl.
  rewrite set_file_spec by (rewrite Hl; unfold N_FILES_IN_TABLE in *; lia). simpl_res.
  unfold file_result. simpl Z.eqb. cbn iota. by rewrite write_reg_user.
Qed.

(** Writing the empty string counts as the end of the file: -2, and the file
    is rewound. *)
Lemma empty_write_rewinds m (k : K) n f :
  user_ok m → user_string m (reg m 4) (S n) [] → reg m 5 = Z.of_nat (S n) →
  2 ≤ reg m 6 < N_FILES_IN_TABLE → length (table k) = Z.to_nat N_FILES_IN_TABLE →
  table k !! Z.to_nat (reg m 6) = Some (Some f) → 0 ≤ StubFS.currentOffset f →
  ∃ m', handle_SC_WriteFile oneChar (m, k) = Ok (m', with_fs k (StubFS.mkFileSystem
      (<[Z.to_nat (reg m 6) := Some (StubFS.with_offset f 0)]> (table k)) (host k))) ∧ answers m (-2) m'.
Proof.
  intros Hm Hs Hn Hi Hl Hf Ho. unfold handle_SC_WriteFile.
  rewrite !read_reg_user by done. simpl_res. simpl fst. rewrite Hn.
  destruct (user2system_string oneChar m k (reg m 4) (S n) [] Hm Hs) as (m1 & -> & Hss & Hr & Hmem). simpl_res.
  rewrite (proj2 (Z.eqb_neq _ 0)), (proj2 (Z.eqb_neq _ 1)), valid_id_true by lia. simpl negb. cbn iota.
  rewrite (file_at_spec m1 k _ (Some f)) by (done || lia). simpl_res.
  rewrite strlen_string by first [by constructor|simpl; lia]. simpl_res.
  rewrite (proj2 (Z.ltb_ge _ _)) by (simpl; lia). change (Z.of_nat (length [])) with 0.
  unfold StubFS.Write, StubFS.WriteAt, Unix.Lseek, ASSERT. rewrite Z.geb_leb, (proj2 (Z.leb_le _ _)) by done.
  simpl_res. simpl Unix.WriteFile. unfold Unix.WriteFile. simpl Z.ltb. cbn iota.
  rewrite slice_in by (simpl; lia). simpl_res. simpl Z.eqb. cbn iota. change (0 <? 0) with false. cbn iota beta.
  rewrite set_file_spec by (rewrite Hl; unfold N_FILES_IN_TABLE in *; lia). simpl_res.
  pose proof (same_served m m1 Hm Hss Hr Hmem) as [Hok1 _ _ _].
  unfold file_result. simpl Z.eqb. cbn iota. rewrite write_reg_user by done. simpl_res. simpl fst. simpl snd.
  rewrite set_file_spec by (simpl; rewrite length_insert, Hl; unfold N_FILES_IN_TABLE in *; lia). simpl.
  eexists. split; [|by apply answer]. rewrite list_insert_insert_eq. done.
Qed.
End spec.

(** ** Examples *)

(** The file name [a] at address 0, the text [hi] at address 16. *)
Definition loaded : Machine :=
  with_memory MemoryProps.sample_machine (write_bytes (write_bytes ∅ 2560 [97; 0]) 2576 [104; 105]).

Lemma loaded_ok : user_ok loaded.
Proof.
  split; [done| |].
  - change (reg loaded LoadReg) with 0. by unfold NumGPRegs.
  - exists MemoryProps.sample_table. destruct MemoryProps.sample_linear as [H1 H2 H3 H4]. by split.
Qed.

Lemma loaded_name : user_string loaded 0 200 [97].
Proof.
  split.
  - intros [|j] Hj; [vm_compute; reflexivity|simpl in Hj; lia].
  - right. split; [simpl; lia|vm_compute; reflexivity].
  - repeat constructor; by unfold is_u8.
Qed.

Lemma loaded_text : user_string loaded 16 2 [104; 105].
Proof.
  split.
  - intros [|[|j]] Hj; [vm_compute; reflexivity..|simpl in Hj; lia].
  - by left.
  - repeat constructor; by unfold is_u8.
Qed.

Notation sample_k := ExceptionSpec.sample_globals.
#[local] Existing Instance ExceptionSpec.sample_console.

Lemma sample_host : Unix.wf (StubFS.unix (fileSystem sample_k)).
Proof.
  destruct (Unix.OpenForWrite_spec Unix.empty StubFS.stdin_name Unix.empty_wf)
    as (u & _ & E & Hu & _ & _ & _ & Hr); [done|].
  destruct (Unix.OpenForWrite_spec u StubFS.stdout_name Hu) as (u' & _ & E' & Hu' & _); [by rewrite Hr|].
  change (Unix.wf (Unix.open_create (Unix.open_create Unix.empty StubFS.stdin_name).2 StubFS.stdout_name).2).
  rewrite E. cbn [snd]. by rewrite E'.
Qed.

Lemma file_session_witness :
  ∃ m' k' ino, session (λ _, 7) 0 0 16 600 2 (loaded, sample_k) = Ok (m', k') ∧ reg m' 2 = 2 ∧
    ubyte m' 600 = Some 104 ∧ ubyte m' 601 = Some 105 ∧
    Unix.names (StubFS.unix (fileSystem k')) !! [97] = Some ino ∧
    Unix.contents (StubFS.unix (fileSystem k')) ino = [104; 105].
Proof.
  pose proof (file_session (λ _, 7) 0 loaded sample_k [97] [104; 105] 0 16 600 5) as Hs.
  rewrite decide_False in Hs by (apply (bool_decide_unpack _); vm_compute; exact I).
  destruct Hs as (m' & k' & ino & E & Hr & Hb & Hn & Hc).
  - exact loaded_ok.
  - exact MemoryProps.sample_inj.
  - exact sample_host.
  - reflexivity.
  - unfold N_FILES_IN_TABLE. lia.
  - reflexivity.
  - exact loaded_name.
  - done.
  - done.
  - done.
  - exact loaded_text.
  - done.
  - unfold MAX_FILECONTENT_LEN. simpl. lia.
  - intros i Hi. simpl in Hi. assert (i = 0 ∨ i = 1) as [-> | ->] by lia; vm_compute; by eexists.
  - exists m', k', ino. split_and!; [exact E|exact Hr|exact (Hb 0%nat ltac:(simpl; lia))|
      exact (Hb 1%nat ltac:(simpl; lia))|exact Hn|exact Hc].
Defined.

End FileCallsSpec.
