(* ===== verification/Stubs.v ===== *)
(** * The stubs of the system calls (test/start.c)

    The assembly file that every user program is linked with: the entry
    [__start] and one stub per system call, assembled to instruction words and
    executed by the interpreter of MipsSim over the kernel of Exception. *)

From S2P Require Import Prelude NList Bitmap Machine MipsSim MipsProps UnixFS AddrSpace Interrupt Console STable Process Exception ExceptionProps Thread.
Import Exception.

Module Stubs.

(** The calls of the original Nachos, which exception.cc does not serve. *)
Definition SC_Create : Z := 4.
Definition SC_Open : Z := 5.
Definition SC_Read : Z := 6.
Definition SC_Write : Z := 7.
Definition SC_Close : Z := 8.
Definition SC_Fork : Z := 9.
Definition SC_Yield : Z := 10.

(** ** The instructions that the file uses *)

Inductive asm :=
  | addiu (rt rs imm : Z)
  | syscall
  | j (r : Z)
  | jal (target : Z)
  | move (rd rs : Z)
  | nop.

Definition encode (i : asm) : Z :=
  match i with
  | addiu rt rs imm => encode_i 9 rs rt imm
  | syscall => encode_r 0 0 0 0 12
  | j r => encode_r r 0 0 0 8
  | jal target => encode_j 3 (target / 4)
  | move rd rs => encode_r rs 0 rd 0 33
  | nop => 0
  end.

(** The assembler puts a [nop] into the slot behind a jump. *)
Definition words (i : asm) : list Z :=
  match i with j _ | jal _ => [encode i; encode nop] | _ => [encode i] end.
Definition assemble (l : list asm) : list Z := l ≫= words.

(** ** The stubs *)

Definition stub (code : Z) : list asm := [addiu 2 0 code; syscall; j 31].

Definition Halt := stub SC_Halt.
Definition Exit := stub SC_Exit.
Definition Exec := stub SC_Exec.
Definition Join := stub SC_Join.
Definition Create := stub SC_Create.
Definition Open := stub SC_Open.
Definition Read := stub SC_Read.
Definition Write := stub SC_Write.
Definition Close := stub SC_Close.
Definition Fork := stub SC_Fork.
Definition Yield := stub SC_Yield.
Definition CreateF := stub SC_CreateFile.
Definition OpenF := stub SC_OpenFile.
Definition CloseF := stub SC_CloseFile.
Definition ReadF := stub SC_ReadFile.
Definition WriteF := stub SC_WriteFile.
Definition ReadInt := stub SC_ReadInt.
Definition PrintInt := stub SC_PrintInt.
Definition ReadFloat := stub SC_ReadFloat.
Definition PrintFloat := stub SC_PrintFloat.
Definition ReadChar := stub SC_ReadChar.
Definition PrintChar := stub SC_PrintChar.
Definition ReadString := stub SC_ReadString.
Definition PrintString := stub SC_PrintString.
Definition CreateSemaphore := stub SC_CreateSemaphore.
Definition Up := stub SC_Up.
Definition Down := stub SC_Down.
Definition __main : list asm := [j 31].

(** The entry, for a program whose [main] and [Exit] are at these addresses. *)
Definition __start (main exit : Z) : list asm := [jal main; move 4 0; jal exit].

(** The file: its routines in order; it is loaded at address 0. *)
Definition stubs : list (list asm) :=
  [Halt; Exit; Exec; Join; Create; Open; Read; Write; Close; Fork; Yield;
   CreateF; OpenF; CloseF; ReadF; WriteF; ReadInt; PrintInt; ReadFloat; PrintFloat;
   ReadChar; PrintChar; ReadString; PrintString; CreateSemaphore; Up; Down].
Definition Exit_address : Z := 36.
Definition text (main : Z) : list Z :=
  assemble (__start main Exit_address) ++ (stubs ≫= assemble) ++ assemble __main.

(** Where [addiu] of the stub with number [n] in the file is. *)
Definition stub_address (n : nat) : Z := 20 + 16 * Z.of_nat n.

(** ** Machine code in memory *)

Definition word_at (m : Machine) (a w : Z) : Prop :=
  aligned a 4 ∧ ∃ pa, frame m a false = Some pa ∧ le_value (read_bytes (mainMemory m) pa 4) = w.
Definition code_at (m : Machine) (a : Z) (l : list Z) : Prop :=
  ∀ i w, l !! i = Some w → word_at m (a + 4 * Z.of_nat i) w.

Lemma word_at_same m m' a w :
  same_space m m' → mainMemory m' = mainMemory m → word_at m a w → word_at m' a w.
Proof. intros Hss Hm (Ha & pa & Hf & Hw). split; [done|]. exists pa. rewrite Hm. by rewrite <- Hss. Qed.

Lemma code_at_word m a l i a' w :
  code_at m a l → l !! i = Some w → a' = a + 4 * Z.of_nat i → word_at m a' w.
Proof. intros Hc Hi ->. by apply Hc. Qed.

Lemma code_at_same m m' a l :
  same_space m m' → mainMemory m' = mainMemory m → code_at m a l → code_at m' a l.
Proof. intros Hss Hm Hc i w Hi. eapply word_at_same; eauto. Qed.

Lemma code_at_app m a l l' : code_at m a (l ++ l') → code_at m a l ∧ code_at m (a + 4 * Z.of_nat (length l)) l'.
Proof.
  intros Hc. split; intros i w Hi.
  - apply Hc. by apply lookup_app_l_Some.
  - replace (a + 4 * Z.of_nat (length l) + 4 * Z.of_nat i) with (a + 4 * Z.of_nat (length l + i)) by lia.
    apply Hc. by rewrite lookup_app_r, Nat.add_sub' by lia.
Qed.

(** ** One instruction of a program that has no delayed load on its way *)

(** The machine between two instructions: the next one is at [pc] and the one
    behind it at [next]. *)
Record ready (m : Machine) (pc next : Z) : Prop := mkReady {
  rd_ok : user_ok m;
  rd_quiet : quiet m;
  rd_pc : reg m PCReg = pc;
  rd_next : reg m NextPCReg = next;
}.

(** An instruction put [v] into general register [d] and nothing else changed. *)
Record put (d v : Z) (m m' : Machine) : Prop := mkPut {
  put_regs : ∀ r, 0 ≤ r < NumGPRegs → reg m' r = if bool_decide (r = d) then v else reg m r;
  put_space : same_space m m';
  put_memory : mainMemory m' = mainMemory m;
}.

Section steps.
Context {K : Type} `{Kernel K}.

(** [n] rounds of the loop of [Machine::Run], as the program sees them. *)
Fixpoint run (n : nat) (st : Machine * K) : res (Machine * K) :=
  match n with
  | O => Ok st
  | S n' => st ← OneInstruction st; run n' st
  end.

Lemma run_add n n' st : run (n + n') st = st' ← run n st; run n' st'.
Proof using Type.
  revert st. induction n as [|n IH]; intros st; [done|]. simpl. destruct (OneInstruction st); [apply IH|done].
Qed.

Lemma fetch m k pc next w :
  ready m pc next → word_at m pc w → is_u32 w →
  ∃ m1, ReadMem pc 4 (m, k) = Ok (Some (s32 w), (m1, k)) ∧ registers m1 = registers m ∧
    user_ok m1 ∧ same_space m m1 ∧ mainMemory m1 = mainMemory m.
Proof using Type.
  intros [Hm _ _ _] (Ha & pa & Hf & Hw) _. pose proof Hm as [_ _ [pt Hlin]].
  destruct (ReadMem_frame m k pt Hlin pc 4 pa) as (m1 & E & Hss & Hr & Hmem); [by right; right|done|done|].
  exists m1. split_and!; try done.
  - rewrite E. change (load_value 4 (read_bytes (mainMemory m) pa (Z.to_nat 4)))
      with (s32 (le_value (read_bytes (mainMemory m) pa 4))). by rewrite Hw.
  - by apply (same_served m).
Qed.

(** The delayed load when none is on its way. *)
Lemma DelayedLoad_quiet m :
  user_ok m → quiet m →
  ∃ m1, DelayedLoad m 0 0 = Ok m1 ∧ user_ok m1 ∧ (∀ r, 0 ≤ r → reg m1 r = reg m r) ∧
    same_space m m1 ∧ mainMemory m1 = mainMemory m.
Proof using Type.
  intros Hm (Hl & Hv & Hz). unfold DelayedLoad. rewrite Hl, Hv.
  rewrite arr_set_in by (rewrite (uo_regs _ Hm); done). simpl_res. fold (set_reg m 0 0).
  set (m1 := set_reg m 0 0). assert (user_ok m1) as H1 by (by apply set_reg_user_ok).
  set (m2 := set_reg m1 LoadReg 0). assert (user_ok m2) as H2 by (by apply set_reg_user_ok).
  set (m3 := set_reg m2 LoadValueReg 0). assert (user_ok m3) as H3 by (by apply set_reg_user_ok).
  exists (set_reg m3 0 0). split; [done|]. split; [by apply set_reg_user_ok|]. split; [|split; [by split|done]].
  intros r Hr. subst m3 m2 m1. rewrite !reg_insert by done.
  repeat case_bool_decide; try subst r; try done.
Qed.

(** The end of an instruction when no load is on its way. *)
Lemma advance_quiet m (k : K) pc :
  user_ok m → quiet m →
  ∃ m', advance (m, k) pc 0 0 = Ok (m', k) ∧ ready m' (reg m NextPCReg) pc ∧ put 0 0 m m'.
Proof using Type.
  intros Hm Hq. unfold advance. destruct (DelayedLoad_quiet m Hm Hq) as (m1 & -> & H1 & Hsame & Hss & Hmem). simpl_res.
  set (m2 := set_reg m1 PrevPCReg _). assert (user_ok m2) as H2 by (by apply set_reg_user_ok).
  set (m3 := set_reg m2 PCReg _). assert (user_ok m3) as H3 by (by apply set_reg_user_ok).
  assert (∀ r, 0 ≤ r → ¬ PCReg ≤ r ≤ PrevPCReg → reg (set_reg m3 NextPCReg pc) r = reg m r) as Er.
  { unfold PCReg, PrevPCReg. intros r Hr Hne. subst m3 m2. rewrite !reg_insert by done.
    rewrite !bool_decide_eq_false_2 by (unfold NextPCReg, PCReg, PrevPCReg; lia). by apply Hsame. }
  exists (set_reg m3 NextPCReg pc). split; [done|]. split.
  - split; [by apply set_reg_user_ok| | |by rewrite reg_insert].
    + unfold quiet in *. by rewrite !Er by (done || unfold LoadReg, LoadValueReg, PCReg, PrevPCReg; lia).
    + rewrite reg_insert by done. subst m3. rewrite reg_insert by done. subst m2. rewrite reg_insert by done.
      simpl. by apply Hsame.
  - assert (same_space m1 (set_reg m3 NextPCReg pc)) as Hs1 by (by split).
    split; [|by etransitivity|done].
    intros r Hr. rewrite Er by (unfold NumGPRegs, PCReg in *; lia). case_bool_decide; [subst r; apply Hq|done].
Qed.

(** An instruction that puts [v] into register [d] and goes on at [pc]. *)
Lemma instruction_runs m k pc next target w i d v :
  ready m pc next → word_at m pc w → is_u32 w → Decode w = Ok i → 0 ≤ d < NumGPRegs → (d = 0 → v = 0) →
  (∀ m1, registers m1 = registers m → ∃ m2,
     execute i (s32 (next + 4)) (m1, k) = Ok (Next (m2, k) target 0 0) ∧ (m2 = m1 ∧ v = reg m d ∨ m2 = set_reg m1 d v)) →
  ∃ m', OneInstruction (m, k) = Ok (m', k) ∧ ready m' next target ∧ put d v m m'.
Proof using Type.
  intros Hm Hw Hu Hd Hr H0 Hx. destruct (fetch m k pc next w Hm Hw Hu) as (m1 & E & Hreg & Hok & Hss & Hmem).
  destruct Hm as [Hm Hq Hpc Hnext]. unfold OneInstruction. simpl fst. rewrite Hpc, E. simpl_res.
  rewrite u32_s32, u32_small, Hd by done. simpl_res. simpl fst.
  assert (∀ r, reg m1 r = reg m r) as Hsame by (intros r; unfold reg; by rewrite Hreg).
  rewrite Hsame, Hnext. destruct (Hx m1 Hreg) as (m2 & -> & Hm2). simpl_res.
  assert (user_ok m2 ∧ quiet m2 ∧ reg m2 NextPCReg = next ∧ same_space m m2 ∧ mainMemory m2 = mainMemory m ∧
    ∀ r, 0 ≤ r < NumGPRegs → reg m2 r = if bool_decide (r = d) then v else reg m r) as (H2 & Hq2 & Hn2 & Hs2 & Hm3 & Hr2).
  { unfold quiet, NumGPRegs, LoadReg, LoadValueReg in *. destruct Hm2 as [[-> ->]| ->].
    - rewrite !Hsame. split_and!; try done; try apply Hq. intros r _. rewrite Hsame. by case_bool_decide as Eb; [subst r|].
    - rewrite !reg_insert, !Hsame by (done || unfold NumTotalRegs; lia).
      rewrite (bool_decide_eq_false_2 (37 = d)), (bool_decide_eq_false_2 (38 = d)), (bool_decide_eq_false_2 (NextPCReg = d))
        by (unfold NextPCReg; lia).
      split_and!; try done; try apply Hq.
      + apply set_reg_user_ok; [done|unfold NumTotalRegs; lia|unfold LoadReg; lia].
      + case_bool_decide; [by apply H0|apply Hq].
      + destruct Hss. by split.
      + intros r Hr'. rewrite reg_insert, Hsame by (done || unfold NumTotalRegs; lia). done. }
  destruct (advance_quiet m2 k target H2 Hq2) as (m' & -> & Hm' & [P1 P2 P3]). rewrite Hn2 in Hm'.
  exists m'. split_and!; [done|done|]. split; [|by etransitivity|congruence].
  intros r Hr'. rewrite P1 by done. case_bool_decide as Er; [subst r|by apply Hr2].
  case_bool_decide as Ed; [subst d; by rewrite H0|]. symmetry. apply Hq.
Qed.

(** ** The instructions of the file *)

Ltac in_word := unfold encode, encode_i, encode_r, encode_j, is_u32, two32; Z.div_mod_to_equations; lia.

Lemma addiu_runs m k pc next d imm :
  ready m pc next → word_at m pc (encode (addiu d 0 imm)) → 0 < d < NumGPRegs → -32768 ≤ imm < 32768 →
  ∃ m', OneInstruction (m, k) = Ok (m', k) ∧ ready m' next (s32 (next + 4)) ∧ put d imm m m'.
Proof using Type.
  unfold NumGPRegs. intros Hm Hw Hd Hi. eapply instruction_runs; try exact Hm; try exact Hw; try (unfold NumGPRegs; lia).
  - in_word.
  - apply decode_i; [lia|lia|lia|reflexivity|discriminate|lia].
  - intros m1 Hr. eexists. split; [|right; reflexivity]. unfold execute, exec_add_and, go. simpl. do 4 f_equal.
    pose proof (rd_quiet _ _ _ Hm) as (_ & _ & Hz). unfold reg in *. rewrite Hr, Hz. apply s32_small.
    unfold is_s32, two31. lia.
Qed.

Lemma move_runs m k pc next d :
  ready m pc next → word_at m pc (encode (move d 0)) → 0 < d < NumGPRegs →
  ∃ m', OneInstruction (m, k) = Ok (m', k) ∧ ready m' next (s32 (next + 4)) ∧ put d 0 m m'.
Proof using Type.
  unfold NumGPRegs. intros Hm Hw Hd. eapply instruction_runs; try exact Hm; try exact Hw; try (unfold NumGPRegs; lia).
  - in_word.
  - apply decode_r; try lia. reflexivity.
  - intros m1 Hr. eexists. split; [|right; reflexivity]. unfold execute, exec_add_and, go. simpl. do 4 f_equal.
    pose proof (rd_quiet _ _ _ Hm) as (_ & _ & Hz). unfold reg in *. rewrite Hr, Hz. done.
Qed.

Lemma nop_runs m k pc next :
  ready m pc next → word_at m pc (encode nop) →
  ∃ m', OneInstruction (m, k) = Ok (m', k) ∧ ready m' next (s32 (next + 4)) ∧ put 0 0 m m'.
Proof using Type.
  change (encode nop) with (encode_r 0 0 0 0 0).
  intros Hm Hw. eapply (instruction_runs _ _ _ _ _ _ (mkInstruction OP_SLL 0 0 0 0) 0 0); try exact Hm; try exact Hw; try done.
  intros m1 Hr. eexists. split; [|right; reflexivity]. unfold execute, exec_shift_set, go. simpl. do 4 f_equal.
  pose proof (rd_quiet _ _ _ Hm) as (_ & _ & Hz). unfold reg in *. rewrite Hr, Hz. done.
Qed.

Lemma j_runs m k pc next r :
  ready m pc next → word_at m pc (encode (j r)) → 0 ≤ r < NumGPRegs →
  ∃ m', OneInstruction (m, k) = Ok (m', k) ∧ ready m' next (reg m r) ∧ put 0 0 m m'.
Proof using Type.
  unfold NumGPRegs. intros Hm Hw Hr. eapply instruction_runs; try exact Hm; try exact Hw; try done.
  - in_word.
  - apply decode_r; try lia. reflexivity.
  - intros m1 Hm1. exists m1. split.
    + unfold execute, exec_jump. simpl. unfold reg. by rewrite Hm1.
    + left. split; [done|]. symmetry. apply (rd_quiet _ _ _ Hm).
Qed.

Lemma low_address_region x : 0 ≤ x < 2 ^ 28 → Z.land x 0xf0000000 = 0.
Proof using Type.
  intros Hx. change 0xf0000000 with (Z.shiftl 15 28). apply Z.bits_inj'. intros n Hn.
  rewrite Z.land_spec, Z.shiftl_spec, Z.bits_0 by done.
  destruct (Z.lt_ge_cases n 28) as [Hlt|Hge]; [by rewrite (Z.testbit_neg_r 15) by lia; apply andb_false_r|].
  rewrite Z.testbit_eqb, Z.div_small by (try split; try lia; pose proof (Z.pow_le_mono_r 2 28 n); lia). done.
Qed.

Lemma jal_runs m k pc next target :
  ready m pc next → word_at m pc (encode (jal target)) → 0 ≤ next < 2 ^ 28 - 4 → 0 ≤ target < 2 ^ 28 → target mod 4 = 0 →
  ∃ m', OneInstruction (m, k) = Ok (m', k) ∧ ready m' next target ∧ put 31 (next + 4) m m'.
Proof using Type.
  intros Hm Hw Hn Ht H4. assert (0 ≤ target / 4 < 2 ^ 26) as Hq by (Z.div_mod_to_equations; lia).
  assert (s32 (next + 4) = next + 4) as En by (apply s32_small; unfold is_s32, two31; lia).
  destruct (proj2 (proj2 MipsSpec.decode_encode) 3 OP_JAL (target / 4)) as (s & t & d & Hd); [done|done|done|].
  eapply instruction_runs; try exact Hm; try exact Hw; try exact Hd; try done.
  - in_word.
  - intros m1 Hm1. eexists. split; [|right; reflexivity]. unfold execute, exec_jump. simpl.
    assert (reg m1 NextPCReg = next) as -> by (unfold reg; rewrite Hm1; apply (rd_next _ _ _ Hm)).
    rewrite !En. rewrite (u32_small (next + 4)) by (unfold is_u32, two32; lia). rewrite low_address_region by lia. rewrite Z.lor_0_l.
    assert (IndexToAddr (target / 4) = target) as ->.
    { unfold IndexToAddr. rewrite Z.shiftl_mul_pow2 by done. rewrite s32_small; [Z.div_mod_to_equations; lia|].
      unfold is_s32, two31. Z.div_mod_to_equations; lia. }
    rewrite u32_small, s32_small by (unfold is_s32, is_u32, two31, two32; lia). done.
Qed.

(** A system call hands over a machine that differs in BadVAddr only. *)
Lemma syscall_runs m k pc next :
  ready m pc next → word_at m pc (encode syscall) →
  ∃ mc, OneInstruction (m, k) = (st ← Machine.ExceptionHandler SyscallException (mc, setStatus SystemMode k);
                                 Ok (st.1, setStatus UserMode st.2)) ∧
    ready mc pc next ∧ put 0 0 m mc.
Proof using Type.
  intros Hm Hw. destruct (fetch m k pc next _ Hm Hw ltac:(done)) as (m1 & E & Hreg & Hok & Hss & Hmem).
  destruct Hm as [Hm Hq Hpc Hnext].
  set (m2 := set_reg m1 BadVAddrReg 0). assert (user_ok m2) as H2 by (by apply set_reg_user_ok).
  assert (∀ r, 0 ≤ r → r ≠ BadVAddrReg → reg m2 r = reg m r) as Hsame.
  { intros r Hr Hne. subst m2. rewrite reg_insert, bool_decide_eq_false_2 by done. unfold reg. by rewrite Hreg. }
  assert (quiet m2) as Hq2 by (unfold quiet; by rewrite !Hsame).
  destruct (DelayedLoad_quiet m2 H2 Hq2) as (mc & Ed & Hc & Hregs & Hs & Hmc). exists mc. split.
  - unfold OneInstruction. simpl fst. rewrite Hpc, E. simpl_res. rewrite u32_s32, u32_small by done.
    change (encode syscall) with (encode_r 0 0 0 0 12).
    rewrite (decode_r 0 0 ltac:(done) ltac:(done) 0 0 12 OP_SYSCALL) by done. simpl_res.
    unfold execute, trap. simpl opCode. cbn iota. unfold RaiseException. fold m2. rewrite Ed. simpl_res.
    by destruct (Machine.ExceptionHandler SyscallException (mc, setStatus SystemMode k)) as [[? ?]|].
  - assert (∀ r, 0 ≤ r → r ≠ BadVAddrReg → reg mc r = reg m r) as Hr by (intros; by rewrite Hregs, Hsame).
    split; split; try done.
    + unfold quiet. by rewrite !Hr.
    + by rewrite Hr.
    + by rewrite Hr.
    + intros r Hr'. rewrite Hr by (unfold NumGPRegs, BadVAddrReg in *; lia). case_bool_decide; [subst r; apply Hq|done].
    + etransitivity; [exact Hss|]. etransitivity; [|exact Hs]. by split.
    + by rewrite Hmc.
Qed.
End steps.

(** ** The layout of the file *)

Lemma length_stub code : length (assemble (stub code)) = 4%nat.
Proof. done. Qed.

Lemma code_at_stubs m (l : list Z) a n code rest :
  code_at m a (((stub <$> l) ≫= assemble) ++ rest) → l !! n = Some code →
  code_at m (a + 16 * Z.of_nat n) (assemble (stub code)).
Proof.
  revert a n. induction l as [|c l IH]; intros a n Hc Hn; [done|]. cbn [fmap list_fmap mbind list_bind] in Hc.
  rewrite <- app_assoc in Hc. apply code_at_app in Hc as [H1 H2]. destruct n as [|n]; simpl in Hn.
  - injection Hn as <-. by rewrite Z.add_0_r.
  - rewrite length_stub in H2. replace (a + 16 * Z.of_nat (S n)) with (a + 4 * Z.of_nat 4 + 16 * Z.of_nat n) by lia.
    by apply IH.
Qed.

(** The numbers of the calls, in the order of the stubs. *)
Definition codes : list Z :=
  [SC_Halt; SC_Exit; SC_Exec; SC_Join; SC_Create; SC_Open; SC_Read; SC_Write; SC_Close; SC_Fork; SC_Yield;
   SC_CreateFile; SC_OpenFile; SC_CloseFile; SC_ReadFile; SC_WriteFile; SC_ReadInt; SC_PrintInt; SC_ReadFloat;
   SC_PrintFloat; SC_ReadChar; SC_PrintChar; SC_ReadString; SC_PrintString; SC_CreateSemaphore; SC_Up; SC_Down].

Lemma stub_in_text m main n code :
  code_at m 0 (text main) → stubs !! n = Some (stub code) →
  code_at m (stub_address n) (assemble (stub code)) ∧ 0 ≤ code < 32 ∧ (n < 27)%nat.
Proof.
  intros Hc Hn. change stubs with (stub <$> codes) in Hn. apply list_lookup_fmap_Some in Hn as (c & Hs & Hn).
  injection Hs as <-. split; [|split].
  - unfold text in Hc. apply code_at_app in Hc as [_ Hc]. change stubs with (stub <$> codes) in Hc.
    by apply (code_at_stubs m codes (0 + 4 * 5) n code _ Hc).
  - assert (Forall (λ c, 0 ≤ c < 32) codes) as Hall by (repeat constructor; done).
    exact (Forall_lookup_1 _ _ _ _ Hall Hn).
  - by apply lookup_lt_Some in Hn.
Qed.

(** ** A call through its stub *)

Section calls.
Context {C T W : Type} `{SynchCons C} `{FreeMap T} `{!SemOps W}.
Notation K := (Globals C T W).
Context (heap : nat → Z) (oneChar garbage_type : Z).
#[local] Instance real_kernel : Kernel K := kernel heap oneChar garbage_type.

(** Up to the trap. *)
Lemma stub_traps (m : Machine) (k : K) a code :
  ready m a (a + 4) → code_at m a (assemble (stub code)) → 0 ≤ code < 32 → 0 ≤ a < two31 - 16 →
  ∃ mc, run 2 (m, k) = (st ← ExceptionHandler heap oneChar garbage_type SyscallException (mc, set_status SystemMode k);
                        Ok (st.1, set_status UserMode st.2)) ∧
    ready mc (a + 4) (a + 8) ∧ put 2 code m mc.
Proof using Type.
  intros Hm Hc Hcode Ha.
  destruct (addiu_runs m k a (a + 4) 2 code Hm) as (m1 & E1 & Hm1 & [P1 P2 P3]); [|done|lia|].
  { by apply (code_at_word _ _ _ 0 _ _ Hc); [|lia]. }
  rewrite s32_small in Hm1 by (unfold is_s32, two31 in *; lia). replace (a + 4 + 4) with (a + 8) in Hm1 by lia.
  destruct (syscall_runs m1 k (a + 4) (a + 8) Hm1) as (mc & E2 & Hmc & [Q1 Q2 Q3]).
  { eapply word_at_same; [done|done|]. by apply (code_at_word _ _ _ 1 _ _ Hc); [|lia]. }
  exists mc. split_and!; [|done|].
  - simpl. rewrite E1. simpl_res. rewrite E2. cbn [Machine.ExceptionHandler setStatus real_kernel kernel].
    destruct (ExceptionHandler heap oneChar garbage_type SyscallException _) as [[? ?]|]; done.
  - split; [|by etransitivity|congruence]. intros r Hr. rewrite Q1 by done.
    case_bool_decide as E0; [subst r|by apply P1]. pose proof (rd_quiet _ _ _ Hm) as (_ & _ & Hz).
    by rewrite bool_decide_eq_false_2, Hz by done.
Qed.

(** From the return of the handler on. *)
Lemma stub_ends (m : Machine) (k : K) a :
  ready m (a + 8) (a + 12) → code_at m (a + 8) (words (j 31)) → 0 ≤ a < two31 - 16 →
  ∃ m', run 2 (m, k) = Ok (m', k) ∧ ready m' (reg m 31) (s32 (reg m 31 + 4)) ∧
    (∀ r, 0 ≤ r < NumGPRegs → reg m' r = reg m r) ∧ same_space m m' ∧ mainMemory m' = mainMemory m.
Proof using Type.
  intros Hm Hc Ha.
  destruct (j_runs m k (a + 8) (a + 12) 31 Hm) as (m1 & E1 & Hm1 & [P1 P2 P3]); [|done|].
  { by apply (code_at_word _ _ _ 0 _ _ Hc); [|lia]. }
  destruct (nop_runs m1 k (a + 12) (reg m 31) Hm1) as (m2 & E2 & Hm2 & [Q1 Q2 Q3]).
  { eapply word_at_same; [done|done|]. by apply (code_at_word _ _ _ 1 _ _ Hc); [|lia]. }
  exists m2. split_and!; [|done| |by etransitivity|congruence].
  - simpl. rewrite E1. simpl_res. by rewrite E2.
  - intros r Hr. rewrite Q1, P1 by done. pose proof (rd_quiet _ _ _ Hm) as (_ & _ & Hz).
    by case_bool_decide; [subst r|].
Qed.

(** From there on when the program counters were moved once too often: the jump
    is skipped. *)
Lemma stub_skips (m : Machine) (k : K) a :
  ready m (a + 12) (a + 16) → code_at m (a + 8) (words (j 31)) → 0 ≤ a < two31 - 20 →
  ∃ m', run 1 (m, k) = Ok (m', k) ∧ ready m' (a + 16) (a + 20) ∧
    (∀ r, 0 ≤ r < NumGPRegs → reg m' r = reg m r) ∧ same_space m m' ∧ mainMemory m' = mainMemory m.
Proof using Type.
  intros Hm Hc Ha. replace (a + 20) with (s32 (a + 16 + 4)) by (rewrite s32_small; [lia|unfold is_s32, two31 in *; lia]).
  destruct (nop_runs m k (a + 12) (a + 16) Hm) as (m1 & E & Hm1 & [Q1 Q2 Q3]).
  { replace (a + 12) with (a + 8 + 4) by lia. by apply (code_at_word _ _ _ 1 _ _ Hc); [|lia]. }
  exists m1. split_and!; [|done| |done|done].
  - simpl. by rewrite E.
  - intros r Hr. rewrite Q1 by done. pose proof (rd_quiet _ _ _ Hm) as (_ & _ & Hz).
    by case_bool_decide; [subst r|].
Qed.

(** What the handler leaves when it returns. *)
Lemma handler_ready (mc m2 : Machine) (k k2 : K) pc next :
  ready mc pc next → is_Some (handler_of (C:=C) (T:=T) (W:=W) heap oneChar garbage_type (reg mc 2)) →
  ExceptionHandler heap oneChar garbage_type SyscallException (mc, k) = Ok (m2, k2) →
  (if decide (prints_zero mc) then ready m2 (s32 (next + 4)) (s32 (s32 (next + 4) + 4))
   else ready m2 next (s32 (next + 4))) ∧ same_space mc m2 ∧
  (∀ r, 0 ≤ r < NumGPRegs → r ≠ 2 → reg m2 r = reg mc r) ∧
  (∀ pa, (∀ a, frame mc a true ≠ Some pa) → mainMemory m2 !! pa = mainMemory mc !! pa).
Proof using Type.
  intros [Hm Hq Hpc Hnext] Hh E.
  destruct (syscall_effect heap oneChar garbage_type mc k m2 k2 Hm Hh E) as [Hok Hpcs Hss Hmem Hgpr].
  destruct (Hgpr Hq) as [Hq2 Hsame]. split_and!; try done.
  destruct (decide (prints_zero mc)); destruct Hpcs as (_ & P2 & P3); rewrite Hnext in P2, P3; by split.
Qed.

(** Halt never returns. *)
Lemma Halt_halts (m : Machine) (k : K) a :
  ready m a (a + 4) → code_at m a (assemble Halt) → 0 ≤ a < two31 - 16 → run 2 (m, k) = Stop Halted.
Proof using Type.
  intros Hm Hc Ha. destruct (stub_traps m k a SC_Halt Hm Hc ltac:(done) Ha) as (mc & -> & [Hok _ _ _] & [P1 _ _]).
  unfold ExceptionHandler. rewrite read_reg_user by done. simpl_res. simpl fst. by rewrite P1.
Qed.

(** A call that the kernel does not know is repeated for ever. *)
Lemma unknown_call_repeats n (m : Machine) (k : K) pc next :
  ready m pc next → word_at m pc (encode syscall) → reg m 2 ≠ SC_Halt →
  handler_of (C:=C) (T:=T) (W:=W) heap oneChar garbage_type (reg m 2) = None →
  ∃ m' k', run n (m, k) = Ok (m', k') ∧ ready m' pc next ∧ put 0 0 m m'.
Proof using Type.
  revert m k. induction n as [|n IH]; intros m k Hm Hw Hh Hn.
  - exists m, k. split_and!; [done|done|]. split; [|done|done]. intros r _. pose proof (rd_quiet _ _ _ Hm) as (_ & _ & Hz).
    by case_bool_decide; [subst r|].
  - destruct (syscall_runs m k pc next Hm Hw) as (mc & E & Hmc & [P1 P2 P3]).
    assert (reg mc 2 = reg m 2) as E2 by (by rewrite P1).
    assert (OneInstruction (m, k) = Ok (mc, set_status UserMode (set_status SystemMode k))) as E1.
    { rewrite E. cbn [Machine.ExceptionHandler setStatus real_kernel kernel]. unfold ExceptionHandler.
      rewrite read_reg_user by (done || apply Hmc). simpl_res. simpl fst. rewrite E2, Hn.
      by rewrite (proj2 (Z.eqb_neq _ _)) by done. }
    destruct (IH mc (set_status UserMode (set_status SystemMode k)) Hmc) as (m' & k' & E3 & Hm' & [Q1 Q2 Q3]);
      [by eapply word_at_same|by rewrite E2|by rewrite E2|].
    exists m', k'. split_and!; [simpl; rewrite E1; exact E3|done|]. split; [|by etransitivity|congruence].
    intros r Hr. rewrite Q1, P1 by done. by case_bool_decide.
Qed.

(** So a program that calls the stub of such a call stays at its trap. *)
Lemma unserved_stub i (m : Machine) (k : K) a code :
  ready m a (a + 4) → code_at m a (assemble (stub code)) → 0 ≤ code < 32 → 0 ≤ a < two31 - 16 →
  code ≠ SC_Halt → handler_of (C:=C) (T:=T) (W:=W) heap oneChar garbage_type code = None →
  ∃ m' k', run (S i) (m, k) = Ok (m', k') ∧ ready m' (a + 4) (a + 8) ∧ put 2 code m m'.
Proof using Type.
  intros Hm Hc Hcode Ha Hh Hn.
  destruct (addiu_runs m k a (a + 4) 2 code Hm) as (m1 & E1 & Hm1 & [P1 P2 P3]); [|done|lia|].
  { by apply (code_at_word _ _ _ 0 _ _ Hc); [|lia]. }
  rewrite s32_small in Hm1 by (unfold is_s32, two31 in *; lia). replace (a + 4 + 4) with (a + 8) in Hm1 by lia.
  assert (reg m1 2 = code) as E2 by (by rewrite P1).
  destruct (unknown_call_repeats i m1 k (a + 4) (a + 8) Hm1) as (m' & k' & E & Hm' & [Q1 Q2 Q3]).
  { eapply word_at_same; [done|done|]. by apply (code_at_word _ _ _ 1 _ _ Hc); [|lia]. }
  { by rewrite E2. } { by rewrite E2. }
  exists m', k'. split_and!; [simpl; rewrite E1; exact E|done|]. split; [|by etransitivity|congruence].
  intros r Hr. rewrite Q1, P1 by done. case_bool_decide as E0; [subst r|done].
  pose proof (rd_quiet _ _ _ Hm) as (_ & _ & Hz). by rewrite bool_decide_eq_false_2, Hz by done.
Qed.

(** The entry calls [main], with the return address 8; and when [main] returns,
    it calls [Exit] with 0. *)
Lemma start_calls_main (m : Machine) (k : K) main :
  ready m 0 4 → code_at m 0 (text main) → 0 ≤ main < 2 ^ 28 → main mod 4 = 0 →
  ∃ m', run 2 (m, k) = Ok (m', k) ∧ ready m' main (main + 4) ∧ put 31 8 m m'.
Proof using Type.
  intros Hm Hc Hr H4. apply code_at_app in Hc as [Hc _].
  destruct (jal_runs m k 0 4 main Hm) as (m1 & E1 & Hm1 & [P1 P2 P3]); [|lia|done|done|].
  { by apply (code_at_word _ _ _ 0 _ _ Hc); [|lia]. }
  destruct (nop_runs m1 k 4 main Hm1) as (m2 & E2 & Hm2 & [Q1 Q2 Q3]).
  { eapply word_at_same; [done|done|]. by apply (code_at_word _ _ _ 1 _ _ Hc); [|lia]. }
  rewrite s32_small in Hm2 by (unfold is_s32, two31; lia).
  exists m2. split_and!; [simpl; rewrite E1; simpl_res; by rewrite E2|done|].
  split; [|by etransitivity|congruence]. intros r Hr'. rewrite Q1, P1 by done.
  case_bool_decide as E0; [subst r|done]. pose proof (rd_quiet _ _ _ Hm) as (_ & _ & Hz). by rewrite Hz.
Qed.

Lemma main_returns_to_Exit (m : Machine) (k : K) main :
  ready m 8 12 → code_at m 0 (text main) →
  ∃ m', run 3 (m, k) = Ok (m', k) ∧ ready m' (stub_address 1) (stub_address 1 + 4) ∧ reg m' 4 = 0 ∧
    same_space m m' ∧ mainMemory m' = mainMemory m.
Proof using Type.
  intros Hm Hc. apply code_at_app in Hc as [Hc _].
  destruct (move_runs m k 8 12 4 Hm) as (m1 & E1 & Hm1 & [P1 P2 P3]); [|done|].
  { by apply (code_at_word _ _ _ 2 _ _ Hc); [|lia]. }
  rewrite s32_small in Hm1 by (unfold is_s32, two31; lia).
  destruct (jal_runs m1 k 12 (12 + 4) Exit_address Hm1) as (m2 & E2 & Hm2 & [Q1 Q2 Q3]); [|done..|].
  { eapply word_at_same; [done|done|]. by apply (code_at_word _ _ _ 3 _ _ Hc); [|lia]. }
  destruct (nop_runs m2 k 16 Exit_address Hm2) as (m3 & E3 & Hm3 & [R1 R2 R3]).
  { apply (word_at_same m); [by etransitivity|congruence|]. by apply (code_at_word _ _ _ 4 _ _ Hc); [|lia]. }
  exists m3. split_and!; [simpl; rewrite E1; simpl_res; rewrite E2; simpl_res; by rewrite E3|exact Hm3| | |congruence].
  - by rewrite R1, Q1, P1 by done.
  - by do 2 (etransitivity; [eassumption|]).
Qed.
End calls.

(** ** The property *)

Module StubsSpec.

Section spec.
Context {C T W : Type} `{SynchCons C} `{FreeMap T} `{!SemOps W}.
Notation K := (Globals C T W).
Context (heap : nat → Z) (oneChar garbage_type : Z).
Notation run := (@run K (real_kernel heap oneChar garbage_type)).

(** C31. A system call through its stub.  The file is in memory and the program
    has called stub [n].  The stub raises the trap with its code in register 2
    and the program's other registers as they were, so that the kernel finds the
    arguments in registers 4 to 7.
    - Halt ends the simulation.
    - The kernel does not know the calls of some stubs: such a program never comes
      behind the trap, however long it runs.
    - Otherwise, if the handler returns (and did not overwrite the file), two
      instructions later the program goes on behind its call, with the result of
      the handler in register 2, every other general register as before the call,
      and no memory changed that it may not write.
    - But after PrintFloat of 0 the stub's return is skipped, and one instruction
      later the program goes on in the stub behind its own. *)
Theorem stub_serves main n code (m : Machine) (k : K) (a := stub_address n) :
  ready m a (a + 4) → code_at m 0 (text main) → stubs !! n = Some (stub code) →
  if code =? SC_Halt then run 2 (m, k) = Stop Halted else
  match handler_of (C:=C) (T:=T) (W:=W) heap oneChar garbage_type code with
  | None => ∀ i, ∃ m' k', run (S i) (m, k) = Ok (m', k') ∧ ready m' (a + 4) (a + 8) ∧ put 2 code m m'
  | Some _ => ∀ m2 k2, run 2 (m, k) = Ok (m2, k2) → code_at m2 0 (text main) →
    ∃ mc k', put 2 code m mc ∧
      ExceptionHandler heap oneChar garbage_type SyscallException (mc, set_status SystemMode k) = Ok (m2, k') ∧
      k2 = set_status UserMode k' ∧
      let zero := bool_decide (code = SC_PrintFloat ∧ reg m 4 = 0) in
      ∃ m', run (if zero then 3 else 4) (m, k) = Ok (m', k2) ∧
        (if zero then ready m' (a + 16) (a + 20) else ready m' (reg m 31) (s32 (reg m 31 + 4))) ∧
        reg m' 2 = reg m2 2 ∧ (∀ r, 0 ≤ r < NumGPRegs → r ≠ 2 → reg m' r = reg m r) ∧ same_space m m' ∧
        (∀ pa, (∀ a, frame m a true ≠ Some pa) → mainMemory m' !! pa = mainMemory m !! pa)
  end.
Proof.
  intros Hm Hc Hn. destruct (stub_in_text m main n code Hc Hn) as (Hcn & Hcode & Hlt). fold a in Hcn.
  assert (0 ≤ a < two31 - 20) as Ha by (unfold a, stub_address, two31; lia).
  destruct (Z.eqb_spec code SC_Halt) as [->|Hhalt]; [eapply Halt_halts; [done|done|lia]|].
  destruct (handler_of heap oneChar garbage_type code) as [h|] eqn:Eh;
    [|intros i; eapply unserved_stub; [done|done|done|lia|done|done]].
  intros m2 k2 E2 Hc2. destruct (stub_in_text m2 main n code Hc2 Hn) as (Hcn2 & _). fold a in Hcn2.
  destruct (stub_traps heap oneChar garbage_type m k a code Hm Hcn Hcode) as (mc & Et & Hmc & Hput); [lia|].
  pose proof Hput as [P1 P2 P3]. assert (reg mc 2 = code) as Ec by (by rewrite P1).
  assert (reg mc 4 = reg m 4) as Ec4 by (by rewrite P1).
  rewrite Et in E2. apply bind_ok in E2 as ([m2' k'] & Ex & E2). injection E2 as -> <-.
  destruct (handler_ready heap oneChar garbage_type mc m2 (set_status SystemMode k) k' _ _ Hmc) as (Hm2 & Hss & Hregs & Hmem);
    [rewrite Ec, Eh; by eexists|exact Ex|].
  exists mc, k'. split_and!; [done..|].
  assert (∀ r, 0 ≤ r < NumGPRegs → r ≠ 2 → reg m2 r = reg m r) as Hsame2.
  { intros r Hr Hne. by rewrite Hregs, P1, bool_decide_eq_false_2 by done. }
  assert (∀ pa, (∀ a, frame m a true ≠ Some pa) → mainMemory m2 !! pa = mainMemory m !! pa) as Hmem2.
  { intros pa Hpa. rewrite <- P3. apply Hmem. intros a' Hf. apply (Hpa a'). by rewrite P2. }
  assert (same_space m m2) as Hss2 by (by etransitivity).
  assert (bool_decide (code = SC_PrintFloat ∧ reg m 4 = 0) = bool_decide (prints_zero mc)) as ->
    by (unfold prints_zero; by rewrite Ec, Ec4).
  replace (a + 8 + 4) with (a + 12) in Hm2 by lia. rewrite (s32_small (a + 12)) in Hm2 by (unfold is_s32, two31 in *; lia).
  apply (code_at_app m2 a [encode (addiu 2 0 code); encode syscall]) in Hcn2 as [_ Hj].
  destruct (decide (prints_zero mc)) as [Hz|Hz]; cbv zeta;
    [rewrite bool_decide_eq_true_2 by done|rewrite bool_decide_eq_false_2 by done].
  - replace (a + 12 + 4) with (a + 16) in Hm2 by lia. rewrite s32_small in Hm2 by (unfold is_s32, two31 in *; lia).
    destruct (stub_skips heap oneChar garbage_type m2 (set_status UserMode k') a Hm2 Hj Ha) as (m' & E & Hm' & R1 & R2 & R3).
    exists m'. split_and!; [|exact Hm'|by apply R1| | |].
    + change 3%nat with (2 + 1)%nat. rewrite run_add, Et, Ex. exact E.
    + intros r Hr Hne. by rewrite R1, Hsame2.
    + by etransitivity.
    + intros pa Hpa. rewrite R3. by apply Hmem2.
  - destruct (stub_ends heap oneChar garbage_type m2 (set_status UserMode k') a Hm2 Hj) as (m' & E & Hm' & R1 & R2 & R3); [lia|].
    rewrite Hsame2 in Hm' by done.
    exists m'. split_and!; [|exact Hm'|by apply R1| | |].
    + change 4%nat with (2 + 2)%nat. rewrite run_add, Et, Ex. exact E.
    + intros r Hr Hne. by rewrite R1, Hsame2.
    + by etransitivity.
    + intros pa Hpa. rewrite R3. by apply Hmem2.
Qed.
End spec.

(** The file in frame 5, and a program that called Close of standard input from
    address 992. *)
Definition sample_text : Machine :=
  mkMachine (replicate 40 0) (write_bytes ∅ (5 * PageSize) (text 512 ≫= le_bytes 4)) None
    (Some [mkEntry 0 5 true false false false; mkEntry 1 3 true false false false]) 2.
Definition sample_call : Machine :=
  set_reg (set_reg (set_reg (set_reg sample_text 31 1000) 4 0) PCReg (stub_address 13)) NextPCReg (stub_address 13 + 4).

#[local] Existing Instance ExceptionSpec.sample_console.

(** [code_at] as a computation. *)
Definition code_atb (m : Machine) (a : Z) (l : list Z) : bool :=
  forallb (λ '(i, w), bool_decide (aligned (a + 4 * Z.of_nat i) 4) &&
      match frame m (a + 4 * Z.of_nat i) false with
      | Some pa => le_value (read_bytes (mainMemory m) pa 4) =? w
      | None => false
      end) (zip (seq 0 (length l)) l).

Lemma code_atb_sound m a l : code_atb m a l = true → code_at m a l.
Proof.
  unfold code_atb. rewrite forallb_forall. intros Hall i w Hi.
  assert (In (i, w) (zip (seq 0 (length l)) l)) as Hin.
  { apply list_elem_of_In, list_elem_of_lookup. exists i. apply lookup_zip_with_Some. exists i, w. split_and!; try done.
    apply lookup_seq. split; [done|]. by apply lookup_lt_Some in Hi. }
  specialize (Hall _ Hin). simpl in Hall. apply andb_prop in Hall as [Ha Hf].
  split; [by apply bool_decide_eq_true in Ha|]. destruct (frame m _ false) as [pa|]; [|done].
  exists pa. split; [done|]. by apply Z.eqb_eq.
Qed.

Lemma sample_call_ready : ready sample_call (stub_address 13) (stub_address 13 + 4).
Proof.
  split; [|vm_compute; by split_and!|by vm_compute|by vm_compute].
  split; [by vm_compute|vm_compute; by split|]. exists MemoryProps.sample_table.
  destruct MemoryProps.sample_linear as [H1 H2 H3 H4]. by split.
Qed.

Lemma stub_serves_witness :
  ∃ m' k', run (H := real_kernel (λ _, 0) 0 0) 4 (sample_call, ExceptionSpec.sample_globals) = Ok (m', k') ∧
    reg m' PCReg = 1000 ∧ reg m' 2 = -1 ∧ reg m' 31 = 1000.
Proof.
  destruct (run (H := real_kernel (λ _, 0) 0 0) 2 (sample_call, ExceptionSpec.sample_globals)) as [[m2 k2]|e] eqn:E.
  - assert ((λ r : res (Machine * _), match r with Ok st => code_atb st.1 0 (text 512) && (reg st.1 2 =? -1) | Stop _ => false end)
      (run (H := real_kernel (λ _, 0) 0 0) 2 (sample_call, ExceptionSpec.sample_globals)) = true) as H2 by (vm_compute; reflexivity).
    rewrite E in H2. simpl in H2. apply andb_prop in H2 as [H2 H3].
    pose proof (stub_serves (λ _, 0) 0 0 512 13 SC_CloseFile sample_call ExceptionSpec.sample_globals
      sample_call_ready ltac:(apply code_atb_sound; vm_compute; reflexivity) eq_refl) as Hstub.
    change (SC_CloseFile =? SC_Halt) with false in Hstub. cbn beta iota in Hstub.
    change (handler_of (λ _, 0) 0 0 SC_CloseFile) with
      (Some (@handle_SC_CloseFile (Sim ConsoleSpec.L Console.SynchConsole) BitMap.BitMap
         (Thread.Kern (NList.List Z)))) in Hstub.
    destruct (Hstub m2 k2 E (code_atb_sound _ _ _ H2)) as (mc & k' & _ & _ & _ & m' & E4 & Hm' & Hr2 & Hr & _).
    cbv zeta in E4, Hm'. rewrite bool_decide_eq_false_2 in E4, Hm' by (intros [E0 _]; discriminate E0).
    exists m', k2. split_and!; [exact E4|apply (rd_pc _ _ _ Hm')| |].
    + rewrite Hr2. lia.
    + rewrite Hr by (by split || discriminate). vm_compute. reflexivity.
  - exfalso. revert E. vm_compute. discriminate.
Defined.
End StubsSpec.
End Stubs.
