(* ===== verification/Network.v ===== *)
(** * The network and the post office (machine/network.cc, network/post.cc,
    threads/synchlist.cc)

    The network device of one machine polls its socket every [NetworkTime]
    ticks for a packet of fixed size and hands it to the post office, whose
    worker thread puts the mail into mailboxes; sending pads a packet, drops it
    by chance or gives it to the socket of the destination.  The last part puts
    several machines together: a step is a call of a thread, a turn of the
    worker, or the passing of time on one machine.

    The sockets are queues of datagrams: a UNIX datagram socket of the file
    system loses and reorders nothing.  The Lock is empty in the source, so
    that a thread sends while no other one does is an assumption. *)

From Stdlib Require Import QArith.QArith.
From S2P Require Import Prelude NList Machine FileHdr Interrupt.
#[global] Open Scope Z_scope.

(** ** Synchronised lists

    [Lock] and [Condition::Signal] do nothing; [Condition::Wait] asserts. *)

Module SynchList.
Section synch_list.
Context {A L : Type} `{KeyedList A L}.

Definition SynchList_new : L := kl_new.
Definition Append (l : L) (item : A) : res L := kl_append l item.

Definition Condition_Wait : res unit := ASSERT false.

(** The loop tests the list again after each wait, which does not return. *)
Definition Remove (l : L) : res (A * L) :=
  _ ← (if kl_is_empty l then Condition_Wait else Ok tt);
  '(item, l) ← kl_remove l;
  match item with Some x => Ok (x, l) | None => Stop AssertFailed end.
End synch_list.
End SynchList.

(** ** The network device *)

Module Network.

Record PacketHeader := mkPacketHeader { pto : Z; pfrom : Z; plength : Z }.

Definition PacketHeader_size : Z := 12.
Definition MaxWireSize : Z := 64.
Definition MaxPacketSize : Z := MaxWireSize - PacketHeader_size.

(** The layout of three words in memory; the last one is unsigned. *)
Definition header_bytes (a b c : Z) : list Z := le_bytes 4 a ++ le_bytes 4 b ++ le_bytes 4 c.
Definition header_words (bs : list Z) : Z * Z * Z :=
  (s32 (le_value (take 4 bs)), s32 (le_value (take 4 (drop 4 bs))), le_value (take 4 (drop 8 bs))).

Definition packet_bytes (h : PacketHeader) : list Z := header_bytes (pto h) (pfrom h) (plength h).
Definition packet_of (bs : list Z) : PacketHeader :=
  let '(a, b, c) := header_words bs in mkPacketHeader a b c.

Inductive Handler := NetworkReadPoll | NetworkSendDone.

(** [socket] holds the datagrams that have arrived; [draws] counts the calls of
    [Random]. *)
Record Network := mkNetwork {
  ident : Z;
  chanceToWork : Q;
  socket : list (list Z);
  sendBusy : bool;
  inHdr : PacketHeader;
  inbox : list Z;
  draws : nat;
}.

Definition count_sent (st : Statistics) : Statistics :=
  mkStatistics (totalTicks st) (idleTicks st) (systemTicks st) (userTicks st)
    (numDiskReads st) (numDiskWrites st) (numConsoleCharsRead st) (numConsoleCharsWritten st)
    (numPageFaults st) (numPacketsSent st + 1) (numPacketsRecvd st).
Definition count_received (st : Statistics) : Statistics :=
  mkStatistics (totalTicks st) (idleTicks st) (systemTicks st) (userTicks st)
    (numDiskReads st) (numDiskWrites st) (numConsoleCharsRead st) (numConsoleCharsWritten st)
    (numPageFaults st) (numPacketsSent st) (numPacketsRecvd st + 1).

Definition set_socket (n : Network) (q : list (list Z)) : Network :=
  mkNetwork (ident n) (chanceToWork n) q (sendBusy n) (inHdr n) (inbox n) (draws n).
Definition set_busy (n : Network) (b : bool) : Network :=
  mkNetwork (ident n) (chanceToWork n) (socket n) b (inHdr n) (inbox n) (draws n).
Definition set_in (n : Network) (h : PacketHeader) (bs : list Z) : Network :=
  mkNetwork (ident n) (chanceToWork n) (socket n) (sendBusy n) h bs (draws n).
Definition set_draws (n : Network) (k : nat) : Network :=
  mkNetwork (ident n) (chanceToWork n) (socket n) (sendBusy n) (inHdr n) (inbox n) k.
End Network.

(** ** The post office *)

Module Post.
Import Network.

Record MailHeader := mkMailHeader { mto : Z; mfrom : Z; mlength : Z }.

Definition MailHeader_size : Z := 12.
Definition MaxMailSize : Z := MaxPacketSize - MailHeader_size.

Definition mail_bytes (h : MailHeader) : list Z := header_bytes (mto h) (mfrom h) (mlength h).
Definition mail_of (bs : list Z) : MailHeader :=
  let '(a, b, c) := header_words bs in mkMailHeader a b c.

Record Mail := mkMail { pktHdr : PacketHeader; mailHdr : MailHeader; data : list Z }.

(** [buffer] is the local variable of the postal worker. *)
Record PostOffice (B : Type) := mkPostOffice {
  network : Network;
  netAddr : Z;
  boxes : list B;
  numBoxes : Z;
  messageAvailable : Z;
  messageSent : Z;
  buffer : list Z;
}.
Arguments mkPostOffice {B}.
Arguments network {B}.
Arguments netAddr {B}.
Arguments boxes {B}.
Arguments numBoxes {B}.
Arguments messageAvailable {B}.
Arguments messageSent {B}.
Arguments buffer {B}.

Section post.
Context {L B : Type} `{KeyedList (PendingInterrupt Handler) L} `{KeyedList Mail B}.
Notation Sim := (Sim L (PostOffice B)).

(** What uninitialised memory holds, and the random numbers. *)
Context (heap : nat → Z) (Random : nat → Z).
Definition new_buffer (n : Z) : list Z := heap <$> seq 0 (Z.to_nat n).

Definition with_network (s : Sim) (n : Network) : Sim :=
  let p := rest s in
  with_rest s (mkPostOffice n (netAddr p) (boxes p) (numBoxes p) (messageAvailable p) (messageSent p) (buffer p)).
Definition with_boxes (s : Sim) (b : list B) : Sim :=
  let p := rest s in
  with_rest s (mkPostOffice (network p) (netAddr p) b (numBoxes p) (messageAvailable p) (messageSent p) (buffer p)).
Definition with_available (s : Sim) (v : Z) : Sim :=
  let p := rest s in
  with_rest s (mkPostOffice (network p) (netAddr p) (boxes p) (numBoxes p) v (messageSent p) (buffer p)).
Definition with_sent (s : Sim) (v : Z) : Sim :=
  let p := rest s in
  with_rest s (mkPostOffice (network p) (netAddr p) (boxes p) (numBoxes p) (messageAvailable p) v (buffer p)).
Definition with_buffer (s : Sim) (bs : list Z) : Sim :=
  let p := rest s in
  with_rest s (mkPostOffice (network p) (netAddr p) (boxes p) (numBoxes p) (messageAvailable p) (messageSent p) bs).

(** *** Called by the interrupt handlers *)

Definition IncomingPacket (s : Sim) : Sim := with_available s (messageAvailable (rest s) + 1).
Definition PacketSent (s : Sim) : Sim := with_sent s (messageSent (rest s) + 1).

(** [recvfrom] cuts a datagram that is too long. *)
Definition ReadFromSocket (datagram : list Z) (packetSize : Z) : res (list Z) :=
  let bs := take (Z.to_nat packetSize) datagram in
  ASSERT (Z.of_nat (length bs) =? packetSize);; Ok bs.

Definition CheckPktAvail (s : Sim) : res Sim :=
  s ← Schedule s NetworkReadPoll 0 NetworkTime NetworkRecvInt;
  let n := network (rest s) in
  if negb (plength (inHdr n) =? 0) then Ok s
  else
    match socket n with
    | [] => Ok s
    | datagram :: more =>
        bs ← ReadFromSocket datagram MaxWireSize;
        let hdr := packet_of bs in
        ASSERT ((pto hdr =? ident n) && (plength hdr <=? MaxPacketSize));;
        payload ← slice bs PacketHeader_size (plength hdr);
        inbox' ← overlay (inbox n) 0 payload;
        let s := with_network s (set_in (set_socket n more) hdr inbox') in
        Ok (IncomingPacket (with_stats s (count_received (stats s))))
    end.

Definition SendDone (s : Sim) : res Sim :=
  let s := with_network s (set_busy (network (rest s)) false) in
  Ok (PacketSent (with_stats s (count_sent (stats s)))).

#[export] Instance post_devices : Devices Handler L (PostOffice B) := {|
  fire := λ h _ s, match h with NetworkReadPoll => CheckPktAvail s | NetworkSendDone => SendDone s end;
  yield_thread := λ s, Ok s;
  delayed_load := λ d, Ok d;
|}.

(** *** The network, called by the post office *)

Definition Network_new (s : Sim) (addr : Z) (reliability : Q) : res Sim :=
  let chance := if negb (Qle_bool 0 reliability) then 0%Q
                else if negb (Qle_bool reliability 1) then 1%Q else reliability in
  Schedule (with_network s (mkNetwork addr chance [] false (mkPacketHeader (heap 0) (heap 1) 0)
                              (new_buffer MaxPacketSize) (draws (network (rest s)))))
    NetworkReadPoll 0 NetworkTime NetworkRecvInt.

(** [Random() % 100 >= chanceToWork * 100] *)
Definition lost (n : Network) : bool :=
  Qle_bool (chanceToWork n * 100) (inject_Z (Z.rem (Random (draws n)) 100)).

(** The packet that goes to the socket of machine [pto hdr], unless it is lost. *)
Definition Network_Send (s : Sim) (hdr : PacketHeader) (bs : list Z) : res (option (list Z) * Sim) :=
  let n := network (rest s) in
  ASSERT (negb (sendBusy n) && (plength hdr >? 0) && (plength hdr <=? MaxPacketSize) && (pfrom hdr =? ident n));;
  s ← Schedule s NetworkSendDone 0 NetworkTime NetworkSendInt;
  let s := with_network s (set_draws n (S (draws n))) in
  if lost n then Ok (None, s)
  else
    let wire := new_buffer MaxWireSize in
    wire ← overlay wire 0 (packet_bytes hdr);
    payload ← slice bs 0 (plength hdr);
    wire ← overlay wire PacketHeader_size payload;
    Ok (Some wire, s).

Definition Network_Receive (s : Sim) (bs : list Z) : res (PacketHeader * list Z * Sim) :=
  let n := network (rest s) in
  let hdr := inHdr n in
  let s := with_network s (set_in n (mkPacketHeader (pto hdr) (pfrom hdr) 0) (inbox n)) in
  if negb (plength hdr =? 0) then
    payload ← slice (inbox n) 0 (plength hdr);
    bs ← overlay bs 0 payload;
    Ok (hdr, bs, s)
  else Ok (hdr, bs, s).

(** *** Mail *)

Definition Mail_new (pktH : PacketHeader) (mailH : MailHeader) (msgData : list Z) : res Mail :=
  ASSERT (mlength mailH <=? MaxMailSize);;
  payload ← slice msgData 0 (mlength mailH);
  d ← overlay (new_buffer MaxMailSize) 0 payload;
  Ok (mkMail pktH mailH d).

Definition Put (box : B) (pktH : PacketHeader) (mailH : MailHeader) (bs : list Z) : res B :=
  mail ← Mail_new pktH mailH bs; SynchList.Append box mail.

(** The message is copied into the buffer [into] of the caller. *)
Definition Get (box : B) (into : list Z) : res (PacketHeader * MailHeader * list Z * B) :=
  '(mail, box) ← SynchList.Remove box;
  payload ← slice (data mail) 0 (mlength (mailHdr mail));
  into ← overlay into 0 payload;
  Ok (pktHdr mail, mailHdr mail, into, box).

(** The worker is forked; its turns are [PostalDelivery] below. *)
Definition PostOffice_new (s : Sim) (addr : Z) (reliability : Q) (nBoxes : Z) : res Sim :=
  let s := with_available s 0 in
  let s := with_sent s 0 in
  let p := rest s in
  let s := with_rest s (mkPostOffice (network p) addr (replicate (Z.to_nat nBoxes) SynchList.SynchList_new)
                          nBoxes (messageAvailable p) (messageSent p) (new_buffer MaxPacketSize)) in
  Network_new s addr reliability.

(** [Semaphore::P], for a value that is not 0; otherwise the thread sleeps. *)
Definition P_available (s : Sim) : res Sim :=
  let v := messageAvailable (rest s) in if v =? 0 then Stop WouldBlock else Ok (with_available s (v - 1)).
Definition P_sent (s : Sim) : res Sim :=
  let v := messageSent (rest s) in if v =? 0 then Stop WouldBlock else Ok (with_sent s (v - 1)).

(** One round of the loop of the worker. *)
Definition PostalDelivery (s : Sim) : res Sim :=
  s ← P_available s;
  '(pktH, bs, s) ← Network_Receive s (buffer (rest s));
  let s := with_buffer s bs in
  let mailH := mail_of bs in
  ASSERT ((0 <=? mto mailH) && (mto mailH <? numBoxes (rest s)));;
  ASSERT (mlength mailH <=? MaxMailSize);;
  box ← arr_get (boxes (rest s)) (mto mailH);
  box ← Put box pktH mailH (drop (Z.to_nat MailHeader_size) bs);
  bs' ← arr_set (boxes (rest s)) (mto mailH) box;
  Ok (with_boxes s bs').

(** [PostOffice::Send] up to the wait for [messageSent], which is [P_sent]. *)
Definition PostOffice_Send (s : Sim) (pktH : PacketHeader) (mailH : MailHeader) (bs : list Z)
    : res (option (list Z) * Sim) :=
  let wire := new_buffer MaxPacketSize in
  ASSERT (mlength mailH <=? MaxMailSize);;
  ASSERT ((0 <=? mto mailH) && (mto mailH <? numBoxes (rest s)));;
  let pktH := mkPacketHeader (pto pktH) (netAddr (rest s)) (u32 (mlength mailH + MailHeader_size)) in
  wire ← overlay wire 0 (mail_bytes mailH);
  payload ← slice bs 0 (mlength mailH);
  wire ← overlay wire MailHeader_size payload;
  Network_Send s pktH wire.

Definition PostOffice_Receive (s : Sim) (box : Z) (into : list Z)
    : res (PacketHeader * MailHeader * list Z * Sim) :=
  ASSERT ((box >=? 0) && (box <? numBoxes (rest s)));;
  b ← arr_get (boxes (rest s)) box;
  '(pktH, mailH, into, b) ← Get b into;
  bs ← arr_set (boxes (rest s)) box b;
  ASSERT (mlength mailH <=? MaxMailSize);;
  Ok (pktH, mailH, into, with_boxes s bs).
End post.
End Post.
