(* ===== verification/PostOffice.v ===== *)
(** * One machine with a post office

    The invariant of a post office, and what each of its operations does to the
    messages on their way to the machine and in its mailboxes: packets carry
    their message exactly, the device holds at most one of them, and the boxes
    are queues. *)

From Stdlib Require Import QArith.QArith Lqa.
From S2P Require Import Prelude NList Machine FileHdr Interrupt Network.
#[global] Open Scope Z_scope.
Import Network Post.

(** ** Buffers *)

Section copies.
Context {A : Type}.
Implicit Types (buf bs : list A).

Lemma overlay_front buf bs :
  (length bs ≤ length buf)%nat → overlay buf 0 bs = Ok (bs ++ drop (length bs) buf).
Proof. intros Hl. unfold overlay. by rewrite bool_decide_eq_true_2 by lia. Qed.

Lemma overlay_behind pre buf bs n :
  n = Z.of_nat (length pre) → (length bs ≤ length buf)%nat →
  overlay (pre ++ buf) n bs = Ok (pre ++ bs ++ drop (length bs) buf).
Proof.
  intros -> Hl. unfold overlay. rewrite bool_decide_eq_true_2 by (rewrite length_app; lia).
  rewrite Nat2Z.id, take_app_length. do 3 f_equal. rewrite drop_app_add. done.
Qed.

Lemma slice_front bs rest n : n = Z.of_nat (length bs) → slice (bs ++ rest) 0 n = Ok bs.
Proof.
  intros ->. rewrite slice_in by (rewrite ?length_app; lia). rewrite Nat2Z.id.
  change (Z.to_nat 0) with 0%nat. by rewrite drop_0, take_app_length.
Qed.

Lemma slice_behind pre bs rest m n :
  m = Z.of_nat (length pre) → n = Z.of_nat (length bs) → slice (pre ++ bs ++ rest) m n = Ok bs.
Proof.
  intros -> ->. rewrite slice_in by (rewrite ?length_app; lia). rewrite !Nat2Z.id.
  by rewrite drop_app_length, take_app_length.
Qed.
Lemma alter_at (f : A → A) (l : list A) i x : l !! i = Some x → alter f i l = <[i := f x]> l.
Proof.
  revert i. induction l as [|y l IH]; intros [|i] Hi; simpl in *; [done..|by simplify_eq|].
  f_equal. by apply IH.
Qed.
End copies.

(** ** Headers *)

Lemma length_header a b c : length (header_bytes a b c) = 12%nat.
Proof. done. Qed.

Lemma header_words_bytes a b c rest :
  is_s32 a → is_s32 b → is_u32 c → header_words (header_bytes a b c ++ rest) = (a, b, c).
Proof.
  intros Ha Hb Hc. unfold header_words, header_bytes. rewrite <- !app_assoc.
  rewrite (take_app_length' (le_bytes 4 a)), (drop_app_length' (le_bytes 4 a)) by (by rewrite length_le_bytes).
  rewrite (take_app_length' (le_bytes 4 b)) by (by rewrite length_le_bytes).
  rewrite (app_assoc (le_bytes 4 a)), (drop_app_length' (le_bytes 4 a ++ le_bytes 4 b)) by
    (by rewrite length_app, !length_le_bytes).
  rewrite take_app_length' by (by rewrite length_le_bytes).
  rewrite !le_word_roundtrip by done. rewrite le_value_bytes. change (256 ^ Z.of_nat 4) with two32.
  by rewrite Z.mod_small.
Qed.

(** ** Messages *)

Record Message := mkMessage { ph : PacketHeader; mh : MailHeader; body : list Z }.

(** A message to machine [me] that fits, for a post office of [nb] boxes. *)
Record msg_ok (me nb : Z) (m : Message) : Prop := mkMsgOk {
  mo_to : pto (ph m) = me;
  mo_from : is_s32 (pfrom (ph m));
  mo_len : plength (ph m) = mlength (mh m) + MailHeader_size;
  mo_body : mlength (mh m) = Z.of_nat (length (body m));
  mo_max : mlength (mh m) ≤ MaxMailSize;
  mo_box : 0 ≤ mto (mh m) < nb;
  mo_mfrom : is_s32 (mfrom (mh m));
}.

Definition payload (m : Message) : list Z := mail_bytes (mh m) ++ body m.

(** What goes over the wire. *)
Definition carries (bs : list Z) (m : Message) : Prop :=
  ∃ pad, bs = packet_bytes (ph m) ++ payload m ++ pad ∧ length bs = 64%nat.

Lemma length_payload m : length (payload m) = (12 + length (body m))%nat.
Proof. unfold payload. by rewrite length_app. Qed.

Lemma msg_lengths me nb m :
  msg_ok me nb m → plength (ph m) = Z.of_nat (length (payload m)) ∧ (12 ≤ length (payload m) ≤ 52)%nat.
Proof.
  intros [_ _ Hl Hb Hm _ _]. rewrite length_payload. unfold MailHeader_size, MaxMailSize, MaxPacketSize, MaxWireSize, PacketHeader_size, MailHeader_size in *.
  lia.
Qed.

Lemma packet_of_bytes me nb m rest :
  is_s32 me → msg_ok me nb m → packet_of (packet_bytes (ph m) ++ rest) = ph m.
Proof.
  intros Hme Hok. pose proof (msg_lengths me nb m Hok) as [Hl Hr]. destruct Hok as [Ht Hf _ _ _ _ _].
  unfold packet_of, packet_bytes. rewrite header_words_bytes; [by destruct (ph m)|by rewrite Ht|done|].
  unfold is_u32, two32. lia.
Qed.

Lemma mail_of_bytes me nb m rest :
  nb < two31 → msg_ok me nb m → mail_of (payload m ++ rest) = mh m.
Proof.
  intros Hnb [_ _ _ Hb Hm Hbox Hf]. unfold mail_of, payload, mail_bytes. rewrite <- app_assoc.
  rewrite header_words_bytes; [by destruct (mh m)| |done|].
  - unfold is_s32, two31 in *. lia.
  - unfold is_u32, two32, MaxMailSize, MaxPacketSize, MaxWireSize, MailHeader_size, PacketHeader_size in *. lia.
Qed.

Section devices.
Context {L B : Type} `{KeyedListLaws (PendingInterrupt Handler) L} `{KeyedListLaws Mail B}.
Notation Sim := (Sim L (PostOffice B)).
Context (heap : nat → Z) (Random : nat → Z).

(** A mailbox that holds the messages [l]. *)
Definition mail_rep (x : Mail) (m : Message) : Prop :=
  pktHdr x = ph m ∧ mailHdr x = mh m ∧ ∃ rest, data x = body m ++ rest.
Definition box_rep (b : B) (l : list Message) : Prop :=
  kl_wf b ∧ Forall2 mail_rep (kl_elems b).*2 l.

(** The packet that is buffered in the device and has been announced. *)
Definition in_rep (n : Network) (available : Z) (arrived : list Message) : Prop :=
  match arrived with
  | [] => plength (inHdr n) = 0 ∧ available = 0
  | [m] => inHdr n = ph m ∧ (∃ rest, inbox n = payload m ++ rest) ∧ available = 1
  | _ => False
  end.

Context (me nb : Z) (reliable : bool).

(** The post office of machine [me] with [nb] boxes; [wire] are the messages on
    their way to it, [bxs] the contents of its boxes. *)
Record node_rep (wire : list Message) (bxs : list (list Message)) (d : PostOffice B) : Prop := mkNode {
  nr_ident : ident (network d) = me;
  nr_addr : netAddr d = me;
  nr_me : is_s32 me;
  nr_num : numBoxes d = nb;
  nr_nb : 0 ≤ nb < two31;
  nr_boxes : Forall2 box_rep (boxes d) bxs;
  nr_count : length bxs = Z.to_nat nb;
  nr_inbox : length (inbox (network d)) = 52%nat;
  nr_buffer : length (buffer d) = 52%nat;
  nr_wire : ∃ arrived waiting, wire = arrived ++ waiting ∧ Forall2 carries (socket (network d)) waiting ∧
              in_rep (network d) (messageAvailable d) arrived;
  nr_ok : Forall (msg_ok me nb) wire;
  nr_reliable : reliable = true → Qle_bool 1 (chanceToWork (network d)) = true;
}.

(** A poll moves at most one packet into the device. *)
Lemma CheckPktAvail_spec wire bxs s :
  sim_ok (node_rep wire bxs) s →
  ∃ s', CheckPktAvail s = Ok s' ∧ sim_ok (node_rep wire bxs) s' ∧ scheduled s s'.
Proof using H0.
  intros Hok. unfold CheckPktAvail.
  destruct (Schedule_spec (node_rep wire bxs) s NetworkReadPoll 0 NetworkTime NetworkRecvInt Hok eq_refl (boundless_long _))
    as (s1 & -> & Hok1 & Hsch & Hr & _). simpl_res.
  destruct (ok_dev _ _ Hok1) as [Hid Had Hme Hnum Hnb Hbx Hct Hin Hbu (arr & wait & Hw & Hso & Hirep) Hmok Hrel].
  destruct arr as [|m [|]]; [| |done].
  2:{ destruct Hirep as (Hh & Hi & Hav). rewrite Hh.
      assert (msg_ok me nb m) as Hm by (subst wire; by apply Forall_cons in Hmok as [? _]).
      pose proof (msg_lengths me nb m Hm) as [Hl Hle]. rewrite (proj2 (Z.eqb_neq _ 0)) by lia. by exists s1. }
  destruct Hirep as [Hl0 Hav]. rewrite Hl0. simpl Z.eqb. simpl negb. cbn iota. simpl in Hw. subst wire.
  destruct (socket (network (rest s1))) as [|bs more] eqn:Es; [by exists s1|].
  inversion Hso as [|? m ? wait' Hc Hso' E1 E2]; subst wait.
  apply Forall_cons in Hmok as [Hm Hmok].
  pose proof (msg_lengths me nb m Hm) as [Hlm Hle]. destruct Hc as (pad & -> & Hlen).
  unfold ReadFromSocket, MaxWireSize. rewrite take_ge by (rewrite Hlen; done). rewrite Hlen.
  change (ASSERT (Z.of_nat 64 =? 64)) with (Ok tt). simpl_res.
  match goal with |- context [s32 (le_value (take 4 ?a))] =>
    change (s32 (le_value (take 4 a))) with (pto (packet_of a)) end.
  rewrite (packet_of_bytes me nb), (mo_to _ _ _ Hm), Hid, Z.eqb_refl by done. unfold MaxPacketSize, MaxWireSize, PacketHeader_size.
  rewrite (proj2 (Z.leb_le _ _)) by lia. cbn [ASSERT andb]. simpl_res.
  rewrite slice_behind by (done || lia). simpl_res. rewrite overlay_front by lia. simpl_res.
  eexists. split; [reflexivity|]. split.
  - destruct Hok1 as [Ho1 Ho2 Ho3 _]. split; try done. split; try done.
    + change (length (payload m ++ drop (length (payload m)) (inbox (network (rest s1)))) = 52%nat).
      rewrite length_app, length_drop. lia.
    + exists [m], wait'. split_and!; try done. split_and!; [done|by eexists|].
      change (messageAvailable (rest s1) + 1 = 1). lia.
    + by constructor.
  - etransitivity; [exact Hsch|]. split; try done. by exists [].
Qed.

Lemma SendDone_spec wire bxs s :
  sim_ok (node_rep wire bxs) s →
  ∃ s', SendDone s = Ok s' ∧ sim_ok (node_rep wire bxs) s' ∧ scheduled s s'.
Proof using Type.
  intros [Ho1 Ho2 Ho3 []]. eexists. split; [reflexivity|]. split; [by split|].
  split; try done. by exists [].
Qed.

#[local] Instance node_laws (wire : list Message) (bxs : list (list Message)) : DeviceLaws Handler L (PostOffice B).
Proof using H0 H1 me nb reliable.
  refine {| dev_ok := node_rep wire bxs; horizon := 0 |}; [done| |].
  - intros d Hd. by exists d.
  - intros [] a s Hok _ _ _ _; [by apply CheckPktAvail_spec|by apply SendDone_spec].
Defined.

(** Between two calls: the machine runs kernel code, outside handlers. *)
Record node_ok (wire : list Message) (bxs : list (list Message)) (s : Sim) : Prop := mkNodeOk {
  no_sim : sim_ok (node_rep wire bxs) s;
  no_handler : inHandler (interrupt s) = false;
  no_status : status (interrupt s) = SystemMode;
}.

Lemma sim_ok_frame wire bxs s i :
  sim_ok (node_rep wire bxs) s → pending i = pending (interrupt s) →
  sim_ok (node_rep wire bxs) (with_interrupt s i).
Proof using Type.
  intros [H3 H4 H5 H6] Hp. split; try done; unfold queue in *; simpl; by rewrite Hp.
Qed.

(** Changing the post office only. *)
Lemma node_ok_rest wire bxs wire' bxs' s d :
  node_ok wire bxs s → node_rep wire' bxs' d → node_ok wire' bxs' (with_rest s d).
Proof using Type. intros [[H3 H4 H5 H6] H7 H8] Hd. by split. Qed.

(** Time passes. *)
Lemma tick_spec wire bxs s :
  node_ok wire bxs s → ∃ s', OneTick s = Ok s' ∧ node_ok wire bxs s'.
Proof using H0.
  intros [Hs Hh Hst].
  destruct (OneTick_inv (DeviceLaws0 := node_laws wire bxs) s) as (s' & E & Hs' & Hh' & Hst');
    [by apply boundless_tick|exact Hs|done|by rewrite Hst|done|].
  exists s'. split; [exact E|]. split; [exact Hs'|done|congruence].
Qed.

Lemma idle_spec wire bxs s :
  node_ok wire bxs s → level (interrupt s) = IntOff → queue s ≠ [] → ¬ lone_timer s →
  ∃ s', Idle s = Ok s' ∧ node_ok wire bxs s'.
Proof using H0.
  intros [Hs Hh Hst] Hl Hq Ht.
  destruct (Idle_inv (DeviceLaws0 := node_laws wire bxs) s) as (s' & E & Hs' & Hh' & Hst'); [done|exact Hs|done..|].
  exists s'. by split.
Qed.

Lemma length_new_buffer n : length (new_buffer heap n) = Z.to_nat n.
Proof using Type. unfold new_buffer. by rewrite length_fmap, length_seq. Qed.

(** A reliable network loses nothing. *)
Lemma reliable_not_lost n : Qle_bool 1 (chanceToWork n) = true → lost Random n = false.
Proof using Type.
  intros Hc. unfold lost. apply Qle_bool_iff in Hc. destruct (Qle_bool _ _) eqn:E; [|done].
  exfalso. apply Qle_bool_iff in E.
  assert (inject_Z (Z.rem (Random (draws n)) 100) <= inject_Z 99)%Q as H9.
  { rewrite <- Zle_Qle. pose proof (Z.rem_bound_abs (Random (draws n)) 100). lia. }
  unfold inject_Z at 2 in H9. lra.
Qed.

(** What goes out for a message. *)
Definition outgoing (t : Z) (mailH : MailHeader) (bs : list Z) : Message :=
  mkMessage (mkPacketHeader t me (mlength mailH + MailHeader_size)) mailH (take (Z.to_nat (mlength mailH)) bs).

Record sendable (t : Z) (mailH : MailHeader) (bs : list Z) : Prop := mkSendable {
  se_to : is_s32 t;
  se_len : 0 ≤ mlength mailH ≤ MaxMailSize;
  se_bs : mlength mailH ≤ Z.of_nat (length bs);
  se_box : 0 ≤ mto mailH < nb;
  se_from : is_s32 (mfrom mailH);
}.

Lemma outgoing_ok t mailH bs : is_s32 me → sendable t mailH bs → msg_ok t nb (outgoing t mailH bs).
Proof using Type.
  intros Hme [Ht [Hl0 Hl] Hb Hbox Hf]. split; try done. simpl. rewrite length_take. lia.
Qed.

Lemma send_spec wire bxs s pktH mailH bs :
  node_ok wire bxs s → sendBusy (network (rest s)) = false → sendable (pto pktH) mailH bs →
  ∃ r s', PostOffice_Send heap Random s pktH mailH bs = Ok (r, s') ∧ node_ok wire bxs s' ∧
    match r with
    | Some w => carries w (outgoing (pto pktH) mailH bs)
    | None => reliable = false
    end.
Proof using H0.
  intros Hn Hbusy Hse. pose proof Hn as [Hs _ _]. destruct (ok_dev _ _ Hs) as [Hid Had Hme Hnum Hnb _ _ _ _ _ _ Hrel].
  pose proof (outgoing_ok _ _ _ Hme Hse) as Hmok. destruct Hse as [Ht [Hl0 Hl] Hb Hbox Hf].
  set (m := outgoing (pto pktH) mailH bs) in *.
  unfold PostOffice_Send, ASSERT. rewrite (proj2 (Z.leb_le _ _) Hl), Hnum. simpl_res.
  rewrite (proj2 (Z.leb_le _ _)), (proj2 (Z.ltb_lt _ _)) by lia. cbn [andb]. simpl_res.
  assert (length (body m) = Z.to_nat (mlength mailH)) as Hbody.
  { subst m. simpl. rewrite length_take. lia. }
  pose proof (length_new_buffer MaxPacketSize) as Hlb.
  unfold MaxMailSize, MaxPacketSize, MaxWireSize, MailHeader_size, PacketHeader_size in *.
  rewrite overlay_front by (rewrite Hlb; unfold mail_bytes; rewrite length_header; lia). simpl_res.
  replace (slice bs 0 (mlength mailH)) with (Ok (body m) : res (list Z)).
  2:{ rewrite slice_in by lia. done. }
  simpl_res. rewrite overlay_behind by (try done; rewrite length_drop, Hlb, Hbody; unfold mail_bytes; rewrite length_header; lia).
  simpl_res. rewrite (app_assoc (mail_bytes mailH)). change (mail_bytes mailH ++ body m) with (payload m).
  unfold u32. rewrite Z.mod_small by (unfold two32; lia). rewrite Had.
  change (mkPacketHeader (pto pktH) me (mlength mailH + 12)) with (ph m).
  destruct (msg_lengths (pto pktH) nb m Hmok) as [Hpl Hple].
  set (rest_of := drop _ _).
  unfold Network_Send, ASSERT. rewrite Hbusy, Hpl, Z.gtb_ltb. cbn [negb andb].
  rewrite (proj2 (Z.ltb_lt _ _)), (proj2 (Z.leb_le _ _)) by (unfold MaxPacketSize, MaxWireSize, PacketHeader_size; lia).
  cbn [andb]. rewrite Hid, Z.eqb_refl. simpl_res.
  destruct (Schedule_spec (node_rep wire bxs) s NetworkSendDone 0 NetworkTime NetworkSendInt Hs eq_refl (boundless_long _))
    as (s1 & -> & Hok1 & Hsch & Hr & _). simpl_res.
  assert (node_ok wire bxs (with_network s1 (set_draws (network (rest s)) (S (draws (network (rest s))))))) as Hn'.
  { destruct Hn as [_ Hh Hst]. destruct Hsch as [_ _ Hh' Hst' _]. rewrite <- Hr.
    split; [|simpl; congruence..]. destruct Hok1 as [Ho1 Ho2 Ho3 []]. by split. }
  destruct (lost Random (network (rest s))) eqn:Elost.
  { do 2 eexists. split; [reflexivity|]. split; [exact Hn'|]. destruct reliable; [|done].
    rewrite reliable_not_lost in Elost by auto. done. }
  pose proof (length_new_buffer MaxWireSize) as Hlw. change (Z.to_nat MaxWireSize) with 64%nat in Hlw.
  rewrite overlay_front by (rewrite Hlw; unfold packet_bytes; rewrite length_header; lia). simpl_res.
  rewrite slice_front by done. simpl_res.
  rewrite overlay_behind by (try done; rewrite length_drop, Hlw; unfold packet_bytes; rewrite length_header; lia).
  simpl_res. do 2 eexists. split; [reflexivity|]. split; [exact Hn'|].
  eexists. split; [reflexivity|]. rewrite !length_app, !length_drop, Hlw. unfold packet_bytes.
  rewrite length_header. lia.
Qed.

(** Mail is put into a box, and taken out of it. *)
Lemma put_spec b l m rest :
  box_rep b l → msg_ok me nb m →
  ∃ b', Put heap b (ph m) (mh m) (body m ++ rest) = Ok b' ∧ box_rep b' (l ++ [m]).
Proof using H2.
  intros [Hwf Hl] Hm. unfold Put, Mail_new, ASSERT. rewrite (proj2 (Z.leb_le _ _) (mo_max _ _ _ Hm)). simpl_res.
  rewrite slice_front by apply Hm. simpl_res.
  destruct Hm as [_ _ _ Hb Hmax _ _].
  rewrite overlay_front by (rewrite length_new_buffer; lia). simpl_res. unfold SynchList.Append.
  destruct (kl_append_spec b (mkMail (ph m) (mh m) (body m ++ drop (length (body m)) (new_buffer heap MaxMailSize))) Hwf)
    as (b' & -> & Hwf' & He).
  exists b'. split; [done|]. split; [done|]. rewrite He, fmap_app. apply Forall2_app; [done|].
  constructor; [|done]. split; [done|]. split; [done|]. by eexists.
Qed.

Lemma get_spec b m l into :
  box_rep b (m :: l) → msg_ok me nb m → (length (body m) ≤ length into)%nat →
  ∃ b', Get b into = Ok (ph m, mh m, body m ++ drop (length (body m)) into, b') ∧ box_rep b' l.
Proof using H2.
  intros [Hwf Hl] Hm Hinto. unfold Get, SynchList.Remove. rewrite kl_is_empty_spec by done.
  destruct (kl_elems b) as [|[k x] es] eqn:Ee; [by inversion Hl|]. rewrite bool_decide_eq_false_2 by done.
  simpl in Hl. apply Forall2_cons in Hl as [(Hp & Hh & rest & Hd) Hl].
  destruct (kl_remove_spec b Hwf) as (b' & Er & Hwf' & He'). rewrite Ee in Er, He'. simpl in Er, He'.
  simpl_res. rewrite Er. simpl_res. rewrite Hd, Hh, Hp, slice_front by apply Hm. simpl_res.
  rewrite overlay_front by done. simpl_res.
  exists b'. split; [done|]. split; [done|]. by rewrite He'.
Qed.

(** A turn of the worker takes the oldest message to its mailbox. *)
Lemma delivery_spec wire bxs s :
  node_ok wire bxs s → messageAvailable (rest s) ≠ 0 →
  ∃ m wire' s', wire = m :: wire' ∧ PostalDelivery heap s = Ok s' ∧
    node_ok wire' (alter (.++ [m]) (Z.to_nat (mto (mh m))) bxs) s'.
Proof using H2.
  intros Hn Hav. pose proof Hn as [[Ho1 Ho2 Ho3 Hd] Hh Hst].
  destruct Hd as [Hid Had Hme Hnum Hnb Hbx Hct Hin Hbu (arr & wait & Hw & Hso & Hirep) Hmok Hrel].
  destruct arr as [|m [|]]; [by destruct Hirep| |done]. destruct Hirep as (Hhd & (ri & Hi) & Hav1). subst wire.
  apply Forall_cons in Hmok as [Hm Hmok].
  exists m, wait. pose proof (msg_lengths me nb m Hm) as [Hpl Hple].
  unfold PostalDelivery, P_available. rewrite Hav1. simpl Z.eqb. cbn iota. simpl_res.
  unfold Network_Receive. cbn [rest with_available with_rest network buffer]. rewrite Hhd, Hpl.
  rewrite (proj2 (Z.eqb_neq _ 0)) by lia. cbn [negb].
  rewrite Hi, slice_front by done. simpl_res. rewrite overlay_front by lia. simpl_res.
  rewrite mail_of_bytes with (me := me) (nb := nb) by (done || lia).
  pose proof Hm as [Hto Hfr Hlen Hb Hmax Hbox Hmf].
  cbn [rest with_available with_network with_buffer with_rest network boxes numBoxes buffer].
  rewrite Hnum. unfold ASSERT. rewrite (proj2 (Z.leb_le _ _)), (proj2 (Z.ltb_lt _ _)) by lia. cbn [andb]. simpl_res.
  rewrite (proj2 (Z.leb_le _ _)) by done. simpl_res.
  assert (length (boxes (rest s)) = Z.to_nat nb) as Hlb by (by rewrite <- Hct, (Forall2_length _ _ _ Hbx)).
  destruct (lookup_lt_is_Some_2 (boxes (rest s)) (Z.to_nat (mto (mh m)))) as [b Hbk]; [lia|].
  destruct (Forall2_lookup_l _ _ _ _ _ Hbx Hbk) as (l & Hlk & Hrep).
  rewrite (arr_get_in _ _ b) by (done || lia). simpl_res.
  change (Z.to_nat MailHeader_size) with (length (mail_bytes (mh m))).
  unfold payload at 1. rewrite <- app_assoc, drop_app_length.
  destruct (put_spec b l m (drop (length (payload m)) (buffer (rest s))) Hrep Hm) as (b' & -> & Hrep'). simpl_res.
  rewrite arr_set_in by lia. simpl_res. eexists. split; [done|]. split; [reflexivity|].
  split; [|done..]. split; try done. split; try done.
  - cbn. rewrite (alter_at _ _ _ l Hlk). by apply Forall2_insert.
  - by rewrite length_alter.
  - change (length (payload m ++ ri) = 52%nat). by rewrite <- Hi.
  - change (length (payload m ++ drop (length (payload m)) (buffer (rest s))) = 52%nat).
    rewrite length_app, length_drop. lia.
  - exists [], wait. split; [done|]. split; [done|]. split; [done|]. simpl. lia.
Qed.

(** A mailbox gives its oldest message. *)
Lemma receive_spec wire bxs s k m l into :
  node_ok wire bxs s → bxs !! k = Some (m :: l) → (length (body m) ≤ length into)%nat → msg_ok me nb m →
  ∃ s', PostOffice_Receive s (Z.of_nat k) into = Ok (ph m, mh m, body m ++ drop (length (body m)) into, s') ∧
    node_ok wire (<[k := l]> bxs) s'.
Proof using H2.
  intros Hn Hk Hinto Hm. pose proof Hn as [[_ _ _ Hd] _ _].
  pose proof Hd as [Hid Had Hme Hnum Hnb Hbx Hct Hin Hbu Hw Hmok Hrel].
  pose proof (lookup_lt_Some _ _ _ Hk) as Hlt.
  destruct (Forall2_lookup_r _ _ _ _ _ Hbx Hk) as (b & Hbk & Hrep).
  pose proof (lookup_lt_Some _ _ _ Hbk) as Hlb.
  unfold PostOffice_Receive, ASSERT. rewrite Hnum, Z.geb_leb.
  rewrite (proj2 (Z.leb_le _ _)), (proj2 (Z.ltb_lt _ _)) by lia. cbn [andb]. simpl_res.
  rewrite (arr_get_in _ _ b) by (rewrite ?Nat2Z.id; done || lia). simpl_res.
  destruct (get_spec b m l into Hrep Hm Hinto) as (b' & -> & Hrep'). simpl_res.
  rewrite arr_set_in by lia. simpl_res. rewrite (proj2 (Z.leb_le _ _) (mo_max _ _ _ Hm)). rewrite Nat2Z.id.
  eexists. split; [reflexivity|]. apply (node_ok_rest _ _ _ _ _ _ Hn). split; try done.
  - cbn. by apply Forall2_insert.
  - by rewrite length_insert.
Qed.

(** The only other thing a mailbox does: a thread that would have to wait for
    mail aborts the kernel, since [Condition::Wait] asserts. *)
Lemma empty_mailbox_aborts wire bxs s k into :
  node_ok wire bxs s → bxs !! k = Some [] → PostOffice_Receive s (Z.of_nat k) into = Stop AssertFailed.
Proof using H2.
  intros Hn Hk. pose proof Hn as [[_ _ _ Hd] _ _].
  pose proof Hd as [Hid Had Hme Hnum Hnb Hbx Hct Hin Hbu Hw Hmok Hrel].
  pose proof (lookup_lt_Some _ _ _ Hk) as Hlt.
  destruct (Forall2_lookup_r _ _ _ _ _ Hbx Hk) as (b & Hbk & [Hwf Hl]). apply Forall2_nil_inv_r in Hl.
  unfold PostOffice_Receive, ASSERT. rewrite Hnum, Z.geb_leb.
  rewrite (proj2 (Z.leb_le _ _)), (proj2 (Z.ltb_lt _ _)) by lia. cbn [andb]. simpl_res.
  rewrite (arr_get_in _ _ b) by (rewrite ?Nat2Z.id; done || lia). simpl_res.
  unfold Get, SynchList.Remove. rewrite kl_is_empty_spec, bool_decide_eq_true_2; [done| |done].
  by apply fmap_nil_inv in Hl.
Qed.
End devices.
