(* ===== verification/PostMachines.v ===== *)
(** * Machines that exchange mail

    Several machines with post offices: a step is a call of a thread, a turn of
    the postal worker, or the passing of time on one of them.  Together they
    behave as a queue of messages per machine and per mailbox, in which a
    message is either lost when it is sent or delivered once, in order and
    unchanged. *)

From Stdlib Require Import QArith.QArith.
From S2P Require Import Prelude NList Machine FileHdr Interrupt Network PostOffice.
#[global] Open Scope Z_scope.
Import Network Post.

(** ** Several machines *)

Section machines.
Context {L B : Type} `{KeyedListLaws (PendingInterrupt Handler) L} `{KeyedListLaws Mail B}.
Notation Sim := (Sim L (PostOffice B)).
Context (heap : nat → Z) (Random : Z → nat → Z) (nb : Z) (reliable : Z → bool).

Notation World := (gmap Z Sim).

(** What a thread, the worker or the hardware of a machine does next. *)
Inductive request :=
  | RSend (pktH : PacketHeader) (mailH : MailHeader) (bs : list Z)   (* up to the wait *)
  | RSent                                                            (* the wait in Send ends *)
  | RReceive (box : Z) (into : list Z)
  | RDeliver
  | RTick
  | RIdle.

Definition answer : Type := option (PacketHeader * MailHeader * list Z).

Definition SendToSocket (w : World) (t : Z) (wire : list Z) : res World :=
  match w !! t with
  | Some s => Ok (<[t := with_network s (set_socket (network (rest s)) (socket (network (rest s)) ++ [wire]))]> w)
  | None => Stop AssertFailed
  end.

Definition do (r : request) (i : Z) (w : World) : res (answer * World) :=
  match w !! i with
  | None => Stop Undefined
  | Some s =>
      let stay (x : res Sim) := s ← x; Ok (None, <[i := s]> w) in
      match r with
      | RSend pktH mailH bs =>
          '(wire, s) ← PostOffice_Send heap (Random i) s pktH mailH bs;
          match wire with
          | Some wire => w ← SendToSocket (<[i := s]> w) (pto pktH) wire; Ok (None, w)
          | None => Ok (None, <[i := s]> w)
          end
      | RSent => stay (P_sent s)
      | RReceive box into =>
          '(p, h, bs, s) ← PostOffice_Receive s box into; Ok (Some (p, h, bs), <[i := s]> w)
      | RDeliver => stay (PostalDelivery heap s)
      | RTick => stay (OneTick s)
      | RIdle => stay (Idle s)
      end
  end.

(** The requests that make sense: one sender at a time on a machine, to a
    machine and a box that exist; waits that end; mail that is there. *)
Definition enabled (r : request) (i : Z) (w : World) : Prop :=
  match w !! i with
  | None => False
  | Some s =>
      match r with
      | RSend pktH mailH bs =>
          sendBusy (network (rest s)) = false ∧ is_Some (w !! pto pktH) ∧ sendable nb (pto pktH) mailH bs
      | RSent => messageSent (rest s) ≠ 0
      | RReceive box into =>
          0 ≤ box ∧ MaxMailSize ≤ Z.of_nat (length into) ∧
          match boxes (rest s) !! Z.to_nat box with Some b => kl_is_empty b = false | None => False end
      | RDeliver => messageAvailable (rest s) ≠ 0
      | RTick => True
      | RIdle => level (interrupt s) = IntOff ∧ queue s ≠ [] ∧ ¬ lone_timer s
      end
  end.

#[global] Instance sendable_dec t mailH bs : Decision (sendable nb t mailH bs).
Proof.
  destruct (decide (is_s32 t ∧ 0 ≤ mlength mailH ≤ MaxMailSize ∧ mlength mailH ≤ Z.of_nat (length bs) ∧
    0 ≤ mto mailH < nb ∧ is_s32 (mfrom mailH))) as [(? & ? & ? & ? & ?)|Hn]; [left; by split|right].
  intros []. by apply Hn.
Defined.
#[global] Instance lone_timer_dec (s : Sim) : Decision (lone_timer s).
Proof.
  unfold lone_timer. destruct (queue s) as [|e [|]]; [right; by intros (? & ? & _)| |right; by intros (? & ? & _)].
  destruct (decide (type e.2 = TimerInt)) as [He|He]; [left; by exists e|right; by intros (? & [= <-] & ?)].
Defined.
#[global] Instance enabled_dec r i w : Decision (enabled r i w).
Proof.
  unfold enabled. destruct (w !! i) as [s|]; [|right; by intros []].
  destruct r as [pktH mailH bs| |box into| | |]; try apply _.
  - destruct (boxes (rest s) !! Z.to_nat box) as [b|]; apply _.
Defined.

(** A sequence of requests, each of which makes sense when its turn comes. *)
Fixpoint run (rs : list (request * Z)) (w : World) : res (list answer * World) :=
  match rs with
  | [] => Ok ([], w)
  | (r, i) :: rs => '(a, w) ← do r i w; '(as_, w) ← run rs w; Ok (a :: as_, w)
  end.
Fixpoint allowed (rs : list (request * Z)) (w : World) : Prop :=
  match rs with
  | [] => True
  | (r, i) :: rs => enabled r i w ∧ match do r i w with Ok (_, w) => allowed rs w | Stop _ => True end
  end.
#[global] Instance allowed_dec rs w : Decision (allowed rs w).
Proof.
  revert w. induction rs as [|[r i] rs IH]; intros w; simpl; [apply _|].
  destruct (do r i w) as [[a w']|]; apply _.
Defined.

(** *** The specification: queues of messages *)

Notation Spec := (gmap Z (list Message * list (list Message))).

Inductive spec_do : request → Z → Spec → answer → Spec → Prop :=
  | S_send i pktH mailH bs A wire bxs :
      A !! pto pktH = Some (wire, bxs) →
      spec_do (RSend pktH mailH bs) i A None (<[pto pktH := (wire ++ [outgoing i (pto pktH) mailH bs], bxs)]> A)
  | S_lost i pktH mailH bs A :
      reliable i = false → spec_do (RSend pktH mailH bs) i A None A
  | S_sent i A : spec_do RSent i A None A
  | S_receive i k into A wire bxs m l :
      A !! i = Some (wire, bxs) → bxs !! k = Some (m :: l) →
      spec_do (RReceive (Z.of_nat k) into) i A
        (Some (ph m, mh m, body m ++ drop (length (body m)) into)) (<[i := (wire, <[k := l]> bxs)]> A)
  | S_deliver i A m wire bxs :
      A !! i = Some (m :: wire, bxs) →
      spec_do RDeliver i A None (<[i := (wire, alter (.++ [m]) (Z.to_nat (mto (mh m))) bxs)]> A)
  | S_tick i A : spec_do RTick i A None A
  | S_idle i A : spec_do RIdle i A None A.

Definition machine_rep (i : Z) (s : Sim) (a : list Message * list (list Message)) : Prop :=
  node_ok i nb (reliable i) a.1 a.2 s ∧ Forall (Forall (msg_ok i nb)) a.2.
Definition consistent : World → Spec → Prop := map_Forall2 machine_rep.

Lemma consistent_lookup w A i s :
  consistent w A → w !! i = Some s → ∃ wire bxs, A !! i = Some (wire, bxs) ∧ machine_rep i s (wire, bxs).
Proof using Type.
  intros Hc Hi. specialize (Hc i). rewrite Hi in Hc. inversion Hc as [? [wire bxs] Hm|]; subst. by exists wire, bxs.
Qed.

Lemma consistent_insert w A i s a :
  consistent w A → machine_rep i s a → consistent (<[i := s]> w) (<[i := a]> A).
Proof using Type. intros Hc Hm. by apply map_Forall2_insert_2. Qed.

Lemma consistent_same w A i s wire bxs :
  consistent w A → A !! i = Some (wire, bxs) → machine_rep i s (wire, bxs) → consistent (<[i := s]> w) A.
Proof using Type. intros Hc Hi Hm. rewrite <- (insert_id A i (wire, bxs) Hi). by apply consistent_insert. Qed.

(** A datagram reaches the socket of its destination. *)
Lemma datagram_arrives i s wire bxs bs m :
  machine_rep i s (wire, bxs) → carries bs m → msg_ok i nb m →
  machine_rep i (with_network s (set_socket (network (rest s)) (socket (network (rest s)) ++ [bs])))
    (wire ++ [m], bxs).
Proof using Type.
  intros [Hn Hbx] Hc Hm. split; [|done]. simpl in Hn, Hbx |- *. eapply node_ok_rest; [exact Hn|].
  destruct Hn as [[_ _ _ [Hid Had Hme Hnum Hnb Hb Hct Hin Hbu (arr & wait & -> & Hso & Hi) Hok Hrel]] _ _].
  split; try done.
  - exists arr, (wait ++ [m]). rewrite <- app_assoc. split; [done|]. split; [|exact Hi].
    apply Forall2_app; [done|]. by constructor.
  - apply Forall_app. split; [done|]. by constructor.
Qed.

Lemma step_spec r i w A :
  consistent w A → enabled r i w →
  ∃ a w' A', do r i w = Ok (a, w') ∧ spec_do r i A a A' ∧ consistent w' A'.
Proof using H0 H2.
  intros Hc He. unfold enabled in He. destruct (w !! i) as [s|] eqn:Hi; [|done].
  destruct (consistent_lookup w A i s Hc Hi) as (wire & bxs & HA & Hm).
  pose proof Hm as [Hn Hbx]. simpl in Hn, Hbx. unfold do. rewrite Hi. destruct r as [pktH mailH bs| |box into| | |].
  - destruct He as (Hbusy & [sd Hd] & Hse).
    destruct (send_spec heap (Random i) i nb (reliable i) wire bxs s pktH mailH bs Hn Hbusy Hse) as (rs & s' & -> & Hn' & Hr).
    simpl_res. assert (consistent (<[i := s']> w) A) as Hc' by (by eapply consistent_same).
    destruct rs as [pkt|].
    + assert (is_Some (<[i := s']> w !! pto pktH)) as [s2 H2'].
      { apply lookup_insert_is_Some'. by right. }
      destruct (consistent_lookup _ _ _ _ Hc' H2') as (wire2 & bxs2 & HA2 & Hm2).
      unfold SendToSocket. rewrite H2'. simpl_res. do 3 eexists. split; [reflexivity|]. split.
      * by apply S_send.
      * apply consistent_insert; [done|]. apply datagram_arrives; [done|done|].
        apply outgoing_ok; [|done]. destruct Hn as [[_ _ _ Hd'] _ _]. apply Hd'.
    + do 3 eexists. split; [reflexivity|]. split; [by apply S_lost|done].
  - unfold P_sent. rewrite (proj2 (Z.eqb_neq _ 0) He). simpl_res. do 3 eexists. split; [reflexivity|].
    split; [apply S_sent|]. eapply consistent_same; [done|done|]. split; [|done].
    eapply node_ok_rest; [exact Hn|]. destruct Hn as [[_ _ _ []] _ _]. by split.
  - destruct He as (Hb0 & Hinto & Hne). destruct (boxes (rest s) !! Z.to_nat box) as [b|] eqn:Hb; [|done].
    destruct (ok_dev _ _ (no_sim _ _ _ _ _ _ Hn)) as [_ _ _ _ _ Hbs _ _ _ _ _ _].
    destruct (Forall2_lookup_l _ _ _ _ _ Hbs Hb) as (l & Hl & [Hwf Hrep]).
    rewrite kl_is_empty_spec in Hne by done. apply bool_decide_eq_false_1 in Hne.
    destruct l as [|m l]; [by apply Forall2_nil_inv_r, fmap_nil_inv in Hrep|].
    pose proof (Forall_lookup_1 _ _ _ _ Hbx Hl) as Hml. apply Forall_cons in Hml as [Hmok Hml].
    destruct (receive_spec i nb (reliable i) wire bxs s (Z.to_nat box) m l into Hn Hl) as (s' & E & Hn'); [|done|].
    { destruct Hmok as [_ _ _ Hbd Hmx _ _]. lia. }
    rewrite Z2Nat.id in E by done. rewrite E. simpl_res. do 3 eexists. split; [reflexivity|]. split.
    + rewrite <- (Z2Nat.id box) at 1 by done. by eapply S_receive.
    + apply consistent_insert; [done|]. split; [done|]. by apply Forall_insert.
  - destruct (delivery_spec heap i nb (reliable i) wire bxs s Hn He) as (m & wire' & s' & -> & -> & Hn').
    simpl_res. do 3 eexists. split; [reflexivity|]. split; [by apply S_deliver|].
    apply consistent_insert; [done|]. split; [done|]. simpl.
    destruct (ok_dev _ _ (no_sim _ _ _ _ _ _ Hn)) as [_ _ _ _ _ _ _ _ _ _ Hok _]. apply Forall_cons in Hok as [Hok _].
    apply Forall_alter; [done|]. intros l Hl Hlm. apply Forall_app. split; [done|]. by constructor.
  - destruct (tick_spec i nb (reliable i) wire bxs s Hn) as (s' & -> & Hn'). simpl_res.
    do 3 eexists. split; [reflexivity|]. split; [apply S_tick|]. by eapply consistent_same.
  - destruct He as (Hl & Hq & Ht).
    destruct (idle_spec i nb (reliable i) wire bxs s Hn Hl Hq Ht) as (s' & -> & Hn'). simpl_res.
    do 3 eexists. split; [reflexivity|]. split; [apply S_idle|]. by eapply consistent_same.
Qed.

(** *** Histories *)

(** The messages a request sends to box [k] of machine [j], and those it takes
    from there. *)
Definition sent_to (j : Z) (k : nat) (r : request * Z) : list Message :=
  match r.1 with
  | RSend pktH mailH bs =>
      if bool_decide (pto pktH = j ∧ mto mailH = Z.of_nat k) then [outgoing r.2 j mailH bs] else []
  | _ => []
  end.
Definition received_from (j : Z) (k : nat) (r : request * Z) (a : answer)
    : list (PacketHeader * MailHeader * list Z) :=
  match r.1, a with
  | RReceive box _, Some (p, h, bs) =>
      if bool_decide (r.2 = j ∧ box = Z.of_nat k) then [(p, h, take (Z.to_nat (mlength h)) bs)] else []
  | _, _ => []
  end.
Definition contents (m : Message) : PacketHeader * MailHeader * list Z := (ph m, mh m, body m).

(** The messages on their way to box [k] of machine [j], or in it. *)
Definition pending_mail (j : Z) (k : nat) (A : Spec) : list Message :=
  match A !! j with
  | Some (wire, bxs) => default [] (bxs !! k) ++ filter (λ m, mto (mh m) = Z.of_nat k) wire
  | None => []
  end.

Lemma pending_insert j k i x A :
  pending_mail j k (<[i := x]> A) =
  if bool_decide (i = j) then default [] (x.2 !! k) ++ filter (λ m, mto (mh m) = Z.of_nat k) x.1
  else pending_mail j k A.
Proof using Type.
  unfold pending_mail. case_bool_decide as Hij.
  - subst. rewrite lookup_insert_eq. by destruct x.
  - by rewrite lookup_insert_ne.
Qed.

(** A step keeps the account of the messages to a box: nothing is duplicated,
    overtaken or altered, and a message is lost on an unreliable machine only. *)
Lemma step_account w A r i a A' j k :
  consistent w A → spec_do r i A a A' →
  let old := contents <$> pending_mail j k A ++ sent_to j k (r, i) in
  let new := received_from j k (r, i) a ++ (contents <$> pending_mail j k A') in
  new `sublist_of` old ∧ ((∀ i, reliable i = true) → new = old).
Proof using Type.
  clear heap Random. intros Hc Hs. enough (contents <$> pending_mail j k A ++ sent_to j k (r, i)
      = received_from j k (r, i) a ++ (contents <$> pending_mail j k A') ∨
    (received_from j k (r, i) a ++ (contents <$> pending_mail j k A') = contents <$> pending_mail j k A ∧
     reliable i = false)) as [Heq|[Heq Hrel]].
  { cbv zeta. by rewrite Heq. }
  { cbv zeta. rewrite Heq, fmap_app. split; [by apply sublist_inserts_r|]. intros Hall. by rewrite Hall in Hrel. }
  unfold sent_to, received_from.
  destruct Hs as [i pktH mailH bs A wire bxs HA|i pktH mailH bs A Hl|i A|i k' into A wire bxs m l HA Hk|i A m wire bxs HA|i A|i A];
    simpl fst; simpl snd; cbn iota; rewrite ?app_nil_r; try (by left); [left|by right|left|left].
  - rewrite pending_insert. simpl. destruct (decide (pto pktH = j)) as [<-|Hj].
    + rewrite (bool_decide_eq_true_2 (pto pktH = pto pktH)) by done. unfold pending_mail. rewrite HA, filter_app, app_assoc.
      do 2 f_equal. rewrite filter_cons, filter_nil. simpl. repeat case_decide; repeat case_bool_decide; naive_solver.
    + rewrite (bool_decide_eq_false_2 (pto pktH = j)), bool_decide_eq_false_2 by naive_solver. by rewrite app_nil_r.
  - rewrite pending_insert. simpl. case_bool_decide as Hjk.
    + destruct Hjk as [-> Hkk]. apply Nat2Z.inj in Hkk as ->. rewrite bool_decide_eq_true_2 by done.
      unfold pending_mail. rewrite HA, Hk.
      rewrite list_lookup_insert_eq by (by eapply lookup_lt_Some). simpl.
      destruct (Hc j) as [s [wire' bxs'] [_ Hbx]|]; [|done]. injection HA as -> ->.
      pose proof (Forall_lookup_1 _ _ _ _ Hbx Hk) as Hml. apply Forall_cons in Hml as [[_ _ _ Hb _ _ _] _].
      by rewrite Hb, Nat2Z.id, take_app_length.
    + simpl. case_bool_decide as Hj; [|done]. rewrite <- Hj in *. unfold pending_mail. rewrite HA.
      rewrite list_lookup_insert_ne; [done|]. intros ->. by apply Hjk.
  - rewrite pending_insert. simpl. case_bool_decide as Hj; [|done]. rewrite <- Hj.
    unfold pending_mail. rewrite HA. destruct (Hc i) as [s [wire' bxs'] [Hn _]|]; [|done]. injection HA as -> ->.
    destruct (ok_dev _ _ (no_sim _ _ _ _ _ _ Hn)) as [_ _ _ _ Hnb _ Hct _ _ _ Hok _].
    apply Forall_cons in Hok as [[_ _ _ _ _ Hbox _] _]. simpl in Hct.
    destruct (decide (mto (mh m) = Z.of_nat k)) as [Hk|Hk].
    + rewrite filter_cons_True by done. rewrite Hk, Nat2Z.id in *.
      destruct (lookup_lt_is_Some_2 bxs k) as [l Hl]; [lia|].
      rewrite list_lookup_alter_eq, Hl. simpl. by rewrite <- app_assoc.
    + rewrite filter_cons_False by done. rewrite list_lookup_alter_ne; [done|]. lia.
Qed.

(** A run never gets stuck, and keeps the account. *)
Fixpoint all_sent (j : Z) (k : nat) (rs : list (request * Z)) : list Message :=
  match rs with [] => [] | r :: rs => sent_to j k r ++ all_sent j k rs end.
Fixpoint all_received (j : Z) (k : nat) (rs : list (request * Z)) (as_ : list answer)
    : list (PacketHeader * MailHeader * list Z) :=
  match rs, as_ with r :: rs, a :: as_ => received_from j k r a ++ all_received j k rs as_ | _, _ => [] end.

Lemma run_account rs w A :
  consistent w A → allowed rs w →
  ∃ as_ w' A', run rs w = Ok (as_, w') ∧ consistent w' A' ∧
    ∀ j k, let old := contents <$> pending_mail j k A ++ all_sent j k rs in
           let new := all_received j k rs as_ ++ (contents <$> pending_mail j k A') in
           new `sublist_of` old ∧ ((∀ i, reliable i = true) → new = old).
Proof using H0 H2.
  revert w A. induction rs as [|[r i] rs IH]; intros w A Hc Hal.
  { exists [], w, A. split; [done|]. split; [done|]. intros j k. simpl. by rewrite app_nil_r. }
  destruct Hal as [He Hal]. destruct (step_spec r i w A Hc He) as (a & w1 & A1 & E & Hs & Hc1).
  rewrite E in Hal. destruct (IH w1 A1 Hc1 Hal) as (as_ & w' & A' & E' & Hc' & Hacc).
  exists (a :: as_), w', A'. split; [by simpl; rewrite E; simpl_res; rewrite E'|]. split; [done|]. intros j k.
  destruct (step_account w A r i a A1 j k Hc Hs) as [H1a H1b]. destruct (Hacc j k) as [H2a H2b].
  simpl. rewrite !fmap_app in *. rewrite <- !app_assoc in *. split.
  - etrans; [by apply sublist_app; [reflexivity|exact H2a]|]. rewrite !app_assoc.
    by apply sublist_app.
  - intros Hall. rewrite (H2b Hall), !app_assoc. f_equal. by apply H1b.
Qed.

(** *** Starting a post office *)

(** A machine whose network and post office are created. *)
Definition booted (i : Z) (s : Sim) : Prop :=
  is_s32 i ∧ ∃ s0 R, sim_ok (λ _, True) s0 ∧ inHandler (interrupt s0) = false ∧
    status (interrupt s0) = SystemMode ∧ (reliable i = true → Qle_bool 1 R = true) ∧
    PostOffice_new heap s0 i R nb = Ok s.

Lemma PostOffice_new_spec i s0 R :
  is_s32 i → 0 ≤ nb < two31 → sim_ok (λ _, True) s0 → inHandler (interrupt s0) = false →
  status (interrupt s0) = SystemMode → (reliable i = true → Qle_bool 1 R = true) →
  ∃ s, PostOffice_new heap s0 i R nb = Ok s ∧
    node_ok i nb (reliable i) [] (replicate (Z.to_nat nb) []) s.
Proof using H0 H2.
  intros Hi Hnb [Ho1 Ho2 Ho3 _] Hh Hst HR. unfold PostOffice_new, Network_new.
  match goal with |- context [Schedule ?s1 NetworkReadPoll] => set (s := s1) end.
  assert (sim_ok (node_rep i nb (reliable i) [] (replicate (Z.to_nat nb) [])) s) as Hok.
  { split; try done. split; try done.
    - apply Forall2_replicate. destruct kl_new_spec as [Hw He]. split; [exact Hw|]. simpl.
      change (Forall2 mail_rep (kl_elems kl_new).*2 []). by rewrite He.
    - by rewrite length_replicate.
    - by exists [], [].
    - intros Hr. specialize (HR Hr). simpl. apply Qle_bool_iff in HR.
      rewrite (proj2 (Qle_bool_iff 0 R)) by (by apply (Qle_trans 0 1 R)). simpl.
      destruct (Qle_bool R 1); [|done]. simpl. by apply Qle_bool_iff. }
  destruct (Schedule_spec _ s NetworkReadPoll 0 NetworkTime NetworkRecvInt Hok eq_refl (boundless_long _))
    as (s' & E & Hok' & [_ _ Hh' Hst' _] & _).
  exists s'. split; [exact E|]. split; [exact Hok'| |]; [rewrite Hh'; exact Hh|rewrite Hst'; exact Hst].
Qed.

Lemma booted_consistent w :
  0 ≤ nb < two31 → map_Forall booted w →
  consistent w ((λ _, ([], replicate (Z.to_nat nb) [])) <$> w).
Proof using H0 H2.
  intros Hnb Hb i. rewrite lookup_fmap. destruct (w !! i) as [s|] eqn:Hi; constructor.
  destruct (Hb i s Hi) as (Hi32 & s0 & R & Hok & Hh & Hst & HR & E).
  destruct (PostOffice_new_spec i s0 R Hi32 Hnb Hok Hh Hst HR) as (s' & E' & Hn).
  rewrite E in E'. injection E' as <-. split; [exact Hn|]. by apply Forall_replicate.
Qed.
End machines.

(** ** The properties *)

Module PostSpec.

Section spec.
Context {L B : Type} `{KeyedListLaws (PendingInterrupt Handler) L} `{KeyedListLaws Mail B}.
Context (heap : nat → Z) (Random : Z → nat → Z) (nb : Z) (reliable : Z → bool).
Implicit Types w : gmap Z (Sim L (PostOffice B)).

(** C24. The post offices implement queues.  On machines whose state represents
    [A], every operation that makes sense returns, and does to the state what
    the specification does to [A]: sending appends the message, with the
    sender's address, to the queue of its destination, or loses it on an
    unreliable machine; the worker moves the oldest message to its mailbox;
    receiving gives the oldest message of the box unchanged; the passing of
    time, with the polls of the device and the interrupts that end a
    transmission, changes no queue. *)
Theorem post_office_refines r i w A :
  consistent nb reliable w A → enabled nb r i w →
  ∃ a w' A', do heap Random r i w = Ok (a, w') ∧ spec_do reliable r i A a A' ∧ consistent nb reliable w' A'.
Proof using H0 H2. apply step_spec. Qed.

(** C25. Mail arrives in order.  Whatever machines that have just started their
    post offices do, a run in which each call makes sense never stops, and what
    is taken from a mailbox is what was sent to it, header and text, each
    message at most once and in the order of sending; if all machines are
    reliable, nothing is left out. *)
Theorem mail_in_order rs w :
  0 ≤ nb < two31 → map_Forall (booted heap nb reliable) w → allowed heap Random nb rs w →
  ∃ as_ w', run heap Random rs w = Ok (as_, w') ∧
    ∀ j k, all_received j k rs as_ `sublist_of` (contents <$> all_sent j k rs) ∧
           ((∀ i, reliable i = true) → all_received j k rs as_ `prefix_of` (contents <$> all_sent j k rs)).
Proof using H0 H2.
  intros Hnb Hb Hal.
  destruct (run_account heap Random nb reliable rs w _ (booted_consistent heap nb reliable w Hnb Hb) Hal)
    as (as_ & w' & A' & E & _ & Hacc).
  exists as_, w'. split; [done|]. intros j k. destruct (Hacc j k) as [Hs He].
  assert (pending_mail j k ((λ _, ([], replicate (Z.to_nat nb) [])) <$> w) = []) as Hp.
  { unfold pending_mail. rewrite lookup_fmap. destruct (w !! j); [|done]. simpl. rewrite app_nil_r.
    destruct (replicate _ _ !! k) eqn:E'; [by apply lookup_replicate in E' as [-> _]|done]. }
  rewrite Hp in *. split; [etrans; [|exact Hs]; by apply sublist_inserts_r|].
  intros Hall. eexists. symmetry. by apply He.
Qed.
End spec.

(** Machine 1 is reliable, machine 2 loses everything. *)
Definition L := NList.List (PendingInterrupt Handler).
Definition B := NList.List Mail.
Definition no_mail : PostOffice B :=
  mkPostOffice (mkNetwork 0 0 [] false (mkPacketHeader 0 0 0) [] 0) 0 [] 0 0 0 [].
Definition powered : Sim L (PostOffice B) :=
  mkSim (mkInterrupt IntOff kl_new false false SystemMode) Statistics_new no_mail.
Definition node (i : Z) (R : Q) : Sim L (PostOffice B) :=
  match PostOffice_new (λ _, 170) powered i R 2 with Ok s => s | Stop _ => powered end.
Definition world : gmap Z (Sim L (PostOffice B)) := {[ 1 := node 1 1; 2 := node 2 0 ]}.
Definition first_ok (i : Z) : bool := i =? 1.
Definition greeting : request := RSend (mkPacketHeader 2 0 0) (mkMailHeader 1 0 2) [104; 105].
Definition script : list (request * Z) :=
  [(greeting, 1); (RIdle, 2); (RDeliver, 2); (RIdle, 1); (RSent, 1); (RReceive 1 (replicate 40 0), 2);
   (RSend (mkPacketHeader 1 0 0) (mkMailHeader 0 1 1) [33], 2); (RTick, 1)].

Lemma node_booted rel i R :
  is_s32 i → (rel i = true → Qle_bool 1 R = true) → booted (λ _, 170) 2 rel i (node i R).
Proof.
  intros Hi HR. split; [done|]. exists powered, R. destruct (kl_new_spec (A := PendingInterrupt Handler) (L := L)) as [Hw He].
  assert (sim_ok (λ _ : PostOffice B, True) powered) as Hok.
  { split; [exact Hw| |done|done]. change (keys_sorted (kl_elems (kl_new (A := PendingInterrupt Handler) (L := L)))). by rewrite He. }
  do 4 (split; [done|]). unfold node.
  by destruct (PostOffice_new_spec (λ _, 170) 2 rel i powered R Hi ltac:(done) Hok eq_refl eq_refl HR) as (s & -> & _).
Qed.

Lemma world_booted : map_Forall (booted (λ _, 170) 2 first_ok) world.
Proof. apply map_Forall_insert_2; [by apply node_booted|]. apply map_Forall_singleton. by apply node_booted. Qed.

Lemma mail_in_order_witness :
  ∃ as_ w', run (λ _, 170) (λ _ _, 50) script world = Ok (as_, w') ∧
    all_received 2 1 script as_ `sublist_of` (contents <$> all_sent 2 1 script).
Proof.
  destruct (mail_in_order (λ _, 170) (λ _ _, 50) 2 first_ok script world) as (as_ & w' & E & Hr).
  - by vm_compute.
  - exact world_booted.
  - apply (bool_decide_unpack _). vm_compute. reflexivity.
  - exists as_, w'. split; [exact E|apply Hr].
Defined.

(** The run does deliver the message. *)
Example greeting_arrives :
  (λ x, all_received 2 1 script x.1) <$> (match run (λ _, 170) (λ _ _, 50) script world with Ok x => Some x | Stop _ => None end)
  = Some [(mkPacketHeader 2 1 14, mkMailHeader 1 0 2, [104; 105])].
Proof. vm_compute. reflexivity. Qed.

Lemma post_office_refines_witness :
  ∃ a w' A', do (λ _, 170) (λ _ _, 50) greeting 1 world = Ok (a, w') ∧
    spec_do first_ok greeting 1 ((λ _, ([], replicate 2 [])) <$> world) a A' ∧ consistent 2 first_ok w' A'.
Proof.
  apply (post_office_refines (λ _, 170) (λ _ _, 50) 2 first_ok greeting 1 world).
  - by apply (booted_consistent (λ _, 170) 2 first_ok world); [|exact world_booted].
  - apply (bool_decide_unpack _). vm_compute. reflexivity.
Defined.
End PostSpec.
