(* ===== verification/NetTest.v ===== *)
(** * The mail test (network/nettest.cc)

    Two machines that run [MailTest] against each other: each sends a greeting,
    waits for the other's, acknowledges it and waits for the acknowledgement of
    its own.  The program is a tree of calls of the post office; the machines
    and the network between them are those of PostMachines. *)

From Stdlib Require Import QArith.QArith.
From S2P Require Import Prelude NList Machine FileHdr Interrupt Network PostOffice PostMachines.
#[global] Open Scope Z_scope.
Import Network Post.

Module NetTest.

(** ** The program *)

(** What [printf] shows: the text up to its NUL, the machine and the box. *)
Record line := mkLine { text : list Z; from : Z; box : Z }.

Inductive prog :=
  | Call (r : request) (k : answer → prog)
  | Printf (l : line) (k : prog)
  | Halt.

Definition c_string (s : list Z) : list Z := s ++ [0].
(** "Hello there!" and "Got it!" *)
Definition hello : list Z := [72; 101; 108; 108; 111; 32; 116; 104; 101; 114; 101; 33].
Definition got_it : list Z := [71; 111; 116; 32; 105; 116; 33].

Fixpoint until_nul (s : list Z) : list Z :=
  match s with [] => [] | c :: s => if c =? 0 then [] else c :: until_nul s end.

Definition Send (pktH : PacketHeader) (mailH : MailHeader) (data : list Z) (k : prog) : prog :=
  Call (RSend pktH mailH data) (λ _, Call RSent (λ _, k)).
Definition Receive (b : Z) (buffer : list Z) (k : PacketHeader → MailHeader → list Z → prog) : prog :=
  Call (RReceive b buffer) (λ a, match a with Some (p, h, bs) => k p h bs | None => Halt end).

(** [buffer], [outFrom] and [outLength] are what uninitialised variables hold. *)
Definition MailTest (farAddr : Z) (buffer : list Z) (outFrom outLength : Z) : prog :=
  let data := c_string hello in
  let ack := c_string got_it in
  let outPktHdr := mkPacketHeader farAddr outFrom outLength in
  let outMailHdr := mkMailHeader 0 1 (Z.of_nat (length hello) + 1) in
  Send outPktHdr outMailHdr data (
  Receive 0 buffer (λ inPktHdr inMailHdr buffer,
  Printf (mkLine (until_nul buffer) (pfrom inPktHdr) (mfrom inMailHdr)) (
  let outPktHdr := mkPacketHeader (pfrom inPktHdr) (pfrom outPktHdr) (plength outPktHdr) in
  let outMailHdr := mkMailHeader (mfrom inMailHdr) (mfrom outMailHdr) (Z.of_nat (length got_it) + 1) in
  Send outPktHdr outMailHdr ack (
  Receive 1 buffer (λ inPktHdr inMailHdr buffer,
  Printf (mkLine (until_nul buffer) (pfrom inPktHdr) (mfrom inMailHdr)) Halt))))).

(** ** Machines that run programs *)

Section machines.
Context {L B : Type} `{KeyedListLaws (PendingInterrupt Handler) L} `{KeyedListLaws Mail B}.
Context (heap : nat → Z) (Random : Z → nat → Z) (nb : Z) (reliable : Z → bool).
Notation Sim := (Sim L (PostOffice B)).

Record system := mkSystem {
  world : gmap Z Sim;                (* the machines that are up *)
  progs : gmap Z prog;               (* what is left of the main thread of each *)
  output : gmap Z (list line);
}.

(** The main thread of machine [i] goes on, or its hardware or worker does. *)
Inductive action := Main (i : Z) | Other (i : Z) (r : request).

Definition printed (s : system) (i : Z) : list line := default [] (output s !! i).

(** [Halt] takes the machine off the network. *)
Definition act (a : action) (s : system) : res system :=
  match a with
  | Main i =>
      match progs s !! i with
      | Some (Call r k) =>
          '(x, w) ← do heap Random r i (world s);
          Ok (mkSystem w (<[i := k x]> (progs s)) (output s))
      | Some (Printf l k) =>
          Ok (mkSystem (world s) (<[i := k]> (progs s)) (<[i := printed s i ++ [l]]> (output s)))
      | Some Halt => Ok (mkSystem (delete i (world s)) (delete i (progs s)) (output s))
      | None => Stop Undefined
      end
  | Other i r => '(_, w) ← do heap Random r i (world s); Ok (mkSystem w (progs s) (output s))
  end.

(** Who may go on.  A call of the main thread is made when it does not have to
    wait: the condition variables that Receive would wait on are not
    implemented (the second caveat of nettest.cc), so a receive from an empty
    mailbox aborts, see [empty_mailbox_aborts] of PostOffice. *)
Definition can_act (a : action) (s : system) : Prop :=
  match a with
  | Main i =>
      match progs s !! i with
      | Some (Call (RSend _ _ _) _) =>
          match world s !! i with Some m => sendBusy (network (rest m)) = false | None => False end
      | Some (Call (RReceive b _) _) =>
          match world s !! i with
          | Some m => match boxes (rest m) !! Z.to_nat b with Some l => kl_is_empty l = false | None => False end
          | None => False
          end
      | Some (Call r _) => enabled nb r i (world s)
      | Some _ => True
      | None => False
      end
  | Other i r => match r with RDeliver | RTick | RIdle => enabled nb r i (world s) | _ => False end
  end.

Fixpoint play (l : list action) (s : system) : res system :=
  match l with [] => Ok s | a :: l => s ← act a s; play l s end.
Fixpoint fair (l : list action) (s : system) : Prop :=
  match l with
  | [] => True
  | a :: l => can_act a s ∧ match act a s with Ok s => fair l s | Stop _ => True end
  end.

(** ** How far a program is *)

Definition get_ack (buffer : list Z) : prog :=
  Receive 1 buffer (λ p h bs, Printf (mkLine (until_nul bs) (pfrom p) (mfrom h)) Halt).
Definition send_ack (to replyTo g1 g2 : Z) (buffer : list Z) : prog :=
  Send (mkPacketHeader to g1 g2) (mkMailHeader replyTo 1 8) (c_string got_it) (get_ack buffer).
Definition get_hello (g1 g2 : Z) (buffer : list Z) : prog :=
  Receive 0 buffer (λ p h bs,
    Printf (mkLine (until_nul bs) (pfrom p) (mfrom h)) (send_ack (pfrom p) (mfrom h) g1 g2 bs)).
Definition send_hello (far g1 g2 : Z) (buffer : list Z) : prog :=
  Send (mkPacketHeader far g1 g2) (mkMailHeader 0 1 13) (c_string hello) (get_hello g1 g2 buffer).

Lemma MailTest_sends far bf g1 g2 : MailTest far bf g1 g2 = send_hello far g1 g2 bf.
Proof using Type. reflexivity. Qed.

(** The program after [n] steps, in a test with machine [far]. *)
Definition stage (far n g1 g2 : Z) (bf : list Z) : option prog :=
  if n =? 0 then Some (send_hello far g1 g2 bf)
  else if n =? 1 then Some (Call RSent (λ _, get_hello g1 g2 bf))
  else if n =? 2 then Some (get_hello g1 g2 bf)
  else if n =? 3 then Some (Printf (mkLine hello far 1) (send_ack far 1 g1 g2 bf))
  else if n =? 4 then Some (send_ack far 1 g1 g2 bf)
  else if n =? 5 then Some (Call RSent (λ _, get_ack bf))
  else if n =? 6 then Some (get_ack bf)
  else if n =? 7 then Some (Printf (mkLine got_it far 1) Halt)
  else if n =? 8 then Some Halt
  else None.
Definition at_stage (far n : Z) (o : option prog) : Prop :=
  ∃ g1 g2 bf, length bf = 40%nat ∧ 0 ≤ n ≤ 9 ∧ o = stage far n g1 g2 bf.

(** What it has shown by then. *)
Definition shown (far n : Z) : list line :=
  if n <=? 3 then [] else if n <=? 7 then [mkLine hello far 1] else [mkLine hello far 1; mkLine got_it far 1].

(** The two messages that machine [i] sends to machine [j]. *)
Definition greeting (i j : Z) : Message := outgoing i j (mkMailHeader 0 1 13) (c_string hello).
Definition acknowledgement (i j : Z) : Message := outgoing i j (mkMailHeader 1 1 8) (c_string got_it).

Notation Spec := (gmap Z (list Message * list (list Message))).

(** The mail on its way to machine [i], which is at stage [n], from machine
    [j], which is at stage [m]. *)
Definition mail_between (i j n m : Z) (A : Spec) : Prop :=
  contents <$> pending_mail i 0 A = contents <$> (if (1 <=? m) && (n <=? 2) then [greeting j i] else []) ∧
  contents <$> pending_mail i 1 A = contents <$> (if (5 <=? m) && (n <=? 6) then [acknowledgement j i] else []).

(** Machine [i] at stage [n] does not get ahead of machine [j] at stage [m]. *)
Record one_side (i j n m : Z) (s : system) : Prop := mkSide {
  os_stage : at_stage j n (progs s !! i);
  os_shown : printed s i = shown j n;
  os_up : n ≠ 9 ↔ is_Some (world s !! i);
  os_hello : 3 ≤ n → 1 ≤ m;
  os_ack : 7 ≤ n → 5 ≤ m;
}.

Record in_step (i j n m : Z) (s : system) (A : Spec) : Prop := mkInStep {
  is_apart : i ≠ j;
  is_machines : consistent nb reliable (world s) A;
  is_here : one_side i j n m s;
  is_there : one_side j i m n s;
  is_mail : mail_between i j n m A;
  is_mail' : mail_between j i m n A;
}.

Lemma in_step_sym i j n m s A : in_step i j n m s A → in_step j i m n s A.
Proof using Type. intros []. by split. Qed.

(** ** The steps *)

Context (Hnb : 2 ≤ nb) (Hreliable : ∀ i, reliable i = true).

(** What a request of machine [i] does to the mail. *)
Lemma request_account i r s A :
  consistent nb reliable (world s) A → enabled nb r i (world s) →
  ∃ x w A', do heap Random r i (world s) = Ok (x, w) ∧ consistent nb reliable w A' ∧
    spec_do reliable r i A x A' ∧
    ∀ j k, received_from j k (r, i) x ++ (contents <$> pending_mail j k A')
           = (contents <$> pending_mail j k A) ++ (contents <$> sent_to j k (r, i)).
Proof using All.
  intros Hc He. destruct (step_spec heap Random nb reliable r i (world s) A Hc He) as (x & w & A' & E & Hs & Hc').
  exists x, w, A'. split_and!; try done. intros j k.
  destruct (step_account nb reliable (world s) A r i x A' j k Hc Hs) as [_ Heq]. by rewrite Heq, fmap_app.
Qed.

Lemma do_up r i (w w' : gmap Z Sim) x :
  do heap Random r i w = Ok (x, w') → ∀ y, is_Some (w' !! y) ↔ is_Some (w !! y).
Proof using heap Random.
  assert (∀ (u : gmap Z Sim) k s, is_Some (u !! k) → ∀ y, is_Some (<[k := s]> u !! y) ↔ is_Some (u !! y)) as Hins.
  { intros u k s [v Hk] y. rewrite lookup_insert_is_Some'. destruct (decide (k = y)); naive_solver. }
  unfold do. destruct (w !! i) as [s|] eqn:Hi; [|done]. assert (is_Some (w !! i)) as His by eauto.
  assert (∀ (x1 : res Sim) x2 w2, (s1 ← x1; Ok (None, <[i := s1]> w)) = Ok (x2 : answer, w2) →
    ∀ y, is_Some (w2 !! y) ↔ is_Some (w !! y)) as Hstay.
  { intros x1 x2 w2 (s1 & _ & [= _ <-])%bind_ok y. by apply Hins. }
  destruct r; cbn zeta; try apply Hstay.
  - intros ([wire s1] & _ & E)%bind_ok y. destruct wire as [bs0|]; [|injection E as _ <-; by apply Hins].
    apply bind_ok in E as (w2 & E2 & [= _ <-]). unfold SendToSocket in E2.
    destruct (<[i := s1]> w !! pto pktH) eqn:Ep; [|done]. injection E2 as <-. rewrite Hins by eauto. by apply Hins.
  - intros ([[[p h] bs0] s1] & _ & [= _ <-])%bind_ok y. by apply Hins.
Qed.

(** Machine [i] goes one stage on without printing. *)
Lemma stage_done i j n m s A w A' p :
  in_step i j n m s A → consistent nb reliable w A' → (∀ y, is_Some (w !! y) ↔ is_Some (world s !! y)) →
  at_stage j (n + 1) (Some p) → n ≠ 3 → n < 7 → (n = 2 → 1 ≤ m) → (n = 6 → 5 ≤ m) →
  mail_between i j (n + 1) m A' → mail_between j i m (n + 1) A' →
  in_step i j (n + 1) m (mkSystem w (<[i := p]> (progs s)) (output s)) A'.
Proof using Type.
  intros [Hij Hc [S1 S2 S3 S4 S5] [T1 T2 T3 T4 T5] M1 M2] Hw Hup Hp Hn3 Hn7 Hm1 Hm5 N1 N2. split; try done.
  - assert (0 ≤ n) as Hn0 by (destruct S1 as (? & ? & ? & _ & ? & _); lia).
    split; simpl; [by rewrite lookup_insert_eq| | |intros; destruct (decide (n = 2)); [by apply Hm1|apply S4; lia]
                  |intros; destruct (decide (n = 6)); [by apply Hm5|apply S5; lia]].
    + change (printed s i = shown j (n + 1)). rewrite S2. unfold shown.
      repeat (case_match; try lia; try done).
    + rewrite Hup, <- S3. lia.
  - split; simpl; [by rewrite lookup_insert_ne|exact T2|by rewrite Hup|intros; etrans; [by apply T4|lia]|intros; etrans; [by apply T5|lia]].
Qed.

Lemma up_s32 s A i : consistent nb reliable (world s) A → is_Some (world s !! i) → is_s32 i.
Proof using Type.
  intros Hc [x Hx]. destruct (consistent_lookup nb reliable _ A i x Hc Hx) as (wire & bxs & _ & [Hn _]).
  apply (ok_dev _ _ (no_sim _ _ _ _ _ _ Hn)).
Qed.

(** A message of machine [i] reaches the mail for machine [j] and no other. *)
Lemma sent_mail i j k mailH data g1 g2 j' k' :
  mto mailH = Z.of_nat k →
  sent_to j' k' (RSend (mkPacketHeader j g1 g2) mailH data, i)
  = if bool_decide (j' = j ∧ k' = k) then [outgoing i j mailH data] else [].
Proof using Type.
  clear heap Random Hnb Hreliable reliable. intros Hk. unfold sent_to. simpl. rewrite Hk. do 2 case_bool_decide; naive_solver lia.
Qed.

Lemma step_send i j n m s A mailH data g1 g2 k box_ :
  in_step i j n m s A → m < 9 →
  progs s !! i = Some (Call (RSend (mkPacketHeader j g1 g2) mailH data) k) → can_act (Main i) s →
  mto mailH = Z.of_nat box_ → (box_ < 2)%nat → 0 ≤ mlength mailH ≤ MaxMailSize → mlength mailH ≤ Z.of_nat (length data) →
  mfrom mailH = 1 →
  ∃ x w A', act (Main i) s = Ok (mkSystem w (<[i := k x]> (progs s)) (output s)) ∧
    consistent nb reliable w A' ∧ (∀ y, is_Some (w !! y) ↔ is_Some (world s !! y)) ∧
    ∀ j' k', contents <$> pending_mail j' k' A' = (contents <$> pending_mail j' k' A) ++
      (contents <$> (if bool_decide (j' = j ∧ k' = box_) then [outgoing i j mailH data] else [])).
Proof using All.
  intros [Hij Hc [S1 S2 S3 S4 S5] [T1 T2 T3 T4 T5] M1 M2] Hm Hp Hcan Hto Hbox Hlen Hdata Hfrom.
  unfold can_act in Hcan. rewrite Hp in Hcan. destruct (world s !! i) as [x|] eqn:Hx; [|done].
  assert (is_Some (world s !! j)) as Hj by (apply T3; lia).
  set (r := RSend (mkPacketHeader j g1 g2) mailH data) in *.
  assert (enabled nb r i (world s)) as He.
  { unfold enabled. rewrite Hx. split_and!; [done|done|]. split; try done; [by eapply up_s32|rewrite Hto; lia|].
    rewrite Hfrom. unfold is_s32, two31. lia. }
  destruct (request_account i r s A Hc He) as (a & w & A' & E & Hc' & _ & Hacc).
  exists a, w, A'. split_and!; [unfold act; by rewrite Hp, E|done|by eapply do_up|].
  intros j' k'. specialize (Hacc j' k'). unfold r in Hacc. rewrite (sent_mail i j box_) in Hacc by done. exact Hacc.
Qed.

Lemma step_hello i j m s A :
  in_step i j 0 m s A → can_act (Main i) s →
  ∃ s' A', act (Main i) s = Ok s' ∧ in_step i j 1 m s' A'.
Proof using All.
  intros Hs Hcan. pose proof Hs as [Hij Hc [(g1 & g2 & bf & Hb & _ & Hp) S2 S3 S4 S5] [T1 T2 T3 T4 T5] [M1 M2] [M3 M4]].
  destruct (step_send i j 0 m s A (mkMailHeader 0 1 13) (c_string hello) g1 g2 _ 0 Hs ltac:(lia) Hp Hcan)
    as (x & w & A' & E & Hc' & Hup & Hacc); [done|lia|split; vm_compute; discriminate|vm_compute; discriminate|done|].
  exists (mkSystem w (<[i := Call RSent (λ _, get_hello g1 g2 bf)]> (progs s)) (output s)), A'.
  split; [exact E|]. apply (stage_done i j 0 m s A); try done; try lia.
  - by exists g1, g2, bf.
  - split; rewrite Hacc, bool_decide_eq_false_2, app_nil_r by naive_solver; [rewrite M1|rewrite M2]; done.
  - split; rewrite Hacc.
    + rewrite bool_decide_eq_true_2, M3 by done. rewrite (proj2 (Z.leb_le m 2)) by lia. done.
    + rewrite bool_decide_eq_false_2, M4, app_nil_r by naive_solver. done.
Qed.

Lemma step_ack i j m s A :
  in_step i j 4 m s A → can_act (Main i) s →
  ∃ s' A', act (Main i) s = Ok s' ∧ in_step i j 5 m s' A'.
Proof using All.
  intros Hs Hcan. pose proof Hs as [Hij Hc [(g1 & g2 & bf & Hb & _ & Hp) S2 S3 S4 S5] [T1 T2 T3 T4 T5] [M1 M2] [M3 M4]].
  assert (m < 7) as Hm by lia.
  destruct (step_send i j 4 m s A (mkMailHeader 1 1 8) (c_string got_it) g1 g2 _ 1 Hs ltac:(lia) Hp Hcan)
    as (x & w & A' & E & Hc' & Hup & Hacc); [done|lia|split; vm_compute; discriminate|vm_compute; discriminate|done|].
  exists (mkSystem w (<[i := Call RSent (λ _, get_ack bf)]> (progs s)) (output s)), A'.
  split; [exact E|]. apply (stage_done i j 4 m s A); try done; try lia.
  - by exists g1, g2, bf.
  - split; rewrite Hacc, bool_decide_eq_false_2, app_nil_r by naive_solver; [rewrite M1|rewrite M2]; done.
  - split; rewrite Hacc.
    + rewrite bool_decide_eq_false_2, M3, app_nil_r by naive_solver. done.
    + rewrite bool_decide_eq_true_2, M4 by done. rewrite (proj2 (Z.leb_le m 6)) by lia. done.
Qed.

(** Requests that touch no mail of a box. *)
Definition quiet (r : request) : bool := match r with RSend _ _ _ | RReceive _ _ => false | _ => true end.

Lemma step_quiet i r s A :
  quiet r = true → consistent nb reliable (world s) A → enabled nb r i (world s) →
  ∃ x w A', do heap Random r i (world s) = Ok (x, w) ∧ consistent nb reliable w A' ∧
    (∀ y, is_Some (w !! y) ↔ is_Some (world s !! y)) ∧
    ∀ j k, contents <$> pending_mail j k A' = contents <$> pending_mail j k A.
Proof using All.
  intros Hr Hc He. destruct (request_account i r s A Hc He) as (x & w & A' & E & Hc' & _ & Hacc).
  exists x, w, A'. split_and!; [done|done|by eapply do_up|]. intros j k. specialize (Hacc j k).
  destruct r; try done; unfold received_from, sent_to in Hacc; simpl in Hacc; by rewrite app_nil_r in Hacc.
Qed.

Lemma step_sent i j n m s A :
  in_step i j n m s A → n = 1 ∨ n = 5 → can_act (Main i) s →
  ∃ s' A', act (Main i) s = Ok s' ∧ in_step i j (n + 1) m s' A'.
Proof using All.
  intros Hs Hn Hcan. pose proof Hs as [Hij Hc [(g1 & g2 & bf & Hb & _ & Hp) S2 S3 S4 S5] _ [M1 M2] [M3 M4]].
  assert (∃ p, progs s !! i = Some (Call RSent (λ _, p)) ∧ stage j (n + 1) g1 g2 bf = Some p) as (p & Hp' & Hst).
  { destruct Hn as [-> | ->]; eexists; split; try exact Hp; reflexivity. }
  unfold can_act in Hcan. rewrite Hp' in Hcan.
  destruct (step_quiet i RSent s A eq_refl Hc Hcan) as (x & w & A' & E & Hc' & Hup & Hacc).
  exists (mkSystem w (<[i := p]> (progs s)) (output s)), A'. split; [unfold act; by rewrite Hp', E|].
  apply (stage_done i j n m s A); try done; try lia.
  - exists g1, g2, bf. split_and!; [done|lia|lia|done].
  - split; rewrite Hacc; [rewrite M1|rewrite M2]; destruct Hn as [-> | ->]; done.
  - split; rewrite Hacc; [rewrite M3|rewrite M4]; destruct Hn as [-> | ->]; done.
Qed.

(** A message that machine [i] takes from box [k], where [l] is the mail. *)
Lemma step_receive i k bf q s A m0 :
  consistent nb reliable (world s) A → is_Some (world s !! i) → length bf = 40%nat →
  progs s !! i = Some (Call (RReceive (Z.of_nat k) bf) q) → can_act (Main i) s →
  (∀ l, contents <$> pending_mail i k A = l → l = [] ∨ l = [contents m0]) → (length (body m0) ≤ 40)%nat →
  mlength (mh m0) = Z.of_nat (length (body m0)) →
  contents <$> pending_mail i k A = [contents m0] ∧
  ∃ bs w A', length bs = 40%nat ∧ take (length (body m0)) bs = body m0 ∧
    act (Main i) s = Ok (mkSystem w (<[i := q (Some (ph m0, mh m0, bs))]> (progs s)) (output s)) ∧
    consistent nb reliable w A' ∧ (∀ y, is_Some (w !! y) ↔ is_Some (world s !! y)) ∧
    contents <$> pending_mail i k A' = [] ∧
    ∀ j' k', ¬ (j' = i ∧ k' = k) → contents <$> pending_mail j' k' A' = contents <$> pending_mail j' k' A.
Proof using All.
  intros Hc [x Hx] Hb Hp Hcan Hl Hm0 Hlen. unfold can_act in Hcan. rewrite Hp, Hx in Hcan.
  assert (enabled nb (RReceive (Z.of_nat k) bf) i (world s)) as He.
  { unfold enabled. rewrite Hx. split_and!; [lia| |done]. rewrite Hb. by vm_compute. }
  destruct (request_account i _ s A Hc He) as (a & w & A' & E & Hc' & Hs & Hacc).
  inversion Hs as [| | |? k' into ? wire bxs msg l HA Hk Ek| | |]. subst. apply Nat2Z.inj in Ek as ->.
  destruct (consistent_lookup nb reliable _ A i x Hc Hx) as (wire' & bxs' & HA' & [_ Hbx]).
  rewrite HA in HA'. injection HA' as <- <-. simpl in Hbx.
  pose proof (Forall_lookup_1 _ _ _ _ Hbx Hk) as Hml. apply Forall_cons in Hml as [[_ _ _ Hbd _ _ _] _].
  set (bs := body msg ++ drop (length (body msg)) bf) in *.
  pose proof (Hacc i k) as Hik. unfold received_from, sent_to in Hik. simpl in Hik.
  rewrite bool_decide_eq_true_2, app_nil_r in Hik by done. simpl in Hik.
  destruct (Hl _ eq_refl) as [Hn|Hn]; rewrite Hn in Hik; [done|]. injection Hik as H3 H4 H5 H6.
  assert (length (body msg) = length (body m0)) as Hlb by (rewrite H4 in Hbd; lia).
  split; [done|]. exists bs, w. eexists. split_and!; try done.
  - unfold bs. rewrite length_app, length_drop. lia.
  - transitivity (take (Z.to_nat (mlength (mh msg))) bs); [by rewrite H4, Hlen, Nat2Z.id|exact H5].
  - unfold act. rewrite Hp, E. simpl_res. by rewrite <- H3, <- H4.
  - by eapply do_up.
  - intros j' k' Hne. specialize (Hacc j' k'). unfold received_from, sent_to in Hacc. simpl in Hacc.
    rewrite bool_decide_eq_false_2, app_nil_r in Hacc by naive_solver lia. exact Hacc.
Qed.

Lemma step_get_hello i j m s A :
  in_step i j 2 m s A → can_act (Main i) s →
  ∃ s' A', act (Main i) s = Ok s' ∧ in_step i j 3 m s' A'.
Proof using All.
  intros Hs Hcan. pose proof Hs as [Hij Hc [(g1 & g2 & bf & Hb & _ & Hp) S2 S3 S4 S5] _ [M1 M2] [M3 M4]].
  change (progs s !! i = Some (get_hello g1 g2 bf)) in Hp. unfold get_hello, Receive in Hp.
  match type of Hp with _ = Some (Call _ ?q) => pose proof (step_receive i 0 bf q s A (greeting j i) Hc) as Hget end.
  destruct Hget as (Hm & bs & w & A' & Hbs & Htake & E & Hc' & Hup & Hnone & Hrest);
    [apply S3; lia|done|exact Hp|done| |by vm_compute; lia|done|].
  { intros l <-. rewrite M1. destruct ((1 <=? m) && (2 <=? 2)); [by right|by left]. }
  assert (1 ≤ m) as Hm1.
  { rewrite M1 in Hm. destruct (Z.leb_spec 1 m); [done|]. discriminate Hm. }
  assert (until_nul bs = hello) as Htext.
  { rewrite <- (take_drop (length (body (greeting j i))) bs), Htake. reflexivity. }
  eexists _, A'. split; [exact E|]. apply (stage_done i j 2 m s A); try done; try lia.
  - exists g1, g2, bs. split_and!; [done|lia|lia|]. cbn [mfrom pfrom greeting outgoing ph mh]. by rewrite Htext.
  - split; [rewrite Hnone; by rewrite andb_false_r|rewrite Hrest by naive_solver; rewrite M2; done].
  - split; rewrite Hrest by naive_solver; [rewrite M3|rewrite M4]; done.
Qed.

Lemma step_get_ack i j m s A :
  in_step i j 6 m s A → can_act (Main i) s →
  ∃ s' A', act (Main i) s = Ok s' ∧ in_step i j 7 m s' A'.
Proof using All.
  intros Hs Hcan. pose proof Hs as [Hij Hc [(g1 & g2 & bf & Hb & _ & Hp) S2 S3 S4 S5] _ [M1 M2] [M3 M4]].
  change (progs s !! i = Some (get_ack bf)) in Hp. unfold get_ack, Receive in Hp.
  match type of Hp with _ = Some (Call _ ?q) => pose proof (step_receive i 1 bf q s A (acknowledgement j i) Hc) as Hget end.
  destruct Hget as (Hm & bs & w & A' & Hbs & Htake & E & Hc' & Hup & Hnone & Hrest);
    [apply S3; lia|done|exact Hp|done| |by vm_compute; lia|done|].
  { intros l <-. rewrite M2. destruct ((5 <=? m) && (6 <=? 6)); [by right|by left]. }
  assert (5 ≤ m) as Hm1.
  { rewrite M2 in Hm. destruct (Z.leb_spec 5 m); [done|]. discriminate Hm. }
  assert (until_nul bs = got_it) as Htext.
  { rewrite <- (take_drop (length (body (acknowledgement j i))) bs), Htake. reflexivity. }
  eexists _, A'. split; [exact E|]. apply (stage_done i j 6 m s A); try done; try lia.
  - exists g1, g2, bs. split_and!; [done|lia|lia|]. cbn [mfrom pfrom acknowledgement outgoing ph mh]. by rewrite Htext.
  - split; [rewrite Hrest by naive_solver; rewrite M1; done|rewrite Hnone; by rewrite andb_false_r].
  - split; rewrite Hrest by naive_solver; [rewrite M3|rewrite M4]; done.
Qed.

Lemma step_print i j n m s A :
  in_step i j n m s A → n = 3 ∨ n = 7 →
  ∃ s', act (Main i) s = Ok s' ∧ in_step i j (n + 1) m s' A.
Proof using Type.
  intros [Hij Hc [(g1 & g2 & bf & Hb & _ & Hp) S2 S3 S4 S5] [T1 T2 T3 T4 T5] [M1 M2] [M3 M4]] Hn.
  assert (∃ l p, progs s !! i = Some (Printf l p) ∧ stage j (n + 1) g1 g2 bf = Some p ∧ shown j n ++ [l] = shown j (n + 1))
    as (l & p & Hp' & Hst & Hsh).
  { destruct Hn as [-> | ->]; do 2 eexists; split; try exact Hp; split; reflexivity. }
  eexists. split; [unfold act; by rewrite Hp'|]. split; try done.
  - split; cbn [world progs output].
    + exists g1, g2, bf. rewrite lookup_insert_eq, Hst. split_and!; [done|lia|lia|done].
    + unfold printed at 1. cbn [output]. rewrite lookup_insert_eq. simpl. by rewrite S2.
    + rewrite <- S3. lia.
    + intros. apply S4. lia.
    + intros. apply S5. lia.
  - split; cbn [world progs output].
    + by rewrite lookup_insert_ne.
    + unfold printed. cbn [output]. rewrite lookup_insert_ne by done. exact T2.
    + exact T3.
    + intros. etrans; [by apply T4|lia].
    + intros. etrans; [by apply T5|lia].
  - split; [rewrite M1|rewrite M2]; destruct Hn as [-> | ->]; by rewrite ?andb_false_r, ?andb_true_r.
  - split; [rewrite M3|rewrite M4]; destruct Hn as [-> | ->]; done.
Qed.

Lemma step_halt i j m s A :
  in_step i j 8 m s A →
  ∃ s' A', act (Main i) s = Ok s' ∧ in_step i j 9 m s' A'.
Proof using Type.
  intros [Hij Hc [(g1 & g2 & bf & Hb & _ & Hp) S2 S3 S4 S5] [T1 T2 T3 T4 T5] [M1 M2] [M3 M4]].
  eexists _, (delete i A). split; [unfold act; by rewrite Hp|].
  assert (∀ k, pending_mail i k (delete i A) = []) as Hi by (intros k; unfold pending_mail; by rewrite lookup_delete_eq).
  assert (∀ k, pending_mail j k (delete i A) = pending_mail j k A) as Hj
    by (intros k; unfold pending_mail; by rewrite lookup_delete_ne).
  split; try done.
  - simpl. unfold consistent. by apply map_Forall2_delete.
  - split; cbn [world progs output].
    + exists g1, g2, bf. by rewrite lookup_delete_eq.
    + exact S2.
    + rewrite lookup_delete_eq. split; [done|by intros []].
    + intros _. apply S4. lia.
    + intros _. apply S5. lia.
  - split; cbn [world progs output].
    + by rewrite lookup_delete_ne.
    + exact T2.
    + by rewrite lookup_delete_ne.
    + lia.
    + lia.
  - split; rewrite Hi; by rewrite andb_false_r.
  - split; rewrite Hj; [rewrite M3|rewrite M4]; done.
Qed.

Lemma step_main i j n m s A :
  in_step i j n m s A → can_act (Main i) s →
  ∃ s' A', act (Main i) s = Ok s' ∧ in_step i j (n + 1) m s' A'.
Proof using All.
  intros Hs Hcan. pose proof (os_stage _ _ _ _ _ (is_here _ _ _ _ _ _ Hs)) as (g1 & g2 & bf & _ & Hn & Hp).
  assert (n = 0 ∨ n = 1 ∨ n = 2 ∨ n = 3 ∨ n = 4 ∨ n = 5 ∨ n = 6 ∨ n = 7 ∨ n = 8 ∨ n = 9)
    as [-> |[-> |[-> |[-> |[-> |[-> |[-> |[-> |[-> | ->]]]]]]]]] by lia.
  - by apply (step_hello i j m s A).
  - apply (step_sent i j 1 m s A); auto.
  - by apply (step_get_hello i j m s A).
  - destruct (step_print i j 3 m s A) as (s' & ? & ?); eauto.
  - by apply (step_ack i j m s A).
  - apply (step_sent i j 5 m s A); auto.
  - by apply (step_get_ack i j m s A).
  - destruct (step_print i j 7 m s A) as (s' & ? & ?); eauto.
  - by apply (step_halt i j m s A).
  - unfold can_act in Hcan. by rewrite Hp in Hcan.
Qed.

Lemma step_other i r j n m s A k :
  in_step j k n m s A → can_act (Other i r) s →
  ∃ s' A', act (Other i r) s = Ok s' ∧ in_step j k n m s' A'.
Proof using All.
  intros [Hij Hc [S1 S2 S3 S4 S5] [T1 T2 T3 T4 T5] [M1 M2] [M3 M4]] Hcan.
  assert (quiet r = true ∧ enabled nb r i (world s)) as [Hr He] by (destruct r; try done).
  destruct (step_quiet i r s A Hr Hc He) as (x & w & A' & E & Hc' & Hup & Hacc).
  exists (mkSystem w (progs s) (output s)), A'. split; [unfold act; by rewrite E|].
  split; try done.
  - split; try done. simpl. by rewrite Hup.
  - split; try done. simpl. by rewrite Hup.
  - by split; rewrite Hacc.
  - by split; rewrite Hacc.
Qed.

(** The test, with two machines [i] and [j]. *)
Lemma play_in_step l i j : ∀ s n m A,
  in_step i j n m s A → dom (progs s) ⊆ {[i; j]} → fair l s →
  ∃ s' n' m' A', play l s = Ok s' ∧ in_step i j n' m' s' A' ∧ dom (progs s') ⊆ {[i; j]}.
Proof using All.
  induction l as [|a l IH]; intros s n m A Hs Hd Hf; [by exists s, n, m, A|].
  destruct Hf as [Hcan Hf]. simpl.
  assert (∃ s1 n1 m1 A1, act a s = Ok s1 ∧ in_step i j n1 m1 s1 A1) as (s1 & n1 & m1 & A1 & E & Hs1).
  { destruct a as [k|k r].
    - assert (k = i ∨ k = j) as [-> | ->].
      { assert (k ∈ dom (progs s)) as Hk; [|set_solver].
        apply elem_of_dom. unfold can_act in Hcan. by destruct (progs s !! k). }
      + destruct (step_main i j n m s A Hs Hcan) as (s1 & A1 & E & Hs1). eauto 10.
      + destruct (step_main j i m n s A (in_step_sym _ _ _ _ _ _ Hs) Hcan) as (s1 & A1 & E & Hs1).
        exists s1, n, (m + 1), A1. split; [done|]. by apply in_step_sym.
    - destruct (step_other k r i n m s A j Hs Hcan) as (s1 & A1 & E & Hs1). eauto 10. }
  rewrite E in *. simpl_res. eapply IH; [done| |done].
  assert (dom (progs s1) ⊆ dom (progs s)) as Hsub; [|set_solver].
  destruct a as [k|k r]; unfold act in E.
  - destruct (progs s !! k) as [[r q|x q|]|] eqn:Ek; [| | |done].
    + apply bind_ok in E as ([x w] & _ & [= <-]). simpl. rewrite dom_insert_L. apply elem_of_dom_2 in Ek. set_solver.
    + injection E as <-. simpl. rewrite dom_insert_L. apply elem_of_dom_2 in Ek. set_solver.
    + injection E as <-. simpl. set_solver.
  - by apply bind_ok in E as ([x w] & _ & [= <-]).
Qed.

#[global] Instance can_act_dec a s : Decision (can_act a s).
Proof using Type.
  unfold can_act. destruct a as [i|i r]; [|destruct r; apply _].
  destruct (progs s !! i) as [[[pk mh_ bs| |b bf| | |] k|l k|]|]; try apply _.
  - destruct (world s !! i); apply _.
  - destruct (world s !! i) as [m|]; [|apply _]. destruct (boxes (rest m) !! Z.to_nat b); apply _.
Defined.
#[global] Instance fair_dec l s : Decision (fair l s).
Proof using Type.
  revert s. induction l as [|a l IH]; intros s; simpl; [apply _|]. destruct (act a s); apply _.
Defined.

(** The two machines when their post offices have started. *)
Definition start (i j : Z) (mi mj : Sim) (bi bj : list Z) (gi1 gi2 gj1 gj2 : Z) : system :=
  mkSystem {[i := mi; j := mj]} {[i := MailTest j bi gi1 gi2; j := MailTest i bj gj1 gj2]} ∅.

Lemma start_in_step i j mi mj bi bj gi1 gi2 gj1 gj2 :
  i ≠ j → nb < two31 → booted heap nb reliable i mi → booted heap nb reliable j mj →
  length bi = 40%nat → length bj = 40%nat →
  ∃ A, in_step i j 0 0 (start i j mi mj bi bj gi1 gi2 gj1 gj2) A.
Proof using All.
  intros Hij Hnb' Hi Hj Hbi Hbj. set (w := {[i := mi; j := mj]} : gmap Z Sim).
  assert (map_Forall (booted heap nb reliable) w) as Hb.
  { apply map_Forall_insert_2; [done|]. by apply map_Forall_singleton. }
  exists ((λ _, ([], replicate (Z.to_nat nb) [])) <$> w).
  assert (∀ x k, pending_mail x k ((λ _ : Sim, ([], replicate (Z.to_nat nb) [])) <$> w) = []) as Hp.
  { intros x k. unfold pending_mail. rewrite lookup_fmap. destruct (w !! x); [|done]. simpl. rewrite app_nil_r.
    destruct (replicate _ _ !! k) eqn:E; [by apply lookup_replicate in E as [-> _]|done]. }
  split; [done|apply (booted_consistent heap nb reliable w); [lia|exact Hb]| | | |].
  - split; [|done| |lia|lia].
    + exists gi1, gi2, bi. split_and!; [done|lia|lia|]. simpl. by rewrite lookup_insert_eq.
    + split; [|done]. intros _. simpl. rewrite lookup_insert_eq. by eexists.
  - split; [|done| |lia|lia].
    + exists gj1, gj2, bj. split_and!; [done|lia|lia|]. cbn [progs start]. by simplify_map_eq.
    + split; [|done]. intros _. simpl. simplify_map_eq. by eexists.
  - by split; rewrite Hp.
  - by split; rewrite Hp.
Qed.
End machines.

(** ** The property *)

Module NetTestSpec.

Section spec.
Context {L B : Type} `{KeyedListLaws (PendingInterrupt Handler) L} `{KeyedListLaws Mail B}.
Context (heap : nat → Z) (Random : Z → nat → Z) (nb : Z) (reliable : Z → bool).

(** C26. The mail test passes.  Two machines on a reliable network start their
    post offices and run the test against each other.  However their threads,
    workers and devices take turns, no call fails, and no machine sends to one
    that has halted; each machine shows the other's greeting and then the
    other's acknowledgement, both from box 1 of the other machine, and nothing
    else, and it has shown both when it halts.  A schedule
    receives from a mailbox once it has mail, and sends once the last packet is
    out. *)
Theorem mail_test_passes i j mi mj bi bj gi1 gi2 gj1 gj2 l :
  let s := start i j mi mj bi bj gi1 gi2 gj1 gj2 in
  2 ≤ nb < two31 → (∀ k, reliable k = true) → i ≠ j →
  booted (L:=L) (B:=B) heap nb reliable i mi → booted heap nb reliable j mj →
  length bi = Z.to_nat MaxMailSize → length bj = Z.to_nat MaxMailSize →
  fair heap Random nb l s →
  ∃ s', play heap Random l s = Ok s' ∧
    ∀ x y, (x = i ∧ y = j) ∨ (x = j ∧ y = i) →
      let both := [mkLine hello y 1; mkLine got_it y 1] in
      printed s' x `prefix_of` both ∧ (progs s' !! x = None → printed s' x = both).
Proof using All.
  intros s Hnb Hrel Hij Hi Hj Hbi Hbj Hf.
  destruct (start_in_step heap Random nb reliable (proj1 Hnb) Hrel i j mi mj bi bj gi1 gi2 gj1 gj2) as (A & Hs); [done|lia|done..|].
  destruct (play_in_step heap Random nb reliable (proj1 Hnb) Hrel l i j s 0 0 A Hs) as (s' & n & m & A' & E & Hs' & _).
  { unfold s, start. simpl. set_solver. } { done. }
  exists s'. split; [done|]. intros x y Hxy both.
  assert (∃ n m, one_side x y n m s') as (n' & m' & [(g1 & g2 & bf & _ & Hn & Hp) Hsh _ _ _]).
  { destruct Hs'. destruct Hxy as [[-> ->]|[-> ->]]; eauto. }
  rewrite Hsh, Hp. unfold shown, stage, both. split.
  - repeat case_match; [by eexists|by eexists [_]|by eexists []].
  - intros Hnone. repeat (case_match; try done; try lia).
Qed.
End spec.

(** Machines 1 and 2; their actions take turns, those that cannot go on are
    passed over. *)
Definition sample : system := start 1 2 (PostSpec.node 1 1) (PostSpec.node 2 1) (replicate 40 0) (replicate 40 0) 0 0 0 0.
Definition turns : list action :=
  [Main 1; Main 2; Other 1 RDeliver; Other 2 RDeliver; Other 1 RIdle; Other 2 RIdle].
Fixpoint drive (n : nat) (s : system (L:=PostSpec.L) (B:=PostSpec.B)) : list action :=
  match n with
  | O => []
  | S n =>
      let a := default (Main 1) (turns !! (n mod 6)%nat) in
      if decide (can_act 2 a s)
      then a :: match act (λ _, 170) (λ _ _, 50) a s with Ok s => drive n s | Stop _ => [] end
      else drive n s
  end.
Definition schedule : list action := drive 240 sample.

Definition ended (r : res (system (L:=PostSpec.L) (B:=PostSpec.B))) : bool :=
  match r with Ok s => bool_decide (progs s !! 1 = None) && bool_decide (progs s !! 2 = None) | Stop _ => false end.

Lemma mail_test_passes_witness :
  ∃ s', play (λ _, 170) (λ _ _, 50) schedule sample = Ok s' ∧
    printed s' 1 = [mkLine hello 2 1; mkLine got_it 2 1] ∧ printed s' 2 = [mkLine hello 1 1; mkLine got_it 1 1].
Proof.
  assert (ended (play (λ _, 170) (λ _ _, 50) schedule sample) = true) as Hend by (vm_compute; reflexivity).
  assert (fair (λ _, 170) (λ _ _, 50) 2 schedule sample) as Hfair.
  { apply (bool_decide_unpack _). vm_compute. exact I. }
  assert (∀ i, i = 1 ∨ i = 2 → booted (L:=PostSpec.L) (B:=PostSpec.B) (λ _, 170) 2 (λ _, true) i (PostSpec.node i 1)) as Hb.
  { intros i Hi. apply PostSpec.node_booted; [unfold is_s32, two31; lia|exact (λ _, eq_refl)]. }
  revert Hend Hfair. generalize schedule. intros l Hend Hfair.
  destruct (mail_test_passes (λ _, 170) (λ _ _, 50) 2 (λ _, true) 1 2 (PostSpec.node 1 1) (PostSpec.node 2 1)
    (replicate 40 0) (replicate 40 0) 0 0 0 0 l) as (s' & E & Hs').
  - unfold two31. lia.
  - intros k. exact eq_refl.
  - lia.
  - apply Hb. lia.
  - apply Hb. lia.
  - exact eq_refl.
  - exact eq_refl.
  - exact Hfair.
  - change (start _ _ _ _ _ _ _ _ _ _) with sample in E. exists s'. split; [exact E|].
    rewrite E in Hend. unfold ended in Hend. apply andb_prop in Hend as [H1 H2].
    apply bool_decide_eq_true in H1, H2. split; [apply (Hs' 1 2)|apply (Hs' 2 1)]; auto.
Defined.
End NetTestSpec.
End NetTest.
