(* ===== verification/Startup.v ===== *)
(** * Start-up (threads/main.cc, threads/system.cc, threads/utility.cc)

    [Initialize] and [main] read the command line, make the global objects and
    run the commands.  What they call is a parameter, [perform]; the calls and
    their arguments are those of the source.  Which parts of the code are there
    depends on the flags of the compiler, the record [build].

    The properties: on a command line that is made of options, as in the
    comment on top of main.cc, the two loops see the same options although each
    skips the arguments of its own only; and a build with THREADS never sees a
    command. *)

From Stdlib Require Import QArith.QArith.
From S2P Require Import Prelude.
#[global] Open Scope Z_scope.

Module Startup.

(** ** Debug messages (utility.cc) *)

Definition DebugInit (flagList : list Z) : option (list Z) := Some flagList.
(** [flag] is not 0; '+' stands for all flags. *)
Definition DebugIsEnabled (enableFlags : option (list Z)) (flag : Z) : bool :=
  match enableFlags with
  | Some l => bool_decide (flag ∈ l) || bool_decide (43 ∈ l)
  | None => false
  end.

(** ** Builds *)

Record build := mkBuild {
  THREADS : bool; USER_PROGRAM : bool; FILESYS_NEEDED : bool; FILESYS : bool; NETWORK : bool }.

(** DEFINES in the Makefiles of threads/, userprog/ and vm/; of filesys/; of
    network/. *)
Definition userprog_build : build := mkBuild false true true false false.
Definition filesys_build : build := mkBuild true true true true false.
Definition network_build : build := mkBuild false true true true true.

(** ** What is called *)

Inductive object :=
  | postOffice | machine | gSynchConsole | addrLock | gPhysPageBitMap | semTab
  | fileSystem | synchDisk | timer | scheduler | interrupt.

Inductive call :=
  (* Initialize *)
  | RandomInit (seed : Z)
  | SetDebug (flags : list Z)
  | new_Statistics | new_Interrupt | new_Scheduler
  | new_Timer (handler_arg : Z) (doRandom : bool)
  | new_Thread (name : list Z)
  | setStatus_RUNNING
  | Enable
  | CallOnUserAbort_Cleanup
  | new_Machine (debug : bool)
  | new_SynchConsole
  | new_Semaphore (name : list Z) (initialValue : Z)
  | new_BitMap (nitems : Z)
  | new_PTable (size : Z)
  | new_STable
  | new_SynchDisk (name : list Z)
  | new_FileSystem (format : bool)
  | new_PostOffice (addr : Z) (reliability : Q) (nBoxes : Z)
  (* main *)
  | ThreadTest (testnum : Z)
  | PrintCopyright
  | StartProcess (file : list Z)
  | ConsoleTest (files : option (list Z * list Z))
  | Halt
  | Copy (from to : list Z)
  | Print (file : list Z)
  | Remove (file : list Z)
  | List
  | PrintFileSystem
  | PerformanceTest
  | Delay (seconds : Z)
  | MailTest (networkID : Z)
  | Finish
  (* Cleanup *)
  | SayCleaningUp
  | Delete (x : object)
  | Exit (code : Z).

(** ** The C library *)

Definition isspace (c : Z) : bool := (c =? 32) || ((9 <=? c) && (c <=? 13)).
Definition isdigit (c : Z) : bool := (48 <=? c) && (c <=? 57).
Fixpoint skip_spaces (s : list Z) : list Z :=
  match s with c :: s' => if isspace c then skip_spaces s' else s | [] => [] end.
Fixpoint digits (n : Z) (s : list Z) : Z :=
  match s with c :: s => if isdigit c then digits (n * 10 + (c - 48)) s else n | [] => n end.

(** Undefined when the number is no [int]. *)
Definition atoi (s : list Z) : res Z :=
  let s := skip_spaces s in
  let n := match s with
           | c :: s' => if c =? 45 then - digits 0 s' else if c =? 43 then digits 0 s' else digits 0 s
           | [] => 0
           end in
  if bool_decide (is_s32 n) then Ok n else Stop Undefined.

(** [!strcmp(s, literal)] *)
Definition streq (s : list Z) (literal : String.string) : bool := bool_decide (s = chars literal).

(** ** The command line *)

(** [for (argc--, argv++; argc > 0; argc -= argCount, argv += argCount)] from
    its test on; [body] returns [argCount]. *)
Fixpoint args_loop {X} (body : Z → list (list Z) → X → res (Z * X)) (fuel : nat)
    (argc : Z) (argv : list (list Z)) (x : X) : res (Z * list (list Z) * X) :=
  match fuel with
  | O => Stop OutOfFuel
  | S fuel' =>
      if argc >? 0 then
        '(argCount, x) ← body argc argv x;
        args_loop body fuel' (argc - argCount) (drop (Z.to_nat argCount) argv) x
      else Ok (argc, argv, x)
  end.

(** The local variables of [Initialize]. *)
Record Flags := mkFlags {
  debugArgs : list Z;
  randomYield : bool;
  debugUserProg : bool;
  format : bool;
  rely : Q;
  netname : Z;
}.
Definition Flags_new : Flags := mkFlags [] false false false 1 0.
Definition with_debugArgs (x : list Z) (f : Flags) : Flags :=
  mkFlags x (randomYield f) (debugUserProg f) (format f) (rely f) (netname f).
Definition with_randomYield (f : Flags) : Flags :=
  mkFlags (debugArgs f) true (debugUserProg f) (format f) (rely f) (netname f).
Definition with_debugUserProg (f : Flags) : Flags :=
  mkFlags (debugArgs f) (randomYield f) true (format f) (rely f) (netname f).
Definition with_format (f : Flags) : Flags :=
  mkFlags (debugArgs f) (randomYield f) (debugUserProg f) true (rely f) (netname f).
Definition with_rely (x : Q) (f : Flags) : Flags :=
  mkFlags (debugArgs f) (randomYield f) (debugUserProg f) (format f) x (netname f).
Definition with_netname (x : Z) (f : Flags) : Flags :=
  mkFlags (debugArgs f) (randomYield f) (debugUserProg f) (format f) (rely f) x.

Section startup.
Context {S : Type} (perform : call → S → res S) (atof : list Z → Q) (b : build).

Fixpoint perform_all (l : list call) (s : S) : res S :=
  match l with [] => Ok s | c :: l => s ← perform c s; perform_all l s end.

Definition Initialize_arg (argc : Z) (argv : list (list Z)) (x : Flags * S) : res (Z * (Flags * S)) :=
  let '(f, s) := x in
  arg ← arr_get argv 0;
  '(argCount, (f, s)) ←
    (if streq arg "-d" then
       if argc =? 1 then Ok (1, (with_debugArgs (chars "+") f, s))
       else x ← arr_get argv 1; Ok (2, (with_debugArgs x f, s))
     else if streq arg "-rs" then
       ASSERT (argc >? 1);;
       x ← arr_get argv 1; seed ← atoi x;
       s ← perform (RandomInit seed) s;
       Ok (2, (with_randomYield f, s))
     else Ok (1, (f, s)));
  let f := if USER_PROGRAM b && streq arg "-s" then with_debugUserProg f else f in
  let f := if FILESYS_NEEDED b && streq arg "-f" then with_format f else f in
  if NETWORK b then
    if streq arg "-l" then
      ASSERT (argc >? 1);; x ← arr_get argv 1; Ok (2, (with_rely (atof x) f, s))
    else if streq arg "-m" then
      ASSERT (argc >? 1);; x ← arr_get argv 1; n ← atoi x; Ok (2, (with_netname n f, s))
    else Ok (argCount, (f, s))
  else Ok (argCount, (f, s)).

(** The objects, in the order in which they are made. *)
Definition creations (f : Flags) : list call :=
  [SetDebug (debugArgs f); new_Statistics; new_Interrupt; new_Scheduler] ++
  (if randomYield f then [new_Timer 0 (randomYield f)] else []) ++
  [new_Thread (chars "main"); setStatus_RUNNING; Enable; CallOnUserAbort_Cleanup] ++
  (if USER_PROGRAM b then
     [new_Machine (debugUserProg f); new_SynchConsole; new_Semaphore (chars "addrLock") 1;
      new_BitMap 256; new_PTable 10; new_STable] else []) ++
  (if FILESYS b then [new_SynchDisk (chars "DISK")] else []) ++
  (if FILESYS_NEEDED b then [new_FileSystem (format f)] else []) ++
  (if NETWORK b then [new_PostOffice (netname f) (rely f) 10] else []).

Definition Initialize (argc : Z) (argv : list (list Z)) (s : S) : res S :=
  '(_, _, (f, s)) ← args_loop Initialize_arg (Datatypes.S (length argv)) (argc - 1) (tail argv) (Flags_new, s);
  perform_all (creations f) s.

(** The loop of a build with THREADS, which finds [testnum]: the second
    character of an argument counts.  [atoi] of a NULL pointer is undefined. *)
Definition thread_arg (argc : Z) (argv : list (list Z)) (testnum : Z) : res (Z * Z) :=
  arg ← arr_get argv 0;
  c ← arr_get (arg ++ [0]) 1;
  if c =? 113 then x ← arr_get argv 1; n ← atoi x; Ok (2, n)
  else Ok (1, 1).

Definition main_arg (argc : Z) (argv : list (list Z)) (s : S) : res (Z * S) :=
  arg ← arr_get argv 0;
  s ← (if streq arg "-z" then perform PrintCopyright s else Ok s);
  '(argCount, s) ←
    (if USER_PROGRAM b then
       if streq arg "-x" then
         ASSERT (argc >? 1);; x ← arr_get argv 1; s ← perform (StartProcess x) s; Ok (2, s)
       else if streq arg "-c" then
         '(argCount, s) ←
           (if argc =? 1 then s ← perform (ConsoleTest None) s; Ok (1, s)
            else
              ASSERT (argc >? 2);;
              x ← arr_get argv 1; y ← arr_get argv 2;
              s ← perform (ConsoleTest (Some (x, y))) s; Ok (3, s));
         s ← perform Halt s; Ok (argCount, s)
       else Ok (1, s)
     else Ok (1, s));
  '(argCount, s) ←
    (if FILESYS b then
       if streq arg "-cp" then
         ASSERT (argc >? 2);;
         x ← arr_get argv 1; y ← arr_get argv 2; s ← perform (Copy x y) s; Ok (3, s)
       else if streq arg "-p" then
         ASSERT (argc >? 1);; x ← arr_get argv 1; s ← perform (Print x) s; Ok (2, s)
       else if streq arg "-r" then
         ASSERT (argc >? 1);; x ← arr_get argv 1; s ← perform (Remove x) s; Ok (2, s)
       else if streq arg "-l" then s ← perform List s; Ok (argCount, s)
       else if streq arg "-D" then s ← perform PrintFileSystem s; Ok (argCount, s)
       else if streq arg "-t" then s ← perform PerformanceTest s; Ok (argCount, s)
       else Ok (argCount, s)
     else Ok (argCount, s));
  if NETWORK b then
    if streq arg "-o" then
      ASSERT (argc >? 1);;
      s ← perform (Delay 2) s;
      x ← arr_get argv 1; n ← atoi x; s ← perform (MailTest n) s; Ok (2, s)
    else Ok (argCount, s)
  else Ok (argCount, s).

(** [argv] holds the name of the command and the arguments. *)
Definition main (argv : list (list Z)) (s : S) : res S :=
  let argc := Z.of_nat (length argv) in
  let fuel := Datatypes.S (length argv) in
  s ← Initialize argc argv s;
  '(argc, argv, s) ←
    (if THREADS b then
       '(argc, argv, testnum) ← args_loop thread_arg fuel (argc - 1) (tail argv) 1;
       s ← perform (ThreadTest testnum) s; Ok (argc, argv, s)
     else Ok (argc, argv, s));
  '(_, _, s) ← args_loop main_arg fuel (argc - 1) (tail argv) s;
  perform Finish s.

Definition Cleanup : list call :=
  [SayCleaningUp] ++
  (if NETWORK b then [Delete postOffice] else []) ++
  (if USER_PROGRAM b then
     [Delete machine; Delete gSynchConsole; Delete addrLock; Delete gPhysPageBitMap; Delete semTab] else []) ++
  (if FILESYS_NEEDED b then [Delete fileSystem] else []) ++
  (if FILESYS b then [Delete synchDisk] else []) ++
  [Delete timer; Delete scheduler; Delete interrupt; Exit 0].

(** ** Command lines that are made of options *)

Inductive opt :=
  | Debug (flags : option (list Z))             (* -d *)
  | Seed (n : list Z)                           (* -rs *)
  | Step | Format                               (* -s, -f *)
  | Machine (n : list Z)                        (* -m *)
  | Copyright                                   (* -z *)
  | Run (file : list Z)                         (* -x *)
  | TestConsole (files : option (list Z * list Z))   (* -c *)
  | CopyIn (from to : list Z)                   (* -cp *)
  | Show (file : list Z)                        (* -p *)
  | Erase (file : list Z)                       (* -r *)
  | Dash_l (r : option (list Z))                (* -l *)
  | Dump | Performance                          (* -D, -t *)
  | Mail (n : list Z).                          (* -o *)

Definition params (o : opt) : list (list Z) :=
  match o with
  | Debug (Some x) | Seed x | Machine x | Run x | Show x | Erase x | Dash_l (Some x) | Mail x => [x]
  | TestConsole (Some (x, y)) | CopyIn x y => [x; y]
  | _ => []
  end.
Definition sign (o : opt) : list Z :=
  chars match o with
  | Debug _ => "-d" | Seed _ => "-rs" | Step => "-s" | Format => "-f" | Machine _ => "-m"
  | Copyright => "-z" | Run _ => "-x" | TestConsole _ => "-c" | CopyIn _ _ => "-cp" | Show _ => "-p"
  | Erase _ => "-r" | Dash_l _ => "-l" | Dump => "-D" | Performance => "-t" | Mail _ => "-o"
  end.
Definition show (o : opt) : list (list Z) := sign o :: params o.

(** An argument of an option is no option. *)
Definition signs : list (list Z) :=
  chars <$> ["-d"; "-rs"; "-s"; "-f"; "-l"; "-m"; "-z"; "-x"; "-c"; "-cp"; "-p"; "-r"; "-D"; "-t"; "-o"]%string.
Definition plain (x : list Z) : Prop := x ∉ signs.

(** -d and -c may stand without an argument at the end only; -l has one in a
    build with the network, where it sets the reliability. *)
Fixpoint well_formed (l : list opt) : Prop :=
  match l with
  | [] => True
  | o :: l =>
      Forall plain (params o) ∧
      match o with
      | Debug None | TestConsole None => l = []
      | Dash_l r => NETWORK b = true → r ≠ None
      | _ => True
      end ∧ well_formed l
  end.

(** What an option sets. *)
Definition setting (o : opt) (x : Flags * S) : res (Flags * S) :=
  let '(f, s) := x in
  match o with
  | Debug x => Ok (with_debugArgs (default (chars "+") x) f, s)
  | Seed n => seed ← atoi n; s ← perform (RandomInit seed) s; Ok (with_randomYield f, s)
  | Step => Ok (if USER_PROGRAM b then with_debugUserProg f else f, s)
  | Format => Ok (if FILESYS_NEEDED b then with_format f else f, s)
  | Dash_l (Some x) => Ok (if NETWORK b then with_rely (atof x) f else f, s)
  | Machine n => if NETWORK b then n ← atoi n; Ok (with_netname n f, s) else Ok (f, s)
  | _ => Ok (f, s)
  end.

(** What it does. *)
Definition calls (o : opt) : list call :=
  match o with
  | Copyright => [PrintCopyright]
  | Run x => if USER_PROGRAM b then [StartProcess x] else []
  | TestConsole x => if USER_PROGRAM b then [ConsoleTest x; Halt] else []
  | CopyIn x y => if FILESYS b then [Copy x y] else []
  | Show x => if FILESYS b then [Print x] else []
  | Erase x => if FILESYS b then [Remove x] else []
  | Dash_l _ => if FILESYS b then [List] else []
  | Dump => if FILESYS b then [PrintFileSystem] else []
  | Performance => if FILESYS b then [PerformanceTest] else []
  | _ => []
  end.
Definition command (o : opt) (s : S) : res S :=
  match o with
  | Mail x => if NETWORK b then s ← perform (Delay 2) s; n ← atoi x; perform (MailTest n) s else Ok s
  | _ => perform_all (calls o) s
  end.

Fixpoint in_turn {X} (step : opt → X → res X) (l : list opt) (x : X) : res X :=
  match l with [] => Ok x | o :: l => x ← step o x; in_turn step l x end.

(** ** The loops *)

Section loop.
Context {X : Type} (body : Z → list (list Z) → X → res (Z * X)).
Context (Hbody : ∀ argc argv x n x', body argc argv x = Ok (n, x') → 1 ≤ n).

Lemma args_loop_fuel fuel : ∀ fuel' argc argv x,
  (Z.to_nat argc < fuel)%nat → (Z.to_nat argc < fuel')%nat →
  args_loop body fuel argc argv x = args_loop body fuel' argc argv x.
Proof using Hbody.
  induction fuel as [|fuel IH]; intros [|fuel'] argc argv x H1 H2; try lia. simpl.
  destruct (Z.gtb_spec argc 0); [|done].
  destruct (body argc argv x) as [[n x']|] eqn:E; [|done]. simpl_res.
  apply Hbody in E. apply IH; lia.
Qed.

(** From the test of the loop on, with the arguments [l] left. *)
Definition run_args (l : list (list Z)) (x : X) : res (Z * list (list Z) * X) :=
  args_loop body (Datatypes.S (length l)) (Z.of_nat (length l)) l x.

Lemma args_loop_run fuel n l x :
  n = Z.of_nat (length l) → (length l < fuel)%nat → args_loop body fuel n l x = run_args l x.
Proof using Hbody. intros -> Hf. apply args_loop_fuel; lia. Qed.

(** One round that takes the arguments [l1]. *)
Lemma run_args_step l1 l2 x r :
  (0 < length l1)%nat → body (Z.of_nat (length (l1 ++ l2))) (l1 ++ l2) x = r →
  (∀ n x', r = Ok (n, x') → n = Z.of_nat (length l1)) →
  run_args (l1 ++ l2) x = '(_, x') ← r; run_args l2 x'.
Proof using Hbody.
  intros Hl Hr Hn. unfold run_args at 1. cbn [args_loop]. rewrite length_app in *.
  destruct (Z.gtb_spec (Z.of_nat (length l1 + length l2)) 0); [|lia]. rewrite Hr.
  destruct r as [[n x']|]; [|done]. simpl_res. rewrite (Hn n x' eq_refl).
  rewrite Nat2Z.id, drop_app_length. apply args_loop_run; lia.
Qed.

(** All arguments are taken, at the least. *)
Lemma args_loop_ends fuel : ∀ argc argv x n l x',
  args_loop body fuel argc argv x = Ok (n, l, x') → n ≤ 0.
Proof using Type.
  induction fuel as [|fuel IH]; intros argc argv x n l x' E; [done|]. simpl in E.
  destruct (Z.gtb_spec argc 0); [|by simplify_eq]. apply bind_ok in E as ([k y] & _ & E). by eapply IH.
Qed.
End loop.

Ltac positive E :=
  repeat first [ progress simplify_eq | case_match; try done
               | match type of E with (_ ← _; _) = Ok _ => apply bind_ok in E as (? & _ & E) end ]; lia.

Lemma Initialize_arg_pos argc argv x n x' : Initialize_arg argc argv x = Ok (n, x') → 1 ≤ n.
Proof using Type.
  unfold Initialize_arg. destruct x as [f s]. intros E.
  apply bind_ok in E as (arg & _ & E). apply bind_ok in E as ([k [f' s']] & E1 & E).
  assert (1 ≤ k). { clear E. positive E1. }
  clear E1. positive E.
Qed.

Lemma main_arg_pos argc argv s n s' : main_arg argc argv s = Ok (n, s') → 1 ≤ n.
Proof using Type.
  unfold main_arg. intros E.
  apply bind_ok in E as (arg & _ & E). apply bind_ok in E as (s1 & _ & E).
  apply bind_ok in E as ([k2 s2] & E2 & E). apply bind_ok in E as ([k3 s3] & E3 & E).
  assert (1 ≤ k2) as H2.
  { clear E E3. case_match; [|by simplify_eq]. case_match; [positive E2|].
    case_match; [|by simplify_eq]. apply bind_ok in E2 as ([k s4] & E4 & E2).
    apply bind_ok in E2 as (? & _ & E2). simplify_eq. positive E4. }
  clear E2. assert (1 ≤ k3). { clear E. positive E3. }
  clear E3. positive E.
Qed.

Lemma thread_arg_pos argc argv t n t' : thread_arg argc argv t = Ok (n, t') → 1 ≤ n.
Proof using Type.
  unfold thread_arg. intros E. apply bind_ok in E as (arg & _ & E). apply bind_ok in E as (c & _ & E).
  positive E.
Qed.

(** ** One option *)

Lemma streq_plain w s : plain w → chars s ∈ signs → streq w s = false.
Proof using Type. intros Hw Hs. apply bool_decide_eq_false_2. by intros ->. Qed.

(** The comparisons with the options, the tests of [argc], and the arguments. *)
Ltac see_args :=
  repeat match goal with
  | Hw : plain ?w |- context [streq ?w ?l] =>
      rewrite (streq_plain w l Hw) by (apply (bool_decide_unpack _); vm_compute; exact I)
  | |- context [streq (chars ?a) ?l] =>
      let r := eval vm_compute in (streq (chars a) l) in change (streq (chars a) l) with r
  | |- context [?n >? ?m] => rewrite (proj2 (Z.gtb_lt n m)) by (rewrite ?length_app; simpl; lia)
  | |- context [Z.of_nat ?n =? 1] =>
      first [ rewrite (proj2 (Z.eqb_neq (Z.of_nat n) 1)) by (rewrite ?length_app; simpl; lia)
            | rewrite (proj2 (Z.eqb_eq (Z.of_nat n) 1)) by (simpl; lia) ]
  | |- context [arr_get (?a :: ?l) 0] => change (arr_get (a :: l) 0) with (Ok a)
  | |- context [arr_get (?a :: ?x :: ?l) 1] => change (arr_get (a :: x :: l) 1) with (Ok x)
  | |- context [arr_get (?a :: ?x :: ?y :: ?l) 2] => change (arr_get (a :: x :: y :: l) 2) with (Ok y)
  | |- context [ASSERT true] => change (ASSERT true) with (Ok tt)
  | _ => progress simpl_res
  end; rewrite ?andb_true_r, ?andb_false_r; simpl_res; cbn [negb] in *.

Lemma skip_setting w l x : plain w → run_args Initialize_arg (w :: l) x = run_args Initialize_arg l x.
Proof using Type.
  intros Hw. destruct x as [f s]. change (w :: l) with ([w] ++ l).
  rewrite (run_args_step Initialize_arg Initialize_arg_pos [w] l (f, s) (Ok (1, (f, s)))); [done|simpl; lia| |].
  - cbn [app]. unfold Initialize_arg. see_args. by destruct (NETWORK b).
  - intros n x' [= <- <-]. done.
Qed.

Lemma skip_command w l s : plain w → run_args main_arg (w :: l) s = run_args main_arg l s.
Proof using Type.
  intros Hw. change (w :: l) with ([w] ++ l).
  rewrite (run_args_step main_arg main_arg_pos [w] l s (Ok (1, s))); [done|simpl; lia| |].
  - cbn [app]. unfold main_arg. see_args. destruct (USER_PROGRAM b), (FILESYS b), (NETWORK b); done.
  - intros n x' [= <- <-]. done.
Qed.

(** A round that takes one argument, or two. *)
Lemma round_one {X} (body : Z → list (list Z) → X → res (Z * X)) a l x r :
  (∀ argc argv x n x', body argc argv x = Ok (n, x') → 1 ≤ n) →
  body (Z.of_nat (length (a :: l))) (a :: l) x = (x' ← r; Ok (1, x')) →
  run_args body (a :: l) x = x' ← r; run_args body l x'.
Proof using Type.
  intros Hb E. change (a :: l) with ([a] ++ l).
  rewrite (run_args_step body Hb [a] l x _ ltac:(simpl; lia) E); [by destruct r|].
  intros n x' En. destruct r; [by injection En as <- _|done].
Qed.
Lemma round_two {X} (body : Z → list (list Z) → X → res (Z * X)) a y l x r :
  (∀ argc argv x n x', body argc argv x = Ok (n, x') → 1 ≤ n) →
  body (Z.of_nat (length (a :: y :: l))) (a :: y :: l) x = (x' ← r; Ok (2, x')) →
  run_args body (a :: y :: l) x = x' ← r; run_args body l x'.
Proof using Type.
  intros Hb E. change (a :: y :: l) with ([a; y] ++ l).
  rewrite (run_args_step body Hb [a; y] l x _ ltac:(simpl; lia) E); [by destruct r|].
  intros n x' En. destruct r; [by injection En as <- _|done].
Qed.
Lemma round_three {X} (body : Z → list (list Z) → X → res (Z * X)) a y z l x r :
  (∀ argc argv x n x', body argc argv x = Ok (n, x') → 1 ≤ n) →
  body (Z.of_nat (length (a :: y :: z :: l))) (a :: y :: z :: l) x = (x' ← r; Ok (3, x')) →
  run_args body (a :: y :: z :: l) x = x' ← r; run_args body l x'.
Proof using Type.
  intros Hb E. change (a :: y :: z :: l) with ([a; y; z] ++ l).
  rewrite (run_args_step body Hb [a; y; z] l x _ ltac:(simpl; lia) E); [by destruct r|].
  intros n x' En. destruct r; [by injection En as <- _|done].
Qed.

(** A round of [Initialize], and of [main], on an option. *)
Ltac setting_round :=
  first [exact Initialize_arg_pos | unfold Initialize_arg; see_args; by repeat case_match].
Ltac command_round :=
  first [exact main_arg_pos
        | unfold main_arg; cbn [perform_all]; see_args; by repeat (case_match; cbn [perform_all]; simpl_res; simplify_eq)].

(** The options in front of [l] are well-formed, and so are those that follow. *)
Definition option_ok (o : opt) (l : list (list Z)) : Prop :=
  Forall plain (params o) ∧
  match o with
  | Debug None | TestConsole None => l = []
  | Dash_l r => NETWORK b = true → r ≠ None
  | _ => True
  end.

Lemma setting_step o l x :
  option_ok o l →
  run_args Initialize_arg (show o ++ l) x = x' ← setting o x; run_args Initialize_arg l x'.
Proof using Type.
  intros [Hp Ho]. destruct x as [f s].
  unfold option_ok in Ho. destruct o as [[x|]|x| | |x| |x|[[x y]|]|x y|x|x|[x|]| | |x]; unfold show, sign;
    cbn [params setting default app] in *; rewrite ?Forall_cons in Hp; destruct_and?; subst.
  - apply (round_two _ _ _ _ _ (Ok _)); setting_round.
  - apply (round_one _ _ _ _ (Ok _)); setting_round.
  - apply (round_two _ _ _ _ _ (seed ← atoi x; s ← perform (RandomInit seed) s; Ok (with_randomYield f, s)));
      setting_round.
  - apply (round_one _ _ _ _ (Ok _)); setting_round.
  - apply (round_one _ _ _ _ (Ok _)); setting_round.
  - destruct (NETWORK b) eqn:Hn.
    + apply (round_two _ _ _ _ _ (n ← atoi x; Ok (with_netname n f, s))); setting_round.
    + rewrite (round_one _ _ _ _ (Ok (f, s))) by setting_round. simpl_res. by apply skip_setting.
  - apply (round_one _ _ _ _ (Ok _)); setting_round.
  - rewrite (round_one _ _ _ _ (Ok (f, s))) by setting_round. simpl_res. by apply skip_setting.
  - rewrite (round_one _ _ _ _ (Ok (f, s))) by setting_round. simpl_res. by rewrite !skip_setting.
  - apply (round_one _ _ _ _ (Ok _)); setting_round.
  - rewrite (round_one _ _ _ _ (Ok (f, s))) by setting_round. simpl_res. by rewrite !skip_setting.
  - rewrite (round_one _ _ _ _ (Ok (f, s))) by setting_round. simpl_res. by apply skip_setting.
  - rewrite (round_one _ _ _ _ (Ok (f, s))) by setting_round. simpl_res. by apply skip_setting.
  - destruct (NETWORK b) eqn:Hn.
    + apply (round_two _ _ _ _ _ (Ok _)); setting_round.
    + rewrite (round_one _ _ _ _ (Ok (f, s))) by setting_round. simpl_res. by apply skip_setting.
  - destruct (NETWORK b) eqn:Hn; [by destruct (Ho eq_refl)|].
    apply (round_one _ _ _ _ (Ok _)); setting_round.
  - apply (round_one _ _ _ _ (Ok _)); setting_round.
  - apply (round_one _ _ _ _ (Ok _)); setting_round.
  - rewrite (round_one _ _ _ _ (Ok (f, s))) by setting_round. simpl_res. by apply skip_setting.
Qed.

Lemma command_step o l s :
  option_ok o l →
  run_args main_arg (show o ++ l) s = s ← command o s; run_args main_arg l s.
Proof using Type.
  intros [Hp Ho]. destruct o as [[x|]|x| | |x| |x|[[x y]|]|x y|x|x|[x|]| | |x]; unfold show, sign;
    cbn [params command calls app] in *; rewrite ?Forall_cons in Hp; destruct_and?; subst.
  - rewrite (round_one _ _ _ _ (Ok s)) by command_round. simpl_res. by apply skip_command.
  - apply (round_one _ _ _ _ (Ok _)); command_round.
  - rewrite (round_one _ _ _ _ (Ok s)) by command_round. simpl_res. by apply skip_command.
  - apply (round_one _ _ _ _ (Ok _)); command_round.
  - apply (round_one _ _ _ _ (Ok _)); command_round.
  - rewrite (round_one _ _ _ _ (Ok s)) by command_round. simpl_res. by apply skip_command.
  - apply (round_one _ _ _ _ (perform_all [PrintCopyright] s)); command_round.
  - destruct (USER_PROGRAM b) eqn:Hu.
    + apply (round_two _ _ _ _ _ (perform_all [StartProcess x] s)); command_round.
    + rewrite (round_one _ _ _ _ (Ok s)) by command_round. simpl_res. by apply skip_command.
  - destruct (USER_PROGRAM b) eqn:Hu.
    + apply (round_three _ _ _ _ _ _ (perform_all [ConsoleTest (Some (x, y)); Halt] s)); command_round.
    + rewrite (round_one _ _ _ _ (Ok s)) by command_round. simpl_res. by rewrite !skip_command.
  - destruct (USER_PROGRAM b) eqn:Hu.
    + apply (round_one _ _ _ _ (perform_all [ConsoleTest None; Halt] s)); command_round.
    + apply (round_one _ _ _ _ (Ok s)); command_round.
  - destruct (FILESYS b) eqn:Hf.
    + apply (round_three _ _ _ _ _ _ (perform_all [Copy x y] s)); command_round.
    + rewrite (round_one _ _ _ _ (Ok s)) by command_round. simpl_res. by rewrite !skip_command.
  - destruct (FILESYS b) eqn:Hf.
    + apply (round_two _ _ _ _ _ (perform_all [Print x] s)); command_round.
    + rewrite (round_one _ _ _ _ (Ok s)) by command_round. simpl_res. by apply skip_command.
  - destruct (FILESYS b) eqn:Hf.
    + apply (round_two _ _ _ _ _ (perform_all [Remove x] s)); command_round.
    + rewrite (round_one _ _ _ _ (Ok s)) by command_round. simpl_res. by apply skip_command.
  - rewrite (round_one _ _ _ _ (perform_all (if FILESYS b then [List] else []) s)) by command_round.
    destruct (perform_all _ s); [|done]. simpl_res. by apply skip_command.
  - apply (round_one _ _ _ _ (perform_all (if FILESYS b then [List] else []) s)); command_round.
  - apply (round_one _ _ _ _ (perform_all (if FILESYS b then [PrintFileSystem] else []) s)); command_round.
  - apply (round_one _ _ _ _ (perform_all (if FILESYS b then [PerformanceTest] else []) s)); command_round.
  - destruct (NETWORK b) eqn:Hn.
    + apply (round_two _ _ _ _ _ (s ← perform (Delay 2) s; n ← atoi x; perform (MailTest n) s)); command_round.
    + rewrite (round_one _ _ _ _ (Ok s)) by command_round. simpl_res. by apply skip_command.
Qed.

(** ** All options *)

Definition arguments (l : list opt) : list (list Z) := mjoin (show <$> l).

Lemma well_formed_cons o l : well_formed (o :: l) → option_ok o (arguments l) ∧ well_formed l.
Proof using Type.
  intros (Hp & Ho & Hl). split; [|done]. split; [done|].
  destruct o as [[x|]|x| | |x| |x|[[x y]|]|x y|x|x|[x|]| | |x]; try done; by rewrite Ho.
Qed.

Lemma in_turn_loop {X} (body : Z → list (list Z) → X → res (Z * X)) (step : opt → X → res X) :
  (∀ o l x, option_ok o l → run_args body (show o ++ l) x = x' ← step o x; run_args body l x') →
  ∀ l x, well_formed l → run_args body (arguments l) x = x' ← in_turn step l x; Ok (0, [], x').
Proof using Type.
  intros Hstep. induction l as [|o l IH]; intros x Hl; [done|].
  apply well_formed_cons in Hl as [Ho Hl]. unfold arguments. cbn [fmap list_fmap mjoin list_join].
  fold (arguments l). rewrite Hstep by done. cbn [in_turn].
  destruct (step o x) as [x'|]; [|done]. simpl_res. by apply IH.
Qed.

Lemma main_options name l s :
  THREADS b = false → well_formed l →
  main (name :: arguments l) s =
    '(f, s) ← in_turn setting l (Flags_new, s);
    s ← perform_all (creations f) s;
    s ← in_turn command l s;
    perform Finish s.
Proof using Type.
  intros Ht Hl. unfold main, Initialize. rewrite Ht. cbn [tail length].
  rewrite (args_loop_run Initialize_arg Initialize_arg_pos) by lia.
  rewrite (in_turn_loop _ setting) by (done || apply setting_step).
  destruct (in_turn setting l _) as [[f s1]|]; [|done]. simpl_res.
  destruct (perform_all _ s1) as [s2|]; [|done]. simpl_res. cbn [tail].
  rewrite (args_loop_run main_arg main_arg_pos) by lia.
  rewrite (in_turn_loop _ command) by (done || apply command_step).
  by destruct (in_turn command l s2).
Qed.

(** With THREADS the first loop of [main] takes all arguments, and the second
    has none left. *)
Lemma main_threads name argv s :
  THREADS b = true →
  main (name :: argv) s =
    s ← Initialize (Z.of_nat (length (name :: argv))) (name :: argv) s;
    '(_, _, testnum) ← args_loop thread_arg (Datatypes.S (length (name :: argv))) (Z.of_nat (length argv)) argv 1;
    s ← perform (ThreadTest testnum) s;
    perform Finish s.
Proof using Type.
  intros Ht. unfold main. rewrite Ht. destruct (Initialize _ _ s) as [s1|]; [|done]. simpl_res. cbn [tail].
  replace (Z.of_nat (length (name :: argv)) - 1) with (Z.of_nat (length argv)) by (simpl; lia).
  destruct (args_loop thread_arg _ _ argv 1) as [[[n l] t]|] eqn:E; [|done]. simpl_res.
  apply args_loop_ends in E. destruct (perform _ s1) as [s2|]; [|done]. simpl_res.
  cbn [args_loop]. destruct (Z.gtb_spec (n - 1) 0); [lia|]. done.
Qed.
End startup.

(** ** The property *)

Module StartupSpec.

(** C28. The command line.  [Initialize] and [main] go through it separately,
    and neither knows how many arguments the options of the other have.  When
    it is made of options whose arguments are not options themselves, both
    still see the same options: [Initialize] makes the objects once, in a fixed
    order, as the last setting of each kind says, and the commands run in their
    order, each with its arguments; options of parts that the build leaves out
    are ignored.  In a build with THREADS no command runs at all, only the
    thread test. *)
Theorem command_line {S} (perform : call → S → res S) atof b name l s :
  well_formed b l →
  main perform atof b (name :: arguments l) s =
    '(f, s) ← in_turn (setting perform atof b) l (Flags_new, s);
    s ← perform_all perform (creations b f) s;
    s ← (if THREADS b then
           '(_, _, testnum) ← run_args thread_arg (arguments l) 1; perform (ThreadTest testnum) s
         else in_turn (command perform b) l s);
    perform Finish s.
Proof.
  intros Hl. destruct (THREADS b) eqn:Ht; [|by apply main_options].
  rewrite main_threads by done. unfold Initialize. cbn [tail length].
  rewrite (args_loop_run _ (Initialize_arg_pos perform atof b)) by lia.
  rewrite (in_turn_loop b _ (setting perform atof b)) by (done || apply setting_step).
  destruct (in_turn _ l _) as [[f s1]|]; [|done]. simpl_res.
  destruct (perform_all _ _ s1) as [s2|]; [|done]. simpl_res.
  rewrite (args_loop_run thread_arg thread_arg_pos) by lia.
  destruct (run_args _ _ _) as [[[n r] t]|]; done.
Qed.

(** [nachos -f -m 1 -cp a b -p b -o 0] on the network: the calls, in order. *)
Definition trace (c : call) (s : list call) : res (list call) := Ok (s ++ [c]).
Definition session : list opt :=
  [Format; Machine (chars "1"); CopyIn (chars "a") (chars "b"); Show (chars "b"); Mail (chars "0")].

Lemma command_line_witness :
  main trace (λ _, 1%Q) network_build 
      (chars <$> ["nachos"; "-f"; "-m"; "1"; "-cp"; "a"; "b"; "-p"; "b"; "-o"; "0"]%string) [] =
    Ok ([SetDebug []; new_Statistics; new_Interrupt; new_Scheduler; new_Thread (chars "main"); setStatus_RUNNING;
         Enable; CallOnUserAbort_Cleanup; new_Machine false; new_SynchConsole;
         new_Semaphore (chars "addrLock") 1; new_BitMap 256; new_PTable 10; new_STable;
         new_SynchDisk (chars "DISK"); new_FileSystem true; new_PostOffice 1 1 10;
         Copy (chars "a") (chars "b"); Print (chars "b"); Delay 2; MailTest 0; Finish]).
Proof.
  etransitivity; [apply (command_line trace (λ _, 1%Q) network_build (chars "nachos") session [])|].
  - repeat split; try discriminate; repeat constructor; apply (bool_decide_unpack _); vm_compute; exact I.
  - vm_compute. reflexivity.
Defined.

(** The same commands do not run in the build of filesys/. *)
Lemma filesys_build_runs_no_command :
  ∃ l, main trace (λ _, 1%Q) filesys_build (chars "nachos" :: arguments session) [] = Ok l ∧
    ThreadTest 1 ∈ l ∧ ∀ x y, Copy x y ∉ l ∧ Print x ∉ l ∧ StartProcess x ∉ l.
Proof.
  eexists. split; [vm_compute; reflexivity|]. split; [set_solver|].
  intros x y. split_and!; rewrite ?not_elem_of_cons; split_and!; try done; apply not_elem_of_nil.
Qed.

(** -q without a number, in a build with THREADS. *)
Lemma q_without_number :
  main trace (λ _, 1%Q) filesys_build (chars <$> ["nachos"; "-q"]%string) [] = Stop Undefined.
Proof. vm_compute. reflexivity. Qed.

(** On the network -l sets the reliability and lists the directory; the -n of
    the comment does nothing. *)
Lemma dash_n_ignored :
  main trace (λ _, 0%Q) network_build (chars <$> ["nachos"; "-n"; "0.5"]%string) []
    = main trace (λ _, 0%Q) network_build (chars <$> ["nachos"]%string) [].
Proof. vm_compute. reflexivity. Qed.
End StartupSpec.
End Startup.
