(* ===== verification/Stacks.v ===== *)
(** * The example stacks (c++example: stack.cc, templatestack.cc,
    inheritstack.cc, list.cc and their headers)

    A stack of integers as an array, the same as a template, and an abstract
    class [Stack] with two implementations, an array and a linked list.  The
    class is a typeclass here; its self test is written and proved against the
    interface.

    An array that [new T[size]] has just returned holds arbitrary values
    ([garbage]).  What a program prints on [cout] is its sequence of
    characters. *)

From S2P Require Import Prelude.

(** ** The abstract class *)

(** The virtual functions of class [Stack] (inheritstack.h), for elements of
    type [T]. *)
Class Stack (T St : Type) := {
  Push : T → St → res St;
  Pop : St → res (T * St);
  Full : St → bool;
  Empty : St → bool;
}.

(** What a stack promises: it holds a list of elements, the top first, and at
    most [capacity] of them when it is bounded. *)
Class StackLaws (T St : Type) `{Stack T St} := {
  represents : St → list T → Prop;
  capacity : St → option Z;
  full_spec s xs : represents s xs → Full s = bool_decide (capacity s = Some (Z.of_nat (length xs)));
  empty_spec s xs : represents s xs → Empty s = bool_decide (xs = []);
  push_spec v s xs : represents s xs →
    if Full s then Push v s = Stop AssertFailed
    else ∃ s', Push v s = Ok s' ∧ represents s' (v :: xs) ∧ capacity s' = capacity s;
  pop_spec s xs : represents s xs →
    match xs with
    | [] => Pop s = Stop AssertFailed
    | x :: xs' => ∃ s', Pop s = Ok (x, s') ∧ represents s' xs' ∧ capacity s' = capacity s
    end;
}.

(** Elements that [SelfTest] can count and print. *)
Class Countable_out (T : Type) := {
  increment : T → T;      (* [count++] *)
  shown : T → list Z;     (* [cout << count] *)
}.
#[global] Instance int_out : Countable_out Z := {| increment n := s32 (n + 1); shown := decimal |}.

(** A [char] is its (signed) code. *)
Record char := mkChar { code : Z }.
#[global] Instance char_out : Countable_out char :=
  {| increment c := mkChar (s8 (code c + 1)); shown c := [u8 (code c)] |}.

Definition pushing {T} `{Countable_out T} (count : T) : list Z := chars "pushing " ++ shown count ++ newline.
Definition popping {T} `{Countable_out T} (value : T) : list Z := chars "popping " ++ shown value ++ newline.

Section self_test.
Context {T St : Type} `{Stack T St} `{Countable_out T}.

(** [while (!Full()) { cout << "pushing " << count; Push(count++); }] *)
Fixpoint fill (fuel : nat) (count : T) (s : St) (out : list Z) : res (list Z * St) :=
  match fuel with
  | O => Stop OutOfFuel
  | S fuel' =>
      if Full s then Ok (out, s)
      else s ← Push count s; fill fuel' (increment count) s (out ++ pushing count)
  end.

(** [while (!Empty()) cout << "popping " << Pop();] *)
Fixpoint drain (fuel : nat) (s : St) (out : list Z) : res (list Z * St) :=
  match fuel with
  | O => Stop OutOfFuel
  | S fuel' =>
      if Empty s then Ok (out, s)
      else '(value, s) ← Pop s; drain fuel' s (out ++ popping value)
  end.

(** [for (i = 0; i < numToPush; i++) { ASSERT(!Full()); ... Push(count++); }] *)
Fixpoint push_some (n : nat) (count : T) (s : St) (out : list Z) : res (list Z * St) :=
  match n with
  | O => Ok (out, s)
  | S n' =>
      ASSERT (negb (Full s));;
      s ← Push count s;
      push_some n' (increment count) s (out ++ pushing count)
  end.
End self_test.

(** [Stack::SelfTest(int numToPush)] of inheritstack.cc *)
Definition SelfTest {St} `{Stack Z St} (numToPush : Z) (s : St) : res (list Z * St) :=
  '(out, s) ← push_some (Z.to_nat numToPush) 17 s [];
  drain (S (Z.to_nat numToPush)) s out.

(** ** Stack<T> (templatestack.cc) *)

Module TemplateStack.
Section stack.
Context {T : Type}.

Record Stack := mkStack { size : Z; top : Z; stack : list T }.

Definition Stack_new (garbage : Z → list T) (sz : Z) : res Stack :=
  ASSERT (sz >=? 1);; Ok (mkStack sz 0 (garbage sz)).

Definition Full (s : Stack) : bool := top s =? size s.
Definition Empty (s : Stack) : bool := top s =? 0.

Definition Push (value : T) (s : Stack) : res Stack :=
  ASSERT (negb (Full s));;
  a ← arr_set (stack s) (top s) value;
  Ok (mkStack (size s) (top s + 1) a).

Definition Pop (s : Stack) : res (T * Stack) :=
  ASSERT (negb (Empty s));;
  let t := top s - 1 in
  value ← arr_get (stack s) t;
  Ok (value, mkStack (size s) t (stack s)).
End stack.
Arguments Stack : clear implicits.

#[global] Instance ops T : Stacks.Stack T (Stack T) :=
  {| Stacks.Push := Push; Stacks.Pop := Pop; Stacks.Full := Full; Stacks.Empty := Empty |}.

Definition SelfTest {T} `{Countable_out T} (start : T) (s : Stack T) : res (list Z * Stack T) :=
  '(out, s) ← fill (S (Z.to_nat (size s))) start s [];
  drain (S (Z.to_nat (size s))) s out.

Definition main (garbage_int : Z → list Z) (garbage_char : Z → list char) : res (list Z) :=
  s1 ← Stack_new garbage_int 10;
  s2 ← Stack_new garbage_char 10;
  '(out1, s1) ← SelfTest 17 s1;
  '(out2, s2) ← SelfTest (mkChar 97) s2;
  Ok (chars "Testing Stack<int>" ++ newline ++ out1 ++ chars "Testing Stack<char>" ++ newline ++ out2).
End TemplateStack.

(** ** Stack (stack.cc): integers only *)

Module IntStack.

Record Stack := mkStack { size : Z; top : Z; stack : list Z }.

Definition Stack_new (garbage : Z → list Z) (sz : Z) : res Stack :=
  ASSERT (sz >=? 1);; Ok (mkStack sz 0 (garbage sz)).

Definition Full (s : Stack) : bool := top s =? size s.
Definition Empty (s : Stack) : bool := top s =? 0.

Definition Push (value : Z) (s : Stack) : res Stack :=
  ASSERT (negb (Full s));;
  a ← arr_set (stack s) (top s) value;
  Ok (mkStack (size s) (top s + 1) a).

Definition Pop (s : Stack) : res (Z * Stack) :=
  ASSERT (negb (Empty s));;
  let t := top s - 1 in
  value ← arr_get (stack s) t;
  Ok (value, mkStack (size s) t (stack s)).

#[global] Instance ops : Stacks.Stack Z Stack :=
  {| Stacks.Push := Push; Stacks.Pop := Pop; Stacks.Full := Full; Stacks.Empty := Empty |}.

Definition SelfTest (s : Stack) : res (list Z * Stack) :=
  '(out, s) ← fill (S (Z.to_nat (size s))) 17 s [];
  drain (S (Z.to_nat (size s))) s out.

Definition main (garbage : Z → list Z) : res (list Z) :=
  stack ← Stack_new garbage 10; '(out, stack) ← SelfTest stack; Ok out.
End IntStack.

(** ** List (list.cc): cells on the heap *)

Module IntList.

Record ListElement := mkElement { next : option Z; item : Z }.

(** The cells of the list, the address [new] returns next, and the two
    pointers; [None] is NULL. *)
Record List := mkList {
  heap : gmap Z ListElement;
  fresh_addr : Z;
  first : option Z;
  last : option Z;
}.

Definition List_new : List := mkList ∅ 0 None None.

Definition Empty (l : List) : bool := bool_decide (first l = None).

Definition Prepend (value : Z) (l : List) : List :=
  let element := fresh_addr l in
  let cell next := <[element := mkElement next value]> (heap l) in
  if Empty l then mkList (cell None) (element + 1) (Some element) (Some element)
  else mkList (cell (first l)) (element + 1) (Some element) (last l).

Definition deref (h : gmap Z ListElement) (p : option Z) : res (Z * ListElement) :=
  match p with
  | Some a => match h !! a with Some e => Ok (a, e) | None => Stop Undefined end
  | None => Stop Undefined
  end.

Definition Remove (l : List) : res (Z * List) :=
  ASSERT (negb (Empty l));;
  '(a, element) ← deref (heap l) (first l);
  let '(first', last') :=
    if bool_decide (first l = last l) then (None, None) else (next element, last l) in
  Ok (item element, mkList (delete a (heap l)) (fresh_addr l) first' last').

(** The destructor: [while (!Empty()) (void) Remove();] *)
Fixpoint List_delete (fuel : nat) (l : List) : res List :=
  match fuel with
  | O => Stop OutOfFuel
  | S fuel' => if Empty l then Ok l else '(_, l) ← Remove l; List_delete fuel' l
  end.
End IntList.

(** ** ArrayStack and ListStack (inheritstack.cc) *)

Module ArrayStack.

Record ArrayStack := mkArrayStack { size : Z; top : Z; stack : list Z }.

Definition ArrayStack_new (garbage : Z → list Z) (sz : Z) : res ArrayStack :=
  ASSERT (sz >=? 1);; Ok (mkArrayStack sz 0 (garbage sz)).

Definition Full (s : ArrayStack) : bool := top s =? size s.
Definition Empty (s : ArrayStack) : bool := top s =? 0.

Definition Push (value : Z) (s : ArrayStack) : res ArrayStack :=
  ASSERT (negb (Full s));;
  a ← arr_set (stack s) (top s) value;
  Ok (mkArrayStack (size s) (top s + 1) a).

Definition Pop (s : ArrayStack) : res (Z * ArrayStack) :=
  ASSERT (negb (Empty s));;
  let t := top s - 1 in
  value ← arr_get (stack s) t;
  Ok (value, mkArrayStack (size s) t (stack s)).

#[global] Instance ops : Stack Z ArrayStack :=
  {| Stacks.Push := Push; Stacks.Pop := Pop; Stacks.Full := Full; Stacks.Empty := Empty |}.
End ArrayStack.

Module ListStack.
Import IntList.

Record ListStack := mkListStack { stack : List }.

Definition ListStack_new : ListStack := mkListStack List_new.

Definition Full (s : ListStack) : bool := false.
Definition Empty (s : ListStack) : bool := IntList.Empty (stack s).

Definition Push (value : Z) (s : ListStack) : res ListStack := Ok (mkListStack (Prepend value (stack s))).

Definition Pop (s : ListStack) : res (Z * ListStack) :=
  ASSERT (negb (Empty s));;
  '(value, l) ← Remove (stack s);
  Ok (value, mkListStack l).

(** [~ListStack()]: [delete stack;] *)
Definition ListStack_delete (s : ListStack) : res ListStack :=
  l ← List_delete (S (base.size (heap (stack s)))) (stack s); Ok (mkListStack l).

#[global] Instance ops : Stack Z ListStack :=
  {| Stacks.Push := Push; Stacks.Pop := Pop; Stacks.Full := Full; Stacks.Empty := Empty |}.
End ListStack.

(** [main] of inheritstack.cc *)
Definition main (garbage : Z → list Z) : res (list Z) :=
  s1 ← ArrayStack.ArrayStack_new garbage 10;
  let s2 := ListStack.ListStack_new in
  '(out1, s1) ← SelfTest 10 s1;
  '(out2, s2) ← SelfTest 10 s2;
  _ ← ListStack.ListStack_delete s2;
  Ok (chars "Testing ArrayStack" ++ newline ++ out1 ++ chars "Testing ListStack" ++ newline ++ out2).

(** ** The implementations keep the promise *)

(** The first [top] places of an array of [size] hold the stack, the top last. *)
Record array_holds {T} (size top : Z) (a : list T) (xs : list T) : Prop := mkHolds {
  ah_top : top = Z.of_nat (length xs);
  ah_room : top ≤ size;
  ah_size : length a = Z.to_nat size;
  ah_items : take (Z.to_nat top) a = reverse xs;
}.

Section arrays.
Context {T : Type}.
Implicit Types (a xs : list T).

Lemma holds_empty size a : 0 ≤ size → length a = Z.to_nat size → array_holds size 0 a [].
Proof. by split. Qed.

Lemma holds_push size top a xs v :
  array_holds size top a xs → top ≠ size →
  ∃ a', arr_set a top v = Ok a' ∧ array_holds size (top + 1) a' (v :: xs).
Proof.
  intros [Ht Hr Hs Hi] Hne. rewrite arr_set_in by lia. eexists. split; [reflexivity|].
  split; [simpl; lia|lia|by rewrite length_insert|].
  replace (Z.to_nat (top + 1)) with (S (Z.to_nat top)) by lia.
  rewrite reverse_cons, <- Hi. rewrite (take_S_r _ _ v) by (apply list_lookup_insert_eq; lia).
  by rewrite take_insert_ge by lia.
Qed.

Lemma holds_pop size top a x xs :
  array_holds size top a (x :: xs) → arr_get a (top - 1) = Ok x ∧ array_holds size (top - 1) a xs.
Proof.
  intros [Ht Hr Hs Hi]. simpl in Ht. rewrite reverse_cons in Hi.
  assert (a !! Z.to_nat (top - 1) = Some x) as Hx.
  { rewrite <- (lookup_take_lt a (Z.to_nat top)) by lia. rewrite Hi.
    rewrite lookup_app_r; rewrite length_reverse; [|lia].
    by replace (Z.to_nat (top - 1) - length xs)%nat with 0%nat by lia. }
  split; [apply arr_get_in; [lia|done]|]. split; [lia|lia|done|].
  replace (Z.to_nat top) with (S (Z.to_nat (top - 1))) in Hi by lia.
  rewrite (take_S_r _ _ _ Hx) in Hi. by apply app_inj_tail in Hi as [Hi _].
Qed.
End arrays.

(** A class whose operations are those of an array keeps the promise. *)
Section array_class.
Context {T St : Type} `{Stack T St}.
Context (size top : St → Z) (stack : St → list T) (mk : Z → Z → list T → St).
Hypothesis Hsize : ∀ n t a, size (mk n t a) = n.
Hypothesis Htop : ∀ n t a, top (mk n t a) = t.
Hypothesis Hstack : ∀ n t a, stack (mk n t a) = a.
Hypothesis HFull : ∀ s, Full s = (top s =? size s).
Hypothesis HEmpty : ∀ s, Empty s = (top s =? 0).
Hypothesis HPush : ∀ v s, Push v s =
  (ASSERT (negb (Full s));; a ← arr_set (stack s) (top s) v; Ok (mk (size s) (top s + 1) a)).
Hypothesis HPop : ∀ s, Pop s =
  (ASSERT (negb (Empty s));; v ← arr_get (stack s) (top s - 1); Ok (v, mk (size s) (top s - 1) (stack s))).

Lemma array_class_laws : StackLaws T St.
Proof using All.
  refine (Build_StackLaws _ _ _ (λ s, array_holds (size s) (top s) (stack s)) (λ s, Some (size s)) _ _ _ _).
  - intros s xs Hh. rewrite HFull, (ah_top _ _ _ _ Hh).
    destruct (Z.eqb_spec (Z.of_nat (length xs)) (size s)); case_bool_decide; congruence.
  - intros s xs Hh. rewrite HEmpty, (ah_top _ _ _ _ Hh). destruct xs; [done|].
    rewrite bool_decide_eq_false_2 by done. apply Z.eqb_neq. simpl. lia.
  - intros v s xs Hh. rewrite HPush, HFull. destruct (Z.eqb_spec (top s) (size s)); [done|].
    destruct (holds_push _ _ _ _ v Hh) as (a & -> & Hh'); [done|]. simpl. simpl_res.
    eexists. split; [reflexivity|]. by rewrite Hsize, Htop, Hstack.
  - intros s xs Hh. rewrite HPop, HEmpty. pose proof (ah_top _ _ _ _ Hh) as Ht.
    destruct xs as [|x xs]; [by rewrite Ht|]. rewrite (proj2 (Z.eqb_neq (top s) 0)) by (simpl in Ht; lia).
    destruct (holds_pop _ _ _ _ _ Hh) as [-> Hh']. simpl. simpl_res.
    eexists. split; [reflexivity|]. by rewrite Hsize, Htop, Hstack.
Defined.
End array_class.

#[global] Instance TemplateStack_laws T : StackLaws T (TemplateStack.Stack T) :=
  array_class_laws TemplateStack.size TemplateStack.top TemplateStack.stack TemplateStack.mkStack
    (λ _ _ _, eq_refl) (λ _ _ _, eq_refl) (λ _ _ _, eq_refl) (λ _, eq_refl) (λ _, eq_refl)
    (λ _ _, eq_refl) (λ _, eq_refl).
#[global] Instance IntStack_laws : StackLaws Z IntStack.Stack :=
  array_class_laws IntStack.size IntStack.top IntStack.stack IntStack.mkStack
    (λ _ _ _, eq_refl) (λ _ _ _, eq_refl) (λ _ _ _, eq_refl) (λ _, eq_refl) (λ _, eq_refl)
    (λ _ _, eq_refl) (λ _, eq_refl).
#[global] Instance ArrayStack_laws : StackLaws Z ArrayStack.ArrayStack :=
  array_class_laws ArrayStack.size ArrayStack.top ArrayStack.stack ArrayStack.mkArrayStack
    (λ _ _ _, eq_refl) (λ _ _ _, eq_refl) (λ _ _ _, eq_refl) (λ _, eq_refl) (λ _, eq_refl)
    (λ _ _, eq_refl) (λ _, eq_refl).

(** *** The list *)

Section lists.
Import IntList.

(** From [p], the cells at [addrs] hold [xs], and the last one ends the list. *)
Fixpoint chain (h : gmap Z ListElement) (p : option Z) (addrs xs : list Z) : Prop :=
  match addrs, xs with
  | [], [] => p = None
  | a :: addrs, x :: xs => p = Some a ∧ ∃ nx, h !! a = Some (mkElement nx x) ∧ chain h nx addrs xs
  | _, _ => False
  end.

Record list_rep (l : List) (cells xs : list Z) : Prop := mkListRep {
  lr_chain : chain (heap l) (first l) cells xs;
  lr_nodup : NoDup cells;
  lr_last : last l = list.last cells;
  lr_dom : dom (heap l) = list_to_set cells;      (* no cell is lost *)
  lr_fresh : Forall (λ a, a < fresh_addr l) cells;
}.
Definition list_holds (l : List) (xs : list Z) : Prop := ∃ cells, list_rep l cells xs.

Lemma cells_agree h h' p cells xs :
  (∀ a, a ∈ cells → h' !! a = h !! a) → chain h p cells xs → chain h' p cells xs.
Proof.
  revert p xs. induction cells as [|a cells IH]; intros p [|x xs] Hag; simpl; try done.
  intros (-> & nx & Ha & Hc). split; [done|]. exists nx. rewrite Hag by by left.
  split; [done|]. apply IH; [|done]. intros b Hb. apply Hag. by right.
Qed.

Lemma holds_new : list_holds List_new [].
Proof. exists []. split; [done|apply NoDup_nil_2|done|by apply dom_empty_L|by apply Forall_nil]. Qed.

Lemma Empty_spec l xs : list_holds l xs → IntList.Empty l = bool_decide (xs = []).
Proof.
  intros [cells [Hc _ _ _ _]]. unfold IntList.Empty. apply bool_decide_ext.
  destruct cells, xs; simpl in Hc; naive_solver.
Qed.

Lemma IntList_Prepend_spec l xs v : list_holds l xs → list_holds (Prepend v l) (v :: xs).
Proof.
  intros Hl. pose proof (Empty_spec l xs Hl) as He. destruct Hl as [cells [Hc Hnd Hla Hd Hf]].
  assert (fresh_addr l ∉ cells) as Hnew.
  { intros Hin. rewrite Forall_forall in Hf. specialize (Hf _ Hin). lia. }
  exists (fresh_addr l :: cells).
  assert (∀ nx, chain (heap l) nx cells xs →
    chain (<[fresh_addr l := mkElement nx v]> (heap l)) (Some (fresh_addr l)) (fresh_addr l :: cells) (v :: xs))
    as Hcons.
  { intros nx Hnx. split; [done|]. exists nx. rewrite lookup_insert_eq. split; [done|].
    eapply cells_agree; [|exact Hnx]. intros a Ha. apply lookup_insert_ne. by intros <-. }
  assert (Forall (λ a, a < fresh_addr l + 1) (fresh_addr l :: cells)) as Hf'.
  { constructor; [lia|]. eapply Forall_impl; [exact Hf|]. simpl. lia. }
  assert (NoDup (fresh_addr l :: cells)) as Hnd' by (apply NoDup_cons; by split).
  unfold Prepend. rewrite He. case_bool_decide as Hxs.
  - destruct xs; [|done]. destruct cells; [|by destruct Hc].
    split; [by apply Hcons|done|done| |done]. cbn [heap]. rewrite dom_insert_L, Hd. set_solver.
  - split; [by apply Hcons|done| | |done]; cbn [heap last].
    + rewrite Hla. destruct cells; [|done]. by destruct xs.
    + rewrite dom_insert_L, Hd. set_solver.
Qed.

Lemma IntList_Remove_spec l x xs :
  list_holds l (x :: xs) → ∃ l', Remove l = Ok (x, l') ∧ list_holds l' xs.
Proof.
  intros Hl. pose proof (Empty_spec l _ Hl) as He. destruct Hl as [cells [Hc Hnd Hla Hd Hf]].
  destruct cells as [|a cells]; [done|]. destruct Hc as (Hfirst & nx & Ha & Hc).
  apply NoDup_cons in Hnd as [Hna Hnd]. apply Forall_cons in Hf as [_ Hf].
  unfold Remove. rewrite He. simpl. simpl_res. unfold deref. rewrite Hfirst, Ha. simpl_res.
  assert (chain (delete a (heap l)) nx cells xs) as Hc'.
  { eapply cells_agree; [|exact Hc]. intros b Hb. apply lookup_delete_ne. by intros ->. }
  assert (dom (delete a (heap l)) = list_to_set cells) as Hd'.
  { rewrite dom_delete_L, Hd, list_to_set_cons. apply (not_elem_of_list_to_set (C:=gset Z)) in Hna. set_solver. }
  rewrite Hla. destruct cells as [|b cells].
  - rewrite bool_decide_eq_true_2 by done. destruct xs; [|done].
    eexists. split; [reflexivity|]. exists []. by split.
  - rewrite bool_decide_eq_false_2; [eexists; split; [reflexivity|]; exists (b :: cells); by split|].
    intros E. apply Hna, last_Some_elem_of. by rewrite E.
Qed.
End lists.

#[global] Instance ListStack_laws : StackLaws Z ListStack.ListStack.
Proof.
  refine (Build_StackLaws _ _ _ (λ s, list_holds (ListStack.stack s)) (λ _, None) _ _ _ _).
  - done.
  - intros s xs Hs. by apply Empty_spec.
  - intros v s xs Hs. simpl. eexists. split; [reflexivity|]. split; [by apply IntList_Prepend_spec|done].
  - intros s xs Hs. simpl. unfold ListStack.Pop, ListStack.Empty. rewrite (Empty_spec _ _ Hs).
    destruct xs as [|x xs]; [done|]. simpl. destruct (IntList_Remove_spec _ _ _ Hs) as (l & E & Hl).
    simpl_res. rewrite E. by eexists.
Defined.

(** The destructor removes every cell. *)
Lemma IntList_delete_spec l xs :
  list_holds l xs → ∀ fuel, (length xs < fuel)%nat →
  ∃ l', IntList.List_delete fuel l = Ok l' ∧ IntList.heap l' = ∅.
Proof.
  intros Hl fuel. revert l xs Hl. induction fuel as [|fuel IH]; intros l xs Hl Hf; [lia|].
  cbn [IntList.List_delete]. rewrite (Empty_spec _ _ Hl). destruct xs as [|x xs]; simpl.
  - exists l. split; [done|]. destruct Hl as [cells [Hc _ _ Hd _]]. destruct cells; [|by destruct Hc].
    by apply dom_empty_inv_L.
  - destruct (IntList_Remove_spec _ _ _ Hl) as (l' & -> & Hl'). simpl_res. apply (IH l' xs Hl'). simpl in Hf. lia.
Qed.

(** ** Sequences of operations *)

Inductive request (T : Type) := RPush (v : T) | RPop | RFull | REmpty.
Arguments RPush {T}.
Arguments RPop {T}.
Arguments RFull {T}.
Arguments REmpty {T}.
Inductive answer (T : Type) := ADone | AValue (v : T) | ABool (b : bool).
Arguments ADone {T}.
Arguments AValue {T}.
Arguments ABool {T}.

Section sessions.
Context {T St : Type} `{Stack T St}.

Definition serve (r : request T) (s : St) : res (answer T * St) :=
  match r with
  | RPush v => s ← Push v s; Ok (ADone, s)
  | RPop => '(v, s) ← Pop s; Ok (AValue v, s)
  | RFull => Ok (ABool (Full s), s)
  | REmpty => Ok (ABool (Empty s), s)
  end.

Fixpoint session (rs : list (request T)) (s : St) : res (list (answer T)) :=
  match rs with
  | [] => Ok []
  | r :: rs => '(a, s) ← serve r s; l ← session rs s; Ok (a :: l)
  end.
End sessions.

(** The abstract stack: a list, and how many elements it may have. *)
Section abstract.
Context {T : Type}.

Definition is_full (cap : option Z) (xs : list T) : bool := bool_decide (cap = Some (Z.of_nat (length xs))).

Definition serve_list (cap : option Z) (r : request T) (xs : list T) : res (answer T * list T) :=
  match r with
  | RPush v => if is_full cap xs then Stop AssertFailed else Ok (ADone, v :: xs)
  | RPop => match xs with x :: xs => Ok (AValue x, xs) | [] => Stop AssertFailed end
  | RFull => Ok (ABool (is_full cap xs), xs)
  | REmpty => Ok (ABool (bool_decide (xs = [])), xs)
  end.

Fixpoint session_list (cap : option Z) (rs : list (request T)) (xs : list T) : res (list (answer T)) :=
  match rs with
  | [] => Ok []
  | r :: rs => '(a, xs) ← serve_list cap r xs; l ← session_list cap rs xs; Ok (a :: l)
  end.
End abstract.

Section refinement.
Context {T St : Type} `{StackLaws T St}.

Lemma session_refines rs : ∀ s xs,
  represents s xs → session rs s = session_list (capacity s) rs xs.
Proof using All.
  induction rs as [|r rs IH]; intros s xs Hs; [done|]. cbn [session session_list].
  destruct r as [v| | |]; cbn [serve serve_list].
  - pose proof (push_spec v s xs Hs) as Hp. unfold is_full. rewrite (full_spec s xs Hs) in Hp.
    case_bool_decide; [by rewrite Hp|]. destruct Hp as (s' & -> & Hs' & Hc). simpl_res.
    by rewrite (IH s' (v :: xs)), Hc.
  - pose proof (pop_spec s xs Hs) as Hp. destruct xs as [|x xs]; [by rewrite Hp|].
    destruct Hp as (s' & -> & Hs' & Hc). simpl_res. by rewrite (IH s' xs), Hc.
  - simpl_res. unfold is_full. by rewrite (full_spec s xs), (IH s xs).
  - simpl_res. by rewrite (empty_spec s xs), (IH s xs).
Qed.

Context `{Countable_out T}.

(** [n] values, counted from [start]. *)
Definition counted (start : T) (n : nat) : list T := (λ i, Nat.iter i increment start) <$> seq 0 n.

Lemma counted_S start n : counted start (S n) = start :: counted (increment start) n.
Proof using Type.
  unfold counted. cbn [seq fmap list_fmap]. f_equal. rewrite <- fmap_S_seq, <- list_fmap_compose.
  apply list_fmap_ext. intros i x _. simpl. by rewrite Nat.iter_swap.
Qed.

Lemma drain_spec xs : ∀ fuel s out,
  represents s xs → (length xs < fuel)%nat →
  ∃ s', drain fuel s out = Ok (out ++ concat (popping <$> xs), s') ∧ represents s' [].
Proof using All.
  induction xs as [|x xs IH]; intros [|fuel] s out Hs Hf; simpl in Hf; try lia; cbn [drain];
    rewrite (empty_spec s _ Hs); simpl.
  - exists s. by rewrite app_nil_r.
  - destruct (pop_spec s _ Hs) as (s' & -> & Hs' & _). simpl_res.
    destruct (IH fuel s' (out ++ popping x) Hs') as (s'' & -> & Hs''); [lia|].
    exists s''. by rewrite <- app_assoc.
Qed.

Lemma push_some_spec n : ∀ count s out xs,
  represents s xs → (∀ c, capacity s = Some c → Z.of_nat (length xs + n) ≤ c) →
  ∃ s', push_some n count s out = Ok (out ++ concat (pushing <$> counted count n), s') ∧
    represents s' (reverse (counted count n) ++ xs).
Proof using All.
  induction n as [|n IH]; intros count s out xs Hs Hc; cbn [push_some].
  - exists s. by rewrite app_nil_r.
  - pose proof (push_spec count s xs Hs) as Hp. rewrite (full_spec s xs Hs) in *.
    case_bool_decide as Hfull; [specialize (Hc _ Hfull); lia|].
    destruct Hp as (s' & E & Hs' & Hc'). cbn [negb ASSERT]. simpl_res. rewrite E.
    destruct (IH (increment count) s' (out ++ pushing count) (count :: xs) Hs') as (s'' & E' & Hs'').
    { intros c Hcap. rewrite Hc' in Hcap. specialize (Hc c Hcap). simpl. lia. }
    exists s''. rewrite E', counted_S, fmap_cons, reverse_cons. cbn [concat]. by rewrite <- !app_assoc.
Qed.

Lemma fill_spec n : ∀ fuel count s out xs,
  represents s xs → capacity s = Some (Z.of_nat (length xs + n)) → (n < fuel)%nat →
  ∃ s', fill fuel count s out = Ok (out ++ concat (pushing <$> counted count n), s') ∧
    represents s' (reverse (counted count n) ++ xs) ∧ capacity s' = capacity s.
Proof using All.
  induction n as [|n IH]; intros [|fuel] count s out xs Hs Hc Hf; try lia; cbn [fill];
    rewrite (full_spec s xs Hs), Hc.
  - rewrite bool_decide_eq_true_2 by (do 2 f_equal; lia). exists s. by rewrite app_nil_r.
  - rewrite bool_decide_eq_false_2 by (intros [=]; lia).
    pose proof (push_spec count s xs Hs) as Hp. rewrite (full_spec s xs Hs), Hc in Hp.
    rewrite bool_decide_eq_false_2 in Hp by (intros [=]; lia).
    destruct Hp as (s' & E & Hs' & Hc'). cbn [negb ASSERT]. simpl_res. rewrite E.
    destruct (IH fuel (increment count) s' (out ++ pushing count) (count :: xs) Hs') as (s'' & E' & Hs'' & Hc'').
    { rewrite Hc'. simpl. do 2 f_equal. lia. } { lia. }
    exists s''. rewrite E', counted_S, fmap_cons, reverse_cons. cbn [concat]. rewrite <- !app_assoc.
    split; [done|]. split; [done|]. by rewrite Hc'', Hc'.
Qed.
End refinement.

(** ** The properties *)

Module StackSpec.

Section spec.
Context (garbage : Z → list Z) (Hgarbage : ∀ n, length (garbage n) = Z.to_nat n).

(** Every implementation is the abstract stack.  Under every sequence of
    Push, Pop, Full and Empty the array of [sz] places answers as a list with
    room for [sz] elements, for each of the three classes that are written
    with an array, and the linked list as a list without a bound; an assertion
    fails exactly where the list overflows or is empty. *)
Theorem stacks_refine_list sz rs :
  1 ≤ sz →
  (s ← ArrayStack.ArrayStack_new garbage sz; session rs s) = session_list (Some sz) rs [] ∧
  (s ← IntStack.Stack_new garbage sz; session rs s) = session_list (Some sz) rs [] ∧
  (s ← TemplateStack.Stack_new garbage sz; session rs s) = session_list (Some sz) rs [] ∧
  session rs ListStack.ListStack_new = session_list None rs [].
Proof using All.
  intros Hsz. unfold ArrayStack.ArrayStack_new, IntStack.Stack_new, TemplateStack.Stack_new.
  rewrite Z.geb_leb, (proj2 (Z.leb_le _ _)) by done. cbn [ASSERT]. simpl_res.
  split_and!; (erewrite session_refines; [reflexivity|]); try (apply holds_empty; [simpl; lia|apply Hgarbage]).
  apply holds_new.
Qed.

(** The self test of the abstract class, for any implementation with room:
    it prints the numbers from 17 on as it pushes them and in the opposite
    order as it pops them, and leaves the stack empty. *)
Lemma SelfTest_prints {St} `{StackLaws Z St} (s : St) (n : nat) :
  represents s [] → (∀ c, capacity s = Some c → Z.of_nat n ≤ c) →
  ∃ s', SelfTest (Z.of_nat n) s
        = Ok (concat (pushing <$> counted 17 n) ++ concat (popping <$> reverse (counted 17 n)), s') ∧
    represents s' [].
Proof.
  clear garbage Hgarbage. intros Hs Hc. unfold SelfTest. rewrite Nat2Z.id.
  destruct (push_some_spec n 17 s [] [] Hs) as (s1 & E1 & Hs1); [done|].
  rewrite app_nil_r in Hs1. rewrite E1. simpl_res.
  destruct (drain_spec _ (S n) s1 (concat (pushing <$> counted 17 n)) Hs1) as (s2 & E2 & Hs2).
  { unfold counted. rewrite length_reverse, length_fmap, length_seq. lia. }
  exists s2. split; [exact E2|done].
Qed.

(** Both implementations pass it with the same output, and deleting the list
    gives back all its cells. *)
Lemma main_prints :
  let lines := concat (pushing <$> seqZ 17 10) ++ concat (popping <$> reverse (seqZ 17 10)) in
  main garbage = Ok (chars "Testing ArrayStack" ++ newline ++ lines ++
                     chars "Testing ListStack" ++ newline ++ lines).
Proof using All.
  intros lines. unfold main, ArrayStack.ArrayStack_new. cbn [ASSERT Z.geb Z.compare Pos.compare Pos.compare_cont].
  simpl_res.
  destruct (SelfTest_prints (ArrayStack.mkArrayStack 10 0 (garbage 10)) 10) as (s1 & E1 & _).
  { apply holds_empty; [simpl; lia|apply Hgarbage]. } { by intros c [= <-]. }
  destruct (SelfTest_prints ListStack.ListStack_new 10) as (s2 & E2 & Hs2); [apply holds_new|done|].
  change (Z.of_nat 10) with 10 in *. rewrite E1. simpl_res. rewrite E2. simpl_res.
  unfold ListStack.ListStack_delete.
  destruct (IntList_delete_spec _ _ Hs2 (S (base.size (IntList.heap (ListStack.stack s2))))) as (l & -> & _);
    [simpl; lia|].
  reflexivity.
Qed.

(** Filling an empty bounded stack and emptying it again. *)
Lemma fill_and_drain {T St} `{StackLaws T St} `{Countable_out T} (start : T) (s : St) (n : nat) :
  represents s [] → capacity s = Some (Z.of_nat n) →
  ∃ s1 s2, fill (S n) start s [] = Ok (concat (pushing <$> counted start n), s1) ∧
    capacity s1 = capacity s ∧
    drain (S n) s1 (concat (pushing <$> counted start n))
    = Ok (concat (pushing <$> counted start n) ++ concat (popping <$> reverse (counted start n)), s2).
Proof.
  clear garbage Hgarbage. intros Hs Hc.
  destruct (fill_spec n (S n) start s [] [] Hs) as (s1 & E1 & Hs1 & Hc1); [done|lia|].
  rewrite app_nil_r in Hs1.
  destruct (drain_spec _ (S n) s1 (concat (pushing <$> counted start n)) Hs1) as (s2 & E2 & _).
  { unfold counted. rewrite length_reverse, length_fmap, length_seq. lia. }
  by exists s1, s2.
Qed.

(** stack.cc: a stack of ten integers. *)
Lemma int_main_prints :
  IntStack.main garbage
  = Ok (concat (pushing <$> seqZ 17 10) ++ concat (popping <$> reverse (seqZ 17 10))).
Proof using All.
  unfold IntStack.main, IntStack.Stack_new, IntStack.SelfTest.
  destruct (fill_and_drain 17 (IntStack.mkStack 10 0 (garbage 10)) 10) as (s1 & s2 & E1 & Hc & E2);
    [apply holds_empty; [simpl; lia|apply Hgarbage]|done|].
  cbn [ASSERT Z.geb Z.compare Pos.compare Pos.compare_cont]. simpl_res. cbn [IntStack.size].
  change (Z.to_nat 10) with 10%nat. rewrite E1. simpl_res. injection Hc as ->.
  change (S (Z.to_nat 10)) with 11%nat. rewrite E2. reflexivity.
Qed.

(** templatestack.cc: ten integers, and the characters from 'a' to 'j'. *)
Lemma template_main_prints (garbage_char : Z → list char) :
  (∀ n, length (garbage_char n) = Z.to_nat n) →
  TemplateStack.main garbage garbage_char
  = Ok (chars "Testing Stack<int>" ++ newline ++
        (concat (pushing <$> seqZ 17 10) ++ concat (popping <$> reverse (seqZ 17 10))) ++
        chars "Testing Stack<char>" ++ newline ++
        (concat (pushing <$> (mkChar <$> seqZ 97 10)) ++
         concat (popping <$> reverse (mkChar <$> seqZ 97 10)))).
Proof using All.
  intros Hgc. unfold TemplateStack.main, TemplateStack.Stack_new, TemplateStack.SelfTest.
  destruct (fill_and_drain 17 (TemplateStack.mkStack 10 0 (garbage 10)) 10) as (s1 & s2 & E1 & Hc1 & E2);
    [apply holds_empty; [simpl; lia|apply Hgarbage]|done|].
  destruct (fill_and_drain (mkChar 97) (TemplateStack.mkStack 10 0 (garbage_char 10)) 10)
    as (s3 & s4 & E3 & Hc3 & E4); [apply holds_empty; [simpl; lia|apply Hgc]|done|].
  cbn [ASSERT Z.geb Z.compare Pos.compare Pos.compare_cont]. simpl_res. cbn [TemplateStack.size].
  change (Z.to_nat 10) with 10%nat. rewrite E1. simpl_res. injection Hc1 as ->.
  change (S (Z.to_nat 10)) with 11%nat. rewrite E2, E3. injection Hc3 as ->.
  change (S (Z.to_nat 10)) with 11%nat. rewrite E4. reflexivity.
Qed.
End spec.

(** Three places: the fourth push fails its assertion, but not on the list. *)
Definition sample_requests : list (request Z) :=
  [RPush 1; RPush 2; RPop; RPush 3; RPush 4; RFull; RPush 5; RPop].

Lemma stacks_refine_list_witness :
  (s ← ArrayStack.ArrayStack_new (λ n, replicate (Z.to_nat n) 7) 3; session sample_requests s)
    = Stop AssertFailed ∧
  session sample_requests ListStack.ListStack_new
    = Ok [ADone; ADone; AValue 2; ADone; ADone; ABool false; ADone; AValue 5].
Proof.
  destruct (stacks_refine_list (λ n, replicate (Z.to_nat n) 7) (λ n, length_replicate _ _) 3 sample_requests)
    as (E1 & _ & _ & E2); [lia|].
  split; [rewrite E1; vm_compute; reflexivity|rewrite E2; vm_compute; reflexivity].
Defined.
End StackSpec.
