(* ===== verification/Airport.v ===== *)
(** * The airport programs (test/scannersmain.c, passengers.c and scanners.c)

    Three user programs that run as processes of the kernel and exchange data
    through files and named semaphores.  The first part is the part of C they
    are written in and the system calls as they see them, over the UNIX files
    of UnixFS and the semaphore table of STable; the second part is the
    programs, statement by statement; the third part runs them.

    A process goes from one system call to the next in one turn, because its
    variables are its own; between two system calls the kernel may switch to
    any process that can go on. *)

From S2P Require Import Prelude NList Bitmap Interrupt Disk FileHdr OpenFile Directory FileSys UnixFS STable.

(** ** Counting semaphores

    The values of the semaphores by their number; Down on a semaphore of value
    0 blocks.  Thread.v has the queues behind them. *)

Module Counters.
Definition new (init : Z) (w : list Z) : Z * list Z := (Z.of_nat (length w), w ++ [init]).
Definition down (s : Z) (w : list Z) : res (list Z) :=
  v ← arr_get w s; if v =? 0 then Stop WouldBlock else arr_set w s (v - 1).
Definition up (s : Z) (w : list Z) : res (list Z) := v ← arr_get w s; arr_set w s (v + 1).
End Counters.

#[global] Instance counters : SemOps (list Z) := {|
  sem_new := Counters.new;
  sem_P := Counters.down;
  sem_V := Counters.up;
  sem_delete := λ _ w, Ok w;
|}.

(** ** System calls *)

Module Calls.

Inductive syscall :=
  | SysCreateSemaphore (name : list Z) (semval : Z)
  | SysUp (name : list Z)
  | SysDown (name : list Z)
  | SysExec (name : list Z)
  | SysCreateF (name : list Z)
  | SysOpenF (name : list Z) (type : Z)
  | SysReadF (count id : Z)
  | SysWriteF (bytes : list Z) (count id : Z)
  | SysCloseF (id : Z)
  | SysPrintString (s : list Z)
  | SysPrintInt (n : Z).

(** The part of the kernel that the processes share, and what they printed. *)
Record Os := mkOs {
  fileSystem : StubFS.FileSystem;
  semTab : STable.STable BitMap.BitMap;
  sems : list Z;
  console : list Z;
}.

Definition with_files (os : Os) (fs : StubFS.FileSystem) : Os := mkOs fs (semTab os) (sems os) (console os).
Definition with_sems (os : Os) (t : STable.STable BitMap.BitMap) (w : list Z) : Os :=
  mkOs (fileSystem os) t w (console os).
Definition print (os : Os) (s : list Z) : Os := mkOs (fileSystem os) (semTab os) (sems os) (console os ++ s).

(** The value in register 2, and the bytes that [ReadF] puts into the buffer. *)
Definition Answer : Type := Z * list Z.

Definition CreateSemaphore (name : list Z) (semval : Z) (os : Os) : res (Answer * Os) :=
  '(r, t, w) ← STable.Create name semval (semTab os) (sems os); Ok ((r, []), with_sems os t w).
Definition Up (name : list Z) (os : Os) : res (Answer * Os) :=
  '(r, w) ← STable.Signal name (semTab os) (sems os); Ok ((r, []), with_sems os (semTab os) w).
Definition Down (name : list Z) (os : Os) : res (Answer * Os) :=
  '(r, w) ← STable.Wait name (semTab os) (sems os); Ok ((r, []), with_sems os (semTab os) w).

Definition CreateF (name : list Z) (os : Os) : res (Answer * Os) :=
  if Z.of_nat (length (Directory.until_nul name)) =? 0 then Ok ((-1, []), os)
  else '(_, fs) ← StubFS.Create (fileSystem os) name 0; Ok ((0, []), with_files os fs).

(** For the types 0 and 1; the programs do not open the standard streams. *)
Definition OpenF (name : list Z) (type : Z) (os : Os) : res (Answer * Os) :=
  '(f, fs) ← StubFS.Open_type (fileSystem os) name type; Ok ((f, []), with_files os fs).

Definition set_file (os : Os) (id : Z) (f : option StubFS.OpenFile) (u : Unix.Unix) : res Os :=
  t ← arr_set (StubFS.file_table (fileSystem os)) id f; Ok (with_files os (StubFS.mkFileSystem t u)).

(** No byte counts as the end of the file, and the file is rewound. *)
Definition file_result (id nbytes : Z) (bs : list Z) (f : StubFS.OpenFile) (u : Unix.Unix) (os : Os)
    : res (Answer * Os) :=
  if nbytes =? 0 then os ← set_file os id (Some (StubFS.with_offset f 0)) u; Ok ((-2, bs), os)
  else os ← set_file os id (Some f) u; Ok ((nbytes, bs), os).

(** An open file; a number outside the table, or of a closed file, is refused,
    and so are the standard streams, which the programs do not use. *)
Definition file_at (id : Z) (os : Os) : res (option StubFS.OpenFile) :=
  if (id <? 2) || (id >=? FileSys.N_FILES_IN_TABLE) then Ok None
  else arr_get (StubFS.file_table (fileSystem os)) id.

Definition ReadF (count id : Z) (os : Os) : res (Answer * Os) :=
  let u := StubFS.unix (fileSystem os) in
  f ← file_at id os;
  match f with
  | None => Ok ((-1, []), os)
  | Some f =>
      if negb (StubFS.type f =? 0) then Ok ((-1, []), os)
      else '(nbytes, bs, f) ← StubFS.Read u f count; file_result id nbytes bs f u os
  end.

(** The kernel copies at most [count] characters of the string. *)
Definition WriteF (bytes : list Z) (count id : Z) (os : Os) : res (Answer * Os) :=
  let buffer := Directory.until_nul (take (Z.to_nat count) bytes) in
  f ← file_at id os;
  match f with
  | None => Ok ((-1, []), os)
  | Some f =>
      let n := Z.of_nat (length buffer) in
      let n := if count + 1 <? n then count + 1 else n in
      '(nbytes, f, u) ← StubFS.Write (StubFS.unix (fileSystem os)) f buffer n;
      file_result id nbytes [] f u os
  end.

Definition CloseF (id : Z) (os : Os) : res (Answer * Os) :=
  f ← file_at id os;
  match f with
  | None => Ok ((-1, []), os)
  | Some _ => os ← set_file os id None (StubFS.unix (fileSystem os)); Ok ((0, []), os)
  end.

(** [Exec] is served by the machine below. *)
Definition serve (c : syscall) (os : Os) : res (Answer * Os) :=
  match c with
  | SysCreateSemaphore name semval => CreateSemaphore name semval os
  | SysUp name => Up name os
  | SysDown name => Down name os
  | SysExec _ => Stop Undefined
  | SysCreateF name => CreateF name os
  | SysOpenF name type => OpenF name type os
  | SysReadF count id => ReadF count id os
  | SysWriteF bytes count id => WriteF bytes count id os
  | SysCloseF id => CloseF id os
  | SysPrintString s => Ok ((0, []), print os s)
  | SysPrintInt n => Ok ((0, []), print os (decimal n))
  end.
End Calls.

(** ** Statements *)

Module Lang.
Import Calls.

(** The variables of a process that are numbers, and its one array. *)
Definition vars : Type := string → Z.
Definition set (x : string) (v : Z) (e : vars) : vars := λ y, if String.eqb y x then v else e y.

Inductive stmt :=
  | Skip
  | Assign (x : string) (v : vars → Z)
  | Store (i v : vars → Z)
  | Call (x : string) (c : vars → syscall)             (* x = c *)
  | Read (x buffer : string) (id : vars → Z)           (* x = ReadF(&buffer, 1, id) *)
  | Seq (s1 s2 : stmt)
  | If (b : vars → bool) (s1 s2 : stmt)
  | While (b : vars → bool) (s : stmt)
  | Break
  | Return.

(** What a process still has to do. *)
Inductive frame := Run (s : stmt) | Loop (b : vars → bool) (s : stmt).
Record Proc := mkProc { todo : list frame; env : vars; array : list Z }.

Fixpoint leave (k : list frame) : list frame :=
  match k with
  | [] => []
  | Loop _ _ :: k => k
  | Run _ :: k => leave k
  end.

(** One statement that is no system call; [None] in front of a call and at the
    end. *)
Definition local (p : Proc) : res (option Proc) :=
  let e := env p in
  let go k := Ok (Some (mkProc k e (array p))) in
  match todo p with
  | [] => Ok None
  | Loop b s :: k => go (if b e then Run s :: Loop b s :: k else k)
  | Run Skip :: k => go k
  | Run (Assign x v) :: k => Ok (Some (mkProc k (set x (v e) e) (array p)))
  | Run (Store i v) :: k => a ← arr_set (array p) (i e) (v e); Ok (Some (mkProc k e a))
  | Run (Call _ _) :: _ => Ok None
  | Run (Read _ _ _) :: _ => Ok None
  | Run (Seq s1 s2) :: k => go (Run s1 :: Run s2 :: k)
  | Run (If b s1 s2) :: k => go (Run (if b e then s1 else s2) :: k)
  | Run (While b s) :: k => go (Loop b s :: k)
  | Run Break :: k => go (leave k)
  | Run Return :: _ => go []
  end.

(** The process runs on to its next system call. *)
Fixpoint settle (fuel : nat) (p : Proc) : res Proc :=
  match fuel with
  | O => Stop OutOfFuel
  | S fuel => p' ← local p; match p' with Some p' => settle fuel p' | None => Ok p end
  end.

(** The statements between two calls of the airport programs. *)
Definition local_fuel : nat := 64.
End Lang.

Declare Scope airport_scope.
Delimit Scope airport_scope with airport.
Notation "s1 ;;; s2" := (Lang.Seq s1 s2) (at level 62, right associativity) : airport_scope.
Notation "x ::= v" := (Lang.Assign x v) (at level 61) : airport_scope.

(** ** The programs *)

Module Programs.
Import Calls Lang.
#[local] Open Scope airport_scope.
#[local] Open Scope string_scope.
#[local] Open Scope Z_scope.

Notation "'call' x c" := (Call x (λ _, c)) (at level 10, x at level 9, c at level 9).

Definition PrintString (s : string) : stmt := call "" (SysPrintString (chars s)).
Definition PrintLine (s : string) : stmt := call "" (SysPrintString (chars s ++ newline)).
Definition PrintInt (x : string) : stmt := Call "" (λ e, SysPrintInt (e x)).
Definition PrintNewline : stmt := call "" (SysPrintString newline).
Definition CloseF (x : string) : stmt := Call "" (λ e, SysCloseF (e x)).
Definition Up (s : string) : stmt := call "" (SysUp (chars s)).
Definition Down (s : string) : stmt := call "" (SysDown (chars s)).
Definition OpenF (x name : string) : stmt := call x (SysOpenF (chars name) 0).
Definition CreateF (x name : string) : stmt := call x (SysCreateF (chars name)).
(** [WriteF(&x, 1, id)] and [WriteF(string, n, id)] *)
Definition WriteChar (x id : string) : stmt := Call "" (λ e, SysWriteF [e x] 1 (e id)).
Definition WriteF (s : list Z) (n : Z) (id : string) : stmt := Call "" (λ e, SysWriteF (s ++ [0]) n (e id)).

Definition forever (s : stmt) : stmt := While (λ _, true) s.
(** [if (x == -1) s] *)
Definition on_error (x : string) (s : stmt) : stmt := If (λ e, e x =? -1) s Skip.
Definition is_digit (c : Z) : bool := (c >=? 48) && (c <=? 57).

(** *** scannersmain.c *)

(** The string literal, with its NUL. *)
Definition saveWeight : list Z := replicate 121 32 ++ [0].

Definition create_semaphore (name : string) : stmt :=
  call "semaphoreCheck" (SysCreateSemaphore (chars name) 0);;;
  on_error "semaphoreCheck" (PrintLine "Loi tao semaphore";;; Return).

(** The loop that reads the number of flights. *)
Definition read_number : stmt :=
  "numPoint" ::= (λ _, 0);;;
  forever (
    Read "" "tempbuffer" (λ e, e "readInput");;;
    If (λ e, e "tempbuffer" =? 10) Break
      (If (λ e, is_digit (e "tempbuffer"))
        ("numPoint" ::= (λ e, s32 (e "numPoint" * 10 + (e "tempbuffer" - 48)))) Skip)).

Definition start_up : stmt :=
  create_semaphore "main";;;
  create_semaphore "passengers";;;
  create_semaphore "scanners";;;
  create_semaphore "maincounter";;;
  OpenF "readInput" "input.txt";;;
  on_error "readInput" (PrintLine "Khong the doc file input ";;; Return);;;
  read_number;;;
  PrintString "Gia tri so la: ";;;
  PrintInt "numPoint";;;
  PrintNewline;;;
  CreateF "fileStatus" "output.txt";;;
  on_error "fileStatus" (PrintLine "Loi tao file output.txt";;; Return);;;
  OpenF "writeOutput" "output.txt";;;
  on_error "writeOutput" (CloseF "readInput";;;
    PrintLine "Khong mo file output.txt de viet ket qua ";;; Return);;;
  call "passengersPID" (SysExec (chars "./test/passengers"));;;
  on_error "passengersPID" Return;;;
  call "scannersPID" (SysExec (chars "./test/scanners"));;;
  on_error "scannersPID" Return.

(** The loop that copies a line of the input into passengers.txt. *)
Definition copy_line : stmt :=
  forever (
    Read "readSuccess" "tempbuffer" (λ e, e "readInput");;;
    If (λ e, e "readSuccess" <=? 0) Break Skip;;;
    "saveSize" ::= (λ e, s32 (e "saveSize" + 1));;;
    Store (λ e, e "saveSize") (λ e, e "tempbuffer");;;
    If (λ e, e "tempbuffer" =? 10) Break (WriteChar "tempbuffer" "writePassengers")).

(** The loop that copies scannerid.txt into the output. *)
Definition copy_ids : stmt :=
  forever (
    Read "readStatus" "tempbuffer" (λ e, e "readScannerId");;;
    If (λ e, e "readStatus" <? 0)
      (WriteF [13; 10] 2 "writeOutput";;; CloseF "readScannerId";;; Up "maincounter";;; Break) Skip;;;
    WriteChar "tempbuffer" "writeOutput";;;
    WriteF (replicate 7 32) 7 "writeOutput").

Definition flight : stmt :=
  CreateF "fileStatus" "passengers.txt";;;
  on_error "fileStatus" (CloseF "readInput";;; CloseF "writeOutput";;;
    PrintLine "Khong the tao file passengers.txt";;; Return);;;
  OpenF "writePassengers" "passengers.txt";;;
  on_error "writePassengers" (CloseF "readInput";;; CloseF "writeOutput";;;
    PrintLine "Loi mo file passengers.txt";;; Return);;;
  PrintString "Lan handle thu: ";;;
  PrintInt "numPoint";;;
  PrintNewline;;;
  copy_line;;;
  CloseF "writePassengers";;;
  Up "passengers";;;
  Down "main";;;
  OpenF "readScannerId" "scannerid.txt";;;
  on_error "readScannerId" (CloseF "readInput";;; CloseF "writeOutput";;; Return);;;
  "idSave" ::= (λ _, 0);;;
  copy_ids.

(** [while (numPoint--)] *)
Definition next_flight : stmt :=
  "numPoint" ::= (λ e, s32 (e "numPoint" - 1));;;
  If (λ e, e "numPoint" =? -1) Break Skip;;;
  flight.

Definition main : stmt :=
  "saveSize" ::= (λ _, -1);;;
  start_up;;;
  forever next_flight;;;
  CloseF "readInput";;;
  CloseF "writeOutput";;;
  Return.

(** *** passengers.c *)

(** [x = getFileLength(id)]; its own variable [tempbuffer] is another one. *)
Definition getFileLength (x id : string) : stmt :=
  "cnt" ::= (λ _, 0);;;
  forever (
    Read "isValid" "getFileLength_tempbuffer" (λ e, e id);;;
    If (λ e, e "isValid" <? 0) Break Skip;;;
    "cnt" ::= (λ e, s32 (e "cnt" + 1)));;;
  x ::= (λ e, e "cnt").

(** What follows when a piece of luggage has been written. *)
Definition hand_over : stmt :=
  CloseF "writeLugWeight";;;
  Up "scanners";;;
  Down "passengers";;;
  CreateF "fileStatus" "lugweight.txt";;;
  on_error "fileStatus" (PrintLine "Loi tao file lugweight.txt trong vong lap";;;
    CloseF "readPassengers";;; Up "main";;; Return);;;
  OpenF "writeLugWeight" "lugweight.txt";;;
  on_error "writeLugWeight" (PrintLine "Loi mo file lugweight.txt trong vong lap";;;
    CloseF "readPassengers";;; Up "main";;; Return).

Definition next_char : stmt :=
  "isEndLug" ::= (λ _, 0);;;
  Read "" "tempbuffer" (λ e, e "readPassengers");;;
  If (λ e, negb (e "tempbuffer" =? 32)) (WriteChar "tempbuffer" "writeLugWeight") ("isEndLug" ::= (λ _, 1));;;
  If (λ e, e "filePointer" =? s32 (e "fileLength" - 1))
    (WriteF [10] 1 "writeLugWeight";;; "isEndLug" ::= (λ _, 1)) Skip;;;
  If (λ e, e "isEndLug" =? 1) hand_over Skip;;;
  "filePointer" ::= (λ e, s32 (e "filePointer" + 1)).

Definition check_in : stmt :=
  Down "passengers";;;
  CreateF "fileStatus" "scannerid.txt";;;
  on_error "fileStatus" (PrintLine "Loi tao file scannerid.txt";;; Up "main";;; Return);;;
  OpenF "readPassengers" "passengers.txt";;;
  on_error "readPassengers" (PrintLine "Loi doc file passengers.txt ";;; Up "main";;; Return);;;
  getFileLength "fileLength" "readPassengers";;;
  CloseF "readPassengers";;;
  OpenF "readPassengers" "passengers.txt";;;
  CreateF "fileStatus" "lugweight.txt";;;
  on_error "fileStatus" (PrintLine "Loi tao file lugweight.txt";;;
    CloseF "readPassengers";;; Up "main";;; Return);;;
  OpenF "writeLugWeight" "lugweight.txt";;;
  on_error "writeLugWeight" (PrintLine "Loi mo file lugweight.txt";;;
    CloseF "readPassengers";;; Up "main";;; Return);;;
  "filePointer" ::= (λ _, 0);;;
  While (λ e, e "filePointer" <? e "fileLength") next_char;;;
  Up "main".

Definition passengers : stmt := Up "maincounter";;; forever check_in;;; Return.

(** *** scanners.c *)

(** The loop that reads the weight of a piece of luggage. *)
Definition read_weight : stmt :=
  forever (
    Read "isEnd" "tempbuffer" (λ e, e "readLugWeight");;;
    If (λ e, e "isEnd" <? 0) (CloseF "readLugWeight";;; Break) Skip;;;
    If (λ e, is_digit (e "tempbuffer"))
      ("weight" ::= (λ e, s32 (e "weight" * 10 + (e "tempbuffer" - 48))))
      (If (λ e, e "tempbuffer" =? 10) ("readEndline" ::= (λ _, 1);;; CloseF "readLugWeight";;; Break) Skip)).

Definition choose_scanner : stmt :=
  If (λ e, (e "scanner1" <=? e "scanner2") && (e "scanner1" <=? e "scanner3"))
    ("scanner1" ::= (λ e, s32 (e "scanner1" + e "weight"));;; WriteF [49] 1 "writeScannerId")
    (If (λ e, (e "scanner2" <=? e "scanner1") && (e "scanner2" <=? e "scanner3"))
      ("scanner2" ::= (λ e, s32 (e "scanner2" + e "weight"));;; WriteF [50] 1 "writeScannerId")
      ("scanner3" ::= (λ e, s32 (e "scanner3" + e "weight"));;; WriteF [51] 1 "writeScannerId")).

Definition scan_luggage : stmt :=
  Down "scanners";;;
  OpenF "readLugWeight" "lugweight.txt";;;
  on_error "readLugWeight" (PrintString "Loi doc file lugweight.txt tu scanners";;;
    CloseF "writeScannerId";;; Up "passengers";;; Return);;;
  "weight" ::= (λ _, 0);;;
  "readEndline" ::= (λ _, 0);;;
  read_weight;;;
  If (λ e, negb (e "weight" =? 0))
    (PrintString "weight: ";;; PrintInt "weight";;; PrintNewline;;; choose_scanner) Skip;;;
  If (λ e, e "readEndline" =? 1)
    ("scanner1" ::= (λ _, 0);;; "scanner2" ::= (λ _, 0);;; "scanner3" ::= (λ _, 0);;;
     CloseF "writeScannerId";;; Up "passengers";;; Break) Skip;;;
  Up "passengers".

Definition scan_flight : stmt :=
  Down "maincounter";;;
  OpenF "writeScannerId" "scannerid.txt";;;
  on_error "writeScannerId" (PrintString "Loi mo file scannerid.txt";;; Up "passengers");;;
  forever scan_luggage.

Definition scanners : stmt :=
  "scanner1" ::= (λ _, 0);;; "scanner2" ::= (λ _, 0);;; "scanner3" ::= (λ _, 0);;;
  forever scan_flight;;;
  Return.

(** What [Exec] finds in test/. *)
Definition program (name : list Z) : option stmt :=
  if bool_decide (name = chars "./test/passengers") then Some passengers
  else if bool_decide (name = chars "./test/scanners") then Some scanners
  else None.
End Programs.

(** ** The machine *)

Module Processes.
Import Calls Lang Programs.

(** The processes by their number; process 0 is scannersmain. *)
Record Sys := mkSys { procs : list Proc; os : Os }.

Section system.
(** The uninitialised variables of a new process. *)
Context (garbage : Z → vars).

Definition start (pid : Z) (s : stmt) : res Proc :=
  settle local_fuel (mkProc [Run s] (garbage pid) saveWeight).

(** The process returns from a call and runs on. *)
Definition resume (p : Proc) (k : list frame) (x buffer : string) (a : Answer) : res Proc :=
  let e := match snd a with c :: _ => set buffer c (env p) | [] => env p end in
  settle local_fuel (mkProc k (set x (fst a) e) (array p)).

(** Exec: the number of the new process, or -1. *)
Definition Exec (name : list Z) (s : Sys) : res (Answer * Sys) :=
  match program name with
  | None => Ok ((-1, []), s)
  | Some body =>
      let pid := Z.of_nat (length (procs s)) in
      p ← start pid body; Ok ((pid, []), mkSys (procs s ++ [p]) (os s))
  end.

Definition perform (c : syscall) (s : Sys) : res (Answer * Sys) :=
  match c with
  | SysExec name => Exec name s
  | _ => '(a, o) ← serve c (os s); Ok (a, mkSys (procs s) o)
  end.

(** A turn of process [i]; a process that has ended has none. *)
Definition turn (i : nat) (s : Sys) : res Sys :=
  match procs s !! i with
  | None => Stop WouldBlock
  | Some p =>
      match todo p with
      | Run (Call x c) :: k =>
          '(a, s) ← perform (c (env p)) s; p ← resume p k x "" a; Ok (mkSys (<[i := p]> (procs s)) (os s))
      | Run (Read x buffer id) :: k =>
          '(a, s) ← perform (SysReadF 1 (id (env p))) s; p ← resume p k x buffer a;
          Ok (mkSys (<[i := p]> (procs s)) (os s))
      | _ => Stop WouldBlock
      end
  end.

(** The machine halts when scannersmain has ended. *)
Definition finished (s : Sys) : bool := match procs s !! 0%nat with Some p => bool_decide (length (todo p) = 0%nat) | None => true end.

(** The kernel gives the processor to any process that can go on. *)
Definition step (s s' : Sys) : Prop := finished s = false ∧ ∃ i, turn i s = Ok s'.

(** A turn that fails other than by waiting. *)
Definition crashes (s : Sys) : Prop := ∃ i e, turn i s = Stop e ∧ e ≠ WouldBlock.

Definition boot (u : Unix.Unix) : res Sys :=
  fs ← StubFS.FileSystem_new u;
  b ← BitMap.BitMap_new [0] STable.MAX_SEMAPHORE;
  p ← start 0 main;
  Ok (mkSys [p] (mkOs fs (STable.STable_new b) [] [])).

(** One schedule: the processes take turns in the given order; who cannot go
    on is passed over. *)
Fixpoint run (schedule : list nat) (s : Sys) : res Sys :=
  match schedule with
  | [] => Ok s
  | i :: schedule =>
      if finished s then Ok s
      else match turn i s with
           | Ok s => run schedule s
           | Stop WouldBlock => run schedule s
           | Stop e => Stop e
           end
  end.
End system.
End Processes.
