(* ===== verification/AirportOs.v ===== *)
(** * What the system calls do for the airport programs

    The five files that the programs exchange, by name and contents, and the
    open files as a map from numbers to a file and a position: every call of
    Airport.v on the UNIX files and the table of UnixFS.v does to this map what
    its name says.  The four semaphores are four counters. *)

From S2P Require Import Prelude NList Bitmap Interrupt Disk FileHdr OpenFile Directory FileSys UnixFS STable Airport.
Import Calls.

(** ** The files *)

Inductive fname := Input | Output | PassengersTxt | ScannerId | LugWeight.
#[global] Instance fname_eq_dec : EqDecision fname.
Proof. solve_decision. Defined.

Definition path (f : fname) : list Z :=
  chars match f with
        | Input => "input.txt" | Output => "output.txt" | PassengersTxt => "passengers.txt"
        | ScannerId => "scannerid.txt" | LugWeight => "lugweight.txt"
        end.

(** The contents of the files that exist. *)
Record Data := mkData { d_in : option (list Z); d_out : option (list Z); d_pass : option (list Z);
  d_scan : option (list Z); d_lug : option (list Z) }.

Definition get (D : Data) (f : fname) : option (list Z) :=
  match f with Input => d_in D | Output => d_out D | PassengersTxt => d_pass D | ScannerId => d_scan D | LugWeight => d_lug D end.
Definition put (f : fname) (bs : list Z) (D : Data) : Data :=
  match f with
  | Input => mkData (Some bs) (d_out D) (d_pass D) (d_scan D) (d_lug D)
  | Output => mkData (d_in D) (Some bs) (d_pass D) (d_scan D) (d_lug D)
  | PassengersTxt => mkData (d_in D) (d_out D) (Some bs) (d_scan D) (d_lug D)
  | ScannerId => mkData (d_in D) (d_out D) (d_pass D) (Some bs) (d_lug D)
  | LugWeight => mkData (d_in D) (d_out D) (d_pass D) (d_scan D) (Some bs)
  end.

Lemma get_put f g bs D : get (put f bs D) g = if decide (g = f) then Some bs else get D g.
Proof. by destruct f, g. Qed.

(** The open files: a file and a position in it. *)
Notation Handles := (gmap Z (fname * Z)).

Definition handle_of (u : Unix.Unix) (h : option (fname * Z)) : option StubFS.OpenFile :=
  match h with
  | Some (f, off) => ino ← Unix.names u !! path f; Some (StubFS.mkOpenFile ino off 0)
  | None => None
  end.

Record files_rep (fs : StubFS.FileSystem) (D : Data) (H : Handles) : Prop := mkFilesRep {
  fr_wf : Unix.wf (StubFS.unix fs);
  fr_data f : Unix.contents (StubFS.unix fs) <$> (Unix.names (StubFS.unix fs) !! path f) = get D f;
  fr_inj f g ino : Unix.names (StubFS.unix fs) !! path f = Some ino →
    Unix.names (StubFS.unix fs) !! path g = Some ino → f = g;
  fr_table : length (StubFS.file_table fs) = Z.to_nat FileSys.N_FILES_IN_TABLE;
  fr_slots j : 2 ≤ j < FileSys.N_FILES_IN_TABLE →
    StubFS.file_table fs !! Z.to_nat j = Some (handle_of (StubFS.unix fs) (H !! j));
  fr_handles : map_Forall (λ j h, 2 ≤ j < FileSys.N_FILES_IN_TABLE ∧ 0 ≤ h.2 ∧ is_Some (get D h.1)) H;
  fr_allowed f : path f ∉ Unix.refused (StubFS.unix fs);
}.

Section calls.
Implicit Types (fs : StubFS.FileSystem) (D : Data) (H : Handles) (o : Os).

Lemma fr_name fs D H f bs :
  files_rep fs D H → get D f = Some bs →
  ∃ ino, Unix.names (StubFS.unix fs) !! path f = Some ino ∧ Unix.contents (StubFS.unix fs) ino = bs ∧ 0 ≤ ino.
Proof.
  intros Hr Hf. rewrite <- (fr_data _ _ _ Hr f) in Hf.
  destruct (Unix.names _ !! path f) as [ino|] eqn:E; [|done]. injection Hf as Hf.
  exists ino. split_and!; [done|done|]. by apply (Unix.wf_names _ (fr_wf _ _ _ Hr) _ _ E).
Qed.

Lemma fr_handle fs D H r f off :
  files_rep fs D H → H !! r = Some (f, off) →
  ∃ bs ino, get D f = Some bs ∧ Unix.names (StubFS.unix fs) !! path f = Some ino ∧
    Unix.contents (StubFS.unix fs) ino = bs ∧ 2 ≤ r < FileSys.N_FILES_IN_TABLE ∧ 0 ≤ off ∧
    StubFS.file_table fs !! Z.to_nat r = Some (Some (StubFS.mkOpenFile ino off 0)).
Proof.
  intros Hr Hh. destruct (fr_handles _ _ _ Hr r _ Hh) as (Hrange & Hoff & [bs Hbs]). simpl in *.
  destruct (fr_name _ _ _ _ _ Hr Hbs) as (ino & Hn & Hc & _). exists bs, ino. split_and!; try done; try lia.
  rewrite (fr_slots _ _ _ Hr r Hrange), Hh. simpl. by rewrite Hn.
Qed.

(** An entry of the table changes. *)
Lemma fr_set fs D H r h :
  files_rep fs D H → 2 ≤ r < FileSys.N_FILES_IN_TABLE →
  (∀ f off, h = Some (f, off) → 0 ≤ off ∧ is_Some (get D f)) →
  files_rep (StubFS.mkFileSystem (<[Z.to_nat r := handle_of (StubFS.unix fs) h]> (StubFS.file_table fs)) (StubFS.unix fs))
    D (partial_alter (λ _, h) r H).
Proof.
  intros [H1 H2 H3 H4 H5 H6 H7] Hr Hh. split; simpl; try done.
  - by rewrite length_insert.
  - intros j Hj. destruct (decide (j = r)) as [->|Hne].
    + rewrite lookup_partial_alter_eq, list_lookup_insert_eq; [done|]. rewrite H4. unfold FileSys.N_FILES_IN_TABLE in *. lia.
    + rewrite lookup_partial_alter_ne, list_lookup_insert_ne by (done || lia). by apply H5.
  - intros j [f off] Hj. destruct (decide (j = r)) as [->|Hne].
    + rewrite lookup_partial_alter_eq in Hj. split; [done|]. by apply Hh.
    + rewrite lookup_partial_alter_ne in Hj by done. by apply H6 in Hj.
Qed.

Lemma fr_update fs D H r f off :
  files_rep fs D H → is_Some (H !! r) → 0 ≤ off → is_Some (get D f) →
  ∃ ino, Unix.names (StubFS.unix fs) !! path f = Some ino ∧
    files_rep (StubFS.mkFileSystem (<[Z.to_nat r := Some (StubFS.mkOpenFile ino off 0)]> (StubFS.file_table fs)) (StubFS.unix fs))
      D (<[r := (f, off)]> H).
Proof.
  intros Hr [h Hh] Hoff [bs Hf]. destruct (fr_name _ _ _ _ _ Hr Hf) as (ino & Hn & _). exists ino. split; [done|].
  destruct (fr_handles _ _ _ Hr r _ Hh) as (Hrange & _).
  pose proof (fr_set fs D H r (Some (f, off)) Hr Hrange) as Hs. simpl in Hs. rewrite Hn in Hs. apply Hs.
  intros ? ? [= <- <-]. split; [done|by exists bs].
Qed.

(** The contents of a file change. *)
Lemma fr_write fs D H f ino bs :
  files_rep fs D H → Unix.names (StubFS.unix fs) !! path f = Some ino → 
  files_rep (StubFS.mkFileSystem (StubFS.file_table fs) (Unix.with_contents (StubFS.unix fs) ino bs)) (put f bs D) H.
Proof.
  intros Hr Hn. pose proof Hr as [H1 H2 H3 H4 H5 H6 H7]. split; simpl; try done.
  - apply Unix.with_contents_wf; [done|]. by apply (Unix.wf_names _ H1 _ _ Hn).
  - intros g. rewrite get_put. destruct (decide (g = f)) as [->|Hne].
    + rewrite Hn. simpl. by rewrite Unix.contents_with, bool_decide_eq_true_2.
    + rewrite <- (H2 g). destruct (Unix.names _ !! path g) as [ino'|] eqn:E; [|done]. simpl. f_equal.
      rewrite Unix.contents_with, bool_decide_eq_false_2; [done|]. intros Heq. apply Hne, (H3 g f ino'); congruence.
  - intros j [g off] Hj. destruct (H6 j _ Hj) as (? & ? & ?). split; [done|split; [done|]]. rewrite get_put. by case_decide.
Qed.

Lemma path_cname f : Unix.cname (path f) = path f.
Proof. by destruct f. Qed.
Lemma path_inj f g : path f = path g → f = g.
Proof. by destruct f, g. Qed.

(** *** The calls *)

Lemma CreateF_rep o D H f :
  files_rep (fileSystem o) D H →
  ∃ fs, CreateF (path f) o = Ok ((0, []), with_files o fs) ∧ files_rep fs (put f [] D) H.
Proof.
  intros Hr. unfold CreateF.
  assert (Z.of_nat (length (Directory.until_nul (path f))) =? 0 = false) as -> by (by destruct f).
  destruct (Unix.OpenForWrite_spec (StubFS.unix (fileSystem o)) (path f) (fr_wf _ _ _ Hr))
    as (u' & Eu & Ec & Hwf & Hpos & _); [rewrite path_cname; apply Hr|].
  unfold StubFS.Create. rewrite Eu. simpl_res. rewrite (proj2 (Z.eqb_neq _ (-1))) by lia. simpl_res.
  unfold Unix.open_create in Ec. rewrite path_cname in *. rewrite decide_False in Ec by apply Hr.
  clear Eu. destruct (Unix.names (StubFS.unix (fileSystem o)) !! path f) as [ino|] eqn:E.
  - injection Ec as <-. eexists. split; [reflexivity|]. by apply fr_write.
  - pose proof Hr as [H1 H2 H3 H4 H5 H6 H7]. pose proof (Unix.wf_next0 _ H1) as H0.
    injection Ec as <-. eexists. split; [reflexivity|].
    assert (∀ g ino, Unix.names (StubFS.unix (fileSystem o)) !! path g = Some ino →
      g ≠ f ∧ ino ≠ Unix.next_inode (StubFS.unix (fileSystem o))) as Hold.
    { intros g ino Hg. split; [congruence|]. intros ->.
      destruct (Unix.wf_names _ H1 _ _ Hg) as [_ [? Hx]]. apply (Unix.wf_next _ H1) in Hx. lia. }
    set (v := Unix.next_inode _) in *. split; simpl; try done.
    + intros g. rewrite get_put. destruct (decide (g = f)) as [->|Hne].
      * rewrite lookup_insert_eq. simpl. unfold Unix.contents. simpl. by rewrite lookup_insert_eq.
      * rewrite lookup_insert_ne by (intros Heq; by apply path_inj in Heq). rewrite <- (H2 g).
        destruct (Unix.names _ !! path g) as [ino|] eqn:Eg; [|done]. simpl. f_equal. unfold Unix.contents. simpl.
        rewrite lookup_insert_ne; [done|]. intros <-. by apply Hold in Eg as [_ ?].
    + intros g g' ino Hg Hg'. apply lookup_insert_Some in Hg as [[Eg <-]|[_ Hg]];
        apply lookup_insert_Some in Hg' as [[Eg' Ei]|[_ Hg']].
      * apply path_inj. congruence.
      * by apply Hold in Hg' as [_ ?].
      * subst ino. by apply Hold in Hg as [_ ?].
      * by apply (H3 g g' ino).
    + intros j Hj. rewrite (H5 j Hj). f_equal. unfold handle_of. destruct (H !! j) as [[g off]|] eqn:Ej; [|done].
      destruct (H6 j _ Ej) as (_ & _ & [bs Hb]). simpl in Hb.
      destruct (fr_name _ _ _ _ _ Hr Hb) as (ino & Hn & _). rewrite Hn. cbn [Unix.names StubFS.unix]. rewrite lookup_insert_ne; [by rewrite Hn|].
      intros Heq. apply path_inj in Heq. by apply Hold in Hn as [? _].
    + intros j [g off] Hj. destruct (H6 j _ Hj) as (? & ? & ?). split; [done|split; [done|]]. rewrite get_put. by case_decide.
Qed.

(** A table that is not full has a free slot. *)
Lemma free_handle H : (size H < 98)%nat → ∃ j, 2 ≤ j < FileSys.N_FILES_IN_TABLE ∧ H !! j = None.
Proof.
  intros Hs. destruct (decide (Exists (λ j, H !! j = None) (seqZ 2 98))) as [He|Hn].
  - apply Exists_exists in He as (j & Hj & E). apply elem_of_seqZ in Hj. exists j. split; [|done].
    unfold FileSys.N_FILES_IN_TABLE. lia.
  - exfalso. assert (list_to_set (seqZ 2 98) ⊆ dom H) as Hsub.
    { intros j Hj. apply elem_of_list_to_set in Hj. apply elem_of_dom, not_eq_None_Some. intros E.
      apply Hn, Exists_exists. eauto. }
    apply subseteq_size in Hsub. rewrite size_dom in Hsub.
    rewrite size_list_to_set in Hsub by apply NoDup_seqZ. rewrite length_seqZ in Hsub. lia.
Qed.

Lemma OpenF_rep o D H f :
  files_rep (fileSystem o) D H → is_Some (get D f) → (size H < 98)%nat →
  ∃ r fs, OpenF (path f) 0 o = Ok ((r, []), with_files o fs) ∧ 2 ≤ r ∧ H !! r = None ∧
    files_rep fs D (<[r := (f, 0)]> H).
Proof.
  intros Hr [bs Hf] Hs. destruct (fr_name _ _ _ _ _ Hr Hf) as (ino & Hn & _ & Hpos).
  destruct (free_handle H Hs) as (j & Hj & Ej).
  assert (∃ r, StubFS.getIdxFreeSlot (fileSystem o) = Ok r ∧ 2 ≤ r < FileSys.N_FILES_IN_TABLE ∧
            StubFS.file_table (fileSystem o) !! Z.to_nat r = Some None) as (r & Er & Hrange & Hfree).
  { destruct (StubFS.stub_free_slot_spec (StubFS.file_table (fileSystem o)) 2
      (Z.to_nat (FileSys.N_FILES_IN_TABLE - 2))) as (r & E & Hcase); [done|by rewrite (fr_table _ _ _ Hr)|].
    exists r. split; [exact E|]. destruct Hcase as [[_ Hall]|Hok]; [|exact Hok].
    destruct (Hall j) as [x Hx]; [exact Hj|]. rewrite (fr_slots _ _ _ Hr j Hj), Ej in Hx. done. }
  exists r. unfold OpenF, StubFS.Open_type. cbn [Z.eqb Pos.eqb orb]. rewrite Er. simpl_res.
  rewrite (proj2 (Z.eqb_neq r (-1))) by lia. unfold Unix.OpenForReadWrite. rewrite path_cname, Hn.
  unfold ASSERT. cbn [negb orb default from_option]. simpl_res. change (id ino) with ino.
  rewrite (proj2 (Z.eqb_neq ino (-1))) by lia.
  rewrite arr_set_in by (rewrite (fr_table _ _ _ Hr); unfold FileSys.N_FILES_IN_TABLE in *; lia). simpl_res.
  eexists. split; [reflexivity|]. split; [lia|].
  assert (H !! r = None) as Hnone.
  { pose proof (fr_slots _ _ _ Hr r Hrange) as E. rewrite Hfree in E. injection E as E.
    destruct (H !! r) as [[g off]|] eqn:Eg; [|done].
    destruct (fr_handle _ _ _ _ _ _ Hr Eg) as (? & ? & _ & Hng & _). simpl in E. by rewrite Hng in E. }
  split; [done|].
  pose proof (fr_set (fileSystem o) D H r (Some (f, 0)) Hr Hrange) as Hset. simpl in Hset. rewrite Hn in Hset.
  apply Hset. intros ? ? [= <- <-]. split; [done|by exists bs].
Qed.

Lemma file_at_rep o D H r f off :
  files_rep (fileSystem o) D H → H !! r = Some (f, off) →
  ∃ ino bs, file_at r o = Ok (Some (StubFS.mkOpenFile ino off 0)) ∧ get D f = Some bs ∧
    Unix.names (StubFS.unix (fileSystem o)) !! path f = Some ino ∧
    Unix.contents (StubFS.unix (fileSystem o)) ino = bs ∧ 0 ≤ off ∧ 2 ≤ r < FileSys.N_FILES_IN_TABLE.
Proof.
  intros Hr Hh. destruct (fr_handle _ _ _ _ _ _ Hr Hh) as (bs & ino & Hf & Hn & Hc & Hrange & Hoff & Ht).
  exists ino, bs. split_and!; try done; try lia. unfold file_at.
  rewrite (proj2 (Z.ltb_ge _ _)), Z.geb_leb, (proj2 (Z.leb_gt _ _)) by lia. cbn [orb]. apply arr_get_in; [lia|done].
Qed.

Lemma set_file_rep o D H r f off ino :
  files_rep (fileSystem o) D H → is_Some (H !! r) → 0 ≤ off → is_Some (get D f) →
  Unix.names (StubFS.unix (fileSystem o)) !! path f = Some ino →
  ∃ fs, set_file o r (Some (StubFS.mkOpenFile ino off 0)) (StubFS.unix (fileSystem o)) = Ok (with_files o fs) ∧
    files_rep fs D (<[r := (f, off)]> H).
Proof.
  intros Hr Hh Hoff Hf Hn. destruct (fr_update _ _ _ _ _ _ Hr Hh Hoff Hf) as (ino' & Hn' & Hrep).
  rewrite Hn in Hn'. injection Hn' as <-. destruct Hh as [h Hh].
  destruct (fr_handles _ _ _ Hr r _ Hh) as (Hrange & _). unfold set_file.
  rewrite arr_set_in by (rewrite (fr_table _ _ _ Hr); unfold FileSys.N_FILES_IN_TABLE in *; lia). simpl_res. eauto.
Qed.

(** A character is read. *)
Lemma ReadF_rep o D H r f off bs c :
  files_rep (fileSystem o) D H → H !! r = Some (f, off) → get D f = Some bs → bs !! Z.to_nat off = Some c →
  ∃ fs, ReadF 1 r o = Ok ((1, [c]), with_files o fs) ∧ files_rep fs D (<[r := (f, off + 1)]> H).
Proof.
  intros Hr Hh Hf Hc. destruct (file_at_rep _ _ _ _ _ _ Hr Hh) as (ino & bs' & E & Hf' & Hn & Hcont & Hoff & Hrange).
  rewrite Hf in Hf'. injection Hf' as <-. unfold ReadF. rewrite E. simpl_res. cbn [StubFS.type Z.eqb negb].
  unfold StubFS.Read. rewrite StubFS.stub_ReadAt_spec by (simpl; lia). simpl_res. cbn [StubFS.file StubFS.currentOffset].
  rewrite Hcont. change (Z.to_nat 1) with 1%nat.
  assert (take 1 (drop (Z.to_nat off) bs) = [c]) as -> by (by rewrite (drop_S bs c)).
  unfold file_result. cbn [length Z.of_nat Z.eqb Pos.of_succ_nat].
  destruct (set_file_rep o D H r f (off + 1) ino) as (fs & E2 & Hrep); [done|by eexists|lia|by eexists|done|].
  unfold StubFS.with_offset. cbn [StubFS.file StubFS.currentOffset StubFS.type].
  change (Z.of_nat 1) with 1. cbn [Z.eqb]. rewrite E2. simpl_res. eauto.
Qed.

(** At the end of the file it is rewound. *)
Lemma ReadF_end_rep o D H r f bs :
  files_rep (fileSystem o) D H → H !! r = Some (f, Z.of_nat (length bs)) → get D f = Some bs →
  ∃ fs, ReadF 1 r o = Ok ((-2, []), with_files o fs) ∧ files_rep fs D (<[r := (f, 0)]> H).
Proof.
  intros Hr Hh Hf. destruct (file_at_rep _ _ _ _ _ _ Hr Hh) as (ino & bs' & E & Hf' & Hn & Hcont & Hoff & Hrange).
  rewrite Hf in Hf'. injection Hf' as <-. unfold ReadF. rewrite E. simpl_res. cbn [StubFS.type Z.eqb negb].
  unfold StubFS.Read. rewrite StubFS.stub_ReadAt_spec by (simpl; lia). simpl_res. cbn [StubFS.file StubFS.currentOffset].
  rewrite Hcont. rewrite Nat2Z.id, drop_all. change (take (Z.to_nat 1) []) with (@nil Z).
  unfold file_result. cbn [length Z.of_nat Z.eqb].
  destruct (set_file_rep o D H r f 0 ino) as (fs & E2 & Hrep); [done|by eexists|lia|by eexists|done|].
  unfold StubFS.with_offset. cbn [StubFS.file StubFS.currentOffset StubFS.type]. rewrite E2. simpl_res. eauto.
Qed.

Lemma splice_append (old bs : list Z) : Unix.splice old (length old) bs = old ++ bs.
Proof.
  unfold Unix.splice. rewrite take_app_length, drop_ge by lia. by rewrite app_nil_r.
Qed.

(** A string is appended to the file. *)
Lemma WriteF_rep o D H r f old bytes n str :
  files_rep (fileSystem o) D H → H !! r = Some (f, Z.of_nat (length old)) → get D f = Some old →
  Directory.until_nul (take (Z.to_nat n) bytes) = str → str ≠ [] → Z.of_nat (length str) ≤ n →
  ∃ fs, WriteF bytes n r o = Ok ((Z.of_nat (length str), []), with_files o fs) ∧
    files_rep fs (put f (old ++ str) D) (<[r := (f, Z.of_nat (length (old ++ str)))]> H).
Proof.
  intros Hr Hh Hf Hstr Hne Hlen.
  destruct (file_at_rep _ _ _ _ _ _ Hr Hh) as (ino & bs' & E & Hf' & Hn & Hcont & Hoff & Hrange).
  rewrite Hf in Hf'. injection Hf' as <-. assert (0 < length str)%nat by (destruct str; [done|simpl; lia]).
  unfold WriteF. rewrite Hstr, E. simpl_res. rewrite (proj2 (Z.ltb_ge _ _)) by lia.
  unfold StubFS.Write. cbn [StubFS.currentOffset]. rewrite StubFS.stub_WriteAt_spec by lia. simpl_res.
  cbn [StubFS.file]. rewrite Hcont, !Nat2Z.id, splice_append, firstn_all. unfold file_result.
  rewrite (proj2 (Z.eqb_neq _ 0)) by lia. unfold set_file.
  rewrite arr_set_in by (rewrite (fr_table _ _ _ Hr); unfold FileSys.N_FILES_IN_TABLE in *; lia). simpl_res.
  eexists. split; [reflexivity|].
  pose proof (fr_write _ _ _ _ _ (old ++ str) Hr Hn) as Hr2.
  destruct (fr_update _ _ _ r f (Z.of_nat (length (old ++ str))) Hr2) as (ino2 & Hn2 & Hrep);
    [by eexists|lia|rewrite get_put; by case_decide|].
  simpl in Hn2. rewrite Hn in Hn2. injection Hn2 as <-. rewrite length_app, Nat2Z.inj_add in Hrep. 
  rewrite length_app, Nat2Z.inj_add. exact Hrep.
Qed.

Lemma CloseF_rep o D H r :
  files_rep (fileSystem o) D H → is_Some (H !! r) →
  ∃ fs, CloseF r o = Ok ((0, []), with_files o fs) ∧ files_rep fs D (delete r H).
Proof.
  intros Hr [[f off] Hh]. destruct (file_at_rep _ _ _ _ _ _ Hr Hh) as (ino & bs' & E & _ & _ & _ & _ & Hrange).
  unfold CloseF. rewrite E. simpl_res. unfold set_file.
  rewrite arr_set_in by (rewrite (fr_table _ _ _ Hr); unfold FileSys.N_FILES_IN_TABLE in *; lia). simpl_res.
  eexists. split; [reflexivity|]. pose proof (fr_set (fileSystem o) D H r None Hr Hrange) as Hs. simpl in Hs. by apply Hs.
Qed.
End calls.
