(* ===== verification/AirportLogic.v ===== *)
(** * How the airport programs are followed through all schedules

    [live] says that a machine ends well whatever the kernel does.  At any time
    one process of the airport has work to do; the others wait, up to a few
    calls by which they are late.  [Line] is the claim about the process that
    works, for all of these delays, and has one rule per system call. *)

From S2P Require Import Prelude NList Bitmap Interrupt Disk FileHdr OpenFile Directory FileSys UnixFS STable Airport AirportOs.
Import Calls Lang Programs Processes.

(** ** Runs of one process between two calls *)

Section go.
Implicit Types (k : list frame) (e : vars) (a : list Z) (P : Proc → Prop).

(** Within [b] statements the process is at a call (or its end), in a state that
    satisfies [P]. *)
Definition Go (b : nat) k e a P : Prop := ∃ q, settle b (mkProc k e a) = Ok q ∧ P q.

Lemma settle_mono n m p q : settle n p = Ok q → (n ≤ m)%nat → settle m p = Ok q.
Proof.
  revert m p. induction n as [|n IH]; intros m p E Hm; [done|]. destruct m as [|m]; [lia|]. cbn [settle] in *.
  destruct (local p) as [[p'|]|]; simpl_res; [|done|done]. apply IH; [done|lia].
Qed.

Lemma go_more b b' k e a P : Go b k e a P → (b ≤ b')%nat → Go b' k e a P.
Proof. intros (q & E & Hq) Hb. exists q. split; [|done]. by eapply settle_mono. Qed.

Lemma go_mono b k e a P P' : Go b k e a P → (∀ q, P q → P' q) → Go b k e a P'.
Proof. intros (q & E & Hq) H. exists q. eauto. Qed.

Lemma go_end b e a P : P (mkProc [] e a) → Go (S b) [] e a P.
Proof. intros H. by exists (mkProc [] e a). Qed.
Lemma go_call b x c k e a P : P (mkProc (Run (Call x c) :: k) e a) → Go (S b) (Run (Call x c) :: k) e a P.
Proof. intros H. by eexists. Qed.
Lemma go_read b x y i k e a P : P (mkProc (Run (Read x y i) :: k) e a) → Go (S b) (Run (Read x y i) :: k) e a P.
Proof. intros H. by eexists. Qed.
Lemma go_skip b k e a P : Go b k e a P → Go (S b) (Run Skip :: k) e a P.
Proof. done. Qed.
Lemma go_assign b x v k e a P : Go b k (set x (v e) e) a P → Go (S b) (Run (Assign x v) :: k) e a P.
Proof. done. Qed.
Lemma go_store b i v k e a P :
  0 ≤ i e < Z.of_nat (length a) → Go b k e (<[Z.to_nat (i e) := v e]> a) P → Go (S b) (Run (Store i v) :: k) e a P.
Proof. intros Hi (q & E & H). exists q. split; [|done]. cbn [settle local todo env array]. by rewrite arr_set_in. Qed.
Lemma go_seq b s1 s2 k e a P : Go b (Run s1 :: Run s2 :: k) e a P → Go (S b) (Run (Seq s1 s2) :: k) e a P.
Proof. done. Qed.
Lemma go_if_true b c s1 s2 k e a P : c e = true → Go b (Run s1 :: k) e a P → Go (S b) (Run (If c s1 s2) :: k) e a P.
Proof. intros Hc (q & E & H). exists q. split; [|done]. cbn [settle local todo env]. by rewrite Hc. Qed.
Lemma go_if_false b c s1 s2 k e a P : c e = false → Go b (Run s2 :: k) e a P → Go (S b) (Run (If c s1 s2) :: k) e a P.
Proof. intros Hc (q & E & H). exists q. split; [|done]. cbn [settle local todo env]. by rewrite Hc. Qed.
Lemma go_while b c s k e a P : Go b (Loop c s :: k) e a P → Go (S b) (Run (While c s) :: k) e a P.
Proof. done. Qed.
Lemma go_loop b c s k e a P : c e = true → Go b (Run s :: Loop c s :: k) e a P → Go (S b) (Loop c s :: k) e a P.
Proof. intros Hc (q & E & H). exists q. split; [|done]. cbn [settle local todo env]. by rewrite Hc. Qed.
Lemma go_leave b c s k e a P : c e = false → Go b k e a P → Go (S b) (Loop c s :: k) e a P.
Proof. intros Hc (q & E & H). exists q. split; [|done]. cbn [settle local todo env]. by rewrite Hc. Qed.
Lemma go_break b k e a P : Go b (leave k) e a P → Go (S b) (Run Break :: k) e a P.
Proof. done. Qed.
Lemma go_return b k e a P : Go b [] e a P → Go (S b) (Run Return :: k) e a P.
Proof. done. Qed.
End go.

(** Variables by name. *)
#[global] Arguments set _%_string _ _ _ /.
Lemma set_eq x v e : set x v e x = v.
Proof. unfold set. by rewrite String.eqb_refl. Qed.
Lemma set_ne x y v e : y ≠ x → set x v e y = e y.
Proof. intros H. unfold set. by rewrite (proj2 (String.eqb_neq y x)). Qed.

Ltac vars := cbn [set String.eqb Ascii.eqb Bool.eqb];
  repeat match goal with H : ?e ?x = ?v |- context [?e ?x] => is_var e; rewrite H end.

(** The truth value of a condition. *)
Ltac cond :=
  vars; first
    [ reflexivity
    | apply Z.eqb_eq; lia | apply Z.eqb_neq; lia | apply Z.ltb_lt; lia | apply Z.ltb_ge; lia
    | apply Z.leb_le; lia | apply Z.leb_gt; lia
    | rewrite negb_true_iff; apply Z.eqb_neq; lia | rewrite negb_false_iff; apply Z.eqb_eq; lia ].

(** One statement; in front of a call the claim about the process is left. *)
Ltac go1 :=
  lazymatch goal with
  | |- Go _ (Run ?s :: _) _ _ _ =>
      let s' := eval hnf in s in
      lazymatch s' with
      | Seq _ _ => apply go_seq
      | Assign _ _ => apply go_assign
      | Skip => apply go_skip
      | While _ _ => apply go_while
      | Break => apply go_break; cbn [leave]
      | Return => apply go_return
      | If _ _ _ => first [apply go_if_true; [cond|] | apply go_if_false; [cond|]]
      | Call _ _ => apply go_call
      | Read _ _ _ => apply go_read
      end
  | |- Go _ (Loop _ _ :: _) _ _ _ => apply go_loop; [reflexivity|]
  | |- Go _ [] _ _ _ => apply go_end
  | |- Go ?b ?k ?e ?a ?P => is_const k; let k' := eval hnf in k in change (Go b k' e a P)
  end.
Ltac go := repeat go1.
(** Up to the next loop. *)
Ltac at_loop :=
  lazymatch goal with
  | |- Go _ (Run ?s :: _) _ _ _ => let s' := eval hnf in s in lazymatch s' with While _ _ => idtac end
  end.
Ltac to_loop := repeat (tryif at_loop then fail else go1); apply go_while.

(** ** Machines that end well *)

Section live.
Context (garbage : Z → vars) (Q : Sys → Prop).

(** Whatever process gets the turns, the machine makes progress, nothing
    crashes, and after finitely many turns scannersmain has ended with [Q]. *)
Inductive live (s : Sys) : Prop :=
  | live_end : finished s = true → Q s → live s
  | live_turn : finished s = false →
      (∃ i s', turn garbage i s = Ok s') →
      (∀ i e, turn garbage i s = Stop e → e = WouldBlock) →
      (∀ i s', turn garbage i s = Ok s' → live s') → live s.

(** One process works; the others wait, or are late by [n] calls. *)
Lemma live_with (i : nat) (A : nat → Sys → Prop) :
  (∀ n s, A n s → finished s = false ∧ (∃ s', turn garbage i s = Ok s' ∧ live s') ∧
    (∀ j, j ≠ i → turn garbage j s = Stop WouldBlock ∨
       ∃ s' n', turn garbage j s = Ok s' ∧ (n' < n)%nat ∧ A n' s')) →
  ∀ n s, A n s → live s.
Proof.
  intros HA n. induction (lt_wf n) as [n _ IH]. intros s Hs.
  destruct (HA n s Hs) as (Hf & (s1 & E1 & Hl) & Hothers). apply live_turn; [done|by exists i, s1|..].
  - intros j e Ej. destruct (decide (j = i)) as [->|Hne]; [congruence|].
    destruct (Hothers j Hne) as [Eb|(s' & n' & Eo & _)]; congruence.
  - intros j s' Ej. destruct (decide (j = i)) as [->|Hne]; [congruence|].
    destruct (Hothers j Hne) as [Eb|(s2 & n' & Eo & Hn & H2)]; [congruence|].
    assert (s' = s2) as -> by congruence. by apply (IH n').
Qed.

(** In terms of runs: there is no infinite one, and no state of a run is stuck. *)
Lemma live_sn s : live s → sn (step garbage) s.
Proof.
  induction 1 as [s Hf _|s Hf _ _ _ IH]; constructor; intros s' [Hf' [i E]]; [congruence|]. by apply (IH i).
Qed.

Lemma live_steps s s' : live s → rtc (step garbage) s s' → live s'.
Proof.
  intros Hl Hr. induction Hr as [|s s1 s2 [Hf [i E]] _ IH]; [done|]. apply IH.
  destruct Hl as [Hf' _|_ _ _ Hl]; [congruence|]. by eapply Hl.
Qed.

Lemma live_here s : live s → if finished s then Q s else ¬ crashes garbage s ∧ red (step garbage) s.
Proof.
  intros [Hf HQ|Hf (i & s' & E) Hno _]; rewrite Hf; [done|]. split.
  - intros (j & e & Ej & He). by apply He, (Hno j).
  - by exists s'; split; [|exists i].
Qed.

(** *** The semaphores of the airport *)

Definition four_semaphores : STable.STable BitMap.BitMap :=
  STable.mkSTable (BitMap.mkBitMap 10 1 [15])
    ([Some (STable.mkSem (chars "main") 0); Some (STable.mkSem (chars "passengers") 1);
      Some (STable.mkSem (chars "scanners") 2); Some (STable.mkSem (chars "maincounter") 3)] ++ replicate 6 None).

Record rep (o : Os) (D : Data) (w : list Z) (H : Handles) : Prop := mkRep {
  rep_files : files_rep (fileSystem o) D H;
  rep_table : semTab o = four_semaphores;
  rep_values : sems o = w;
}.

Lemma rep_with_files o D w H fs D' H' :
  rep o D w H → files_rep fs D' H' → rep (with_files o fs) D' w H'.
Proof. intros [H1 H2 H3] Hf. by split. Qed.

(** The semaphore with this number. *)
Definition sem_name (i : nat) : list Z :=
  match i with
  | 0%nat => chars "main" | 1%nat => chars "passengers" | 2%nat => chars "scanners" | _ => chars "maincounter"
  end.

Lemma wait_four i w :
  (i < 4)%nat → STable.Wait (sem_name i) four_semaphores w = (w ← Counters.down (Z.of_nat i) w; Ok (0, w)).
Proof. intros Hi. do 4 (destruct i as [|i]; [vm_compute; reflexivity|]). lia. Qed.
Lemma signal_four i w :
  (i < 4)%nat → STable.Signal (sem_name i) four_semaphores w = (w ← Counters.up (Z.of_nat i) w; Ok (0, w)).
Proof. intros Hi. do 4 (destruct i as [|i]; [vm_compute; reflexivity|]). lia. Qed.

Lemma Down_rep i o D w H v :
  rep o D w H → (i < 4)%nat → w !! i = Some v → v ≠ 0 →
  ∃ o', Calls.Down (sem_name i) o = Ok ((0, []), o') ∧ rep o' D (<[i := v - 1]> w) H.
Proof.
  intros [H1 H2 H3] Hi Hv Hne. unfold Calls.Down. rewrite H2, H3, wait_four by done. unfold Counters.down.
  rewrite (arr_get_in w (Z.of_nat i) v) by (rewrite ?Nat2Z.id; done || lia). simpl_res.
  rewrite (proj2 (Z.eqb_neq _ _)) by done. apply lookup_lt_Some in Hv. rewrite arr_set_in by lia. simpl_res.
  rewrite Nat2Z.id. eexists. split; [reflexivity|]. by split.
Qed.

Lemma Down_blocks i o D w H :
  rep o D w H → (i < 4)%nat → w !! i = Some 0 → Calls.Down (sem_name i) o = Stop WouldBlock.
Proof.
  intros [H1 H2 H3] Hi Hv. unfold Calls.Down. rewrite H2, H3, wait_four by done. unfold Counters.down.
  by rewrite (arr_get_in w (Z.of_nat i) 0) by (rewrite ?Nat2Z.id; done || lia).
Qed.

Lemma Up_rep i o D w H v :
  rep o D w H → (i < 4)%nat → w !! i = Some v →
  ∃ o', Calls.Up (sem_name i) o = Ok ((0, []), o') ∧ rep o' D (<[i := v + 1]> w) H.
Proof.
  intros [H1 H2 H3] Hi Hv. unfold Calls.Up. rewrite H2, H3, signal_four by done. unfold Counters.up.
  rewrite (arr_get_in w (Z.of_nat i) v) by (rewrite ?Nat2Z.id; done || lia). simpl_res.
  apply lookup_lt_Some in Hv. rewrite arr_set_in by lia. simpl_res.
  rewrite Nat2Z.id. eexists. split; [reflexivity|]. by split.
Qed.

(** *** Turns *)

Definition is_exec (c : syscall) : bool := match c with SysExec _ => true | _ => false end.

Lemma turn_call i ps o x c k e a v bs o' q :
  ps !! i = Some (mkProc (Run (Call x c) :: k) e a) → is_exec (c e) = false →
  serve (c e) o = Ok ((v, bs), o') → bs = [] → settle local_fuel (mkProc k (set x v e) a) = Ok q →
  turn garbage i (mkSys ps o) = Ok (mkSys (<[i := q]> ps) o').
Proof.
  intros Hi Hx Es -> Eq. unfold turn. cbn [procs]. rewrite Hi. cbn [todo env array].
  assert (perform garbage (c e) (mkSys ps o) = Ok ((v, []), mkSys ps o')) as ->.
  { unfold perform. destruct (c e); try discriminate Hx; cbn [Processes.os procs]; by rewrite Es. }
  simpl_res. unfold resume. cbn [snd fst env array]. rewrite Eq. simpl_res. done.
Qed.

Lemma turn_read i ps o x y id k e a v bs o' q :
  ps !! i = Some (mkProc (Run (Read x y id) :: k) e a) → Calls.ReadF 1 (id e) o = Ok ((v, bs), o') →
  settle local_fuel (mkProc k (set x v (match bs with c :: _ => set y c e | [] => e end)) a) = Ok q →
  turn garbage i (mkSys ps o) = Ok (mkSys (<[i := q]> ps) o').
Proof.
  intros Hi Es Eq. unfold turn. cbn [procs]. rewrite Hi. cbn [todo env array perform serve Processes.os].
  rewrite Es. simpl_res. unfold resume. cbn [snd fst env array]. rewrite Eq. simpl_res. done.
Qed.

Lemma turn_blocks i ps o x c k e a :
  ps !! i = Some (mkProc (Run (Call x c) :: k) e a) → is_exec (c e) = false → serve (c e) o = Stop WouldBlock →
  turn garbage i (mkSys ps o) = Stop WouldBlock.
Proof.
  intros Hi Hx Es. unfold turn. cbn [procs]. rewrite Hi. cbn [todo env].
  assert (perform garbage (c e) (mkSys ps o) = Stop WouldBlock) as ->; [|done].
  unfold perform. destruct (c e); try discriminate Hx; cbn [Processes.os]; by rewrite Es.
Qed.

Lemma turn_none i ps o : (length ps ≤ i)%nat → turn garbage i (mkSys ps o) = Stop WouldBlock.
Proof. intros Hi. unfold turn. cbn [procs]. by rewrite lookup_ge_None_2. Qed.

(** ** The process that works

    [O ps mc H n] describes the other processes, late by [n] calls, when the
    semaphore maincounter has the value [mc]; [V] are the values of the other
    three.  A late process may still open one file. *)

Definition pending (n : nat) : nat := match n with O => 0 | S _ => 1 end.
Implicit Types (O : list Proc → Z → Handles → nat → Prop) (R H : Handles) (D : Data) (N : nat) (V : list Z).

Record Others (i : nat) O V : Prop := mkOthers {
  others_here ps mc H n : O ps mc H n → (i < length ps)%nat;
  others_self ps mc H n p : O ps mc H n → O (<[i := p]> ps) mc H n;
  others_fresh ps mc H n r h : O ps mc H n → H !! r = None → O ps mc (<[r := h]> H) n;
  others_running ps mc H n p : O ps mc H n → i ≠ 0%nat → ps !! 0%nat = Some p → todo p ≠ [];
  others_late ps mc H n o D : O ps mc H n → rep o D (V ++ [mc]) H → is_Some (get D ScannerId) →
    (size H + pending n ≤ 98)%nat →
    ∀ j, j ≠ i → turn garbage j (mkSys ps o) = Stop WouldBlock ∨
      ∃ p o' mc' H' n', turn garbage j (mkSys ps o) = Ok (mkSys (<[j := p]> ps) o') ∧ (n' < n)%nat ∧
        O (<[j := p]> ps) mc' H' n' ∧ rep o' D (V ++ [mc']) H' ∧ H ⊆ H' ∧
        (size H' + pending n' ≤ size H + pending n)%nat;
}.

(** The others do not depend on the open files [f]. *)
Definition Touch (f : fname) O : Prop := ∀ ps mc H n r x, H !! r = Some (f, x) → O ps mc H n →
  (∀ y, O ps mc (<[r := (f, y)]> H) n) ∧ O ps mc (delete r H) n.

(** Process [i] works, with the files [D] and the open files [R] (among at most
    [N]), and the machine ends well. *)
Definition Line (i : nat) O V D R N (p : Proc) : Prop := is_Some (get D ScannerId) → ∀ ps o mc H n,
  ps !! i = Some p → O ps mc H n → rep o D (V ++ [mc]) H → R ⊆ H → (size H + pending n ≤ N)%nat →
  live (mkSys ps o).

Section rules.
Context (i : nat) O V (HO : Others i O V).

Lemma line_weaken D R R' N N' p : Line i O V D R' N' p → R' ⊆ R → (N ≤ N')%nat → Line i O V D R N p.
Proof using Type.
  intros Hl HR HN Hs ps o mc H n Hi Ho Hr HRH Hsz. apply (Hl Hs ps o mc H n); try done; [by etransitivity|lia].
Qed.

(** A turn of process [i], whatever the others have done meanwhile. *)
Lemma line_step D R N p :
  todo p ≠ [] → (N ≤ 98)%nat →
  (is_Some (get D ScannerId) → ∀ ps o mc H n,
    ps !! i = Some p → O ps mc H n → rep o D (V ++ [mc]) H → R ⊆ H → (size H + pending n ≤ N)%nat →
    ∃ s', turn garbage i (mkSys ps o) = Ok s' ∧ live s') →
  Line i O V D R N p.
Proof using HO.
  intros Hp HN Hstep Hs ps o mc H n Hi Ho Hr HR Hsz.
  set (A := λ (n : nat) (s : Sys), ∃ ps o mc H, s = mkSys ps o ∧ ps !! i = Some p ∧ O ps mc H n ∧
    rep o D (V ++ [mc]) H ∧ R ⊆ H ∧ (size H + pending n ≤ N)%nat).
  apply (live_with i A) with n; [|by exists ps, o, mc, H].
  clear ps o mc H n Hi Ho Hr HR Hsz. intros n s (ps & o & mc & H & -> & Hi & Ho & Hr & HR & Hsz).
  split; [|split].
  - unfold finished. cbn [procs]. destruct (decide (i = 0%nat)) as [Hz|Hz].
    + pose proof Hi as Hi0. rewrite Hz in Hi0. rewrite Hi0. apply bool_decide_eq_false_2. by intros ?%nil_length_inv.
    + pose proof (others_here _ _ _ HO _ _ _ _ Ho) as Hlen.
      destruct (lookup_lt_is_Some_2 ps 0) as [p0 Hp0]; [lia|]. rewrite Hp0.
      apply bool_decide_eq_false_2. intros ?%nil_length_inv. by eapply (others_running _ _ _ HO).
  - destruct (Hstep Hs ps o mc H n Hi Ho Hr HR Hsz) as (s' & E & Hl). by eexists.
  - intros j Hj. destruct (others_late _ _ _ HO _ _ _ _ _ _ Ho Hr Hs ltac:(lia) j Hj)
      as [E|(p' & o' & mc' & H' & n' & E & Hn & Ho' & Hr' & HH & Hsz')]; [by left|right].
    exists (mkSys (<[j := p']> ps) o'), n'. split; [done|]. split; [done|].
    exists (<[j := p']> ps), o', mc', H'. split; [done|]. split; [by rewrite list_lookup_insert_ne|].
    split; [done|]. split; [done|]. split; [by etransitivity|lia].
Qed.

(** The turn of a call that has an answer. *)
Lemma line_go D R N D' R' N' x c k e a v :
  is_exec (c e) = false → (N ≤ 98)%nat →
  (is_Some (get D ScannerId) → is_Some (get D' ScannerId)) →
  (∀ o mc H, rep o D (V ++ [mc]) H → R ⊆ H →
    ∃ o' H', serve (c e) o = Ok ((v, []), o') ∧ rep o' D' (V ++ [mc]) H' ∧ R' ⊆ H' ∧
      (∀ ps n, O ps mc H n → O ps mc H' n) ∧ ∀ n, (size H + n ≤ N → size H' + n ≤ N')%nat) →
  Go local_fuel k (set x v e) a (Line i O V D' R' N') →
  Line i O V D R N (mkProc (Run (Call x c) :: k) e a).
Proof using HO.
  intros Hx HN HD Hserve (q & Eq & Hq). apply line_step; [done|done|].
  intros Hs ps o mc H n Hi Ho Hr HR Hsz. destruct (Hserve o mc H Hr HR) as (o' & H' & E & Hr' & HR' & Hok & Hsz').
  eexists. split; [by eapply turn_call|]. apply (Hq (HD Hs) _ o' mc H' n).
  - apply list_lookup_insert_eq. by apply lookup_lt_Some in Hi.
  - by apply (others_self _ _ _ HO), Hok.
  - done.
  - done.
  - by apply Hsz'.
Qed.

Lemma line_print D R N x c k e a :
  (∃ s, c e = SysPrintString s) ∨ (∃ z, c e = SysPrintInt z) → (N ≤ 98)%nat →
  Go local_fuel k (set x 0 e) a (Line i O V D R N) → Line i O V D R N (mkProc (Run (Call x c) :: k) e a).
Proof using HO.
  intros Hc HN Hgo. assert (is_exec (c e) = false) as Hx by (by destruct Hc as [[s ->]|[z ->]]).
  apply (line_go D R N D R N x c k e a 0); try done.
  intros o mc H [H1 H2 H3] HR. assert (∃ s, serve (c e) o = Ok ((0, []), print o s)) as [s E].
  { destruct Hc as [[s ->]|[z ->]]; by eexists. }
  exists (print o s), H. split_and!; try done.
Qed.

Lemma put_scan f bs D : is_Some (get D ScannerId) → is_Some (get (put f bs D) ScannerId).
Proof using Type. intros H. rewrite get_put. by case_decide. Qed.

Lemma line_create f D R N x c k e a :
  c e = SysCreateF (path f) → (N ≤ 98)%nat →
  Go local_fuel k (set x 0 e) a (Line i O V (put f [] D) R N) → Line i O V D R N (mkProc (Run (Call x c) :: k) e a).
Proof using HO.
  intros Hc HN Hgo. apply (line_go D R N (put f [] D) R N x c k e a 0); try done; [by rewrite Hc|apply put_scan|].
  intros o mc H Hr HR. destruct (CreateF_rep o D H f (rep_files _ _ _ _ Hr)) as (fs & E & Hf).
  exists (with_files o fs), H. rewrite Hc. split_and!; try done. by eapply rep_with_files.
Qed.

Lemma line_open f D R N x c k e a :
  c e = SysOpenF (path f) 0 → is_Some (get D f) → (N < 98)%nat →
  (∀ r, R !! r = None → 2 ≤ r → Go local_fuel k (set x r e) a (Line i O V D (<[r := (f, 0)]> R) (S N))) →
  Line i O V D R N (mkProc (Run (Call x c) :: k) e a).
Proof using HO.
  intros Hc Hf HN Hgo. apply line_step; [done|lia|]. intros Hs ps o mc H n Hi Ho Hr HR Hsz.
  destruct (OpenF_rep o D H f (rep_files _ _ _ _ Hr) Hf) as (r & fs & E & Hr2 & Hnone & Hrep); [lia|].
  destruct (Hgo r) as (q & Eq & Hq); [by eapply lookup_weaken_None|done|].
  eexists. split; [eapply turn_call; [done|by rewrite Hc|by rewrite Hc|done|done]|].
  apply (Hq Hs _ _ mc (<[r := (f, 0)]> H) n).
  - apply list_lookup_insert_eq. by apply lookup_lt_Some in Hi.
  - by apply (others_self _ _ _ HO), (others_fresh _ _ _ HO).
  - by eapply rep_with_files.
  - by apply insert_mono.
  - rewrite map_size_insert_None by done. lia.
Qed.

Lemma size_touch H r (h : fname * Z) : is_Some (H !! r) → size (<[r := h]> H) = size H.
Proof using Type. intros [x Hx]. by rewrite map_size_insert, Hx. Qed.

Lemma line_read f off bs ch D R N x y id k e a :
  R !! id e = Some (f, off) → get D f = Some bs → bs !! Z.to_nat off = Some ch → Touch f O → (N ≤ 98)%nat →
  Go local_fuel k (set x 1 (set y ch e)) a (Line i O V D (<[id e := (f, off + 1)]> R) N) →
  Line i O V D R N (mkProc (Run (Read x y id) :: k) e a).
Proof using HO.
  intros HR Hf Hch Ht HN (q & Eq & Hq). apply line_step; [done|done|]. intros Hs ps o mc H n Hi Ho Hr Hsub Hsz.
  pose proof (lookup_weaken _ _ _ _ HR Hsub) as Hh.
  destruct (ReadF_rep o D H _ f off bs ch (rep_files _ _ _ _ Hr) Hh Hf Hch) as (fs & E & Hrep).
  eexists. split; [by eapply turn_read|].
  apply (Hq Hs _ _ mc (<[id e := (f, off + 1)]> H) n).
  - apply list_lookup_insert_eq. by apply lookup_lt_Some in Hi.
  - apply (others_self _ _ _ HO). by apply (Ht ps mc H n (id e) off).
  - by eapply rep_with_files.
  - by apply insert_mono.
  - by rewrite size_touch.
Qed.

Lemma line_read_end f bs D R N x y id k e a :
  R !! id e = Some (f, Z.of_nat (length bs)) → get D f = Some bs → Touch f O → (N ≤ 98)%nat →
  Go local_fuel k (set x (-2) e) a (Line i O V D (<[id e := (f, 0)]> R) N) →
  Line i O V D R N (mkProc (Run (Read x y id) :: k) e a).
Proof using HO.
  intros HR Hf Ht HN (q & Eq & Hq). apply line_step; [done|done|]. intros Hs ps o mc H n Hi Ho Hr Hsub Hsz.
  pose proof (lookup_weaken _ _ _ _ HR Hsub) as Hh.
  destruct (ReadF_end_rep o D H _ f bs (rep_files _ _ _ _ Hr) Hh Hf) as (fs & E & Hrep).
  eexists. split; [by eapply turn_read|].
  apply (Hq Hs _ _ mc (<[id e := (f, 0)]> H) n).
  - apply list_lookup_insert_eq. by apply lookup_lt_Some in Hi.
  - apply (others_self _ _ _ HO). by apply (Ht ps mc H n (id e) (Z.of_nat (length bs))).
  - by eapply rep_with_files.
  - by apply insert_mono.
  - by rewrite size_touch.
Qed.

Lemma line_write f old str D R N x c bytes m id k e a :
  c e = SysWriteF bytes m id → R !! id = Some (f, Z.of_nat (length old)) → get D f = Some old →
  Directory.until_nul (take (Z.to_nat m) bytes) = str → str ≠ [] → Z.of_nat (length str) ≤ m → Touch f O →
  (N ≤ 98)%nat →
  Go local_fuel k (set x (Z.of_nat (length str)) e) a
    (Line i O V (put f (old ++ str) D) (<[id := (f, Z.of_nat (length (old ++ str)))]> R) N) →
  Line i O V D R N (mkProc (Run (Call x c) :: k) e a).
Proof using HO.
  intros Hc HR Hf Hstr Hne Hm Ht HN Hgo. eapply line_go; [by rewrite Hc|done|apply put_scan| |exact Hgo].
  intros o mc H Hr Hsub. pose proof (lookup_weaken _ _ _ _ HR Hsub) as Hh.
  destruct (WriteF_rep o D H id f old bytes m str (rep_files _ _ _ _ Hr) Hh Hf Hstr Hne Hm) as (fs & E & Hrep).
  exists (with_files o fs), (<[id := (f, Z.of_nat (length (old ++ str)))]> H). rewrite Hc.
  split_and!; [done|by eapply rep_with_files|by apply insert_mono| |].
  - intros ps n Ho. by apply (Ht ps mc H n id (Z.of_nat (length old))).
  - intros n. by rewrite size_touch.
Qed.

Lemma line_close f off D R N x c id k e a :
  c e = SysCloseF id → R !! id = Some (f, off) → Touch f O → (N ≤ 98)%nat →
  Go local_fuel k (set x 0 e) a (Line i O V D (delete id R) (pred N)) →
  Line i O V D R N (mkProc (Run (Call x c) :: k) e a).
Proof using HO.
  intros Hc HR Ht HN Hgo. eapply line_go; [by rewrite Hc|done|done| |exact Hgo].
  intros o mc H Hr Hsub. pose proof (lookup_weaken _ _ _ _ HR Hsub) as Hh.
  destruct (CloseF_rep o D H id (rep_files _ _ _ _ Hr)) as (fs & E & Hrep); [by eexists|].
  exists (with_files o fs), (delete id H). rewrite Hc.
  split_and!; [done|by eapply rep_with_files|by apply delete_mono| |].
  - intros ps n Ho. by apply (Ht ps mc H n id off).
  - intros n Hn. assert (is_Some (H !! id)) as Hsome by (by eexists).
    pose proof (map_size_ne_0_lookup_2 H id Hsome). rewrite map_size_delete_Some by done. lia.
Qed.

(** Up and Down of the other semaphores: whose turn it is changes. *)
Lemma line_up s v D R N x c k e a :
  c e = SysUp (sem_name s) → (s < 3)%nat → length V = 3%nat → V !! s = Some v → (N ≤ 98)%nat →
  Go local_fuel k (set x 0 e) a (Line i O (<[s := v + 1]> V) D R N) →
  Line i O V D R N (mkProc (Run (Call x c) :: k) e a).
Proof using HO.
  intros Hc Hs HV Hv HN (q & Eq & Hq). apply line_step; [done|done|].
  intros Hsc ps o mc H n Hi Ho Hr HR Hsz.
  destruct (Up_rep s o D (V ++ [mc]) H v Hr) as (o' & E & Hr'); [lia|by rewrite lookup_app_l by lia|].
  eexists. split; [eapply turn_call; [done|by rewrite Hc|by rewrite Hc|done|done]|].
  apply (Hq Hsc _ _ mc H n).
  - apply list_lookup_insert_eq. by apply lookup_lt_Some in Hi.
  - by apply (others_self _ _ _ HO).
  - by rewrite <- insert_app_l by lia.
  - done.
  - done.
Qed.

Lemma line_down s v D R N x c k e a :
  c e = SysDown (sem_name s) → (s < 3)%nat → length V = 3%nat → V !! s = Some v → v ≠ 0 → (N ≤ 98)%nat →
  Go local_fuel k (set x 0 e) a (Line i O (<[s := v - 1]> V) D R N) →
  Line i O V D R N (mkProc (Run (Call x c) :: k) e a).
Proof using HO.
  intros Hc Hs HV Hv Hne HN (q & Eq & Hq). apply line_step; [done|done|].
  intros Hsc ps o mc H n Hi Ho Hr HR Hsz.
  destruct (Down_rep s o D (V ++ [mc]) H v Hr) as (o' & E & Hr'); [lia|by rewrite lookup_app_l by lia|done|].
  eexists. split; [eapply turn_call; [done|by rewrite Hc|by rewrite Hc|done|done]|].
  apply (Hq Hsc _ _ mc H n).
  - apply list_lookup_insert_eq. by apply lookup_lt_Some in Hi.
  - by apply (others_self _ _ _ HO).
  - by rewrite <- insert_app_l by lia.
  - done.
  - done.
Qed.

(** Up of maincounter: another process may go on from now on. *)
Lemma line_counter O' D R N x c k e a :
  c e = SysUp (sem_name 3) → length V = 3%nat → (N ≤ 98)%nat →
  (∀ ps q mc H n, O ps mc H n → ∃ n', O' (<[i := q]> ps) (mc + 1) H n' ∧ (pending n' ≤ S (pending n))%nat) →
  Go local_fuel k (set x 0 e) a (Line i O' V D R (S N)) →
  Line i O V D R N (mkProc (Run (Call x c) :: k) e a).
Proof using HO.
  intros Hc HV HN HO' (q & Eq & Hq). apply line_step; [done|done|].
  intros Hsc ps o mc H n Hi Ho Hr HR Hsz.
  destruct (Up_rep 3 o D (V ++ [mc]) H mc Hr) as (o' & E & Hr'); [lia|by rewrite lookup_app_r, HV by lia|].
  eexists. split; [eapply turn_call; [done|by rewrite Hc|by rewrite Hc|done|done]|].
  destruct (HO' ps q mc H n Ho) as (n' & Ho' & Hn'). apply (Hq Hsc _ _ (mc + 1) H n').
  - apply list_lookup_insert_eq. by apply lookup_lt_Some in Hi.
  - done.
  - rewrite insert_app_r_alt in Hr' by lia. by rewrite HV in Hr'.
  - done.
  - lia.
Qed.
End rules.
End live.
