(* ===== verification/AirportScan.v ===== *)
(** * The airport's scanners under every schedule

    What the airport programs compute, the places where its processes wait and
    who may still be late there, the work of the scanners on a piece of luggage,
    and the exchange by which passengers and scanners hand it over. *)

From S2P Require Import Prelude NList Bitmap Interrupt Disk FileHdr OpenFile Directory FileSys UnixFS STable Airport AirportOs AirportLogic.
Import Calls Lang Programs Processes.
#[local] Open Scope string_scope.
#[local] Open Scope list_scope.
#[local] Open Scope Z_scope.

(** ** What the programs compute *)

(** The number that the digits of a text form. *)
Definition number (w : list Z) : Z := foldl (λ n c, if is_digit c then s32 (n * 10 + (c - 48)) else n) 0 w.

Fixpoint words (w l : list Z) : list (list Z) :=
  match l with
  | [] => [w]
  | c :: l => if c =? 32 then w :: words [] l else words (w ++ [c]) l
  end.

(** The weights of a line of the input; a weight of 0 is no luggage. *)
Definition weights (line : list Z) : list Z := filter (λ n, n ≠ 0) (number <$> words [] line).

(** What the three scanners have weighed. *)
Definition Loads : Type := Z * Z * Z.
Definition no_load : Loads := (0, 0, 0).

(** The scanner with the least load, the first one if there are several, takes
    the luggage; it is shown by its digit. *)
Definition choose (L : Loads) (weight : Z) : Z * Loads :=
  let '(s1, s2, s3) := L in
  if (s1 <=? s2) && (s1 <=? s3) then (49, (s32 (s1 + weight), s2, s3))
  else if (s2 <=? s1) && (s2 <=? s3) then (50, (s1, s32 (s2 + weight), s3))
  else (51, (s1, s2, s32 (s3 + weight))).

Fixpoint assign (L : Loads) (ws : list Z) : list Z :=
  match ws with
  | [] => []
  | w :: ws => let '(c, L) := choose L w in c :: assign L ws
  end.

(** The line of the output for a line of the input. *)
Definition output_line (line : list Z) : list Z :=
  concat ((λ c, c :: replicate 7 32) <$> assign no_load (weights line)) ++ [13; 10].

(** ** Where the processes wait *)

Definition rest (s : stmt) : stmt := match s with Seq _ s => s | _ => Skip end.

Definition main_k : list frame := [Loop (λ _, true) next_flight; Run (rest (rest (rest main)))].
Definition pass_k : list frame := [Loop (λ _, true) check_in; Run Return].
Definition scan_k : list frame := [Loop (λ _, true) scan_flight; Run Return].

Definition pass_first (e : vars) (a : list Z) : Proc := mkProc [Run (Up "maincounter"); Run (rest passengers)] e a.
Definition pass_wait (e : vars) (a : list Z) : Proc := mkProc (Run (Down "passengers") :: Run (rest check_in) :: pass_k) e a.
Definition scan_idle (e : vars) (a : list Z) : Proc := mkProc (Run (Down "maincounter") :: Run (rest scan_flight) :: scan_k) e a.
Definition scan_open (e : vars) (a : list Z) : Proc :=
  mkProc (Run (OpenF "writeScannerId" "scannerid.txt") :: Run (rest (rest scan_flight)) :: scan_k) e a.
Definition scan_ready (e : vars) (a : list Z) : Proc :=
  mkProc (Run (Down "scanners") :: Run (rest scan_luggage) :: Loop (λ _, true) scan_luggage :: scan_k) e a.

(** A process in front of Down on one of the semaphores. *)
Definition waits (s : nat) (p : Proc) : Prop := ∃ k e a, p = mkProc (Run (call "" (SysDown (sem_name s))) :: k) e a.

Definition has_loads (e : vars) (L : Loads) : Prop := (e "scanner1", e "scanner2", e "scanner3") = L.

(** The scanners late by [n] calls; [off] characters of scannerid.txt are
    written. *)
Inductive ScanAt (L : Loads) (off : Z) : nat → Proc → Z → Handles → Prop :=
  | at_idle e a H : has_loads e L → L = no_load → off = 0 → ScanAt L off 2 (scan_idle e a) 1 H
  | at_open e a H : has_loads e L → L = no_load → off = 0 → ScanAt L off 1 (scan_open e a) 0 H
  | at_ready e a H : has_loads e L → H !! e "writeScannerId" = Some (ScannerId, off) → ScanAt L off 0 (scan_ready e a) 0 H.

Section airport.
Context (garbage : Z → vars) (Q : Sys → Prop).
Notation Line := (Line garbage Q).
Notation Others := (Others garbage).
Implicit Types (R H : Handles) (D : Data) (N : nat) (V : list Z) (m p q : Proc).

Lemma waits_blocks s p i ps o D w H :
  ps !! i = Some p → waits s p → rep o D w H → (s < 4)%nat → w !! s = Some 0 →
  turn garbage i (mkSys ps o) = Stop WouldBlock.
Proof using Type.
  intros Hi (k & e & a & ->) Hr Hs Hw. eapply turn_blocks; [done|done|]. by eapply Down_blocks.
Qed.

Lemma ready_waits e a : waits 2 (scan_ready e a).
Proof using Type. by do 3 eexists. Qed.
Lemma idle_waits e a : waits 3 (scan_idle e a).
Proof using Type. by do 3 eexists. Qed.
Lemma pass_wait_waits e a : waits 1 (pass_wait e a).
Proof using Type. by do 3 eexists. Qed.

(** A late call of the scanners. *)
Lemma scan_late L off n c mc H ps o D V :
  ScanAt L off (S n) c mc H → ps !! 2%nat = Some c → rep o D (V ++ [mc]) H → length V = 3%nat →
  is_Some (get D ScannerId) → (size H < 98)%nat →
  ∃ c' o' mc' H', turn garbage 2 (mkSys ps o) = Ok (mkSys (<[2%nat := c']> ps) o') ∧ ScanAt L off n c' mc' H' ∧
    rep o' D (V ++ [mc']) H' ∧ H ⊆ H' ∧ (size H' + pending n ≤ size H + 1)%nat.
Proof using Type.
  intros Hat Hc Hr HV Hs Hsz. inversion Hat; subst.
  - destruct (Down_rep 3 o D (V ++ [1]) H 1 Hr) as (o' & E & Hr'); [lia|by rewrite lookup_app_r, HV by lia|done|].
    assert (Go local_fuel (Run (rest scan_flight) :: scan_k) (set "" 0 e) a (λ q, q = scan_open (set "" 0 e) a))
      as (q & Eq & ->) by (go; reflexivity).
    eexists _, o', 0, H. split; [by eapply turn_call|]. split; [by apply at_open|]. split; [|split; [done|simpl; lia]].
    rewrite insert_app_r_alt, HV in Hr' by lia. done.
  - destruct (OpenF_rep o D H ScannerId (rep_files _ _ _ _ Hr) Hs Hsz) as (r & fs & E & Hr2 & Hnone & Hrep).
    assert (Go local_fuel (Run (rest (rest scan_flight)) :: scan_k) (set "writeScannerId" r e) a
      (λ q, q = scan_ready (set "writeScannerId" r e) a)) as (q & Eq & ->) by (go; reflexivity).
    eexists _, _, 0, (<[r := (ScannerId, 0)]> H). split; [by eapply turn_call|].
    split; [apply at_ready; [done|vars; apply lookup_insert_eq]|]. split; [by eapply rep_with_files|].
    split; [by apply insert_subseteq|]. rewrite map_size_insert_None by done. simpl. lia.
Qed.

(** ** Who else is there *)

(** The passengers work; the scanners may be late. *)
Definition late m L off : list Proc → Z → Handles → nat → Prop := λ ps mc H n,
  ∃ q c, ps = [m; q; c] ∧ ScanAt L off n c mc H.
(** The passengers work; the scanners have finished the flight. *)
Definition at_rest m : list Proc → Z → Handles → nat → Prop := λ ps mc _ n,
  ∃ q e a, ps = [m; q; scan_idle e a] ∧ has_loads e no_load ∧ mc = 0 ∧ n = 0%nat.
(** The scanners work. *)
Definition scanning m q : list Proc → Z → Handles → nat → Prop := λ ps mc _ n,
  ∃ c, ps = [m; q; c] ∧ mc = 0 ∧ n = 0%nat.
(** scannersmain works; the others may be late from the last flight. *)
Definition boarding : list Proc → Z → Handles → nat → Prop := λ ps mc H n,
  ∃ m q c, ps = [m; q; c] ∧
    ((∃ e a, q = pass_wait e a) ∧ ScanAt no_load 0 n c mc H ∨
     (∃ e a e' a', q = pass_first e a ∧ c = scan_idle e' a' ∧ has_loads e' no_load ∧ mc = 0 ∧ n = 3%nat)).
(** scannersmain works, and both wait for it. *)
Definition landed : list Proc → Z → Handles → nat → Prop := λ ps mc _ n,
  ∃ m e a e' a', ps = [m; pass_wait e a; scan_idle e' a'] ∧ has_loads e' no_load ∧ mc = 0 ∧ n = 0%nat.

Lemma ScanAt_fresh L off n c mc H r h : ScanAt L off n c mc H → H !! r = None → ScanAt L off n c mc (<[r := h]> H).
Proof using Type.
  intros Hat Hr. inversion Hat; subst; constructor; try done. rewrite lookup_insert_ne; [done|congruence].
Qed.

Lemma ScanAt_touch f L off n c mc H r x :
  f ≠ ScannerId → H !! r = Some (f, x) → ScanAt L off n c mc H →
  (∀ y, ScanAt L off n c mc (<[r := (f, y)]> H)) ∧ ScanAt L off n c mc (delete r H).
Proof using Type.
  intros Hf Hr Hat. inversion Hat; subst; split; intros; constructor; try done.
  - rewrite lookup_insert_ne; [done|congruence].
  - rewrite lookup_delete_ne; [done|congruence].
Qed.

(** The scanners block or make a late call. *)
Lemma scan_other L off n c mc H ps o D V :
  ScanAt L off n c mc H → ps !! 2%nat = Some c → rep o D (V ++ [mc]) H → length V = 3%nat → V !! 2%nat = Some 0 →
  is_Some (get D ScannerId) → (size H + pending n ≤ 98)%nat →
  turn garbage 2 (mkSys ps o) = Stop WouldBlock ∨
  ∃ c' o' mc' H' n', turn garbage 2 (mkSys ps o) = Ok (mkSys (<[2%nat := c']> ps) o') ∧ (n' < n)%nat ∧
    ScanAt L off n' c' mc' H' ∧ rep o' D (V ++ [mc']) H' ∧ H ⊆ H' ∧ (size H' + pending n' ≤ size H + pending n)%nat.
Proof using Type.
  intros Hat Hc Hr HV HV2 Hs Hsz. destruct n as [|n].
  - left. inversion Hat; subst. eapply waits_blocks; [done|apply ready_waits|done|lia|]. by rewrite lookup_app_l by lia.
  - right. destruct (scan_late L off n c mc H ps o D V Hat Hc Hr HV Hs) as (c' & o' & mc' & H' & E & Hat' & Hr' & Hsub & Hsz').
    { simpl in Hsz. lia. }
    exists c', o', mc', H', n. split_and!; try done; simpl; lia.
Qed.

Lemma late_others m L off V :
  waits 0 m → length V = 3%nat → V !! 0%nat = Some 0 → V !! 2%nat = Some 0 → Others 1 (late m L off) V.
Proof using Type.
  intros Hm HV HV0 HV2. split.
  - intros ps mc H n (q & c & -> & _). simpl. lia.
  - intros ps mc H n p (q & c & -> & Hat). by exists p, c.
  - intros ps mc H n r h (q & c & -> & Hat) Hr. exists q, c. split; [done|]. by apply ScanAt_fresh.
  - intros ps mc H n p (q & c & -> & _) _ [= <-]. by destruct Hm as (k & e & a & ->).
  - intros ps mc H n o D (q & c & -> & Hat) Hr Hs Hsz j Hj. destruct j as [|[|[|j]]]; [|done| |].
    + left. eapply waits_blocks; [done|exact Hm|done|lia|]. by rewrite lookup_app_l by lia.
    + destruct (scan_other L off n c mc H [m; q; c] o D V) as [?|(c' & o' & mc' & H' & n' & E & Hn & Hat' & Hr' & HH & Hz)];
        try done; [by left|right]. exists c', o', mc', H', n'. split_and!; try done. by exists q, c'.
    + left. apply turn_none. simpl. lia.
Qed.

Lemma at_rest_others m V :
  waits 0 m → length V = 3%nat → V !! 0%nat = Some 0 → Others 1 (at_rest m) V.
Proof using Type.
  intros Hm HV HV0. split.
  - intros ps mc H n (q & e & a & -> & _). simpl. lia.
  - intros ps mc H n p (q & e & a & -> & Hl). by exists p, e, a.
  - intros ps mc H n r h Ho Hr. exact Ho.
  - intros ps mc H n p (q & e & a & -> & _) _ [= <-]. by destruct Hm as (k & e' & a' & ->).
  - intros ps mc H n o D (q & e & a & -> & Hl & -> & ->) Hr Hs Hsz j Hj. left. destruct j as [|[|[|j]]]; [|done| |].
    + eapply waits_blocks; [done|exact Hm|done|lia|]. by rewrite lookup_app_l by lia.
    + eapply waits_blocks; [done|apply idle_waits|done|lia|]. by rewrite lookup_app_r, HV by lia.
    + apply turn_none. simpl. lia.
Qed.

Lemma scanning_others m q V :
  waits 0 m → waits 1 q → length V = 3%nat → V !! 0%nat = Some 0 → V !! 1%nat = Some 0 → Others 2 (scanning m q) V.
Proof using Type.
  intros Hm Hq HV HV0 HV1. split.
  - intros ps mc H n (c & -> & _). simpl. lia.
  - intros ps mc H n p (c & -> & Hl). by exists p.
  - intros ps mc H n r h Ho Hr. exact Ho.
  - intros ps mc H n p (c & -> & _) _ [= <-]. by destruct Hm as (k & e' & a' & ->).
  - intros ps mc H n o D (c & -> & -> & ->) Hr Hs Hsz j Hj. left. destruct j as [|[|[|j]]]; [| |done|].
    + eapply waits_blocks; [done|exact Hm|done|lia|]. by rewrite lookup_app_l by lia.
    + eapply waits_blocks; [done|exact Hq|done|lia|]. by rewrite lookup_app_l by lia.
    + apply turn_none. simpl. lia.
Qed.

Lemma landed_others V : length V = 3%nat → V !! 1%nat = Some 0 → Others 0 landed V.
Proof using Type.
  intros HV HV1. split.
  - intros ps mc H n (m & e & a & e' & a' & -> & _). simpl. lia.
  - intros ps mc H n p (m & e & a & e' & a' & -> & Hl). by exists p, e, a, e', a'.
  - intros ps mc H n r h Ho Hr. exact Ho.
  - done.
  - intros ps mc H n o D (m & e & a & e' & a' & -> & Hl & -> & ->) Hr Hs Hsz j Hj. left. destruct j as [|[|[|j]]]; [done| | |].
    + eapply waits_blocks; [done|apply pass_wait_waits|done|lia|]. by rewrite lookup_app_l by lia.
    + eapply waits_blocks; [done|apply idle_waits|done|lia|]. by rewrite lookup_app_r, HV by lia.
    + apply turn_none. simpl. lia.
Qed.

(** The first call of the passengers. *)
Lemma pass_first_turn ps e a o D H V :
  ps !! 1%nat = Some (pass_first e a) → rep o D (V ++ [0]) H → length V = 3%nat →
  ∃ o' e', turn garbage 1 (mkSys ps o) = Ok (mkSys (<[1%nat := pass_wait e' a]> ps) o') ∧ rep o' D (V ++ [1]) H.
Proof using Type.
  intros Hp Hr HV. destruct (Up_rep 3 o D (V ++ [0]) H 0 Hr) as (o' & E & Hr'); [lia|by rewrite lookup_app_r, HV by lia|].
  assert (Go local_fuel [Run (rest passengers)] (set "" 0 e) a (λ q, q = pass_wait (set "" 0 e) a))
    as (q & Eq & ->) by (go; reflexivity).
  exists o', (set "" 0 e). split; [by eapply turn_call|]. rewrite insert_app_r_alt, HV in Hr' by lia. done.
Qed.

Lemma boarding_others V : length V = 3%nat → V !! 1%nat = Some 0 → V !! 2%nat = Some 0 → Others 0 boarding V.
Proof using Type.
  intros HV HV1 HV2. split.
  - intros ps mc H n (m & q & c & -> & _). simpl. lia.
  - intros ps mc H n p (m & q & c & -> & Hl). by exists p, q, c.
  - intros ps mc H n r h (m & q & c & -> & [[Hq Hat]|Hf]) Hr; exists m, q, c; (split; [done|]); [left|by right].
    split; [done|]. by apply ScanAt_fresh.
  - done.
  - intros ps mc H n o D (m & q & c & -> & Hcase) Hr Hs Hsz j Hj.
    destruct Hcase as [[(e & a & ->) Hat]|(e & a & e' & a' & -> & -> & Hl & -> & ->)].
    + destruct j as [|[|[|j]]]; [done| | |].
      * left. eapply waits_blocks; [done|apply pass_wait_waits|done|lia|]. by rewrite lookup_app_l by lia.
      * destruct (scan_other no_load 0 n c mc H [m; pass_wait e a; c] o D V)
          as [?|(c' & o' & mc' & H' & n' & E & Hn & Hat' & Hr' & HH & Hz)]; try done; [by left|right].
        exists c', o', mc', H', n'. split_and!; try done. exists m, (pass_wait e a), c'. split; [done|]. left. eauto.
      * left. apply turn_none. simpl. lia.
    + destruct j as [|[|[|j]]]; [done| | |].
      * right. destruct (pass_first_turn [m; pass_first e a; scan_idle e' a'] e a o D H V) as (o' & e2 & E & Hr'); try done.
        exists (pass_wait e2 a), o', 1, H, 2%nat. split_and!; try done; [lia|].
        exists m, (pass_wait e2 a), (scan_idle e' a'). split; [done|]. left. split; [eauto|]. by constructor.
      * left. eapply waits_blocks; [done|apply idle_waits|done|lia|]. by rewrite lookup_app_r, HV by lia.
      * left. apply turn_none. simpl. lia.
Qed.

Lemma late_touch m L off f : f ≠ ScannerId → Touch f (late m L off).
Proof using Type.
  intros Hf ps mc H n r x Hr (q & c & -> & Hat). destruct (ScanAt_touch f L off n c mc H r x Hf Hr Hat) as [H1 H2].
  split; [intros y|]; by exists q, c.
Qed.
Lemma at_rest_touch m f : Touch f (at_rest m).
Proof using Type. by intros ps mc H n r x Hr Ho. Qed.
Lemma scanning_touch m q f : Touch f (scanning m q).
Proof using Type. by intros ps mc H n r x Hr Ho. Qed.
Lemma landed_touch f : Touch f landed.
Proof using Type. by intros ps mc H n r x Hr Ho. Qed.
Lemma boarding_touch f : f ≠ ScannerId → Touch f boarding.
Proof using Type.
  intros Hf ps mc H n r x Hr (m & q & c & -> & [[Hq Hat]|Hfirst]).
  - destruct (ScanAt_touch f no_load 0 n c mc H r x Hf Hr Hat) as [H1 H2].
    split; [intros y|]; exists m, q, c; (split; [done|]); left; eauto.
  - split; [intros y|]; exists m, q, c; (split; [done|]); by right.
Qed.

(** ** The scanners *)

Definition body (s : stmt) : stmt := match s with While _ s => s | _ => Skip end.
Definition newline_if (last : bool) : list Z := if last then [10] else [].

Lemma number_snoc w c :
  number (w ++ [c]) = if is_digit c then s32 (number w * 10 + (c - 48)) else number w.
Proof using Type. unfold number. by rewrite foldl_snoc. Qed.

Section scanners.
Context m q V (HO : Others 2 (scanning m q) V).
Notation L2 := (Line 2 (scanning m q)).

(** The loop that reads the weight: of the characters [w] of a piece of luggage,
    [u] are left; behind the last piece of a flight there is a newline. *)
Lemma read_weight_spec D R N K rd rs a L last u : ∀ w e,
  get D LugWeight = Some (w ++ u ++ newline_if last) → R !! rd = Some (LugWeight, Z.of_nat (length w)) →
  (10 ∉ u) → (N ≤ 98)%nat →
  e "readLugWeight" = rd → e "weight" = number w → e "readEndline" = 0 → e "writeScannerId" = rs → has_loads e L →
  (∀ e', e' "weight" = number (w ++ u) → e' "readEndline" = Z.b2z last → e' "writeScannerId" = rs → has_loads e' L →
     Go 40 K e' a (L2 V D (delete rd R) (pred N))) →
  Go 50 (Loop (λ _, true) (body read_weight) :: K) e a (L2 V D R N).
Proof using HO.
  revert R. induction u as [|c u IH]; intros R w e Hlug HR Hu HN Hrd Hw Hend Hrs HL HK.
  - rewrite app_nil_r in HK. destruct last; simpl in Hlug.
    + go.
      eapply (line_read _ _ _ _ _ HO LugWeight (Z.of_nat (length w)) _ 10); [by vars|exact Hlug| |apply scanning_touch|done|].
      { rewrite Nat2Z.id, lookup_app_r, Nat.sub_diag by lia. done. }
      go. eapply line_close; [exact HO|done|vars; apply lookup_insert_eq|apply scanning_touch|done|].
      go1. vars. rewrite delete_insert_eq. eapply go_more; [apply HK; by vars|unfold local_fuel; lia].
    + rewrite app_nil_r in Hlug. go.
      eapply (line_read_end _ _ _ _ _ HO LugWeight); [by vars|exact Hlug|apply scanning_touch|done|].
      go. eapply line_close; [exact HO|done|vars; apply lookup_insert_eq|apply scanning_touch|done|].
      go1. vars. rewrite delete_insert_eq. eapply go_more; [apply HK; by vars|unfold local_fuel; lia].
  - apply not_elem_of_cons in Hu as [Hc Hu]. go.
    eapply (line_read _ _ _ _ _ HO LugWeight (Z.of_nat (length w)) _ c); [by vars|exact Hlug| |apply scanning_touch|done|].
    { rewrite Nat2Z.id, lookup_app_r, Nat.sub_diag by lia. done. }
    assert (∀ e', e' "readLugWeight" = rd → e' "weight" = number (w ++ [c]) → e' "readEndline" = 0 →
      e' "writeScannerId" = rs → has_loads e' L →
      Go 50 (Loop (λ _, true) (body read_weight) :: K) e' a
        (L2 V D (<[rd := (LugWeight, Z.of_nat (length w) + 1)]> R) N)) as Hnext.
    { intros e' H1 H2 H3 H4 H5. apply (IH _ (w ++ [c]) e'); try done.
      - by rewrite <- app_assoc.
      - rewrite length_app, Nat2Z.inj_add. simpl. by rewrite lookup_insert_eq.
      - intros e2. rewrite <- app_assoc, delete_insert_eq. by apply HK. }
    vars. rewrite number_snoc in Hnext. destruct (is_digit c) eqn:Ed.
    + go1. go1. go1. apply go_if_true; [by vars|]. go1. eapply go_more; [apply Hnext; by vars|unfold local_fuel; lia].
    + do 3 go1. apply go_if_false; [by vars|]. go1. go1. eapply go_more; [apply Hnext; by vars|unfold local_fuel; lia].
Qed.

(** What is written, and the loads, behind a piece of luggage. *)
Definition scanned (ids : list Z) (L : Loads) (weight : Z) : list Z * Loads :=
  if weight =? 0 then (ids, L) else let '(ch, L) := choose L weight in (ids ++ [ch], L).

Lemma put_get f bs D : get D f = Some bs → put f bs D = D.
Proof using Type. destruct D, f; simpl; by intros ->. Qed.

Lemma get_put_eq f bs D : get (put f bs D) f = Some bs.
Proof using Type. rewrite get_put. by case_decide. Qed.
Lemma get_put_ne f g bs D : g ≠ f → get (put f bs D) g = get D g.
Proof using Type. intros H. rewrite get_put. by case_decide. Qed.

(** The branches of the choice, one scanner each. *)
Lemma choose_scanner_spec D R N K rs ids a L e :
  get D ScannerId = Some ids → R !! rs = Some (ScannerId, Z.of_nat (length ids)) → (N ≤ 98)%nat →
  e "writeScannerId" = rs → has_loads e L →
  (∀ e', e' "readEndline" = e "readEndline" → e' "writeScannerId" = rs → has_loads e' (choose L (e "weight")).2 →
     Go 40 K e' a (L2 V (put ScannerId (ids ++ [(choose L (e "weight")).1]) D)
       (<[rs := (ScannerId, Z.of_nat (length (ids ++ [(choose L (e "weight")).1])))]> R) N)) →
  Go 50 (Run choose_scanner :: K) e a (L2 V D R N).
Proof using HO.
  intros Hids HR HN Hrs HL HK. destruct L as [[s1 s2] s3]. unfold has_loads in HL. injection HL as H1 H2 H3.
  unfold choose in HK.
  destruct ((s1 <=? s2) && (s1 <=? s3)) eqn:E1; [|destruct ((s2 <=? s1) && (s2 <=? s3)) eqn:E2].
  - apply go_if_true; [by vars|]. go.
    eapply (line_write _ _ _ _ _ HO ScannerId ids [49]); [vars; reflexivity|done|done|done|done|done|apply scanning_touch|done|].
    eapply go_more; [apply HK; unfold has_loads; by vars|unfold local_fuel; lia].
  - apply go_if_false; [by vars|]. apply go_if_true; [by vars|]. go.
    eapply (line_write _ _ _ _ _ HO ScannerId ids [50]); [vars; reflexivity|done|done|done|done|done|apply scanning_touch|done|].
    eapply go_more; [apply HK; unfold has_loads; by vars|unfold local_fuel; lia].
  - apply go_if_false; [by vars|]. apply go_if_false; [by vars|]. go.
    eapply (line_write _ _ _ _ _ HO ScannerId ids [51]); [vars; reflexivity|done|done|done|done|done|apply scanning_touch|done|].
    eapply go_more; [apply HK; unfold has_loads; by vars|unfold local_fuel; lia].
Qed.

(** What follows the weighing. *)
Definition scan_tail : stmt := rest (rest (rest (rest (rest (rest (rest scan_luggage)))))).
Definition scan_frames : list frame := Run scan_tail :: Loop (λ _, true) scan_luggage :: scan_k.

(** The scanners give the turn back, and wait for the next piece of luggage or
    the next flight. *)
Lemma scan_back D R N rs off a L last e :
  length V = 3%nat → V !! 1%nat = Some 0 →
  R !! rs = Some (ScannerId, off) → (N ≤ 98)%nat →
  e "readEndline" = Z.b2z last → e "writeScannerId" = rs → has_loads e L →
  (last = false → ∀ e', has_loads e' L → e' "writeScannerId" = rs → L2 (<[1%nat := 1]> V) D R N (scan_ready e' a)) →
  (last = true → ∀ e', has_loads e' no_load → L2 (<[1%nat := 1]> V) D (delete rs R) (pred N) (scan_idle e' a)) →
  Go 30 scan_frames e a (L2 V D R N).
Proof using HO.
  intros HV HV1 HR HN Hend Hrs HL Hmore Hlast. unfold scan_frames. destruct last.
  - go. eapply line_close; [exact HO|vars; reflexivity|vars; exact HR|apply scanning_touch|done|].
    go. eapply (line_up _ _ _ _ _ HO 1 0); [vars; reflexivity|lia|done|done|lia|].
    go. by apply Hlast.
  - go. eapply (line_up _ _ _ _ _ HO 1 0); [vars; reflexivity|lia|done|done|lia|].
    go. apply Hmore; [done|unfold has_loads in *; by vars|by vars].
Qed.

(** A piece of luggage is scanned. *)
Lemma scan_piece D R N rs ids a L last w e :
  V = [0; 0; 0] → get D LugWeight = Some (w ++ newline_if last) → (10 ∉ w) → get D ScannerId = Some ids →
  R !! rs = Some (ScannerId, Z.of_nat (length ids)) → (N < 98)%nat →
  e "writeScannerId" = rs → has_loads e L →
  let '(ids', L') := scanned ids L (number w) in
  (last = false → ∀ e', has_loads e' L' → e' "writeScannerId" = rs →
     L2 [0; 1; 0] (put ScannerId ids' D) (<[rs := (ScannerId, Z.of_nat (length ids'))]> R) N (scan_ready e' a)) →
  (last = true → ∀ e', has_loads e' no_load →
     L2 [0; 1; 0] (put ScannerId ids' D) (delete rs R) (pred N) (scan_idle e' a)) →
  Go local_fuel (Run (rest scan_luggage) :: Loop (λ _, true) scan_luggage :: scan_k) e a (L2 V D R N).
Proof using HO.
  intros HV Hlug Hw Hids HR HN Hrs HL. destruct (scanned ids L (number w)) as [ids' L'] eqn:Esc.
  intros Hmore Hlast. go. eapply (line_open _ _ _ _ _ HO LugWeight); [done|by rewrite Hlug|lia|]. intros rd Hrd Hrd2.
  to_loop. eapply (go_more 50); [|unfold local_fuel; lia].
  eapply (read_weight_spec D (<[rd := (LugWeight, 0)]> R) (S N) _ rd rs a L last w []); try done.
  - apply lookup_insert_eq.
  - intros e' Hwt Hend Hrs' HL'. rewrite app_nil_l in Hwt. simpl pred. rewrite delete_insert_id by done.
    assert (∀ D' R' e2, R' !! rs = Some (ScannerId, Z.of_nat (length ids')) →
      put ScannerId ids' D = D' → <[rs := (ScannerId, Z.of_nat (length ids'))]> R = R' →
      e2 "readEndline" = Z.b2z last → e2 "writeScannerId" = rs → has_loads e2 L' →
      Go 30 scan_frames e2 a (L2 V D' R' N)) as Hback.
    { intros D' R' e2 HR' HD' HR2 H1 H2 H3. apply (scan_back D' R' N rs (Z.of_nat (length ids')) a L' last e2); try done.
      - by rewrite HV.
      - by rewrite HV.
      - lia.
      - intros El e3 H4 H5. rewrite HV, <- HD', <- HR2. by apply Hmore.
      - intros El e3 H4. rewrite HV, <- HD', <- HR2, delete_insert_eq. by apply Hlast. }
    unfold scanned in Esc. destruct (Z.eqb_spec (number w) 0) as [Ez|Ez].
    + injection Esc as <- <-. go1. apply go_if_false; [vars; by rewrite Ez|]. go1.
      eapply go_more; [apply Hback; try done|lia].
      * by apply put_get.
      * by apply insert_id.
    + destruct (choose L (number w)) as [ch L1] eqn:Ech. injection Esc as <- <-.
      go1. apply go_if_true; [vars; by apply negb_true_iff, Z.eqb_neq|]. go.
      eapply line_print; [exact HO|left; by eexists|lia|]. go.
      eapply line_print; [exact HO|right; by eexists|lia|]. go.
      eapply line_print; [exact HO|left; by eexists|lia|]. 
      eapply go_more; [eapply (choose_scanner_spec _ _ _ _ rs ids a L); [done|done|lia|by vars|done|]|unfold local_fuel; lia].
      vars. rewrite Ech. cbn [fst snd]. intros e2 H1 H2 H3. apply (go_more 30); [|lia].
      apply Hback; [apply lookup_insert_eq|done|done|by rewrite H1|done|done].
Qed.
End scanners.

(** ** The passengers *)

Lemma live_only j ps o p s' :
  ps !! 0%nat = Some p → todo p ≠ [] → turn garbage j (mkSys ps o) = Ok s' →
  (∀ i, i ≠ j → turn garbage i (mkSys ps o) = Stop WouldBlock) → live garbage Q s' → live garbage Q (mkSys ps o).
Proof using Type.
  intros Hp Hne E Hblock Hl. apply live_turn.
  - unfold finished. cbn [procs]. rewrite Hp. apply bool_decide_eq_false_2. by intros ?%nil_length_inv.
  - by exists j, s'.
  - intros i e Ei. destruct (decide (i = j)) as [->|Hi]; [congruence|]. rewrite Hblock in Ei by done. congruence.
  - intros i s2 Ei. destruct (decide (i = j)) as [->|Hi]; [congruence|]. rewrite Hblock in Ei by done. congruence.
Qed.

(** Files that the scanners write to are not among [R]. *)
Definition no_scan R : Prop := ∀ r x, R !! r ≠ Some (ScannerId, x).

(** When a piece of luggage is handed over, the scanners first catch up. *)
Lemma to_scanners m q L off D R N :
  waits 0 m → waits 1 q → (N ≤ 98)%nat → no_scan R →
  (∀ e a, has_loads e L → R !! e "writeScannerId" = None →
     Line 2 (scanning m q) [0; 0; 1] D (<[e "writeScannerId" := (ScannerId, off)]> R) N (scan_ready e a)) →
  Line 1 (late m L off) [0; 0; 1] D R N q.
Proof using Type.
  intros Hm Hq HN Hno Hscan Hs ps o mc H n Hi (q' & c & -> & Hat) Hr HR Hsz. injection Hi as ->.
  assert (∃ k e a, m = mkProc (Run (call "" (SysDown (sem_name 0))) :: k) e a) as (km & em & am & Em) by exact Hm.
  revert c o mc H Hat Hr HR Hsz. induction n as [|n IH]; intros c o mc H Hat Hr HR Hsz.
  - inversion Hat; subst. eapply (Hscan e a); try done.
    + destruct (R !! e "writeScannerId") as [h|] eqn:E; [|done]. exfalso.
      assert (h = (ScannerId, off)) as -> by (eapply lookup_weaken in E; [|exact HR]; congruence).
      by apply (Hno _ _ E).
    + by exists (scan_ready e a).
    + by apply insert_subseteq_l.
  - destruct (scan_late L off n c mc H [m; q; c] o D [0; 0; 1] Hat) as (c' & o' & mc' & H' & E & Hat' & Hr' & Hsub & Hz);
      try done; [simpl in Hsz; lia|].
    eapply (live_only 2 _ _ m); [done|by rewrite Em|exact E| |].
    + intros j Hj. destruct j as [|[|[|j]]]; [| |done|].
      * eapply waits_blocks; [done|exact Hm|done|lia|done].
      * eapply waits_blocks; [done|exact Hq|done|lia|done].
      * apply turn_none. simpl. lia.
    + apply (IH c' o' mc' H'); try done; [by etransitivity|simpl in Hsz; lia].
Qed.

(** The scanners take it, and the passengers can go on. *)
Lemma piece_scanned m q L D R N ids last w :
  waits 0 m → waits 1 q → no_scan R → (N < 98)%nat →
  get D LugWeight = Some (w ++ newline_if last) → (10 ∉ w) → get D ScannerId = Some ids →
  let '(ids', L') := scanned ids L (number w) in
  (last = false → Line 1 (late m L' (Z.of_nat (length ids'))) [0; 1; 0] (put ScannerId ids' D) R N q) →
  (last = true → Line 1 (at_rest m) [0; 1; 0] (put ScannerId ids' D) R (pred N) q) →
  Line 1 (late m L (Z.of_nat (length ids))) [0; 0; 1] D R N q.
Proof using Type.
  intros Hm Hq Hno HN Hlug Hw Hids. destruct (scanned ids L (number w)) as [ids' L'] eqn:Esc. intros Hmore Hlast.
  apply to_scanners; [done|done|lia|done|]. intros e a HL Hrs. set (rs := e "writeScannerId") in *.
  eapply (line_down _ _ _ _ _ (scanning_others m q [0; 0; 1] Hm Hq eq_refl eq_refl eq_refl) 2 1);
    [reflexivity|lia|done|done|done|lia|].
  pose proof (scan_piece m q [0; 0; 0] (scanning_others m q [0; 0; 0] Hm Hq eq_refl eq_refl eq_refl) D
    (<[rs := (ScannerId, Z.of_nat (length ids))]> R) N rs ids a L last w (set "" 0 e)) as Hp. rewrite Esc in Hp.
  apply Hp; try done.
  - apply lookup_insert_eq.
  - intros El e' HL' Hrs' Hs ps o mc H n Hi (c & -> & -> & ->) Hr HR Hsz. injection Hi as ->.
    apply (Hmore El Hs _ o 0 H 0%nat); try done.
    + eexists q, _. split; [done|]. apply at_ready; [done|]. rewrite Hrs'. eapply lookup_weaken; [|exact HR].
      rewrite insert_insert_eq. apply lookup_insert_eq.
    + etransitivity; [|exact HR]. rewrite insert_insert_eq. by apply insert_subseteq.
  - intros El e' HL' Hs ps o mc H n Hi (c & -> & -> & ->) Hr HR Hsz. injection Hi as ->.
    apply (Hlast El Hs _ o 0 H 0%nat); try done.
    + by exists q, e', a.
    + etransitivity; [|exact HR]. by rewrite delete_insert_id.
Qed.

(** The variables of the passengers that a hand-over keeps. *)
Definition same_flight (e e' : vars) : Prop :=
  e' "filePointer" = e "filePointer" ∧ e' "fileLength" = e "fileLength" ∧ e' "readPassengers" = e "readPassengers".

(** The passengers go on: the file of the luggage is made anew. *)
Lemma new_piece O D R N K e a :
  Others 1 O [0; 1; 0] → Others 1 O [0; 0; 0] → (N < 98)%nat →
  (∀ e' r, R !! r = None → e' "writeLugWeight" = r → same_flight e e' →
     Go 40 K e' a (Line 1 O [0; 0; 0] (put LugWeight [] D) (<[r := (LugWeight, 0)]> R) (S N))) →
  Line 1 O [0; 1; 0] D R N (mkProc (Run (Down "passengers") :: Run (rest (rest (rest hand_over))) :: K) e a).
Proof using Type.
  intros HO1 HO0 HN HK. eapply (line_down _ _ _ _ _ HO1 1 1); [reflexivity|lia|done|done|done|lia|]. simpl.
  go. eapply (line_create _ _ _ _ _ HO0 LugWeight); [reflexivity|lia|].
  go. eapply (line_open _ _ _ _ _ HO0 LugWeight); [reflexivity|by rewrite get_put_eq|done|]. intros r Hr Hr2.
  do 2 go1. eapply go_more; [by apply HK; [|by vars|unfold same_flight; vars]|unfold local_fuel; lia].
Qed.

Lemma hand_over_spec m L D R N K r2 off ids last w e a :
  waits 0 m → no_scan R → (2 ≤ N < 99)%nat → R !! r2 = Some (LugWeight, off) → e "writeLugWeight" = r2 →
  get D LugWeight = Some (w ++ newline_if last) → (10 ∉ w) → get D ScannerId = Some ids →
  let '(ids', L') := scanned ids L (number w) in
  (∀ e' r, delete r2 R !! r = None → e' "writeLugWeight" = r → same_flight e e' →
     Go 40 K e' a (Line 1 (if last then at_rest m else late m L' (Z.of_nat (length ids'))) [0; 0; 0]
       (put LugWeight [] (put ScannerId ids' D)) (<[r := (LugWeight, 0)]> (delete r2 R)) (if last then pred N else N))) →
  Go 30 (Run hand_over :: K) e a (Line 1 (late m L (Z.of_nat (length ids))) [0; 0; 0] D R N).
Proof using Type.
  intros Hm Hno HN HR He Hlug Hw Hids. destruct (scanned ids L (number w)) as [ids' L'] eqn:Esc. intros HK.
  pose proof (λ L off V, late_others m L off V Hm) as HO. go.
  eapply line_close; [by apply HO|vars; reflexivity|exact HR|by apply late_touch|lia|].
  go. eapply (line_up _ _ _ _ _ (HO _ _ [0; 0; 0] eq_refl eq_refl eq_refl) 2 0); [reflexivity|lia|done|done|lia|]. simpl.
  go1. go1.
  assert (no_scan (delete r2 R)) as Hno'.
  { intros r x Hr. apply lookup_delete_Some in Hr as [_ Hr]. by apply (Hno r x). }
  match goal with |- AirportLogic.Line _ _ _ _ _ _ _ _ ?p => set (q := p) end.
  pose proof (piece_scanned m q L D (delete r2 R) (pred N) ids last w Hm) as Hp. rewrite Esc in Hp.
  apply Hp; try done; [by do 3 eexists|lia|intros ->..].
  - eapply new_piece; [by apply HO|by apply HO|lia|]. intros e' r Hr Hr2 Hsame.
    replace (S (pred N)) with N by lia. by apply HK.
  - eapply new_piece; [by apply at_rest_others|by apply at_rest_others|lia|]. intros e' r Hr Hr2 Hsame.
    replace (S (pred (pred N))) with (pred N) by lia. by apply HK.
Qed.

Lemma scanned_assign ids L wt ws :
  let '(ids', L') := scanned ids L wt in
  ids ++ assign L (filter (λ n, n ≠ 0) (wt :: ws)) = ids' ++ assign L' (filter (λ n, n ≠ 0) ws).
Proof using Type.
  unfold scanned. destruct (Z.eqb_spec wt 0) as [->|Hne].
  - by rewrite filter_cons_False by lia.
  - rewrite filter_cons_True by done. simpl. destruct (choose L wt) as [ch L']. by rewrite <- app_assoc.
Qed.

End airport.
