(* ===== verification/AirportPass.v ===== *)
(** * The airport's passengers under every schedule

    The loop of passengers.c over the characters of a flight's line, with the
    hand-over of each piece of luggage, and a whole flight: from the Down that
    waits for scannersmain to the Up that wakes it. *)

From S2P Require Import Prelude NList Bitmap Interrupt Disk FileHdr OpenFile Directory FileSys UnixFS STable Airport AirportOs AirportLogic AirportScan.
Import Calls Lang Programs Processes.
#[local] Open Scope string_scope.
#[local] Open Scope list_scope.
#[local] Open Scope Z_scope.

(** A character of a line. *)
Definition line_char (c : Z) : Prop := c ≠ 0 ∧ c ≠ 10.

Lemma no_newline w : Forall line_char w → 10 ∉ w.
Proof. intros Hw Hin. rewrite Forall_forall in Hw. by destruct (Hw 10 Hin). Qed.

Lemma until_nul_char c : c ≠ 0 → Directory.until_nul [c] = [c].
Proof. intros H. cbn [Directory.until_nul]. by rewrite (proj2 (Z.eqb_neq c 0)). Qed.

Section passengers.
Context (garbage : Z → vars) (Q : Sys → Prop).
Notation Line := (Line garbage Q).
Implicit Types (R H : Handles) (D : Data) (N : nat) (V : list Z) (m p q : Proc).

Lemma no_scan_insert R r f x : no_scan R → f ≠ ScannerId → no_scan (<[r := (f, x)]> R).
Proof using Type.
  intros Hno Hf r' y E. destruct (decide (r' = r)) as [->|Hne].
  - rewrite lookup_insert_eq in E. congruence.
  - rewrite lookup_insert_ne in E by done. by apply (Hno r' y).
Qed.
Lemma no_scan_delete R r : no_scan R → no_scan (delete r R).
Proof using Type. intros Hno r' y E. apply lookup_delete_Some in E as [_ E]. by apply (Hno r' y). Qed.

Lemma subseteq_delete R0 R r : R0 ⊆ R → R0 !! r = None → R0 ⊆ delete r R.
Proof using Type.
  intros Hs Hr. apply map_subseteq_spec. intros j h Hj. apply lookup_delete_Some. split; [congruence|].
  by eapply lookup_weaken.
Qed.
Lemma subseteq_insert R0 R r h : R0 ⊆ R → R0 !! r = None → R0 ⊆ <[r := h]> R.
Proof using Type. intros Hs Hr. etransitivity; [by apply (insert_subseteq R0 r h)|by apply insert_mono]. Qed.

(** The passengers' two files are open, at [pos] and [len], besides the files
    [R0] of others. *)
Record opened R0 R (pos len : Z) (r1 r2 : Z) : Prop := mkOpened {
  op_sub : R0 ⊆ R;
  op_none1 : R0 !! r1 = None;
  op_none2 : R0 !! r2 = None;
  op_scan : no_scan R;
  op_ne : r1 ≠ r2;
  op_1 : R !! r1 = Some (PassengersTxt, pos);
  op_2 : R !! r2 = Some (LugWeight, len);
}.

Lemma opened_read R0 R pos len r1 r2 y :
  opened R0 R pos len r1 r2 → opened R0 (<[r1 := (PassengersTxt, y)]> R) y len r1 r2.
Proof using Type.
  intros []. split; try done; [by apply subseteq_insert|by apply no_scan_insert|by rewrite lookup_insert_eq|].
  by rewrite lookup_insert_ne.
Qed.
Lemma opened_write R0 R pos len r1 r2 y :
  opened R0 R pos len r1 r2 → opened R0 (<[r2 := (LugWeight, y)]> R) pos y r1 r2.
Proof using Type.
  intros []. split; try done; [by apply subseteq_insert|by apply no_scan_insert| |by rewrite lookup_insert_eq].
  by rewrite lookup_insert_ne.
Qed.
Lemma opened_anew R0 R pos len r1 r2 r :
  opened R0 R pos len r1 r2 → delete r2 R !! r = None →
  opened R0 (<[r := (LugWeight, 0)]> (delete r2 R)) pos 0 r1 r.
Proof using Type.
  intros [] Hr. assert (delete r2 R !! r1 = Some (PassengersTxt, pos)) as E by (by rewrite lookup_delete_ne).
  assert (R0 ⊆ delete r2 R) as Hsub by (by apply subseteq_delete).
  assert (R0 !! r = None) by (by eapply lookup_weaken_None).
  assert (r1 ≠ r) by congruence.
  split; try done; [by apply subseteq_insert|by apply no_scan_insert; [apply no_scan_delete|]| |by rewrite lookup_insert_eq].
  by rewrite lookup_insert_ne.
Qed.

(** The variables of the passengers during a flight. *)
Record flight_vars (at' len : Z) (r1 r2 : Z) (e : vars) : Prop := mkFlightVars {
  fv_pointer : e "filePointer" = at';
  fv_length : e "fileLength" = len;
  fv_read : e "readPassengers" = r1;
  fv_write : e "writeLugWeight" = r2;
}.

Section luggage.
Context m (Hm : waits 0 m) (R0 : Handles) (t : list Z) (Ht : Forall line_char t) (Hlen : Z.of_nat (length t) < two31).
Context (K : list frame) (a : list Z) (d_in d_out : option (list Z)) (N : nat) (HN : (2 ≤ N < 99)%nat).

(** The files, when [ids] is assigned and [w] is the luggage at hand. *)
Definition files (ids w : list Z) : Data := mkData d_in d_out (Some t) (Some ids) (Some w).

(** Behind the loop, everything is assigned. *)
Definition flight_done (ids : list Z) : Prop := ∀ e R, R0 ⊆ R →
  Go 15 K e a (Line 1 (at_rest m) [0; 0; 0] (files ids []) R (pred N)).

Definition luggage_frames : list frame := Loop (λ e, e "filePointer" <? e "fileLength") next_char :: K.

(** At the head of the loop [read] has been read and [l] is left; the luggage at
    hand starts with [w]. *)
Definition loop_claim (read l : list Z) : Prop := ∀ w L ids R r1 r2 e,
  opened R0 R (Z.of_nat (length read)) (Z.of_nat (length w)) r1 r2 →
  flight_vars (Z.of_nat (length read)) (Z.of_nat (length t)) r1 r2 e → Forall line_char w →
  flight_done (ids ++ assign L (filter (λ n, n ≠ 0) (number <$> words w l))) →
  Go 20 luggage_frames e a (Line 1 (late m L (Z.of_nat (length ids))) [0; 0; 0] (files ids w) R N).

(** The end of an iteration when more characters follow. *)
Lemma char_more read ch l w L ids R r1 r2 e :
  t = read ++ ch :: l → loop_claim (read ++ [ch]) l →
  opened R0 R (Z.of_nat (length read) + 1) (Z.of_nat (length w)) r1 r2 →
  flight_vars (Z.of_nat (length read)) (Z.of_nat (length t)) r1 r2 e → Forall line_char w →
  flight_done (ids ++ assign L (filter (λ n, n ≠ 0) (number <$> words w l))) →
  Go 30 (Run ("filePointer" ::= (λ e, s32 (e "filePointer" + 1)))%airport :: luggage_frames) e a
    (Line 1 (late m L (Z.of_nat (length ids))) [0; 0; 0] (files ids w) R N).
Proof using Hlen HN.
  intros Et Hloop Hop [] Hw Hdone.
  assert (Z.of_nat (length t) = Z.of_nat (length read) + 1 + Z.of_nat (length l)) as El.
  { rewrite Et, length_app. simpl. lia. }
  assert (s32 (Z.of_nat (length read) + 1) = Z.of_nat (length (read ++ [ch]))) as Es.
  { rewrite s32_small by (unfold is_s32; unfold two31 in *; lia). rewrite length_app. simpl. lia. }
  go1. eapply (go_more 20); [|lia]. apply (Hloop w L ids R r1 r2); [|split; vars; congruence|done|done].
  rewrite length_app. simpl. by rewrite Nat2Z.inj_add.
Qed.

(** The end of the last iteration. *)
Lemma char_last ids R r1 r2 e :
  R0 ⊆ R → flight_vars (Z.of_nat (length t) - 1) (Z.of_nat (length t)) r1 r2 e → flight_done ids →
  Go 30 (Run ("filePointer" ::= (λ e, s32 (e "filePointer" + 1)))%airport :: luggage_frames) e a
    (Line 1 (at_rest m) [0; 0; 0] (files ids []) R (pred N)).
Proof using Hlen HN.
  intros HR [] Hdone. go1.
  assert (s32 (Z.of_nat (length t) - 1 + 1) = Z.of_nat (length t)) as Es.
  { rewrite s32_small by (unfold is_s32; unfold two31 in *; lia). lia. }
  apply go_leave; [vars; rewrite Es; apply Z.ltb_ge; lia|]. eapply go_more; [by apply Hdone|lia].
Qed.

(** The rest of an iteration when a piece of luggage is complete. *)
Lemma char_over read ch l w L ids R r1 r2 e :
  t = read ++ ch :: l → l ≠ [] → loop_claim (read ++ [ch]) l →
  opened R0 R (Z.of_nat (length read) + 1) (Z.of_nat (length w)) r1 r2 →
  flight_vars (Z.of_nat (length read)) (Z.of_nat (length t)) r1 r2 e → Forall line_char w →
  flight_done (ids ++ assign L (filter (λ n, n ≠ 0) (number w :: (number <$> words [] l)))) →
  Go 30 (Run hand_over :: Run ("filePointer" ::= (λ e, s32 (e "filePointer" + 1)))%airport :: luggage_frames) e a
    (Line 1 (late m L (Z.of_nat (length ids))) [0; 0; 0] (files ids w) R N).
Proof using Hm Hlen HN.
  intros Et Hl Hloop Hop Hfv Hw Hdone.
  pose proof (scanned_assign ids L (number w) (number <$> words [] l)) as Eids.
  pose proof (hand_over_spec garbage Q m L (files ids w) R N
    (Run ("filePointer" ::= (λ e, s32 (e "filePointer" + 1)))%airport :: luggage_frames) r2
    (Z.of_nat (length w)) ids false w e a Hm (op_scan _ _ _ _ _ _ Hop) HN (op_2 _ _ _ _ _ _ Hop) (fv_write _ _ _ _ _ Hfv)) as Hho.
  rewrite app_nil_r in Hho. destruct (scanned ids L (number w)) as [ids' L']. apply Hho; [done|by apply no_newline|done|].
  clear Hho. intros e' r Hr Hwl (H1 & H2 & H3). eapply (go_more 30); [|lia]. rewrite Eids in Hdone.
  destruct Hfv as []. eapply (char_more read ch l [] L' ids' _ r1 r); try done.
  - by eapply opened_anew.
  - split; congruence.
Qed.

(** The rest of the last iteration: the luggage ends with a newline. *)
Lemma char_final read ch w L ids R r1 r2 e :
  t = read ++ [ch] →
  opened R0 R (Z.of_nat (length read) + 1) (Z.of_nat (length w)) r1 r2 →
  flight_vars (Z.of_nat (length read)) (Z.of_nat (length t)) r1 r2 e → Forall line_char w →
  flight_done (ids ++ assign L (filter (λ n, n ≠ 0) [number w])) →
  Go 50 (Run (rest (rest (rest next_char))) :: luggage_frames) e a
    (Line 1 (late m L (Z.of_nat (length ids))) [0; 0; 0] (files ids w) R N).
Proof using Hm Hlen HN.
  intros Et Hop Hfv Hw Hdone. pose proof Hfv as [Hp Hl Hrp Hwr].
  pose proof (late_others garbage m L (Z.of_nat (length ids)) [0; 0; 0] Hm eq_refl eq_refl eq_refl) as HO.
  assert (Z.of_nat (length t) = Z.of_nat (length read) + 1) as El by (rewrite Et, length_app; simpl; lia).
  assert (s32 (Z.of_nat (length t) - 1) = Z.of_nat (length read)) as Es.
  { rewrite s32_small by (unfold is_s32; unfold two31 in *; lia). lia. }
  go.
  pose proof (opened_write _ _ _ _ _ _ (Z.of_nat (length (w ++ [10]))) Hop) as Hop'.
  eapply (line_write _ _ _ _ _ HO LugWeight w [10]);
    [vars; reflexivity|apply Hop|done|done|done|done|by apply late_touch|lia|].
  do 3 go1.
  pose proof (scanned_assign ids L (number w) []) as Eids.
  match goal with |- Go _ (Run hand_over :: ?K') ?e' a _ =>
    pose proof (hand_over_spec garbage Q m L (files ids (w ++ [10])) _ N K' r2 _ ids true w e' a Hm
      (op_scan _ _ _ _ _ _ Hop') HN (op_2 _ _ _ _ _ _ Hop')) as Hho end.
  destruct (scanned ids L (number w)) as [ids' L'].
  eapply (go_more 30); [apply Hho; [by vars|done|by apply no_newline|done|]|unfold local_fuel; lia].
  clear Hho. intros e' r Hr Hwl (H1 & H2 & H3). eapply (go_more 30); [|lia]. rewrite Eids, app_nil_r in Hdone.
  apply (char_last ids' _ r1 r); [|split; rewrite ?H1, ?H2, ?H3; vars; lia|done].
  by eapply op_sub, opened_anew.
Qed.

(** The loop, from any character on. *)
Lemma luggage_loop l : ∀ read, t = read ++ l → l ≠ [] → loop_claim read l.
Proof using Hm Hlen HN Ht.
  induction l as [|ch l IH]; [done|]. intros read Et _ w L ids R r1 r2 e Hop Hfv Hw Hdone.
  pose proof Hfv as [Hp Hl Hrp Hwr].
  pose proof (late_others garbage m L (Z.of_nat (length ids)) [0; 0; 0] Hm eq_refl eq_refl eq_refl) as HO.
  assert (Z.of_nat (length t) = Z.of_nat (length read) + 1 + Z.of_nat (length l)) as El.
  { rewrite Et, length_app. simpl. lia. }
  assert (s32 (Z.of_nat (length t) - 1) = Z.of_nat (length t) - 1) as Es.
  { rewrite s32_small by (unfold is_s32; unfold two31 in *; lia). lia. }
  assert (t !! length read = Some ch) as Hch by (rewrite Et; by apply list_lookup_middle).
  assert (line_char ch) as Hlc by (by apply (Forall_lookup_1 _ _ _ _ Ht Hch)).
  unfold luggage_frames. apply go_loop; [cond|]. go.
  eapply (line_read _ _ _ _ _ HO PassengersTxt); [vars; apply Hop|done|by rewrite Nat2Z.id|by apply late_touch|lia|].
  vars. pose proof (opened_read _ _ _ _ _ _ (Z.of_nat (length read) + 1) Hop) as Hop1.
  change (number <$> words w (ch :: l)) with (number <$> (if ch =? 32 then w :: words [] l else words (w ++ [ch]) l)) in Hdone.
  destruct (Z.eqb_spec ch 32) as [->|Hne].
  - (* a blank *)
    do 3 go1.
    destruct l as [|c l'].
    + eapply (go_more 50); [|unfold local_fuel; lia]. by apply (char_final read 32 w L ids _ r1 r2).
    + cbn [length] in El. do 5 go1. eapply (go_more 30); [|unfold local_fuel; lia].
      apply (char_over read 32 (c :: l') w L ids _ r1 r2); try done. apply IH; [by rewrite <- app_assoc|done].
  - (* another character *)
    go. 
  eapply (line_write _ _ _ _ _ HO LugWeight w [ch]);
    [vars; reflexivity|apply Hop1|done|by apply until_nul_char, Hlc|done|done|by apply late_touch|lia|].
    pose proof (opened_write _ _ _ _ _ _ (Z.of_nat (length (w ++ [ch]))) Hop1) as Hop2.
    assert (Forall line_char (w ++ [ch])) as Hw2 by (apply Forall_app; split; [done|by constructor]).
    vars. destruct l as [|c l'].
    + eapply (go_more 50); [|unfold local_fuel; lia]. by apply (char_final read ch (w ++ [ch]) L ids _ r1 r2).
    + cbn [length] in El. do 6 go1. eapply (go_more 30); [|unfold local_fuel; lia].
      apply (char_more read ch (c :: l') (w ++ [ch]) L ids _ r1 r2); try done. apply IH; [by rewrite <- app_assoc|done].
Qed.
End luggage.

(** ** The length of the line *)

Definition first (s : stmt) : stmt := match s with Seq s _ => s | _ => Skip end.
Definition file_length : stmt := getFileLength "fileLength" "readPassengers".
Definition length_frames (K : list frame) : list frame :=
  Loop (λ _, true) (body (first (rest file_length))) :: Run (rest (rest file_length)) :: K.

Lemma length_loop O V D R N K a t r l : ∀ read e,
  Others garbage 1 O V → Touch PassengersTxt O → (N ≤ 98)%nat → Z.of_nat (length t) < two31 →
  t = read ++ l → get D PassengersTxt = Some t →
  e "readPassengers" = r → e "cnt" = Z.of_nat (length read) →
  (∀ e', e' "fileLength" = Z.of_nat (length t) → e' "readPassengers" = r →
     Go 40 K e' a (Line 1 O V D (<[r := (PassengersTxt, 0)]> R) N)) →
  Go 20 (length_frames K) e a (Line 1 O V D (<[r := (PassengersTxt, Z.of_nat (length read))]> R) N).
Proof using Type.
  induction l as [|c l IH]; intros read e HO Ht HN Hlen Et HD Hr Hc HK; unfold length_frames.
  - rewrite app_nil_r in Et. go.
    eapply (line_read_end _ _ _ _ _ HO PassengersTxt); [vars; by rewrite lookup_insert_eq, <- Et|done|done|done|].
    go1. go1. go1. go1. vars. rewrite insert_insert_eq.
    eapply go_more; [apply HK; vars; congruence|unfold local_fuel; lia].
  - go. assert (t !! length read = Some c) as Hch by (rewrite Et; by apply list_lookup_middle).
    eapply (line_read _ _ _ _ _ HO PassengersTxt);
      [vars; by rewrite lookup_insert_eq|done|by rewrite Nat2Z.id|done|done|].
    do 4 go1. vars. rewrite insert_insert_eq.
    assert (Z.of_nat (length t) = Z.of_nat (length read) + 1 + Z.of_nat (length l)) as El.
    { rewrite Et, length_app. simpl. lia. }
    assert (Z.of_nat (length read) + 1 = Z.of_nat (length (read ++ [c]))) as Es by (rewrite length_app; simpl; lia).
    rewrite s32_small by (unfold is_s32; unfold two31 in *; lia). rewrite Es.
    eapply (go_more 20); [|unfold local_fuel; lia].
    apply IH; try done. by rewrite <- app_assoc.
Qed.

(** ** A flight *)

(** The passengers at the place where they wait, with a line [t] in
    passengers.txt: each piece of luggage gets its scanner, and scannersmain is
    woken. *)
Lemma passengers_flight m t d_in d_out d_scan d_lug R0 N e a :
  waits 0 m → t ≠ [] → Forall line_char t → Z.of_nat (length t) < two31 → no_scan R0 → (1 ≤ N < 97)%nat →
  Line 0 landed [1; 0; 0] (mkData d_in d_out (Some t) (Some (assign no_load (weights t))) (Some [])) R0 (S N) m →
  Line 1 (late m no_load 0) [0; 1; 0] (mkData d_in d_out (Some t) d_scan d_lug) R0 N (pass_wait e a).
Proof using Type.
  intros Hm Hne Ht Hlen Hno HN Hmain.
  pose proof (late_others garbage m no_load 0 [0; 1; 0] Hm eq_refl eq_refl eq_refl) as HO1.
  pose proof (late_others garbage m no_load 0 [0; 0; 0] Hm eq_refl eq_refl eq_refl) as HO.
  eapply (line_down _ _ _ _ _ HO1 1 1); [reflexivity|lia|done|done|done|lia|]. simpl.
  go. eapply (line_create _ _ _ _ _ HO ScannerId); [reflexivity|lia|]. simpl.
  go. eapply (line_open _ _ _ _ _ HO PassengersTxt); [reflexivity|done|lia|]. intros r1 Hr1 Hr1'.
  to_loop. eapply (go_more 20); [|unfold local_fuel; lia].
  apply (length_loop _ _ _ _ _ _ _ t r1 t []); try done; [by apply late_touch|lia|]. intros e1 Hfl Hrp.
  go. eapply line_close; [exact HO|vars; reflexivity|vars; apply lookup_insert_eq|by apply late_touch|lia|].
  rewrite delete_insert_id by done. simpl pred.
  go. eapply (line_open _ _ _ _ _ HO PassengersTxt); [reflexivity|done|lia|]. clear r1 Hr1 Hr1' Hrp. intros r1 Hr1 Hr1'.
  go. eapply (line_create _ _ _ _ _ HO LugWeight); [reflexivity|lia|]. simpl.
  go. eapply (line_open _ _ _ _ _ HO LugWeight); [reflexivity|done|lia|]. intros r2 Hr2 Hr2'.
  to_loop. eapply (go_more 20); [|unfold local_fuel; lia].
  apply lookup_insert_None in Hr2 as [Hr2 Hne12].
  apply (luggage_loop m Hm R0 t Ht Hlen _ a d_in d_out (S (S N)) ltac:(lia) t [] eq_refl Hne [] no_load [] _ r1 r2);
    [|split; by vars|done|].
  - split; try done; [by apply subseteq_insert; [apply insert_subseteq|]| |by rewrite lookup_insert_ne, lookup_insert_eq|by rewrite lookup_insert_eq].
    by apply no_scan_insert; [apply no_scan_insert|].
  - clear r1 r2 Hr1 Hr1' Hr2 Hr2' e1 Hfl Hne12. intros e1 R HR. simpl pred.
    go. eapply (line_up _ _ _ _ _ (at_rest_others garbage m [0; 0; 0] Hm eq_refl eq_refl) 0 0); [reflexivity|lia|done|done|lia|].
    go. intros Hs ps o mc H n Hi (q & e2 & a2 & -> & Hl & -> & ->) Hr HRH Hsz. injection Hi as ->.
    apply (Hmain Hs _ o 0 H 0%nat); try done; [by do 5 eexists|by etransitivity].
Qed.
End passengers.
