(* ===== verification/AirportMain.v ===== *)
(** * The airport's flights under every schedule

    scannersmain.c at work: the copy of a line of the input for the passengers,
    the wait for them, and the copy of the scanners' numbers into the output;
    by induction over the lines, all flights. *)

From S2P Require Import Prelude NList Bitmap Interrupt Disk FileHdr OpenFile Directory FileSys UnixFS STable Airport AirportOs AirportLogic AirportScan AirportPass.
Import Calls Lang Programs Processes.
#[local] Open Scope string_scope.
#[local] Open Scope list_scope.
#[local] Open Scope Z_scope.

(** What a number of a scanner is in the output. *)
Definition id_text (ids : list Z) : list Z := concat ((λ c, c :: replicate 7 32) <$> ids).

Lemma choose_char L w : (choose L w).1 ≠ 0.
Proof. destruct L as [[s1 s2] s3]. unfold choose. by repeat case_match. Qed.
Lemma assign_chars ws : ∀ L, Forall (λ c, c ≠ 0) (assign L ws).
Proof.
  induction ws as [|w ws IH]; intros L; simpl; [done|]. pose proof (choose_char L w) as Hc.
  destruct (choose L w) as [c L']. by constructor.
Qed.

Section main.
Context (garbage : Z → vars) (Q : Sys → Prop).
Notation Line := (Line garbage Q).
Implicit Types (R H : Handles) (D : Data) (N : nat) (V : list Z) (m p q : Proc).

(** The two files that scannersmain keeps open. *)
Definition main_files (ri ro pos len : Z) : Handles := <[ri := (Input, pos)]> (<[ro := (Output, len)]> ∅).

Lemma main_files_in ri ro pos len : main_files ri ro pos len !! ri = Some (Input, pos).
Proof using Type. apply lookup_insert_eq. Qed.
Lemma main_files_out ri ro pos len : ri ≠ ro → main_files ri ro pos len !! ro = Some (Output, len).
Proof using Type. intros H. unfold main_files. rewrite lookup_insert_ne by done. apply lookup_insert_eq. Qed.
Lemma main_files_read ri ro pos len y : <[ri := (Input, y)]> (main_files ri ro pos len) = main_files ri ro y len.
Proof using Type. unfold main_files. by rewrite insert_insert_eq. Qed.
Lemma main_files_write ri ro pos len y :
  ri ≠ ro → <[ro := (Output, y)]> (main_files ri ro pos len) = main_files ri ro pos y.
Proof using Type. intros H. unfold main_files. by rewrite insert_insert_ne, insert_insert_eq by done. Qed.
Lemma main_files_no_scan ri ro pos len : no_scan (main_files ri ro pos len).
Proof using Type.
  intros r x E. unfold main_files in E. apply lookup_insert_Some in E as [[_ ?]|[_ E]]; [done|].
  apply lookup_insert_Some in E as [[_ ?]|[_ E]]; done.
Qed.

Record main_vars (n ri ro size : Z) (e : vars) : Prop := mkMainVars {
  mv_left : e "numPoint" = n;
  mv_in : e "readInput" = ri;
  mv_out : e "writeOutput" = ro;
  mv_size : e "saveSize" = size;
}.

(** *** A line of the input *)

(** The character that was read is noted in the array. *)
Lemma copy_store K size e a P :
  e "saveSize" = size → e "readSuccess" = 1 → -1 ≤ size → size + 1 < Z.of_nat (length a) → Z.of_nat (length a) < two31 →
  Go 50 (Run (rest (rest (rest (rest (body copy_line))))) :: K) (set "saveSize" (size + 1) e)
    (<[Z.to_nat (size + 1) := e "tempbuffer"]> a) P →
  Go local_fuel (Run (rest (body copy_line)) :: K) e a P.
Proof using Type.
  intros Hs Hr H1 H2 Ha HK. assert (s32 (size + 1) = size + 1) as Es.
  { apply s32_small. unfold is_s32. unfold two31 in *. lia. }
  do 6 go1. rewrite Hs, Es. apply go_store; [vars; lia|]. vars. eapply go_more; [exact HK|lia].
Qed.

Section copy.
Context (K : list frame) V (input out : list Z) (d_scan d_lug : option (list Z)) N (n ri ro rw : Z) (before : list Z).
Context (HV : length V = 3%nat) (HV1 : V !! 1%nat = Some 0) (HV2 : V !! 2%nat = Some 0).
Context (Hne : ri ≠ rw) (HN : (N ≤ 98)%nat).

(** When [copied] is in passengers.txt and [taken] is read of the input. *)
Definition copy_claim (copied taken : list Z) : Proc → Prop :=
  Line 0 boarding V (mkData (Some input) (Some out) (Some copied) d_scan d_lug)
    (<[rw := (PassengersTxt, Z.of_nat (length copied))]>
      (main_files ri ro (Z.of_nat (length taken)) (Z.of_nat (length out)))) N.

Lemma copy_loop l after : ∀ copied size e a,
  input = before ++ copied ++ l ++ 10 :: after → Forall line_char l →
  main_vars n ri ro size e → e "writePassengers" = rw → -1 ≤ size →
  size + Z.of_nat (length l) + 1 < Z.of_nat (length a) → Z.of_nat (length a) < two31 →
  (∀ e' a', main_vars n ri ro (size + Z.of_nat (length l) + 1) e' → e' "writePassengers" = rw → length a' = length a →
     Go 40 K e' a' (copy_claim (copied ++ l) (before ++ copied ++ l ++ [10]))) →
  Go 20 (Loop (λ _, true) (body copy_line) :: K) e a (copy_claim copied (before ++ copied)).
Proof using HV HV1 HV2 Hne HN.
  unfold copy_claim. pose proof (boarding_others garbage V HV HV1 HV2) as HO.
  induction l as [|c l IH]; intros copied size e a Ein Hl Hmv Hrw Hs Hsize Ha HK; destruct Hmv as [M1 M2 M3 M4];
    simpl in Hsize.
  - go. eapply (line_read _ _ _ _ _ HO Input (Z.of_nat (length (before ++ copied))) _ 10);
      [vars; rewrite lookup_insert_ne by done; apply main_files_in|done| |by apply boarding_touch|done|].
    { rewrite Nat2Z.id, Ein, app_assoc. simpl. by apply list_lookup_middle. }
    eapply (copy_store _ size); [by vars|done|done|lia|done|]. go1. go1. vars.
    rewrite insert_insert_ne, main_files_read by done.
    assert (Z.of_nat (length (before ++ copied)) + 1 = Z.of_nat (length (before ++ copied ++ [10]))) as ->.
    { rewrite !length_app. simpl. lia. }
    rewrite app_nil_r in HK. eapply (go_more 40); [|lia].
    apply HK; [|vars; done|by rewrite length_insert]. split; vars; try done; simpl; lia.
  - apply Forall_cons in Hl as [Hc Hl].
    go. eapply (line_read _ _ _ _ _ HO Input (Z.of_nat (length (before ++ copied))) _ c);
      [vars; rewrite lookup_insert_ne by done; apply main_files_in|done| |by apply boarding_touch|done|].
    { rewrite Nat2Z.id, Ein, app_assoc. simpl. by apply list_lookup_middle. }
    eapply (copy_store _ size); [by vars|done|done|lia|done|]. apply go_if_false; [vars; by apply Z.eqb_neq, Hc|].
    go. vars. rewrite insert_insert_ne, main_files_read by done.
    eapply (line_write _ _ _ _ _ HO PassengersTxt copied [c]);
      [vars; reflexivity|apply lookup_insert_eq|done|by apply until_nul_char, Hc|done|done|by apply boarding_touch|done|].
    simpl put. rewrite insert_insert_eq.
    assert (Z.of_nat (length (before ++ copied)) + 1 = Z.of_nat (length (before ++ copied ++ [c]))) as ->.
    { rewrite !length_app. simpl. lia. }
    vars. eapply (go_more 20); [|unfold local_fuel; lia].
    apply (IH (copied ++ [c]) (size + 1)).
    + by rewrite Ein, <- !app_assoc.
    + done.
    + by split; vars.
    + by vars.
    + lia.
    + rewrite length_insert. lia.
    + by rewrite length_insert.
    + intros e' a' Hm' Hr' Ha'. rewrite <- !app_assoc. apply HK; [|done|by rewrite Ha', length_insert].
      replace (size + Z.of_nat (length (c :: l)) + 1) with (size + 1 + Z.of_nat (length l) + 1) by (simpl; lia). done.
Qed.
End copy.

(** *** A line of the output *)

(** From [landed] to [boarding]: the scanners may open the next scannerid.txt. *)
Lemma landed_boarding ps q mc H n : landed ps mc H n →
  ∃ n', boarding (<[0%nat := q]> ps) (mc + 1) H n' ∧ (pending n' ≤ S (pending n))%nat.
Proof using Type.
  intros (m & e & a & e' & a' & -> & Hl & -> & ->). exists 2%nat. split; [|simpl; lia].
  exists q, (pass_wait e a), (scan_idle e' a'). split; [done|]. left. split; [eauto|]. by constructor.
Qed.

Section ids.
Context (K : list frame) (input t ids : list Z) (d_lug : option (list Z)) N (n ri ro rs pos size : Z) (out : list Z) (a : list Z).
Context (Hio : ri ≠ ro) (His : ri ≠ rs) (Hos : ro ≠ rs) (HN : (0 < N ≤ 98)%nat) (Hids : Forall (λ c, c ≠ 0) ids).

Definition ids_files (out : list Z) : Data := mkData (Some input) (Some out) (Some t) (Some ids) d_lug.

Lemma ids_loop l : ∀ shown e,
  ids = shown ++ l → main_vars n ri ro size e → e "readScannerId" = rs →
  (∀ e', main_vars n ri ro size e' →
     Go 40 K e' a (Line 0 boarding [0; 0; 0] (ids_files (out ++ id_text ids ++ [13; 10]))
       (main_files ri ro pos (Z.of_nat (length (out ++ id_text ids ++ [13; 10])))) N)) →
  Go 20 (Loop (λ _, true) (body copy_ids) :: K) e a
    (Line 0 landed [0; 0; 0] (ids_files (out ++ id_text shown))
      (<[rs := (ScannerId, Z.of_nat (length shown))]> (main_files ri ro pos (Z.of_nat (length (out ++ id_text shown))))) N).
Proof using Hio His Hos HN Hids.
  unfold ids_files. pose proof (landed_others garbage [0; 0; 0] eq_refl eq_refl) as HO.
  induction l as [|c l IH]; intros shown e Eids Hmv Hrs HK; destruct Hmv as [M1 M2 M3 M4].
  - rewrite app_nil_r in Eids. subst shown. go.
    eapply (line_read_end _ _ _ _ _ HO ScannerId ids); [vars; apply lookup_insert_eq|done|by apply landed_touch|lia|].
    vars. rewrite insert_insert_eq. go.
    eapply (line_write _ _ _ _ _ HO Output (out ++ id_text ids) [13; 10]);
      [vars; reflexivity|rewrite lookup_insert_ne by done; by apply main_files_out|done|done|done|done|by apply landed_touch|lia|].
    vars. rewrite insert_insert_ne, main_files_write by done. simpl put. rewrite <- app_assoc.
    go. eapply line_close; [exact HO|vars; reflexivity|vars; apply lookup_insert_eq|by apply landed_touch|lia|].
    vars. rewrite delete_insert_id.
    2: { unfold main_files. rewrite !lookup_insert_ne by done. done. }
    go. eapply (line_counter _ _ _ _ _ HO boarding); [reflexivity|done|lia|apply landed_boarding|].
    go1. replace (S (pred N)) with N by lia. eapply go_more; [apply HK; by split; vars|unfold local_fuel; lia].
  - assert (c ≠ 0) as Hc. { rewrite Eids in Hids. apply Forall_app in Hids as [_ Hids]. by apply Forall_cons in Hids as [? _]. }
    go. eapply (line_read _ _ _ _ _ HO ScannerId (Z.of_nat (length shown)) ids c);
      [vars; apply lookup_insert_eq|done| |by apply landed_touch|lia|].
    { rewrite Nat2Z.id, Eids. by apply list_lookup_middle. }
    vars. rewrite insert_insert_eq. go.
    eapply (line_write _ _ _ _ _ HO Output (out ++ id_text shown) [c]);
      [vars; reflexivity|rewrite lookup_insert_ne by done; by apply main_files_out|done|by apply until_nul_char|done|done|by apply landed_touch|lia|].
    vars. rewrite insert_insert_ne, main_files_write by done. simpl put. go.
    eapply (line_write _ _ _ _ _ HO Output ((out ++ id_text shown) ++ [c]) (replicate 7 32));
      [vars; reflexivity|rewrite lookup_insert_ne by done; by apply main_files_out|done|done|done|done|by apply landed_touch|lia|].
    vars. rewrite insert_insert_ne, main_files_write by done. cbn [put d_in d_out d_pass d_scan AirportOs.d_lug].
    assert (((out ++ id_text shown) ++ [c]) ++ replicate 7 32 = out ++ id_text (shown ++ [c])) as ->.
    { unfold id_text. rewrite fmap_app, concat_app. simpl. by rewrite <- !app_assoc. }
    assert (Z.of_nat (length shown) + 1 = Z.of_nat (length (shown ++ [c]))) as -> by (rewrite length_app; simpl; lia).
    eapply (go_more 20); [|unfold local_fuel; lia]. apply IH; [by rewrite <- app_assoc|by split; vars|by vars|done].
Qed.
End ids.

(** *** The flights *)

(** scannersmain waits: the passengers go on, if need be after their first
    call. *)
Lemma to_passengers m D R N :
  waits 0 m → (N ≤ 98)%nat →
  (∀ e a, Line 1 (late m no_load 0) [0; 1; 0] D R N (pass_wait e a)) → Line 0 boarding [0; 1; 0] D R N m.
Proof using Type.
  intros Hm HN Hpass Hs ps o mc H n Hi Hb Hr HR Hsz. destruct Hb as (m' & q & c & -> & Hcase). injection Hi as ->.
  destruct Hcase as [[(e & a & ->) Hat]|(e & a & e' & a' & -> & -> & Hl & -> & ->)].
  - apply (Hpass e a Hs _ o mc H n); try done. by do 2 eexists.
  - destruct (pass_first_turn garbage [m; pass_first e a; scan_idle e' a'] e a o D H [0; 1; 0]) as (o' & e2 & E & Hr'); try done.
    assert (∃ k e a, m = mkProc (Run (call "" (SysDown (sem_name 0))) :: k) e a) as (km & em & am & Em) by exact Hm.
    eapply (live_only garbage Q 1 _ _ m); [done|by rewrite Em|exact E| |].
    + intros j Hj. destruct j as [|[|[|j]]]; [|done| |].
      * eapply waits_blocks; [done|exact Hm|done|lia|done].
      * eapply waits_blocks; [done|apply idle_waits|done|lia|done].
      * apply turn_none. simpl. lia.
    + apply (Hpass e2 a Hs _ o' 1 H 2%nat); try done. eexists _, _. split; [done|]. by constructor.
Qed.

(** The input: lines, each with its newline. *)
Definition text (lines : list (list Z)) : list Z := concat ((λ l, l ++ [10]) <$> lines).

Section flights.
Context (input final : list Z) (ri ro : Z) (Hio : ri ≠ ro).
Context (HQ : ∀ ps o D w H, rep o D w H → get D Output = Some final → Q (mkSys ps o)).

Lemma main_ends O V D R N e a : get D Output = Some final → Line 0 O V D R N (mkProc [] e a).
Proof using HQ.
  intros HD _ ps o mc H n Hi Ho Hr HR Hsz. apply live_end; [|by eapply HQ].
  unfold finished. cbn [procs]. by rewrite Hi.
Qed.

(** The last part of main: both files are closed. *)
Lemma landing D N pos e a size len :
  get D Output = Some final → main_vars (-1) ri ro size e → (N ≤ 98)%nat →
  Go 20 [Run (rest (rest (rest main)))] e a (Line 0 boarding [0; 0; 0] D (main_files ri ro pos len) N).
Proof using HQ Hio.
  intros HD [M1 M2 M3 M4] HN. pose proof (boarding_others garbage [0; 0; 0] eq_refl eq_refl eq_refl) as HO.
  go. eapply line_close; [exact HO|vars; reflexivity|apply main_files_in|by apply boarding_touch|done|].
  go. eapply line_close;
    [exact HO|vars; reflexivity|vars; rewrite lookup_delete_ne by done; by apply main_files_out|by apply boarding_touch|lia|].
  go. by apply main_ends.
Qed.

(** The second half of a flight: the output gets its line. *)
Definition main_waiting (e : vars) (a : list Z) : Proc :=
  mkProc (Run (Down "main") :: Run (Nat.iter 11 rest flight) :: main_k) e a.

Lemma main_waiting_waits e a : waits 0 (main_waiting e a).
Proof using Type. by do 3 eexists. Qed.

Lemma write_output line out d_lug N pos n size e a :
  main_vars n ri ro size e → (0 < N < 98)%nat → Forall line_char line →
  (∀ e', main_vars n ri ro size e' →
     Go 40 main_k e' a (Line 0 boarding [0; 0; 0]
       (mkData (Some input) (Some (out ++ output_line line)) (Some line) (Some (assign no_load (weights line))) d_lug)
       (main_files ri ro pos (Z.of_nat (length (out ++ output_line line)))) (S N))) →
  Line 0 landed [1; 0; 0] (mkData (Some input) (Some out) (Some line) (Some (assign no_load (weights line))) d_lug)
    (main_files ri ro pos (Z.of_nat (length out))) N (main_waiting e a).
Proof using Hio.
  intros [M1 M2 M3 M4] HN Hl HK. pose proof (landed_others garbage [1; 0; 0] eq_refl eq_refl) as HO1.
  pose proof (landed_others garbage [0; 0; 0] eq_refl eq_refl) as HO.
  unfold main_waiting. eapply (line_down _ _ _ _ _ HO1 0 1); [reflexivity|lia|done|done|done|lia|]. simpl.
  go. eapply (line_open _ _ _ _ _ HO ScannerId); [reflexivity|done|lia|]. intros rs Hrs Hrs2.
  unfold main_files in Hrs. apply lookup_insert_None in Hrs as [Hrs His].
  apply lookup_insert_None in Hrs as [_ Hos].
  to_loop. eapply (go_more 20); [|unfold local_fuel; lia].
  pose proof (ids_loop main_k input line (assign no_load (weights line)) d_lug (S N) n ri ro rs pos size out a
    Hio His Hos ltac:(lia) (assign_chars _ _) (assign no_load (weights line)) []) as Hloop.
  unfold ids_files in Hloop. simpl id_text in Hloop. rewrite app_nil_r in Hloop.
  apply Hloop; [done|split; by vars|by vars|exact HK].
Qed.

(** The first half: the line goes to the passengers. *)
Lemma read_line before line after out d_pass d_scan d_lug N n size e a :
  input = before ++ line ++ 10 :: after → line ≠ [] → Forall line_char line → (3 ≤ N < 97)%nat →
  main_vars (n + 1) ri ro size e → 0 ≤ n < two31 - 1 → -1 ≤ size →
  size + Z.of_nat (length line) + 1 < Z.of_nat (length a) → Z.of_nat (length a) < two31 →
  (∀ e' a', main_vars n ri ro (size + Z.of_nat (length line) + 1) e' → length a' = length a →
     Go 40 main_k e' a' (Line 0 boarding [0; 0; 0]
       (mkData (Some input) (Some (out ++ output_line line)) (Some line) (Some (assign no_load (weights line))) (Some []))
       (main_files ri ro (Z.of_nat (length (before ++ line ++ [10]))) (Z.of_nat (length (out ++ output_line line)))) (S (S N)))) →
  Go 40 main_k e a (Line 0 boarding [0; 0; 0] (mkData (Some input) (Some out) d_pass d_scan d_lug)
    (main_files ri ro (Z.of_nat (length before)) (Z.of_nat (length out))) N).
Proof using Hio.
  intros Ein Hne Hl HN [M1 M2 M3 M4] Hn Hs Hsize Ha HK.
  pose proof (boarding_others garbage [0; 0; 0] eq_refl eq_refl eq_refl) as HO.
  assert (s32 (n + 1 - 1) = n) as En.
  { rewrite s32_small by (unfold is_s32; unfold two31 in *; lia). lia. }
  go. eapply (line_create _ _ _ _ _ HO PassengersTxt); [reflexivity|lia|]. simpl put.
  go. eapply (line_open _ _ _ _ _ HO PassengersTxt); [reflexivity|done|lia|]. intros rw Hrw Hrw2.
  unfold main_files in Hrw. apply lookup_insert_None in Hrw as [Hrw Hiw].
  assert (∀ pos len, main_files ri ro pos len !! rw = None) as Hfree.
  { apply lookup_insert_None in Hrw as [_ Hoo]. intros pos len. unfold main_files. by rewrite !lookup_insert_ne. }
  go. eapply line_print; [exact HO|left; by eexists|lia|].
  go. eapply line_print; [exact HO|right; by eexists|lia|].
  go. eapply line_print; [exact HO|left; by eexists|lia|].
  to_loop. eapply (go_more 20); [|unfold local_fuel; lia].
  pose proof (copy_loop (Run (Nat.iter 8 rest flight) :: main_k) [0; 0; 0] input out
    d_scan d_lug (S N) n ri ro rw before eq_refl eq_refl eq_refl Hiw ltac:(lia) line after [] size) as Hloop.
  rewrite app_nil_r in Hloop. apply Hloop; try done; [split; vars; congruence|].
  clear Hloop. unfold copy_claim. rewrite !app_nil_l. intros e' a' Hmv Hwr Ha'. pose proof Hmv as [M1' M2' M3' M4'].
  go. eapply line_close; [exact HO|vars; reflexivity|apply lookup_insert_eq|by apply boarding_touch|lia|].
  rewrite delete_insert_id by apply Hfree. simpl pred.
  go. eapply (line_up _ _ _ _ _ HO 1 0); [reflexivity|lia|done|done|lia|]. simpl.
  go. apply (to_passengers (main_waiting _ a')); [apply main_waiting_waits|lia|]. intros e2 a2.
  apply passengers_flight; try done; [apply main_waiting_waits|unfold two31 in *; lia|apply main_files_no_scan|lia|].
  apply write_output with n (size + Z.of_nat (length line) + 1); [split; by vars|lia|done|].
  intros e3 Hmv3. by apply HK.
Qed.

Definition good_line (l : list Z) : Prop := l ≠ [] ∧ Forall line_char l.

Lemma flights lines : ∀ before out d_pass d_scan d_lug N size e a,
  input = before ++ text lines → final = out ++ concat (output_line <$> lines) → Forall good_line lines →
  main_vars (Z.of_nat (length lines)) ri ro size e → -1 ≤ size →
  size + Z.of_nat (length (text lines)) < Z.of_nat (length a) → Z.of_nat (length a) < two31 →
  (3 ≤ N)%nat → (N + 2 * length lines ≤ 98)%nat →
  Go 40 main_k e a (Line 0 boarding [0; 0; 0] (mkData (Some input) (Some out) d_pass d_scan d_lug)
    (main_files ri ro (Z.of_nat (length before)) (Z.of_nat (length out))) N).
Proof using HQ Hio.
  induction lines as [|line lines IH]; intros before out d_pass d_scan d_lug N size e a Ein Eout Hgood Hmv Hs Hsize Ha HN HNl.
  - destruct Hmv as [M1 M2 M3 M4]. simpl in Eout. rewrite app_nil_r in Eout. subst out.
    do 7 go1. eapply (go_more 20); [|lia]. apply (landing _ _ _ _ _ size); [done|by split; vars|lia].
  - apply Forall_cons in Hgood as [[Hne Hl] Hgood].
    assert (text (line :: lines) = line ++ 10 :: text lines) as Et by (unfold text; simpl; by rewrite <- app_assoc).
    rewrite Et in Ein, Hsize. rewrite length_app in Hsize. simpl in Hsize, HNl.
    apply (read_line before line (text lines) out d_pass d_scan d_lug N (Z.of_nat (length lines)) size); try done; try lia.
    + replace (Z.of_nat (length lines) + 1) with (Z.of_nat (length (line :: lines))) by (simpl; lia). done.
    + unfold two31. lia.
    + intros e' a' Hmv' Ha'. apply IH with (size + Z.of_nat (length line) + 1); try done; try lia.
      * by rewrite Ein, <- !app_assoc.
      * rewrite Eout. simpl. by rewrite <- app_assoc.
Qed.
End flights.
End main.
