(* ===== verification/AirportProps.v ===== *)
(** * The airport programs: every schedule ends well

    The start of scannersmain on a host, up to the two processes that it
    starts, and the theorem: whatever the kernel does, scannersmain ends, and the
    output file holds the scanner of each piece of luggage, flight by flight.
    Then what goes wrong outside of the theorem's bounds. *)

From S2P Require Import Prelude NList Bitmap Interrupt Disk FileHdr OpenFile Directory FileSys UnixFS STable Airport AirportOs AirportLogic AirportScan AirportPass AirportMain.
Import Calls Lang Programs Processes.
#[local] Open Scope string_scope.
#[local] Open Scope list_scope.
#[local] Open Scope Z_scope.

(** ** The host *)

(** No file has two names. *)
Definition no_links (u : Unix.Unix) : Prop := ∀ a b ino,
  Unix.names u !! a = Some ino → Unix.names u !! b = Some ino → a = b.

Definition contents_of (u : Unix.Unix) (name : list Z) : option (list Z) := Unix.contents u <$> (Unix.names u !! name).

Lemma OpenForWrite_other u name :
  Unix.wf u → no_links u → Unix.cname name = name → name ∉ Unix.refused u →
  ∃ ino u', Unix.OpenForWrite u name = Ok (ino, u') ∧ 0 ≤ ino ∧ Unix.wf u' ∧ no_links u' ∧ Unix.names u' !! name = Some ino ∧
    (∀ b, b ≠ name → contents_of u' b = contents_of u b) ∧ dom (Unix.names u) ⊆ dom (Unix.names u') ∧
    Unix.refused u' = Unix.refused u.
Proof.
  intros Hwf Hno Hc Hr. destruct (Unix.OpenForWrite_spec u name Hwf) as (u' & Eo & E & Hwf' & Hpos & Hn & _ & Hr');
    [by rewrite Hc|]. rewrite Hc in *.
  eexists _, u'. split; [exact Eo|]. unfold Unix.open_create in E. rewrite Hc, decide_False in E by done.
  unfold contents_of. clear Eo.
  destruct (Unix.names u !! name) as [ino|] eqn:Ei; injection E as <-; simpl in *.
  - split_and!; try done. intros b Hb.
    destruct (Unix.names u !! b) as [j|] eqn:Ej; [|done]. simpl. f_equal. rewrite Unix.contents_with.
    rewrite bool_decide_eq_false_2; [done|]. intros ->. by apply Hb, (Hno _ _ ino).
  - pose proof (Unix.wf_next0 _ Hwf) as H0.
    assert (∀ b j, Unix.names u !! b = Some j → j ≠ Unix.next_inode u) as Hold.
    { intros b j Hb ->. destruct (Unix.wf_names _ Hwf _ _ Hb) as [_ [? Hx]]. apply (Unix.wf_next _ Hwf) in Hx. lia. }
    split_and!; try done; [|intros b Hb|set_solver].
    + intros b b' j Hb Hb'. simpl in Hb, Hb'. apply lookup_insert_Some in Hb as [[<- <-]|[_ Hb]];
        apply lookup_insert_Some in Hb' as [[<- Ej]|[_ Hb']]; try done.
      * by apply Hold in Hb'.
      * subst. by apply Hold in Hb.
      * by eapply Hno.
    + rewrite lookup_insert_ne by done. destruct (Unix.names u !! b) as [j|] eqn:Ej; [|done]. simpl. f_equal.
      unfold Unix.contents. simpl. rewrite lookup_insert_ne; [done|]. intros <-. by eapply Hold.
Qed.

Definition data_of (u : Unix.Unix) : Data :=
  mkData (contents_of u (path Input)) (contents_of u (path Output)) (contents_of u (path PassengersTxt))
    (contents_of u (path ScannerId)) (contents_of u (path LugWeight)).

(** The standard streams take the first two entries of the table. *)
Lemma Open_std fs name ty slot i :
  (ty = 2 ∧ slot = 0) ∨ (ty = 3 ∧ slot = 1) → Unix.cname name = name →
  Unix.names (StubFS.unix fs) !! name = Some i → 0 ≤ i → (1 < length (StubFS.file_table fs))%nat →
  StubFS.Open_type fs name ty = Ok (slot,
    StubFS.mkFileSystem (<[Z.to_nat slot := Some (StubFS.OpenFile_new_type i ty)]> (StubFS.file_table fs)) (StubFS.unix fs)).
Proof.
  intros Hty Hc Hn Hi Hlen. unfold StubFS.Open_type, Unix.OpenForReadWrite. rewrite Hc, Hn.
  destruct Hty as [[-> ->]|[-> ->]]; cbn [Z.eqb Pos.eqb orb negb default from_option]; simpl_res; cbn [Z.eqb];
    unfold ASSERT; simpl_res; change (id i) with i; rewrite (proj2 (Z.eqb_neq i (-1))) by lia; rewrite arr_set_in by lia; done.
Qed.

Lemma boot_files u :
  Unix.wf u → no_links u → (∀ f, path f ∉ Unix.refused u) → StubFS.stdin_name ∉ Unix.refused u →
  StubFS.stdout_name ∉ Unix.refused u → ∃ fs, StubFS.FileSystem_new u = Ok fs ∧ files_rep fs (data_of u) ∅.
Proof.
  intros Hwf Hno Hpaths Hin Hout.
  destruct (OpenForWrite_other u StubFS.stdin_name Hwf Hno) as (i & u1 & E1 & Hi & Hwf1 & Hno1 & Hn1 & Hc1 & Hd1 & Hr1); [done..|].
  destruct (OpenForWrite_other u1 StubFS.stdout_name Hwf1 Hno1) as (j & u2 & E2 & Hj & Hwf2 & Hno2 & Hn2 & Hc2 & Hd2 & Hr2); [done|by rewrite Hr1|].
  assert (∃ i', Unix.names u2 !! StubFS.stdin_name = Some i' ∧ 0 ≤ i') as (i' & Hn1' & Hi').
  { assert (StubFS.stdin_name ∈ dom (Unix.names u2)) as Hdom by (apply Hd2, elem_of_dom; by eexists).
    apply elem_of_dom in Hdom as [i' Hi']. exists i'. split; [done|]. by apply (Unix.wf_names _ Hwf2 _ _ Hi'). }
  unfold StubFS.FileSystem_new, StubFS.Create. cbn [StubFS.unix]. rewrite E1. simpl_res.
  rewrite (proj2 (Z.eqb_neq i (-1))) by lia. simpl_res. cbn [StubFS.unix]. rewrite E2. simpl_res.
  rewrite (proj2 (Z.eqb_neq j (-1))) by lia. simpl_res.
  assert (1 < length (replicate (Z.to_nat FileSys.N_FILES_IN_TABLE) (@None StubFS.OpenFile)))%nat as Hlen.
  { rewrite length_replicate. unfold FileSys.N_FILES_IN_TABLE. lia. }
  rewrite (Open_std _ _ 2 0 i') by (done || (by left)). simpl_res.
  rewrite (Open_std _ _ 3 1 j) by (done || (by right) || by rewrite length_insert). simpl_res.
  eexists. split; [reflexivity|]. split; cbn [StubFS.unix StubFS.file_table].
  - done.
  - intros f. change (contents_of u2 (path f) = get (data_of u) f). rewrite Hc2, Hc1 by (by destruct f). by destruct f.
  - intros f g ino Hf Hg. apply path_inj. by eapply Hno2.
  - by rewrite !length_insert.
  - intros k Hk. rewrite lookup_empty, !list_lookup_insert_ne by lia. apply lookup_replicate.
    split; [done|]. unfold FileSys.N_FILES_IN_TABLE in *. lia.
  - apply map_Forall_empty.
  - intros f. by rewrite Hr2, Hr1.
Qed.

(** ** The start of scannersmain *)

Section start_up.
Context (garbage : Z → vars) (Q : Sys → Prop).
Notation Line := (Line garbage Q).
Notation Others := (Others garbage).
Implicit Types (R H : Handles) (D : Data) (N : nat) (V : list Z) (m p q : Proc) (O : list Proc → Z → Handles → nat → Prop).

(** Only scannersmain runs. *)
Definition alone : list Proc → Z → Handles → nat → Prop := λ ps mc _ n, ∃ m, ps = [m] ∧ mc = 0 ∧ n = 0%nat.
(** The passengers are there, and have made their first call or not. *)
Definition arriving : list Proc → Z → Handles → nat → Prop := λ ps mc _ n,
  ∃ m e a, ps = [m; pass_first e a] ∧ mc = 0 ∧ n = 2%nat ∨ ps = [m; pass_wait e a] ∧ mc = 1 ∧ n = 1%nat.

Lemma alone_others V : Others 0 alone V.
Proof using Type.
  split; try done.
  - intros ps mc H n (m & -> & _). simpl. lia.
  - intros ps mc H n p (m & -> & H1 & H2). by exists p.
  - intros ps mc H n o D (m & -> & _) Hr Hs Hsz j Hj. left. apply turn_none. simpl. lia.
Qed.

Lemma arriving_others V : length V = 3%nat → V !! 1%nat = Some 0 → Others 0 arriving V.
Proof using Type.
  intros HV HV1. split; try done.
  - intros ps mc H n (m & e & a & [(-> & _)|(-> & _)]); simpl; lia.
  - intros ps mc H n p (m & e & a & [(-> & H1 & H2)|(-> & H1 & H2)]); exists p, e, a; auto.
  - intros ps mc H n o D (m & e & a & [(-> & -> & ->)|(-> & -> & ->)]) Hr Hs Hsz j Hj; (destruct j as [|[|j]]; [done| |]).
    + right. destruct (pass_first_turn garbage [m; pass_first e a] e a o D H V) as (o' & e2 & E & Hr'); try done.
      exists (pass_wait e2 a), o', 1, H, 1%nat. split_and!; try done; [lia|]. exists m, e2, a. auto.
    + left. apply turn_none. simpl. lia.
    + left. eapply waits_blocks; [done|apply pass_wait_waits|done|lia|]. by rewrite lookup_app_l by lia.
    + left. apply turn_none. simpl. lia.
Qed.

(** Exec: a new process, and the others of [O] become those of [O']. *)
Lemma line_exec i O V O' body (new : Proc → Prop) d D R N x name k e a :
  Others i O V → program (chars name) = Some body → (N ≤ 98)%nat →
  (∀ pid, ∃ p, start garbage pid body = Ok p ∧ new p) →
  (∀ ps q p mc H n, O ps mc H n → new p →
     ∃ n', O' (<[i := q]> (ps ++ [p])) mc H n' ∧ (pending n' ≤ d + pending n)%nat) →
  (∀ pid, 0 ≤ pid → Go local_fuel k (set x pid e) a (Line i O' V D R (d + N))) →
  Line i O V D R N (mkProc (Run (Call x (λ _, SysExec (chars name))) :: k) e a).
Proof using Type.
  intros HO Hprog HN Hnew HO' Hgo. apply (line_step _ _ _ _ _ HO); [done|done|].
  intros Hs ps o mc H n Hi Ho Hr HR Hsz. set (pid := Z.of_nat (length ps)).
  destruct (Hnew pid) as (p & Ep & Hp). destruct (Hgo pid) as (q & Eq & Hq); [lia|].
  exists (mkSys (<[i := q]> (ps ++ [p])) o). split.
  - unfold turn. cbn [procs]. rewrite Hi. cbn [todo env perform]. unfold Exec. rewrite Hprog.
    cbn [procs Processes.os]. fold pid. rewrite Ep. simpl_res. unfold resume. cbn [snd fst env array]. rewrite Eq.
    simpl_res. done.
  - destruct (HO' ps q p mc H n Ho Hp) as (n' & Ho' & Hn'). apply (Hq Hs _ o mc H n'); try done; [|lia].
    apply list_lookup_insert_eq. apply lookup_lt_Some in Hi. rewrite length_app. lia.
Qed.

(** *** The number of flights *)

Lemma number_loop K D R N ri a input header after : ∀ read e,
  input = read ++ header ++ 10 :: after → (10 ∉ header) → (N ≤ 98)%nat → get D Input = Some input →
  e "readInput" = ri → e "numPoint" = number read → e "saveSize" = -1 → R !! ri = Some (Input, Z.of_nat (length read)) →
  (∀ e', e' "readInput" = ri → e' "numPoint" = number (read ++ header) → e' "saveSize" = -1 →
     Go 40 K e' a (Line 0 alone [0; 0; 0] D (<[ri := (Input, Z.of_nat (length (read ++ header ++ [10])))]> R) N)) →
  Go 20 (Loop (λ _, true) (body (rest read_number)) :: K) e a (Line 0 alone [0; 0; 0] D R N).
Proof using Type.
  pose proof (alone_others [0; 0; 0]) as HO. assert (Touch Input alone) as Ht by done.
  revert R. induction header as [|c header IH]; intros R read e Ein Hno HN HD Hri Hn Hs HR HK.
  - go. eapply (line_read _ _ _ _ _ HO Input (Z.of_nat (length read)) _ 10); [by vars|done| |done|done|].
    { rewrite Nat2Z.id, Ein. by apply list_lookup_middle. }
    vars. go1. go1. replace (Z.of_nat (length read) + 1) with (Z.of_nat (length (read ++ [10]))) by (rewrite length_app; simpl; lia).
    rewrite app_nil_r in HK. eapply go_more; [apply HK; by vars|unfold local_fuel; lia].
  - apply not_elem_of_cons in Hno as [Hc Hno].
    go. eapply (line_read _ _ _ _ _ HO Input (Z.of_nat (length read)) _ c); [by vars|done| |done|done|].
    { rewrite Nat2Z.id, Ein. by apply list_lookup_middle. }
    assert (∀ e', e' "readInput" = ri → e' "numPoint" = number (read ++ [c]) → e' "saveSize" = -1 →
      Go 20 (Loop (λ _, true) (body (rest read_number)) :: K) e' a
        (Line 0 alone [0; 0; 0] D (<[ri := (Input, Z.of_nat (length read) + 1)]> R) N)) as Hnext.
    { intros e' H1 H2 H3. apply (IH _ (read ++ [c]) e'); try done.
      - by rewrite <- app_assoc.
      - rewrite length_app, Nat2Z.inj_add. by rewrite lookup_insert_eq.
      - intros e2. rewrite <- !app_assoc, insert_insert_eq. by apply HK. }
    rewrite number_snoc in Hnext. vars. go1. destruct (is_digit c) eqn:Ed.
    + apply go_if_true; [by vars|]. go1. eapply go_more; [apply Hnext; by vars|unfold local_fuel; lia].
    + apply go_if_false; [by vars|]. go1. eapply go_more; [apply Hnext; by vars|unfold local_fuel; lia].
Qed.

(** *** The semaphores *)

(** The first [n] semaphores exist. *)
Definition some_semaphores (n : nat) : STable.STable BitMap.BitMap :=
  STable.mkSTable (BitMap.mkBitMap 10 1 [2 ^ Z.of_nat n - 1]) (take n (STable.semTab four_semaphores) ++ replicate (10 - n) None).

Record booted (n : nat) D (o : Os) : Prop := mkBooted {
  bt_files : files_rep (fileSystem o) D ∅;
  bt_table : semTab o = some_semaphores n;
  bt_values : sems o = replicate n 0;
}.

Lemma create_some n :
  (n < 4)%nat → STable.Create (sem_name n) 0 (some_semaphores n) (replicate n 0) = Ok (0, some_semaphores (S n), replicate (S n) 0).
Proof using Type. intros Hn. do 4 (destruct n as [|n]; [vm_compute; reflexivity|]). lia. Qed.

Lemma create_turn n D K e a :
  (n < 4)%nat → Go local_fuel K (set "semaphoreCheck" 0 e) a (λ q, ∀ o, booted (S n) D o → live garbage Q (mkSys [q] o)) →
  ∀ o, booted n D o →
    live garbage Q (mkSys [mkProc (Run (call "semaphoreCheck" (SysCreateSemaphore (sem_name n) 0)) :: K) e a] o).
Proof using Type.
  intros Hn (q & Eq & Hq) o [H1 H2 H3].
  assert (Calls.CreateSemaphore (sem_name n) 0 o =
    Ok ((0, []), with_sems o (some_semaphores (S n)) (replicate (S n) 0))) as E.
  { unfold CreateSemaphore. by rewrite H2, H3, create_some. }
  eapply (live_only garbage Q 0); [done|done|by eapply turn_call| |].
  - intros j Hj. apply turn_none. simpl. lia.
  - apply Hq. by split.
Qed.

(** *** From the first statement to the first flight *)

Lemma new_passengers pid : ∃ p, start garbage pid passengers = Ok p ∧ ∃ e a, p = pass_first e a.
Proof using Type. do 2 eexists; [reflexivity|]. by do 2 eexists. Qed.
Lemma new_scanners pid : ∃ p, start garbage pid scanners = Ok p ∧ ∃ e a, p = scan_idle e a ∧ has_loads e no_load.
Proof using Type. do 2 eexists; [reflexivity|]. by do 3 eexists. Qed.

Section launch.
Context (header : list Z) (lines : list (list Z)) D (final : list Z).
Notation input := (header ++ 10 :: text lines).
Context (HQ : ∀ ps o D w H, rep o D w H → get D Output = Some final → Q (mkSys ps o)).
Context (Hin : get D Input = Some input) (Hscan : is_Some (get D ScannerId)) (Hheader : 10 ∉ header).
Context (Hnum : number header = Z.of_nat (length lines)) (Hlines : Forall good_line lines).
Context (Hflights : (length lines ≤ 47)%nat) (Hsize : (length (text lines) ≤ 122)%nat).
Context (Hfinal : final = concat (output_line <$> lines)).

(** With both processes there, the flights begin. *)
Lemma launch_flights D' ri ro e :
  ri ≠ ro → get D' Input = Some input → get D' Output = Some [] →
  main_vars (Z.of_nat (length lines)) ri ro (-1) e →
  Go 40 main_k e saveWeight (Line 0 boarding [0; 0; 0] D' (main_files ri ro (Z.of_nat (length (header ++ [10]))) 0) 3).
Proof using HQ Hnum Hlines Hflights Hsize Hfinal.
  intros Hio Hi Ho Hmv. destruct D' as [d1 d2 d3 d4 d5]. simpl in Hi, Ho. subst d1 d2.
  apply (flights garbage Q input final ri ro Hio HQ lines (header ++ [10]) [] d3 d4 d5 3 (-1)); try done; try lia.
  - by rewrite <- app_assoc.
  - change (length saveWeight) with 122%nat. lia.
Qed.

(** The two processes are started. *)
Lemma launch_processes D' ri ro e :
  ri ≠ ro → get D' Input = Some input → get D' Output = Some [] →
  main_vars (Z.of_nat (length lines)) ri ro (-1) e →
  Line 0 alone [0; 0; 0] D' (main_files ri ro (Z.of_nat (length (header ++ [10]))) 0) 2
    (mkProc (Run (call "passengersPID" (SysExec (chars "./test/passengers"))) ::
             Run (Nat.iter 15 rest start_up) :: Run (rest (rest main)) :: []) e saveWeight).
Proof using HQ Hnum Hlines Hflights Hsize Hfinal.
  intros Hio Hi Ho [M1 M2 M3 M4].
  eapply (line_exec 0 alone _ arriving passengers _ 1);
    [apply alone_others|reflexivity|lia|exact new_passengers| |].
  { intros ps q p mc H n (m & -> & -> & ->) (e1 & a1 & ->). exists 2%nat. split; [|simpl; lia]. exists q, e1, a1. auto. }
  intros pid Hpid. go.
  eapply (line_exec 0 arriving _ boarding scanners _ 0);
    [by apply arriving_others|reflexivity|lia|exact new_scanners| |].
  { intros ps q p mc H n (m & e1 & a1 & Hcase) (e2 & a2 & -> & Hl).
    destruct Hcase as [(-> & -> & ->)|(-> & -> & ->)].
    - exists 3%nat. split; [|simpl; lia]. eexists q, _, _. split; [done|]. right. by exists e1, a1, e2, a2.
    - exists 2%nat. split; [|simpl; lia]. eexists q, _, _. split; [done|]. left. split; [eauto|]. by constructor. }
  intros pid2 Hpid2. do 4 go1. eapply (go_more 40); [|unfold local_fuel; lia].
    apply launch_flights; [exact Hio|exact Hi|exact Ho|split; vars; reflexivity].
Qed.

(** The files of scannersmain are opened, and the number of flights is read. *)
Lemma launch_files e :
  e "saveSize" = -1 →
  Line 0 alone [0; 0; 0] D ∅ 0 (mkProc (Run (OpenF "readInput" "input.txt") :: Run (Nat.iter 5 rest start_up) ::
    Run (rest (rest main)) :: []) e saveWeight).
Proof using HQ Hin Hheader Hnum Hlines Hflights Hsize Hfinal.
  intros Hs. pose proof (alone_others [0; 0; 0]) as HO.
  eapply (line_open _ _ _ _ _ HO Input); [reflexivity|by rewrite Hin|lia|]. intros ri _ Hri.
  to_loop. eapply (go_more 20); [|unfold local_fuel; lia].
  apply (number_loop _ D _ _ ri _ input header (text lines) []); try done; [lia|apply lookup_insert_eq|].
  rewrite insert_insert_eq, app_nil_l. intros e1 H1 H2 H3. rewrite Hnum in H2.
  go. eapply line_print; [exact HO|left; by eexists|lia|].
  go. eapply line_print; [exact HO|right; by eexists|lia|].
  go. eapply line_print; [exact HO|left; by eexists|lia|].
  go. eapply (line_create _ _ _ _ _ HO Output); [reflexivity|lia|].
  go. eapply (line_open _ _ _ _ _ HO Output); [reflexivity|by rewrite get_put_eq|lia|]. intros ro Hro Hro2.
  apply lookup_insert_None in Hro as [_ Hio].
  go. rewrite (insert_insert_ne _ ro ri) by done.
  apply launch_processes; [done|by rewrite get_put_ne|apply get_put_eq|by split; vars].
Qed.

(** scannersmain, from its first statement on. *)
Lemma launch : ∃ p, start garbage 0 main = Ok p ∧ ∀ o, booted 0 D o → live garbage Q (mkSys [p] o).
Proof using HQ Hin Hscan Hheader Hnum Hlines Hflights Hsize Hfinal.
  change (Go local_fuel [Run main] (garbage 0) saveWeight (λ p, ∀ o, booted 0 D o → live garbage Q (mkSys [p] o))).
  go. apply (create_turn 0); [lia|]. go. apply (create_turn 1); [lia|]. go. apply (create_turn 2); [lia|].
  go. apply (create_turn 3); [lia|]. go. intros o [H1 H2 H3].
  apply (launch_files (set "semaphoreCheck" 0 (set "semaphoreCheck" 0 (set "semaphoreCheck" 0 (set "semaphoreCheck" 0
    (set "saveSize" (-1) (garbage 0)))))) eq_refl Hscan _ o 0 ∅ 0%nat); try done.
  by eexists.
Qed.
End launch.
End start_up.

(** ** The theorem *)

(** The text of the output. *)
Definition output_text (s : Sys) : option (list Z) := contents_of (StubFS.unix (fileSystem (os s))) (path Output).

(** The host: input.txt has a line with the number of flights and a line with
    the weights of each, and there is a scannerid.txt.  There are at most 47
    flights, and their lines have at most 122 characters together.  The host
    lets the programs create the files they name. *)
Record airport_host (u : Unix.Unix) (header : list Z) (lines : list (list Z)) : Prop := mkAirportHost {
  ah_wf : Unix.wf u;
  ah_links : no_links u;
  ah_input : contents_of u (path Input) = Some (header ++ 10 :: text lines);
  ah_scan : is_Some (contents_of u (path ScannerId));
  ah_header : 10 ∉ header;
  ah_number : number header = Z.of_nat (length lines);
  ah_lines : Forall good_line lines;
  ah_flights : (length lines ≤ 47)%nat;
  ah_size : (length (text lines) ≤ 122)%nat;
  ah_open : ∀ f, path f ∉ Unix.refused u;
  ah_std : StubFS.stdin_name ∉ Unix.refused u ∧ StubFS.stdout_name ∉ Unix.refused u;
}.

(** C40. On a host with an input.txt of at most 47 flights, whose lines of weights
    have at most 122 characters together, with a scannerid.txt that exists already,
    and which lets the programs create their files: whatever the variables hold at
    first and whichever process gets the next turn, the airport has no infinite run, none of its calls fails, its processes
    never wait for each other for ever, and when scannersmain has ended,
    output.txt has for each flight the line with the scanner of each piece of
    luggage: the one with the least load.  (Without these bounds it fails:
    [scanners_race], [handles_leak], [line_too_long].) *)
Theorem airport_ends garbage u header lines :
  airport_host u header lines →
  ∃ s, boot garbage u = Ok s ∧ sn (step garbage) s ∧ ∀ s', rtc (step garbage) s s' →
    if finished s' then output_text s' = Some (concat (output_line <$> lines))
    else ¬ crashes garbage s' ∧ red (step garbage) s'.
Proof.
  intros []. destruct ah_std0 as [Hin Hout].
  destruct (boot_files u) as (fs & Efs & Hrep); [done..|].
  destruct (launch garbage (λ s, output_text s = Some (concat (output_line <$> lines))) header lines (data_of u)
    (concat (output_line <$> lines))) as (p & Ep & Hp); try done.
  { intros ps o D w H Hr HD. unfold output_text. cbn [Processes.os]. rewrite <- HD. apply (fr_data _ _ _ (rep_files _ _ _ _ Hr)). }
  set (o := mkOs fs (STable.STable_new (BitMap.mkBitMap 10 1 [0])) [] []).
  assert (booted 0 (data_of u) o) as Hb by done. exists (mkSys [p] o). split_and!.
  - unfold boot. rewrite Efs. simpl_res.
    assert (BitMap.BitMap_new [0] STable.MAX_SEMAPHORE = Ok (BitMap.mkBitMap 10 1 [0])) as -> by reflexivity.
    simpl_res. by rewrite Ep.
  - by eapply live_sn, Hp.
  - intros s' Hr. exact (live_here _ _ s' (live_steps _ _ _ s' (Hp o Hb) Hr)).
Qed.

(** A host with the two files of a run. *)
Definition example_host (input : list Z) (scan : bool) : Unix.Unix :=
  Unix.mkUnix {[0 := input; 1 := []]} (<[path Input := 0]> (if scan then {[path ScannerId := 1]} else ∅)) 2 ∅.

Lemma airport_ends_witness :
  airport_host (example_host (chars "2" ++ 10 :: text [chars "5 3 12"; chars "7"]) true) (chars "2") [chars "5 3 12"; chars "7"] ∧
  ∃ s, boot (λ _ _, 0) (example_host (chars "2" ++ 10 :: text [chars "5 3 12"; chars "7"]) true) = Ok s ∧
    sn (step (λ _ _, 0)) s ∧ ∀ s', rtc (step (λ _ _, 0)) s s' →
      if finished s' then output_text s' = Some (concat (output_line <$> [chars "5 3 12"; chars "7"]))
      else ¬ crashes (λ _ _, 0) s' ∧ red (step (λ _ _, 0)) s'.
Proof.
  assert (airport_host (example_host (chars "2" ++ 10 :: text [chars "5 3 12"; chars "7"]) true) (chars "2")
    [chars "5 3 12"; chars "7"]) as Hh.
  { split; try done; try (vm_compute; lia).
    - split; [intros a ino Ha|intros ino bs Hb|done|done]; cbn [Unix.names Unix.inodes Unix.next_inode example_host] in *.
      + apply lookup_insert_Some in Ha as [[_ <-]|[_ [_ <-]%lookup_singleton_Some]]; (split; [done|by eexists]).
      + by apply lookup_insert_Some in Hb as [[<- _]|[_ [<- _]%lookup_singleton_Some]].
    - intros a b ino Ha Hb. unfold example_host in *. cbn [Unix.names] in *.
      apply lookup_insert_Some in Ha as [[<- <-]|[_ Ha]]; apply lookup_insert_Some in Hb as [[<- Eb]|[_ Hb]]; try done;
        try apply lookup_singleton_Some in Ha as [<- <-]; try apply lookup_singleton_Some in Hb as [<- Eb]; done.
    - change (chars "2") with [50]. intros Hin. by inversion Hin as [|? ? ? Hin' E]; inversion Hin'.
    - repeat constructor; done. }
  split; [exact Hh|]. exact (airport_ends (λ _ _, 0) _ _ _ Hh).
Defined.

(** ** Outside of the bounds *)

(** The output, and whether scannersmain has ended, of a schedule in which all
    variables are 0 at first. *)
Definition play (u : Unix.Unix) (schedule : list nat) : res (bool * option (list Z)) :=
  s ← boot (λ _ _, 0) u; s ← run (λ _ _, 0) schedule s; Ok (finished s, output_text s).
Definition round_robin (n : nat) : list nat := concat (repeat [0%nat; 1%nat; 2%nat] n).

(** Without a scannerid.txt the output depends on the schedule: when the scanners
    open the file before the passengers have made it, the luggage gets no
    scanner. *)
Lemma scanners_race :
  let u := example_host (chars "1" ++ 10 :: text [chars "5"]) false in
  play u (repeat 0%nat 40 ++ repeat 1%nat 3 ++ round_robin 100) = Ok (true, Some (output_line (chars "5"))) ∧
  play u (repeat 0%nat 40 ++ repeat 2%nat 3 ++ round_robin 100) = Ok (true, Some [13; 10]).
Proof. vm_compute. done. Qed.

(** Each flight leaves two files open; the 48th finds the table full, and its
    luggage gets no scanner. *)
Lemma handles_leak :
  play (example_host (chars "48" ++ 10 :: text (repeat (chars "5") 48)) true) (round_robin 4000) =
  Ok (true, Some (concat (repeat (output_line (chars "5")) 47) ++ [13; 10])).
Proof. vm_compute. reflexivity. Qed.

(** The array of scannersmain has room for 122 characters of the input. *)
Lemma line_too_long :
  play (example_host (chars "1" ++ 10 :: text [repeat 53 122]) true) (round_robin 1000) = Stop Undefined.
Proof. vm_compute. reflexivity. Qed.
